(** * Realtime: room server, rooms, clients and discovery mirror

    A shallow embedding of the TypeScript sources [client.ts], [room.ts],
    [room-server.ts] and [discovery.ts].

    Objects live in heaps (lists indexed by a reference), so that the
    closures of the source, which capture a [Room] or a [Client] object and
    not its id, keep pointing to the same object after the object has been
    removed from the server's [Map].  ES6 [Map]s are association lists in
    insertion order with unique keys.  Plain objects used as dictionaries
    are the lists of their own properties, read, written and enumerated as
    the language does with an object whose prototype is [Object.prototype]
    ([JsObj]).  Event emitters are modelled by the listeners the source
    attaches to them plus a log of what was emitted. *)

From Stdlib Require Import ZArith Lia List Bool Ascii String Permutation.
From stdpp Require Import base list strings sorting.
Import ListNotations.

Local Open Scope string_scope.
Local Open Scope list_scope.
Local Open Scope Z_scope.

(** ** JSON-shaped values ([any] in the source) *)

#[local] Set Warnings "-register-all".

Inductive json :=
| JUndefined
| JNull
| JBool (b : bool)
| JNum (n : Z)
| JStr (s : string)
| JArr (l : list json)
| JObj (l : list (string * json)).

(** ** ES6 [Map<string, V>]: insertion-ordered, keys unique *)

Module JsMap.
Section WithValue.
Context {V : Type}.

Fixpoint get (k : string) (m : list (string * V)) : option V :=
  match m with
  | [] => None
  | (k', v) :: m' => if String.eqb k k' then Some v else get k m'
  end.

Definition has (k : string) (m : list (string * V)) : bool :=
  match get k m with Some _ => true | None => false end.

(** [set] keeps the position of an existing key and appends a new one. *)
Fixpoint set (k : string) (v : V) (m : list (string * V)) : list (string * V) :=
  match m with
  | [] => [(k, v)]
  | (k', v') :: m' =>
      if String.eqb k k' then (k, v) :: m' else (k', v') :: set k v m'
  end.

Fixpoint delete (k : string) (m : list (string * V)) : list (string * V) :=
  match m with
  | [] => []
  | (k', v') :: m' =>
      if String.eqb k k' then m' else (k', v') :: delete k m'
  end.

Definition keys (m : list (string * V)) : list string := map fst m.
Definition values (m : list (string * V)) : list V := map snd m.

(** Representation invariant of a map: no key occurs twice. *)
Definition wf (m : list (string * V)) : Prop := NoDup (keys m).

Lemma has_get k m : has k m = true <-> exists v, get k m = Some v.
Proof.
  unfold has. destruct (get k m); split; intros H; eauto; try discriminate.
  destruct H as [v H]. discriminate.
Qed.

Lemma has_false_get k m : has k m = false <-> get k m = None.
Proof. unfold has. destruct (get k m); split; congruence. Qed.

Lemma get_In k v m : get k m = Some v -> (k, v) ∈ m.
Proof.
  induction m as [|[k' v'] m IH]; simpl; [discriminate|].
  destruct (String.eqb_spec k k') as [->|Hne]; intros H.
  - inversion H. apply elem_of_cons. now left.
  - apply elem_of_cons. right. auto.
Qed.

Lemma get_None_keys k m : get k m = None <-> k ∉ keys m.
Proof.
  induction m as [|[k' v'] m IH]; simpl.
  - split; [intros _; apply not_elem_of_nil|reflexivity].
  - rewrite not_elem_of_cons.
    destruct (String.eqb_spec k k') as [->|Hne].
    + split; [discriminate|]. intros [H _]. congruence.
    + rewrite IH. tauto.
Qed.

Lemma get_Some_keys k v m : get k m = Some v -> k ∈ keys m.
Proof.
  intros H. apply get_In in H. unfold keys.
  apply list_elem_of_fmap. exists (k, v). auto.
Qed.

Lemma In_get k v m : wf m -> (k, v) ∈ m -> get k m = Some v.
Proof.
  unfold wf. induction m as [|[k' v'] m IH]; simpl.
  - intros _ H. now apply elem_of_nil in H.
  - intros Hnd H. apply NoDup_cons in Hnd as [Hni Hnd].
    apply elem_of_cons in H as [E|Hin].
    + inversion E; subst. now rewrite String.eqb_refl.
    + destruct (String.eqb_spec k k') as [->|Hne]; [|auto].
      exfalso. apply Hni. apply list_elem_of_fmap. exists (k', v). auto.
Qed.

Lemma get_set_eq k v m : get k (set k v m) = Some v.
Proof.
  induction m as [|[k' v'] m IH]; simpl.
  - now rewrite String.eqb_refl.
  - destruct (String.eqb_spec k k') as [->|Hne]; simpl.
    + now rewrite String.eqb_refl.
    + destruct (String.eqb_spec k k'); [congruence|]. exact IH.
Qed.

Lemma get_set_ne k k' v m : k <> k' -> get k' (set k v m) = get k' m.
Proof.
  intros Hne. induction m as [|[k0 v0] m IH]; simpl.
  - destruct (String.eqb_spec k' k); [congruence|reflexivity].
  - destruct (String.eqb_spec k k0) as [->|Hne0]; simpl.
    + destruct (String.eqb_spec k' k0); [congruence|reflexivity].
    + destruct (String.eqb_spec k' k0); [reflexivity|exact IH].
Qed.

Lemma set_fresh k v m : get k m = None -> set k v m = m ++ [(k, v)].
Proof.
  induction m as [|[k' v'] m IH]; simpl; [reflexivity|].
  destruct (String.eqb_spec k k'); [discriminate|].
  intros H. now rewrite IH.
Qed.

Lemma keys_set_fresh k v m :
  get k m = None -> keys (set k v m) = keys m ++ [k].
Proof.
  intros H. rewrite set_fresh by exact H. unfold keys. now rewrite map_app.
Qed.

Lemma keys_set_present k v m :
  get k m <> None -> keys (set k v m) = keys m.
Proof.
  induction m as [|[k' v'] m IH]; simpl; [congruence|].
  destruct (String.eqb_spec k k') as [->|Hne]; simpl; [reflexivity|].
  intros H. now rewrite IH.
Qed.

Lemma wf_set k v m : wf m -> wf (set k v m).
Proof.
  unfold wf. intros Hnd. destruct (get k m) eqn:E.
  - rewrite keys_set_present; [exact Hnd|congruence].
  - rewrite keys_set_fresh by exact E.
    apply NoDup_app. split; [exact Hnd|]. split.
    + intros x Hx Hx'. apply list_elem_of_singleton in Hx'. subst x.
      now apply get_None_keys in E.
    + apply NoDup_singleton.
Qed.

Lemma length_set_fresh k v m :
  get k m = None -> length (set k v m) = S (length m).
Proof.
  intros H. rewrite set_fresh by exact H. rewrite length_app. simpl. lia.
Qed.

Lemma length_delete k m :
  get k m <> None -> S (length (delete k m)) = length m.
Proof.
  induction m as [|[k' v'] m IH]; simpl; [congruence|].
  destruct (String.eqb_spec k k'); [reflexivity|].
  intros H. simpl. now rewrite IH.
Qed.

Lemma delete_absent k m : get k m = None -> delete k m = m.
Proof.
  induction m as [|[k' v'] m IH]; simpl; [reflexivity|].
  destruct (String.eqb_spec k k'); [discriminate|].
  intros H. now rewrite IH.
Qed.

Lemma In_delete k x m : x ∈ delete k m -> x ∈ m.
Proof.
  induction m as [|[k' v'] m IH]; simpl; [tauto|].
  rewrite !elem_of_cons.
  destruct (String.eqb_spec k k'); [tauto|].
  rewrite elem_of_cons. intros [E|H]; [now left|right; auto].
Qed.

Lemma keys_delete_incl k x m : x ∈ keys (delete k m) -> x ∈ keys m.
Proof.
  unfold keys. intros H. apply list_elem_of_fmap in H as [p [E H]].
  apply list_elem_of_fmap. exists p. split; [exact E|]. eapply In_delete, H.
Qed.

Lemma wf_delete k m : wf m -> wf (delete k m).
Proof.
  unfold wf. induction m as [|[k' v'] m IH]; simpl; [auto|].
  intros Hnd. apply NoDup_cons in Hnd as [Hni Hnd].
  destruct (String.eqb_spec k k'); [exact Hnd|].
  simpl. apply NoDup_cons. split; [|auto].
  intros H. apply Hni. eapply keys_delete_incl, H.
Qed.

Lemma get_delete_eq k m : wf m -> get k (delete k m) = None.
Proof.
  unfold wf. induction m as [|[k' v'] m IH]; simpl; [reflexivity|].
  intros Hnd. apply NoDup_cons in Hnd as [Hni Hnd].
  destruct (String.eqb_spec k k') as [->|Hne].
  - now apply get_None_keys.
  - simpl. destruct (String.eqb_spec k k'); [congruence|auto].
Qed.

Lemma get_delete_ne k k' m : k <> k' -> get k' (delete k m) = get k' m.
Proof.
  intros Hne. induction m as [|[k0 v0] m IH]; simpl; [reflexivity|].
  destruct (String.eqb_spec k k0) as [->|Hne0]; simpl.
  - destruct (String.eqb_spec k' k0); [congruence|reflexivity].
  - destruct (String.eqb_spec k' k0); [reflexivity|exact IH].
Qed.
End WithValue.
End JsMap.

(** ** Data model *)

(** [readyState] constants of the [ws] package. *)
Definition CONNECTING : Z := 0.
Definition OPEN : Z := 1.
Definition CLOSING : Z := 2.
Definition CLOSED : Z := 3.

(** [Client] (client.ts): the fields besides the socket. *)
Record Client := {
  cl_id : string;
  cl_properties : json;
  cl_missedPings : Z
}.

(** One heap cell per accepted [WebSocket].  A [Client] is built on a socket
    at most once (the token listener is registered with [once]), so the
    client shares the cell of its socket and a client reference is the
    reference of its socket.  The listener fields record what the source has
    attached to the socket:
    - [on_token]: [socket.once('message', ...)] of [_handleClient];
    - [on_client]: the ['message'], ['pong'] and ['error'] listeners of the
      [Client] constructor;
    - [on_close]: [socket.once('close', ...)] of [_connectClient]; the
      closure captures the client (this cell) and the [Room] object whose
      reference is stored here. *)
Record Socket := {
  readyState : Z;
  on_token : bool;
  on_client : bool;
  on_close : option nat;
  sk_client : option Client
}.

Record IRoomOptions := {
  pingInterval : option Z;
  missedPingsLimit : option Z;
  keepAlive : option bool
}.

(** [Room] (room.ts).  [room_clients] maps a client id to a client
    reference; [room_timer] says whether [_pingInterval] holds a running
    timer; [room_on_sync] and [room_on_terminated] are the listeners that
    [RoomServer._createRoom] attaches to the room. *)
Record Room := {
  room_publicUrl : string;
  room_id : string;
  room_properties : json;
  room_options : IRoomOptions;
  room_clients : list (string * nat);
  room_timer : bool;
  room_on_sync : bool;
  room_on_terminated : bool
}.

Record IRoomServerOptions := {
  syncRooms : option bool;
  syncClients : option bool;
  roomOptions : option IRoomOptions
}.

(** [RoomServer] (room-server.ts).  [srv_rooms] maps a room id to a room
    reference; [srv_on_connection] is the ['connection'] listener on the
    WebSocket server; [srv_timer] the 1 s ping ticker. *)
Record RoomServer := {
  srv_publicUrl : string;
  srv_options : IRoomServerOptions;
  srv_tokenSecret : string;
  srv_clientCount : Z;
  srv_rooms : list (string * nat);
  srv_on_connection : bool;
  srv_timer : bool
}.

(** [ITokenOptions] (discovery.ts). *)
Record ITokenOptions := {
  tk_publicUrl : string;
  tk_roomId : string;
  tk_roomProperties : json;
  tk_clientId : string;
  tk_clientProperties : json;
  tk_joinOnly : option bool;
  tk_expiresIn : option string
}.

(** What the code emits or calls on its collaborators, most recent first. *)
Inductive RoomEvent :=
| Joined (c : nat)
| Left (c : nat)
| Terminated.

Inductive ServerEvent :=
| NewRoom (r : nat)
| RoomRemoved (r : nat)
| Stopped.

Inductive Effect :=
| SocketSend (s : nat) (data : json)
| SocketPing (s : nat)
| SocketClose (s : nat)
| SocketTerminate (s : nat)
| ClientEmitMessage (c : nat) (data : string)
| RoomEmit (r : nat) (e : RoomEvent)
| ServerEmit (e : ServerEvent)
| NatsPublish (subject : string) (payload : json).

Record World := {
  server : RoomServer;
  rooms : list Room;
  sockets : list Socket;
  log : list Effect
}.

(** *** Field updates *)

Definition set_server (f : RoomServer -> RoomServer) (w : World) : World :=
  {| server := f (server w); rooms := rooms w; sockets := sockets w; log := log w |}.

Definition set_room (r : nat) (f : Room -> Room) (w : World) : World :=
  {| server := server w; rooms := alter f r (rooms w); sockets := sockets w; log := log w |}.

Definition set_socket (s : nat) (f : Socket -> Socket) (w : World) : World :=
  {| server := server w; rooms := rooms w; sockets := alter f s (sockets w); log := log w |}.

Definition emit (e : Effect) (w : World) : World :=
  {| server := server w; rooms := rooms w; sockets := sockets w; log := e :: log w |}.

Definition with_readyState (z : Z) (k : Socket) : Socket :=
  {| readyState := z; on_token := on_token k; on_client := on_client k;
     on_close := on_close k; sk_client := sk_client k |}.

Definition with_on_token (b : bool) (k : Socket) : Socket :=
  {| readyState := readyState k; on_token := b; on_client := on_client k;
     on_close := on_close k; sk_client := sk_client k |}.

Definition with_on_close (o : option nat) (k : Socket) : Socket :=
  {| readyState := readyState k; on_token := on_token k; on_client := on_client k;
     on_close := o; sk_client := sk_client k |}.

Definition with_no_listeners (k : Socket) : Socket :=
  {| readyState := readyState k; on_token := false; on_client := false;
     on_close := None; sk_client := sk_client k |}.

Definition with_client (c : Client) (k : Socket) : Socket :=
  {| readyState := readyState k; on_token := on_token k; on_client := true;
     on_close := on_close k; sk_client := Some c |}.

Definition with_missedPings (z : Z) (k : Socket) : Socket :=
  {| readyState := readyState k; on_token := on_token k; on_client := on_client k;
     on_close := on_close k;
     sk_client := match sk_client k with
                  | Some c => Some {| cl_id := cl_id c; cl_properties := cl_properties c;
                                      cl_missedPings := z |}
                  | None => None
                  end |}.

Definition with_clients (m : list (string * nat)) (x : Room) : Room :=
  {| room_publicUrl := room_publicUrl x; room_id := room_id x;
     room_properties := room_properties x; room_options := room_options x;
     room_clients := m; room_timer := room_timer x;
     room_on_sync := room_on_sync x; room_on_terminated := room_on_terminated x |}.

Definition update_clients (g : list (string * nat) -> list (string * nat)) (x : Room) : Room :=
  with_clients (g (room_clients x)) x.

Definition with_timer (b : bool) (x : Room) : Room :=
  {| room_publicUrl := room_publicUrl x; room_id := room_id x;
     room_properties := room_properties x; room_options := room_options x;
     room_clients := room_clients x; room_timer := b;
     room_on_sync := room_on_sync x; room_on_terminated := room_on_terminated x |}.

Definition with_room_listeners (sync term : bool) (x : Room) : Room :=
  {| room_publicUrl := room_publicUrl x; room_id := room_id x;
     room_properties := room_properties x; room_options := room_options x;
     room_clients := room_clients x; room_timer := room_timer x;
     room_on_sync := sync; room_on_terminated := term |}.

Definition with_clientCount (z : Z) (x : RoomServer) : RoomServer :=
  {| srv_publicUrl := srv_publicUrl x; srv_options := srv_options x;
     srv_tokenSecret := srv_tokenSecret x; srv_clientCount := z;
     srv_rooms := srv_rooms x; srv_on_connection := srv_on_connection x;
     srv_timer := srv_timer x |}.

Definition with_rooms (m : list (string * nat)) (x : RoomServer) : RoomServer :=
  {| srv_publicUrl := srv_publicUrl x; srv_options := srv_options x;
     srv_tokenSecret := srv_tokenSecret x; srv_clientCount := srv_clientCount x;
     srv_rooms := m; srv_on_connection := srv_on_connection x;
     srv_timer := srv_timer x |}.

Definition with_stopped (x : RoomServer) : RoomServer :=
  {| srv_publicUrl := srv_publicUrl x; srv_options := srv_options x;
     srv_tokenSecret := srv_tokenSecret x; srv_clientCount := srv_clientCount x;
     srv_rooms := srv_rooms x; srv_on_connection := false;
     srv_timer := false |}.

(** *** Reading through references *)

Definition socket_state (s : nat) (w : World) : option Z :=
  readyState <$> sockets w !! s.

Definition socket_on_close (s : nat) (w : World) : option nat :=
  sockets w !! s ≫= on_close.

Definition client_of (c : nat) (w : World) : option Client :=
  sockets w !! c ≫= sk_client.

Definition members (r : nat) (w : World) : list (string * nat) :=
  match rooms w !! r with Some x => room_clients x | None => [] end.

(** Optional booleans: [syncRooms] and [syncClients] count as [true] when
    absent, [keepAlive] as [false]. *)
Definition opt_true (o : option bool) : bool :=
  match o with Some b => b | None => true end.

Definition opt_false (o : option bool) : bool :=
  match o with Some b => b | None => false end.

(** ** The transport interface (package [ws])

    The WebSocket implementation is not part of the repository.  The source
    relies on these calls: [close] and [terminate] move a socket that is not
    yet closing to [CLOSING] (the ['close'] event is delivered by the
    transport later), [removeAllListeners] drops every listener, [ping] and
    [send] write a frame.  Each call is logged. *)

Definition close_state (k : Socket) : Socket :=
  if readyState k <? CLOSING then with_readyState CLOSING k else k.

Definition ws_close (s : nat) (w : World) : World :=
  set_socket s close_state (emit (SocketClose s) w).

Definition ws_terminate (s : nat) (w : World) : World :=
  set_socket s close_state (emit (SocketTerminate s) w).

Definition ws_ping (s : nat) (w : World) : World := emit (SocketPing s) w.

Definition ws_send (s : nat) (data : json) (w : World) : World :=
  emit (SocketSend s data) w.

Definition ws_removeAllListeners (s : nat) (w : World) : World :=
  set_socket s with_no_listeners w.

(** ** client.ts *)

(** [get _isClosing]: [readyState >= WebSocket.CLOSING]. *)
Definition Client__isClosing (c : nat) (w : World) : bool :=
  match socket_state c w with
  | Some z => CLOSING <=? z
  | None => true
  end.

(** [get summary]: [{id, properties}]. *)
Definition Client_summary (c : Client) : json :=
  JObj [("id", JStr (cl_id c)); ("properties", cl_properties c)].

(** [_removeAllListeners]: the socket's listeners and the client's own
    (the latter belong to the application and are not modelled). *)
Definition Client__removeAllListeners (c : nat) (w : World) : World :=
  ws_removeAllListeners c w.

(** ** room-server.ts, first part: what the room listeners call *)

Definition server_syncRooms (w : World) : bool :=
  opt_true (syncRooms (srv_options (server w))).

Definition server_syncClients (w : World) : bool :=
  opt_true (syncClients (srv_options (server w))).

(** [_notify(room, subject, payload)]: publishes
    [{...payload, publicUrl, roomId, subject}] on [rs.event]. *)
Definition RoomServer__notify (r : nat) (subject : string)
    (payload : list (string * json)) (w : World) : World :=
  match rooms w !! r with
  | Some x =>
      emit (NatsPublish "rs.event"
              (JObj (payload ++ [("publicUrl", JStr (srv_publicUrl (server w)));
                                 ("roomId", JStr (room_id x));
                                 ("subject", JStr subject)]))) w
  | None => w
  end.

(** [Room.clearPingInterval]. *)
Definition Room_clearPingInterval (r : nat) (w : World) : World :=
  set_room r (with_timer false) w.

(** [_removeRoom(room)]: the guard and the final [delete] go through the
    room's id, not through the object. *)
Definition RoomServer__removeRoom (r : nat) (w : World) : World :=
  match rooms w !! r with
  | None => w
  | Some x =>
      if negb (JsMap.has (room_id x) (srv_rooms (server w))) then w
      else
        let w := Room_clearPingInterval r w in
        let w := emit (ServerEmit (RoomRemoved r)) w in
        let w := if server_syncRooms w then RoomServer__notify r "roomRemoved" [] w else w in
        let w := set_room r (with_room_listeners false false) w in
        set_server (fun sv => with_rooms (JsMap.delete (room_id x) (srv_rooms sv)) sv) w
  end.

(** ** room.ts *)

(** [Room.emit]: the event is logged and handed to the listeners that
    [RoomServer._createRoom] attached: ['joined'] and ['left'] are forwarded
    to the bus, ['terminated'] removes the room from the server. *)
Definition Room_emit (r : nat) (e : RoomEvent) (w : World) : World :=
  let w := emit (RoomEmit r e) w in
  match rooms w !! r with
  | None => w
  | Some x =>
      match e with
      | Joined c =>
          if room_on_sync x then
            match client_of c w with
            | Some cl => RoomServer__notify r "roomJoined" [("client", Client_summary cl)] w
            | None => w
            end
          else w
      | Left c =>
          if room_on_sync x then
            match client_of c w with
            | Some cl => RoomServer__notify r "roomLeft" [("client", Client_summary cl)] w
            | None => w
            end
          else w
      | Terminated =>
          if room_on_terminated x then RoomServer__removeRoom r w else w
      end
  end.

Definition Room_hasClient (r : nat) (clientId : string) (w : World) : bool :=
  JsMap.has clientId (members r w).

Definition Room_clientCount (r : nat) (w : World) : Z :=
  Z.of_nat (length (members r w)).

Definition Room_isEmpty (r : nat) (w : World) : bool :=
  Room_clientCount r w =? 0.

Definition Room_keepAlive (r : nat) (w : World) : bool :=
  match rooms w !! r with
  | Some x => opt_false (keepAlive (room_options x))
  | None => false
  end.

(** [Room.join(client)]. *)
Definition Room_join (r : nat) (c : nat) (w : World) : World :=
  match client_of c w with
  | None => w
  | Some cl =>
      if Room_hasClient r (cl_id cl) w then w
      else
        let w := set_room r (update_clients (JsMap.set (cl_id cl) c)) w in
        Room_emit r (Joined c) w
  end.

(** [Map.prototype.forEach] over the members of room [r]: the entries are
    visited in insertion order, and an entry deleted before its turn is
    skipped.  (No callback in the source adds an entry while iterating.) *)
Fixpoint forEach_member (entries : list (string * nat)) (r : nat)
    (visit : nat -> World -> World) (w : World) : World :=
  match entries with
  | [] => w
  | (k, c) :: rest =>
      let w' :=
        match JsMap.get k (members r w) with
        | Some c' => if Nat.eqb c' c then visit c w else w
        | None => w
        end in
      forEach_member rest r visit w'
  end.

Definition Room_forEach (r : nat) (visit : nat -> World -> World) (w : World) : World :=
  forEach_member (members r w) r visit w.

Section CloseListener.

(** The listener of the socket's ['close'] event: it is given the client
    and the room captured by the closure of [_connectClient]. *)
Variable close_listener : nat -> nat -> World -> World.

(** [socket.emit('close')]: the listener was registered with [once], so
    it is detached before it runs. *)
Definition socket_emit_close (s : nat) (w : World) : World :=
  match socket_on_close s w with
  | Some r => close_listener s r (set_socket s (with_on_close None) w)
  | None => w
  end.

(** [Client.disconnect]. *)
Definition Client_disconnect (c : nat) (w : World) : World :=
  let w := if Client__isClosing c w then w
           else socket_emit_close c (ws_close c w) in
  Client__removeAllListeners c w.

(** [Client.terminate]. *)
Definition Client_terminate (c : nat) (w : World) : World :=
  let w := if Client__isClosing c w then w
           else socket_emit_close c (ws_terminate c w) in
  Client__removeAllListeners c w.

(** [Client.ping(missedLimit)]. *)
Definition Client_ping (missedLimit : option Z) (c : nat) (w : World) : World :=
  if Client__isClosing c w then w
  else
    match client_of c w with
    | None => w
    | Some cl =>
        if match missedLimit with
           | Some l => l <=? cl_missedPings cl
           | None => false
           end
        then Client_terminate c w
        else ws_ping c (set_socket c (with_missedPings (cl_missedPings cl + 1)) w)
    end.

(** [Room.leave(client)]. *)
Definition Room_leave (r : nat) (c : nat) (w : World) : World :=
  match client_of c w with
  | None => w
  | Some cl =>
      if Room_hasClient r (cl_id cl) w then
        let w := set_room r (update_clients (JsMap.delete (cl_id cl))) w in
        let w := Room_emit r (Left c) w in
        Client_disconnect c w
      else w
  end.

(** [Room.terminate]. *)
Definition Room_terminate (r : nat) (w : World) : World :=
  let w := Room_forEach r Client_disconnect w in
  Room_emit r Terminated w.

(** [Room._pingClients]. *)
Definition Room__pingClients (r : nat) (w : World) : World :=
  match rooms w !! r with
  | Some x => Room_forEach r (Client_ping (missedPingsLimit (room_options x))) w
  | None => w
  end.

(** [RoomServer._disconnectClient(client, room)]. *)
Definition RoomServer__disconnectClient (c : nat) (r : nat) (w : World) : World :=
  let w := Room_leave r c w in
  let w := set_server (fun sv => with_clientCount (srv_clientCount sv - 1) sv) w in
  if Room_isEmpty r w && negb (Room_keepAlive r w)
  then RoomServer__removeRoom r w
  else w.

End CloseListener.

(** The close listener installed by [_connectClient] is
    [() => this._disconnectClient(client, room)].  Inside it the socket may
    emit ['close'] again (through [client.disconnect()]); [depth] bounds this
    nesting.  Since the listener is detached before it runs, the nested
    emission finds no listener and depth 1 is already exact
    (see [close_listener_depth]). *)
Fixpoint close_listener (depth : nat) (c r : nat) (w : World) : World :=
  match depth with
  | O => w
  | S n => RoomServer__disconnectClient (close_listener n) c r w
  end.

Definition on_socket_close : nat -> nat -> World -> World := close_listener 1.

(** ** room-server.ts, second part *)

(** [defaults(options, {pingInterval: null, missedPingsLimit: 1,
    keepAlive: false})]: the package fills the keys that are undefined. *)
Definition defaults_roomOptions (o : option IRoomOptions) : IRoomOptions :=
  match o with
  | None => {| pingInterval := None; missedPingsLimit := Some 1; keepAlive := Some false |}
  | Some o =>
      {| pingInterval := pingInterval o;
         missedPingsLimit := Some (match missedPingsLimit o with Some l => l | None => 1 end);
         keepAlive := Some (opt_false (keepAlive o)) |}
  end.

(** [defaults(options, {syncRooms: true, syncClients: true})], followed by
    the defaults of [roomOptions]. *)
Definition defaults_serverOptions (o : option IRoomServerOptions) : IRoomServerOptions :=
  match o with
  | None =>
      {| syncRooms := Some true; syncClients := Some true;
         roomOptions := Some (defaults_roomOptions None) |}
  | Some o =>
      {| syncRooms := Some (opt_true (syncRooms o));
         syncClients := Some (opt_true (syncClients o));
         roomOptions := Some (defaults_roomOptions (roomOptions o)) |}
  end.

(** [process.env.DISCOVERY_SECRET || 'defaultSecret']. *)
Definition tokenSecret (env_DISCOVERY_SECRET : option string) : string :=
  match env_DISCOVERY_SECRET with
  | Some (String a s) => String a s
  | _ => "defaultSecret"
  end.

(** [_sendPing(reset)]: [reset || undefined] drops the key when false. *)
Definition RoomServer__sendPing (reset : bool) (w : World) : World :=
  emit (NatsPublish "ping"
          (JObj ([("publicUrl", JStr (srv_publicUrl (server w)));
                  ("clientCount", JNum (srv_clientCount (server w)))]
                 ++ (if reset then [("reset", JBool true)] else [])))) w.

(** The constructor. *)
Definition RoomServer_new (publicUrl : string) (env_DISCOVERY_SECRET : option string)
    (options : option IRoomServerOptions) : World :=
  RoomServer__sendPing true
    {| server := {| srv_publicUrl := publicUrl;
                    srv_options := defaults_serverOptions options;
                    srv_tokenSecret := tokenSecret env_DISCOVERY_SECRET;
                    srv_clientCount := 0;
                    srv_rooms := [];
                    srv_on_connection := true;
                    srv_timer := true |};
       rooms := []; sockets := []; log := [] |}.

(** [new Room(publicUrl, id, properties, options)]: the timer is started
    when [pingInterval] is truthy. *)
Definition Room_new (publicUrl id : string) (properties : json)
    (options : option IRoomOptions) : Room :=
  let o := defaults_roomOptions options in
  {| room_publicUrl := publicUrl; room_id := id; room_properties := properties;
     room_options := o; room_clients := [];
     room_timer := match pingInterval o with
                   | Some n => negb (n =? 0)
                   | None => false
                   end;
     room_on_sync := false; room_on_terminated := false |}.

(** [_createRoom(roomId, properties)]: returns the new room. *)
Definition RoomServer__createRoom (roomId : string) (properties : json)
    (w : World) : nat * World :=
  let r := length (rooms w) in
  let x := Room_new (srv_publicUrl (server w)) roomId properties
             (roomOptions (srv_options (server w))) in
  let w := {| server := server w; rooms := rooms w ++ [x];
              sockets := sockets w; log := log w |} in
  let w := emit (ServerEmit (NewRoom r)) w in
  let w :=
    if server_syncRooms w then
      let w := RoomServer__notify r "newRoom" [("properties", properties)] w in
      if server_syncClients w
      then set_room r (with_room_listeners true false) w
      else w
    else w in
  let w := set_server (fun sv => with_rooms (JsMap.set roomId r (srv_rooms sv)) sv) w in
  let w := set_room r (fun x => with_room_listeners (room_on_sync x) true x) w in
  (r, w).

(** [_getRoom(roomId, properties)]. *)
Definition RoomServer__getRoom (roomId : string) (properties : json)
    (w : World) : nat * World :=
  match JsMap.get roomId (srv_rooms (server w)) with
  | Some r => (r, w)
  | None => RoomServer__createRoom roomId properties w
  end.

(** [_connectClient(socket, token)]: [Some message] stands for
    [throw new Error(message)]. *)
Definition RoomServer__connectClient (socket : nat) (token : ITokenOptions)
    (w : World) : World * option string :=
  let '(r, w) := RoomServer__getRoom (tk_roomId token) (tk_roomProperties token) w in
  if Room_hasClient r (tk_clientId token) w
  then (w, Some "You are already connected to this room.")
  else
    let w := set_socket socket
               (with_client {| cl_id := tk_clientId token;
                               cl_properties := tk_clientProperties token;
                               cl_missedPings := 0 |}) w in
    let w := Room_join r socket w in
    let w := set_server (fun sv => with_clientCount (srv_clientCount sv + 1) sv) w in
    let w := set_socket socket (with_on_close (Some r)) w in
    (w, None).

Section Jwt.

(** [jwt.verify(token, secret, {subject})] of the [jsonwebtoken] package,
    at the time [now] of the call: the decoded payload, or [None] when the
    call throws. *)
Variable jwt_verify : string -> string -> string -> Z -> option ITokenOptions.

(** [_authenticate(token)]: [inl message] stands for a thrown [Error]. *)
Definition RoomServer__authenticate (token : string) (now : Z) (w : World)
    : string + ITokenOptions :=
  match jwt_verify token (srv_tokenSecret (server w)) "joinRoom" now with
  | None => inl "The authentication token is invalid."
  | Some data =>
      if negb (String.eqb (tk_publicUrl data) (srv_publicUrl (server w)))
      then inl "The authentication token is intended for another room server."
      else inr data
  end.

(** The [catch] block of [_handleClient]. *)
Definition reject (socket : nat) (message : string) (w : World) : World :=
  ws_close socket
    (ws_send socket
       (JObj [("error", JStr "Authentication Failed"); ("message", JStr message)]) w).

(** The listener that [_handleClient] registers for the first frame. *)
Definition RoomServer__handleClient_message (socket : nat) (data : string)
    (now : Z) (w : World) : World :=
  match RoomServer__authenticate data now w with
  | inl message => reject socket message w
  | inr token =>
      match RoomServer__connectClient socket token w with
      | (w, Some message) => reject socket message w
      | (w, None) => w
      end
  end.

(** [Map.prototype.forEach] over the server's rooms, as for the members
    of a room. *)
Fixpoint forEach_room (entries : list (string * nat))
    (visit : nat -> World -> World) (w : World) : World :=
  match entries with
  | [] => w
  | (k, r) :: rest =>
      let w' :=
        match JsMap.get k (srv_rooms (server w)) with
        | Some r' => if Nat.eqb r' r then visit r w else w
        | None => w
        end in
      forEach_room rest visit w'
  end.

(** The callback that [stop] passes to [this._ws.close]. *)
Definition RoomServer_stop_callback (w : World) : World :=
  let w := forEach_room (srv_rooms (server w)) RoomServer__removeRoom w in
  let w := set_server with_stopped w in
  let w := emit (NatsPublish "rs.stop" (JStr (srv_publicUrl (server w)))) w in
  emit (ServerEmit Stopped) w.

(** ** Runs

    What reaches the server from outside, one event at a time (the source
    runs on a single-threaded event loop, each listener to completion). *)
Inductive Input :=
| Connection
| Message (s : nat) (data : string) (now : Z)
| Pong (s : nat)
| SocketError (s : nat)
| Closing (s : nat)
| Close (s : nat)
| Tick (r : nat)
| Terminate (r : nat)
| Stop.

Definition new_socket : Socket :=
  {| readyState := OPEN; on_token := true; on_client := false;
     on_close := None; sk_client := None |}.

Definition step (w : World) (i : Input) : World :=
  match i with
  | Connection =>
      (* ['connection'] on the WebSocket server: [_handleClient(socket)] *)
      if srv_on_connection (server w)
      then {| server := server w; rooms := rooms w;
              sockets := sockets w ++ [new_socket]; log := log w |}
      else w
  | Message s data now =>
      (* a frame arrives on an open socket *)
      match sockets w !! s with
      | Some k =>
          if readyState k =? OPEN then
            if on_token k
            then RoomServer__handleClient_message s data now
                   (set_socket s (with_on_token false) w)
            else if on_client k then emit (ClientEmitMessage s data) w else w
          else w
      | None => w
      end
  | Pong s =>
      (* ['pong'] on the socket: the client's listener resets the counter *)
      match sockets w !! s with
      | Some k => if on_client k then set_socket s (with_missedPings 0) w else w
      | None => w
      end
  | SocketError s =>
      (* ['error'] on the socket: the client's listener calls [terminate] *)
      match sockets w !! s with
      | Some k => if on_client k then Client_terminate on_socket_close s w else w
      | None => w
      end
  | Closing s =>
      (* the peer starts the closing handshake *)
      set_socket s (fun k => if readyState k =? OPEN then with_readyState CLOSING k else k) w
  | Close s =>
      (* the transport reports the socket closed, once *)
      match sockets w !! s with
      | Some k =>
          if readyState k =? CLOSED then w
          else socket_emit_close on_socket_close s
                 (set_socket s (with_readyState CLOSED) w)
      | None => w
      end
  | Tick r =>
      (* the room's [setInterval] timer fires *)
      match rooms w !! r with
      | Some x => if room_timer x then Room__pingClients on_socket_close r w else w
      | None => w
      end
  | Terminate r =>
      (* the application calls [room.terminate()] *)
      Room_terminate on_socket_close r w
  | Stop => RoomServer_stop_callback w
  end.

Definition run (w : World) (inputs : list Input) : World :=
  fold_left step inputs w.

End Jwt.

(** * Reasoning about worlds *)

(** ** What the operations leave unchanged *)

(** The part of a room that the listener flags and the timer do not touch. *)
Definition room_core (x : Room) : string * IRoomOptions * list (string * nat) :=
  (room_id x, room_options x, room_clients x).

Definition cores (w : World) : list (string * IRoomOptions * list (string * nat)) :=
  room_core <$> rooms w.

Definition room_id_of (r : nat) (w : World) : option string :=
  room_id <$> rooms w !! r.

(** Whether the server's ['terminated'] listener is attached to room [r]. *)
Definition listening (r : nat) (w : World) : option bool :=
  room_on_terminated <$> rooms w !! r.

Definition total_members (w : World) : Z :=
  Z.of_nat (sum_list_with (fun x => length (room_clients x)) (rooms w)).

Definition attached_members (w : World) : Z :=
  Z.of_nat (sum_list_with (fun kr => length (members (snd kr) w)) (srv_rooms (server w))).

Lemma lookup_cores w w' r :
  cores w' = cores w -> room_core <$> rooms w' !! r = room_core <$> rooms w !! r.
Proof. unfold cores. intros H. rewrite <- !list_lookup_fmap. now rewrite H. Qed.

Lemma members_cores w w' r : cores w' = cores w -> members r w' = members r w.
Proof.
  intros H. apply (lookup_cores _ _ r) in H. unfold members.
  destruct (rooms w' !! r), (rooms w !! r); simpl in H; try congruence.
  unfold room_core in H. congruence.
Qed.

Lemma room_id_of_cores w w' r : cores w' = cores w -> room_id_of r w' = room_id_of r w.
Proof.
  intros H. apply (lookup_cores _ _ r) in H. unfold room_id_of.
  destruct (rooms w' !! r), (rooms w !! r); simpl in *; try congruence.
  unfold room_core in H. congruence.
Qed.

Lemma keepAlive_cores w w' r : cores w' = cores w -> Room_keepAlive r w' = Room_keepAlive r w.
Proof.
  intros H. apply (lookup_cores _ _ r) in H. unfold Room_keepAlive.
  destruct (rooms w' !! r), (rooms w !! r); simpl in *; try congruence.
  unfold room_core in H. congruence.
Qed.

Lemma length_cores w w' : cores w' = cores w -> length (rooms w') = length (rooms w).
Proof.
  unfold cores. intros H. apply (f_equal length) in H. now rewrite !length_fmap in H.
Qed.

Lemma total_members_cores w w' : cores w' = cores w -> total_members w' = total_members w.
Proof.
  unfold total_members, cores. intros H. f_equal.
  assert (G : forall l : list Room,
             sum_list_with (fun x => length (room_clients x)) l
             = sum_list_with (fun c => length (snd c)) (room_core <$> l)).
  { induction l as [|x l IH]; simpl; [reflexivity|]. now rewrite IH. }
  now rewrite !G, H.
Qed.

Lemma cores_alter_flags (f : Room -> Room) r (l : list Room) :
  (forall x, room_core (f x) = room_core x) ->
  room_core <$> alter f r l = room_core <$> l.
Proof.
  intros Hf. apply list_eq. intros i. rewrite !list_lookup_fmap.
  destruct (decide (r = i)) as [->|Hne].
  - rewrite list_lookup_alter_eq. destruct (l !! i); simpl; [now rewrite Hf|reflexivity].
  - now rewrite list_lookup_alter_ne.
Qed.

Lemma get_delete_Some {V} (k k0 : string) (v : V) m :
  JsMap.wf m -> JsMap.get k (JsMap.delete k0 m) = Some v ->
  JsMap.get k m = Some v /\ k <> k0.
Proof.
  intros Hwf H. destruct (String.eqb_spec k0 k) as [->|Hne].
  - rewrite JsMap.get_delete_eq in H by assumption. discriminate.
  - rewrite JsMap.get_delete_ne in H by assumption. auto.
Qed.

(** ** The invariant of the heap *)

(** Structure: members are clients known under their own id, the close
    listener of a socket points to the room its client is in, a member
    without close listener has a closing socket, a socket still waiting for
    its token has no client, a socket with a close listener still has the
    listeners of its client, and the server's map sends an id to a room with
    that id, to which the server listens for ['terminated']. *)
Record Inv0 (w : World) : Prop := {
  inv_members_wf : forall r, JsMap.wf (members r w);
  inv_close_member : forall c r,
    socket_on_close c w = Some r ->
    exists cl, client_of c w = Some cl /\ JsMap.get (cl_id cl) (members r w) = Some c;
  inv_member_client : forall r k c,
    JsMap.get k (members r w) = Some c ->
    exists cl, client_of c w = Some cl /\ cl_id cl = k;
  inv_member_close : forall r k c,
    JsMap.get k (members r w) = Some c ->
    socket_on_close c w = Some r \/
    (socket_on_close c w = None /\ Client__isClosing c w = true);
  inv_token : forall s k,
    sockets w !! s = Some k -> on_token k = true -> sk_client k = None;
  inv_close_client : forall s k r,
    sockets w !! s = Some k -> on_close k = Some r -> on_client k = true;
  inv_rooms_wf : JsMap.wf (srv_rooms (server w));
  inv_rooms : forall k r,
    JsMap.get k (srv_rooms (server w)) = Some r -> room_id_of r w = Some k;
  inv_listening : forall k r,
    JsMap.get k (srv_rooms (server w)) = Some r -> listening r w = Some true
}.

(** Counting: [clientCount] is the number of members of all room objects. *)
Definition Inv (w : World) : Prop :=
  Inv0 w /\ srv_clientCount (server w) = total_members w.

Lemma Inv0_ext w w' :
  sockets w' = sockets w -> cores w' = cores w ->
  (forall r, listening r w' = listening r w) ->
  srv_rooms (server w') = srv_rooms (server w) ->
  Inv0 w -> Inv0 w'.
Proof.
  intros Hs Hc Hl Hr [H1 H2 H3 H4 H5 H5c H6 H7 H8].
  assert (Hm : forall r, members r w' = members r w) by (intros; now apply members_cores).
  assert (Hi : forall r, room_id_of r w' = room_id_of r w) by (intros; now apply room_id_of_cores).
  split; intros *;
    unfold socket_on_close, client_of, Client__isClosing, socket_state in *;
    rewrite ?Hm, ?Hs, ?Hr, ?Hi, ?Hl; eauto.
Qed.

Lemma Inv0_rooms_delete w w' r k :
  sockets w' = sockets w -> cores w' = cores w ->
  room_id_of r w = Some k ->
  (forall r', r' <> r -> listening r' w' = listening r' w) ->
  srv_rooms (server w') = JsMap.delete k (srv_rooms (server w)) ->
  Inv0 w -> Inv0 w'.
Proof.
  intros Hs Hc Hk Hl Hr [H1 H2 H3 H4 H5 H5c H6 H7 H8].
  assert (Hm : forall r, members r w' = members r w) by (intros; now apply members_cores).
  assert (Hi : forall r, room_id_of r w' = room_id_of r w) by (intros; now apply room_id_of_cores).
  assert (Hg : forall k0 r0, JsMap.get k0 (JsMap.delete k (srv_rooms (server w))) = Some r0 ->
               JsMap.get k0 (srv_rooms (server w)) = Some r0 /\ k0 <> k).
  { intros k0 r0 G. now apply get_delete_Some in G. }
  split; intros *;
    unfold socket_on_close, client_of, Client__isClosing, socket_state in *;
    rewrite ?Hm, ?Hs, ?Hr, ?Hi; eauto.
  - now apply JsMap.wf_delete.
  - intros G. apply Hg in G as [G _]. eauto.
  - intros G. apply Hg in G as [G Hne]. rewrite Hl; [eauto|].
    intros ->. apply H7 in G. congruence.
Qed.

(** Changing one socket cell. *)
Lemma Inv0_set_socket c f w :
  (forall k, sockets w !! c = Some k ->
     cl_id <$> sk_client (f k) = cl_id <$> sk_client k /\
     (on_close (f k) = on_close k \/
      (on_close (f k) = None /\ (CLOSING <=? readyState (f k)) = true)) /\
     ((CLOSING <=? readyState k) = true -> (CLOSING <=? readyState (f k)) = true) /\
     (on_token (f k) = true -> on_token k = true) /\
     (on_close (f k) = None \/ (on_client k = true -> on_client (f k) = true))) ->
  Inv0 w -> Inv0 (set_socket c f w).
Proof.
  intros Hf [H1 H2 H3 H4 H5 H5c H6 H7 H8].
  assert (Hm : forall r, members r (set_socket c f w) = members r w) by reflexivity.
  assert (Hi : forall r, room_id_of r (set_socket c f w) = room_id_of r w) by reflexivity.
  assert (Hne : forall s, s <> c -> sockets (set_socket c f w) !! s = sockets w !! s).
  { intros s Hs. cbn. now apply list_lookup_alter_ne. }
  assert (Heq : sockets (set_socket c f w) !! c = f <$> sockets w !! c).
  { cbn. apply list_lookup_alter_eq. }
  split; intros *; rewrite ?Hm, ?Hi; cbn [server set_socket]; eauto.
  - (* close listener *)
    unfold socket_on_close, client_of. destruct (decide (c0 = c)) as [->|Hc].
    + rewrite Heq. destruct (sockets w !! c) as [k|] eqn:Ek; [|discriminate].
      destruct (Hf k eq_refl) as (Hid & Hcl & _ & _). cbn. intros G.
      destruct Hcl as [E|[E _]]; [|congruence]. rewrite E in G.
      destruct (H2 c r) as [cl [Hcl Hg]].
      { unfold socket_on_close. now rewrite Ek. }
      unfold client_of in Hcl. rewrite Ek in Hcl. cbn in Hcl. rewrite Hcl in Hid.
      destruct (sk_client (f k)) as [cl'|]; [|discriminate]. cbn in Hid.
      exists cl'. split; [reflexivity|]. congruence.
    + rewrite Hne by assumption. apply H2.
  - (* members are clients *)
    intros G. destruct (H3 _ _ _ G) as [cl [Hcl Hk]].
    unfold client_of in *. destruct (decide (c0 = c)) as [->|Hc].
    + rewrite Heq. destruct (sockets w !! c) as [k0|] eqn:Ek; [|discriminate].
      destruct (Hf k0 eq_refl) as (Hid & _). cbn in *. rewrite Hcl in Hid.
      destruct (sk_client (f k0)) as [cl'|]; [|discriminate]. cbn in Hid.
      exists cl'. split; [reflexivity|]. congruence.
    + rewrite Hne by assumption. eauto.
  - (* members and close listeners *)
    intros G. specialize (H4 _ _ _ G).
    unfold socket_on_close, Client__isClosing, socket_state in *.
    destruct (decide (c0 = c)) as [->|Hc].
    + rewrite Heq. destruct (sockets w !! c) as [k0|] eqn:Ek; cbn in *; [|tauto].
      destruct (Hf k0 eq_refl) as (_ & Hcl & Hst & _).
      destruct Hcl as [E|[E E']].
      * rewrite E. destruct H4 as [?|[? ?]]; [now left|right; auto].
      * right. auto.
    + rewrite Hne by assumption. exact H4.
  - (* token listener *)
    destruct (decide (s = c)) as [->|Hc].
    + rewrite Heq. destruct (sockets w !! c) as [k0|] eqn:Ek; [|discriminate].
      cbn. intros E Ht. inversion E; subst k.
      destruct (Hf k0 eq_refl) as (Hid & _ & _ & Htk & _).
      rewrite (H5 c k0 Ek (Htk Ht)) in Hid.
      destruct (sk_client (f k0)); [discriminate|reflexivity].
    + rewrite Hne by assumption. apply H5.
  - (* client listeners *)
    destruct (decide (s = c)) as [->|Hc].
    + rewrite Heq. destruct (sockets w !! c) as [k0|] eqn:Ek; [|discriminate].
      cbn. intros E Hoc. inversion E; subst k.
      destruct (Hf k0 eq_refl) as (_ & Hcl & _ & _ & Hlc).
      destruct Hlc as [Hn|Hlc]; [congruence|]. apply Hlc.
      destruct Hcl as [Hcl|[Hcl _]]; [|congruence].
      rewrite Hcl in Hoc. exact (H5c c k0 r Ek Hoc).
    + rewrite Hne by assumption. apply H5c.
Qed.

(** ** Membership updates *)

Lemma sum_list_with_alter {A} (h : A -> nat) (f : A -> A) (r : nat) (l : list A) x :
  l !! r = Some x ->
  (sum_list_with h (alter f r l) + h x = sum_list_with h l + h (f x))%nat.
Proof.
  revert r. induction l as [|y l IH]; intros [|r] H; simpl in *; try discriminate.
  - inversion H; subst. lia.
  - specialize (IH r H). change (list_alter f r l) with (alter f r l). lia.
Qed.

Lemma members_update_eq r g w x :
  rooms w !! r = Some x -> members r (set_room r (update_clients g) w) = g (room_clients x).
Proof.
  intros H. unfold members. cbn. rewrite list_lookup_alter_eq, H. reflexivity.
Qed.

Lemma members_set_room_ne r r' f w :
  r' <> r -> members r' (set_room r f w) = members r' w.
Proof.
  intros H. unfold members. cbn. now rewrite list_lookup_alter_ne by congruence.
Qed.

Lemma room_id_of_update r r' g w :
  room_id_of r' (set_room r (update_clients g) w) = room_id_of r' w.
Proof.
  unfold room_id_of. cbn. destruct (decide (r = r')) as [->|Hne].
  - rewrite list_lookup_alter_eq. now destruct (rooms w !! r').
  - now rewrite list_lookup_alter_ne.
Qed.

Lemma listening_update r r' g w :
  listening r' (set_room r (update_clients g) w) = listening r' w.
Proof.
  unfold listening. cbn. destruct (decide (r = r')) as [->|Hne].
  - rewrite list_lookup_alter_eq. now destruct (rooms w !! r').
  - now rewrite list_lookup_alter_ne.
Qed.

Lemma total_members_update r g w x :
  rooms w !! r = Some x ->
  total_members (set_room r (update_clients g) w)
  = total_members w - Z.of_nat (length (room_clients x))
    + Z.of_nat (length (g (room_clients x))).
Proof.
  intros H. unfold total_members. cbn.
  pose proof (sum_list_with_alter (fun x => length (room_clients x))
                (update_clients g) r (rooms w) x H) as E.
  cbn in E. lia.
Qed.

Lemma members_Some r w k c :
  JsMap.get k (members r w) = Some c -> exists x, rooms w !! r = Some x /\ room_clients x = members r w.
Proof.
  unfold members. destruct (rooms w !! r) as [x|]; [eauto|discriminate].
Qed.

(** A world [w'] whose sockets and server map are those of [w] and where
    client [c] has left room [r]. *)
Lemma Inv0_left r c cl w w' :
  Inv0 w ->
  client_of c w = Some cl ->
  JsMap.get (cl_id cl) (members r w) = Some c ->
  socket_on_close c w = None ->
  sockets w' = sockets w ->
  srv_rooms (server w') = srv_rooms (server w) ->
  (forall r', room_id_of r' w' = room_id_of r' w) ->
  (forall r', listening r' w' = listening r' w) ->
  members r w' = JsMap.delete (cl_id cl) (members r w) ->
  (forall r', r' <> r -> members r' w' = members r' w) ->
  Inv0 w'.
Proof.
  intros [H1 H2 H3 H4 H5 H5c H6 H7 H8] Hcl Hm Hoc Hs Hr Hi Hl Hmr Hmo.
  assert (Hsub : forall r' k c', JsMap.get k (members r' w') = Some c' ->
                 JsMap.get k (members r' w) = Some c' /\ (r' = r -> k <> cl_id cl)).
  { intros r' k c' G. destruct (decide (r' = r)) as [->|Hne].
    - rewrite Hmr in G. apply get_delete_Some in G; [|apply H1]. tauto.
    - rewrite Hmo in G by assumption. tauto. }
  split; intros *;
    unfold socket_on_close, client_of, Client__isClosing, socket_state in *;
    rewrite ?Hs, ?Hr, ?Hi, ?Hl; eauto.
  - destruct (decide (r0 = r)) as [->|Hne].
    + rewrite Hmr. now apply JsMap.wf_delete.
    + rewrite Hmo by assumption. apply H1.
  - intros G. destruct (H2 _ _ G) as [cl' [Hcl' Hg]]. exists cl'. split; [assumption|].
    destruct (decide (r0 = r)) as [->|Hne].
    + rewrite Hmr. rewrite JsMap.get_delete_ne; [assumption|].
      intros E. rewrite E in Hm. rewrite Hm in Hg. inversion Hg; subst c0. congruence.
    + now rewrite Hmo.
  - intros G. apply Hsub in G as [G _]. eauto.
  - intros G. apply Hsub in G as [G _]. eauto.
Qed.

(** A world [w'] where socket [s], so far without client, has been given
    the client [cl], has joined room [r] and has got its close listener. *)
Lemma Inv0_admitted s r cl w w' k :
  Inv0 w ->
  sockets w !! s = Some k -> sk_client k = None -> on_token k = false ->
  (exists x, rooms w !! r = Some x) ->
  JsMap.get (cl_id cl) (members r w) = None ->
  sockets w' = alter (fun k => with_on_close (Some r) (with_client cl k)) s (sockets w) ->
  srv_rooms (server w') = srv_rooms (server w) ->
  (forall r', room_id_of r' w' = room_id_of r' w) ->
  (forall r', listening r' w' = listening r' w) ->
  members r w' = JsMap.set (cl_id cl) s (members r w) ->
  (forall r', r' <> r -> members r' w' = members r' w) ->
  Inv0 w'.
Proof.
  intros [H1 H2 H3 H4 H5 H5c H6 H7 H8] Hk Hnc Hnt Hx Hfresh Hs Hr Hi Hl Hmr Hmo.
  assert (Hne : forall c, c <> s -> sockets w' !! c = sockets w !! c).
  { intros c Hc. rewrite Hs. now apply list_lookup_alter_ne. }
  assert (Heq : sockets w' !! s = Some (with_on_close (Some r) (with_client cl k))).
  { rewrite Hs, list_lookup_alter_eq, Hk. reflexivity. }
  assert (Hnm : forall r' k', JsMap.get k' (members r' w) <> Some s).
  { intros r' k' G. destruct (H3 _ _ _ G) as [cl' [Hcl' _]].
    unfold client_of in Hcl'. rewrite Hk in Hcl'. cbn in Hcl'. congruence. }
  assert (Hsub : forall r' k' c', JsMap.get k' (members r' w') = Some c' ->
                 (r' = r /\ k' = cl_id cl /\ c' = s) \/
                 (c' <> s /\ JsMap.get k' (members r' w) = Some c')).
  { intros r' k' c' G. destruct (decide (r' = r)) as [->|Hr'].
    - rewrite Hmr in G. destruct (String.eqb_spec (cl_id cl) k') as [<-|Hk'].
      + rewrite JsMap.get_set_eq in G. inversion G. auto.
      + rewrite JsMap.get_set_ne in G by assumption. right. split; [|assumption].
        intros ->. eapply Hnm, G.
    - rewrite Hmo in G by assumption. right. split; [|assumption].
      intros ->. eapply Hnm, G. }
  split; intros *; rewrite ?Hr, ?Hi, ?Hl; eauto.
  - destruct (decide (r0 = r)) as [->|Hr'].
    + rewrite Hmr. now apply JsMap.wf_set.
    + rewrite Hmo by assumption. apply H1.
  - unfold socket_on_close, client_of. destruct (decide (c = s)) as [->|Hc].
    + rewrite Heq. cbn. intros G. inversion G; subst r0. exists cl.
      split; [reflexivity|]. rewrite Hmr. apply JsMap.get_set_eq.
    + rewrite Hne by assumption. intros G.
      destruct (H2 c r0 G) as [cl' [Hcl' Hg]]. exists cl'. split; [assumption|].
      destruct (decide (r0 = r)) as [->|Hr'].
      * rewrite Hmr. rewrite JsMap.get_set_ne; [assumption|].
        intros E. rewrite <- E in Hg. congruence.
      * now rewrite Hmo.
  - intros G. apply Hsub in G as [(-> & -> & ->)|[Hc G]].
    + exists cl. unfold client_of. rewrite Heq. auto.
    + unfold client_of. rewrite Hne by assumption. eauto.
  - intros G. apply Hsub in G as [(-> & -> & ->)|[Hc G]].
    + left. unfold socket_on_close. now rewrite Heq.
    + unfold socket_on_close, Client__isClosing, socket_state.
      rewrite Hne by assumption. eauto.
  - destruct (decide (s0 = s)) as [->|Hc].
    + rewrite Heq. intros E. inversion E; subst k0. cbn. congruence.
    + rewrite Hne by assumption. apply H5.
  - destruct (decide (s0 = s)) as [->|Hc].
    + rewrite Heq. intros E. inversion E; subst k0. reflexivity.
    + rewrite Hne by assumption. apply H5c.
Qed.

(** ** Effects of the room-level operations *)

Lemma notify_frame r subj payload w :
  let w' := RoomServer__notify r subj payload w in
  sockets w' = sockets w /\ rooms w' = rooms w /\ server w' = server w.
Proof. unfold RoomServer__notify. destruct (rooms w !! r); cbn; auto. Qed.

Lemma Room_emit_member_frame r e w :
  e <> Terminated ->
  let w' := Room_emit r e w in
  sockets w' = sockets w /\ rooms w' = rooms w /\ server w' = server w.
Proof.
  intros He. unfold Room_emit. cbn.
  destruct (rooms w !! r) as [x|]; [|cbn; auto].
  destruct e as [c|c|]; [| |congruence];
    (destruct (room_on_sync x); [|cbn; auto]);
    (destruct (client_of c _); [|cbn; auto]);
    unfold RoomServer__notify; cbn; destruct (rooms w !! r); cbn; auto.
Qed.

Lemma removeRoom_frame r w :
  let w' := RoomServer__removeRoom r w in
  sockets w' = sockets w /\ cores w' = cores w /\
  srv_clientCount (server w') = srv_clientCount (server w) /\
  (srv_rooms (server w') = srv_rooms (server w) \/
   exists k, room_id_of r w = Some k /\
     srv_rooms (server w') = JsMap.delete k (srv_rooms (server w))).
Proof.
  unfold RoomServer__removeRoom, room_id_of. cbn zeta.
  destruct (rooms w !! r) as [x|] eqn:Ex; [|tauto].
  destruct (negb _); [tauto|].
  unfold server_syncRooms, RoomServer__notify, Room_clearPingInterval. cbn.
  destruct (opt_true _); cbn.
  - rewrite list_lookup_alter_eq, Ex. cbn.
    unfold cores. cbn. rewrite !cores_alter_flags by reflexivity. eauto 10.
  - unfold cores. cbn. rewrite !cores_alter_flags by reflexivity. eauto 10.
Qed.

Lemma listening_alter_ne r r' f w :
  r' <> r -> listening r' (set_room r f w) = listening r' w.
Proof. intros H. unfold listening. cbn. now rewrite list_lookup_alter_ne by congruence. Qed.

Lemma removeRoom_listening r w :
  let w' := RoomServer__removeRoom r w in
  w' = w \/
  exists k, room_id_of r w = Some k /\
    srv_rooms (server w') = JsMap.delete k (srv_rooms (server w)) /\
    forall r', r' <> r -> listening r' w' = listening r' w.
Proof.
  unfold RoomServer__removeRoom, room_id_of. cbn zeta.
  destruct (rooms w !! r) as [x|] eqn:Ex; [|tauto].
  destruct (negb _); [tauto|]. right. exists (room_id x). split; [reflexivity|].
  unfold server_syncRooms, RoomServer__notify, Room_clearPingInterval. cbn.
  destruct (opt_true _); cbn.
  - rewrite list_lookup_alter_eq, Ex. cbn. split; [reflexivity|].
    intros r' Hr'. unfold listening. cbn. now rewrite !list_lookup_alter_ne by congruence.
  - split; [reflexivity|].
    intros r' Hr'. unfold listening. cbn. now rewrite !list_lookup_alter_ne by congruence.
Qed.

Lemma Inv0_removeRoom r w : Inv0 w -> Inv0 (RoomServer__removeRoom r w).
Proof.
  intros H. destruct (removeRoom_frame r w) as (Hs & Hc & _ & _).
  destruct (removeRoom_listening r w) as [->|(k & Hk & Hr & Hl)]; [exact H|].
  eapply (Inv0_rooms_delete w _ r k); eauto.
Qed.

Lemma Inv_removeRoom r w : Inv w -> Inv (RoomServer__removeRoom r w).
Proof.
  intros [H Hn]. split; [now apply Inv0_removeRoom|].
  destruct (removeRoom_frame r w) as (_ & Hc & Hk & _).
  rewrite Hk, Hn. symmetry. now apply total_members_cores.
Qed.

Lemma Inv_emit e w : Inv w -> Inv (emit e w).
Proof.
  intros [H Hn]. split; [|exact Hn].
  apply (Inv0_ext w); [reflexivity|reflexivity|reflexivity|reflexivity|exact H].
Qed.

Lemma Inv_Room_emit r e w : Inv w -> Inv (Room_emit r e w).
Proof.
  intros H.
  assert (D : e = Terminated \/ e <> Terminated) by (destruct e; auto; right; discriminate).
  destruct D as [->|He].
  - apply (Inv_emit (RoomEmit r Terminated)) in H.
    unfold Room_emit. cbn zeta.
    destruct (rooms _ !! r) as [x|]; [|exact H].
    destruct (room_on_terminated x); [|exact H].
    apply Inv_removeRoom. exact H.
  - destruct (Room_emit_member_frame r e w He) as (Hs & Hr & Hv).
    destruct H as [H Hn]. split.
    + apply (Inv0_ext w); [exact Hs|unfold cores; congruence| |congruence|exact H].
      intros r'. unfold listening. now rewrite Hr.
    + rewrite Hv, Hn. unfold total_members. now rewrite Hr.
Qed.

(** ** Effects of the close listener *)

Definition closing (c : nat) (w : World) : Prop := Client__isClosing c w = true.

Lemma Inv_set_socket c f w :
  (forall k, sockets w !! c = Some k ->
     cl_id <$> sk_client (f k) = cl_id <$> sk_client k /\
     (on_close (f k) = on_close k \/
      (on_close (f k) = None /\ (CLOSING <=? readyState (f k)) = true)) /\
     ((CLOSING <=? readyState k) = true -> (CLOSING <=? readyState (f k)) = true) /\
     (on_token (f k) = true -> on_token k = true) /\
     (on_close (f k) = None \/ (on_client k = true -> on_client (f k) = true))) ->
  Inv w -> Inv (set_socket c f w).
Proof.
  intros Hf [H Hn]. split; [now apply Inv0_set_socket|exact Hn].
Qed.

Lemma Inv_removeAllListeners c w :
  closing c w -> Inv w -> Inv (Client__removeAllListeners c w).
Proof.
  unfold closing, Client__isClosing, socket_state. intros Hc.
  apply Inv_set_socket. intros k Hk. rewrite Hk in Hc. cbn in *.
  repeat split; auto. discriminate.
Qed.

Lemma Inv_detach_close c w :
  closing c w -> Inv w -> Inv (set_socket c (with_on_close None) w).
Proof.
  unfold closing, Client__isClosing, socket_state. intros Hc.
  apply Inv_set_socket. intros k Hk. rewrite Hk in Hc. cbn in *.
  repeat split; auto.
Qed.

Lemma closing_set_socket c s f w :
  (forall k, (CLOSING <=? readyState k) = true -> (CLOSING <=? readyState (f k)) = true) ->
  closing c w -> closing c (set_socket s f w).
Proof.
  unfold closing, Client__isClosing, socket_state. intros Hf. cbn.
  destruct (decide (s = c)) as [->|Hne].
  - rewrite list_lookup_alter_eq. destruct (sockets w !! c); cbn; auto.
  - now rewrite list_lookup_alter_ne.
Qed.

Lemma closing_sockets c w w' : sockets w' = sockets w -> closing c w -> closing c w'.
Proof. unfold closing, Client__isClosing, socket_state. now intros ->. Qed.

(** With a closing socket, [client.disconnect()] only drops the listeners. *)
Lemma Client_disconnect_closing L c w :
  closing c w -> Client_disconnect L c w = Client__removeAllListeners c w.
Proof. unfold closing, Client_disconnect. now intros ->. Qed.

Lemma Client_terminate_closing L c w :
  closing c w -> Client_terminate L c w = Client__removeAllListeners c w.
Proof. unfold closing, Client_terminate. now intros ->. Qed.

(** The listener, for a member whose socket is closing. *)
Lemma disconnectClient_closing L c r cl w :
  closing c w -> client_of c w = Some cl ->
  JsMap.get (cl_id cl) (members r w) = Some c ->
  RoomServer__disconnectClient L c r w =
    let w1 := set_room r (update_clients (JsMap.delete (cl_id cl))) w in
    let w2 := Room_emit r (Left c) w1 in
    let w3 := Client__removeAllListeners c w2 in
    let w4 := set_server (fun sv => with_clientCount (srv_clientCount sv - 1) sv) w3 in
    if Room_isEmpty r w4 && negb (Room_keepAlive r w4)
    then RoomServer__removeRoom r w4 else w4.
Proof.
  intros Hc Hcl Hm. unfold RoomServer__disconnectClient, Room_leave.
  rewrite Hcl. unfold Room_hasClient, JsMap.has. rewrite Hm.
  rewrite Client_disconnect_closing; [reflexivity|].
  destruct (Room_emit_member_frame r (Left c)
              (set_room r (update_clients (JsMap.delete (cl_id cl))) w)) as (Hs & _);
    [discriminate|].
  eapply closing_sockets; [exact Hs|exact Hc].
Qed.

Lemma Inv_listener L c r cl w :
  Inv w -> closing c w -> socket_on_close c w = None ->
  client_of c w = Some cl ->
  JsMap.get (cl_id cl) (members r w) = Some c ->
  Inv (RoomServer__disconnectClient L c r w).
Proof.
  intros [H Hn] Hc Hoc Hcl Hm.
  rewrite (disconnectClient_closing L c r cl w Hc Hcl Hm). cbn zeta.
  set (w1 := set_room r (update_clients (JsMap.delete (cl_id cl))) w).
  destruct (members_Some _ _ _ _ Hm) as [x [Hx Hxm]].
  destruct (Room_emit_member_frame r (Left c) w1) as (Hs2 & Hr2 & Hv2); [discriminate|].
  set (w2 := Room_emit r (Left c) w1) in *.
  assert (I1 : Inv0 w1).
  { eapply (Inv0_left r c cl w w1); eauto.
    - intros r'. apply room_id_of_update.
    - intros r'. apply listening_update.
    - unfold w1. rewrite (members_update_eq r _ w x Hx). now rewrite Hxm.
    - intros r' Hr'. now apply members_set_room_ne. }
  assert (I2 : Inv0 w2).
  { apply (Inv0_ext w1); [exact Hs2| | |now rewrite Hv2|exact I1].
    - unfold cores. now rewrite Hr2.
    - intros r'. unfold listening. now rewrite Hr2. }
  assert (T1 : total_members w1 = total_members w - 1).
  { unfold w1. rewrite (total_members_update r _ w x Hx). rewrite Hxm.
    assert (G : JsMap.get (cl_id cl) (members r w) <> None) by congruence.
    apply JsMap.length_delete in G. lia. }
  set (w4 := set_server _ _).
  assert (I4 : Inv w4).
  { split.
    - apply (Inv0_ext (Client__removeAllListeners c w2)); try reflexivity.
      apply Inv0_set_socket; [|exact I2].
      intros k Hk. assert (Hc2 : closing c w2) by (eapply closing_sockets; eauto).
      unfold closing, Client__isClosing, socket_state in Hc2. rewrite Hk in Hc2.
      cbn in *. repeat split; auto. discriminate.
    - cbn. rewrite Hv2. cbn. rewrite Hn.
      transitivity (total_members w1 ); [lia|].
      unfold total_members. cbn. now rewrite Hr2. }
  destruct (_ && _); [now apply Inv_removeRoom|exact I4].
Qed.

Lemma Inv_socket_emit_close c w :
  Inv w -> closing c w -> Inv (socket_emit_close on_socket_close c w).
Proof.
  intros H Hc. unfold socket_emit_close.
  destruct (socket_on_close c w) as [r|] eqn:Hoc; [|exact H].
  destruct (inv_close_member w (proj1 H) c r Hoc) as [cl [Hcl Hm]].
  unfold on_socket_close. cbn [close_listener].
  apply (Inv_listener _ c r cl).
  - now apply Inv_detach_close.
  - apply closing_set_socket; auto.
  - unfold socket_on_close. cbn. rewrite list_lookup_alter_eq.
    now destruct (sockets w !! c).
  - unfold client_of in *. cbn. rewrite list_lookup_alter_eq.
    now destruct (sockets w !! c).
  - exact Hm.
Qed.

Lemma close_state_closing k : (CLOSING <=? readyState (close_state k)) = true.
Proof.
  unfold close_state. destruct (readyState k <? CLOSING) eqn:E; cbn.
  - reflexivity.
  - apply Z.leb_le. apply Z.ltb_ge in E. exact E.
Qed.

Lemma Inv_close_state c w : Inv w -> Inv (set_socket c close_state w).
Proof.
  apply Inv_set_socket. intros k _. unfold close_state.
  destruct (readyState k <? CLOSING); cbn; repeat split; auto.
Qed.

Lemma closing_close_state c w :
  Client__isClosing c w = false -> closing c (set_socket c close_state w).
Proof.
  unfold closing, Client__isClosing, socket_state. cbn.
  rewrite list_lookup_alter_eq. destruct (sockets w !! c); cbn; [|discriminate].
  intros _. apply close_state_closing.
Qed.

(** The listener and the emission keep every [readyState]. *)
Lemma socket_state_removeRoom r s w :
  socket_state s (RoomServer__removeRoom r w) = socket_state s w.
Proof.
  unfold socket_state. now destruct (removeRoom_frame r w) as (-> & _).
Qed.

Lemma socket_state_set_socket s c f w :
  (forall k, readyState (f k) = readyState k) ->
  socket_state s (set_socket c f w) = socket_state s w.
Proof.
  intros Hf. unfold socket_state. cbn. destruct (decide (c = s)) as [->|Hne].
  - rewrite list_lookup_alter_eq. destruct (sockets w !! s); cbn; [now rewrite Hf|reflexivity].
  - now rewrite list_lookup_alter_ne.
Qed.

Lemma socket_state_leave L r c s w :
  closing c w -> socket_state s (Room_leave L r c w) = socket_state s w.
Proof.
  intros Hc. unfold Room_leave. destruct (client_of c w) as [cl|]; [|reflexivity].
  destruct (Room_hasClient _ _ _); [|reflexivity].
  set (w1 := set_room _ _ w).
  destruct (Room_emit_member_frame r (Left c) w1) as (Hs & _); [discriminate|].
  rewrite Client_disconnect_closing by (eapply closing_sockets; [exact Hs|exact Hc]).
  unfold Client__removeAllListeners, ws_removeAllListeners.
  rewrite socket_state_set_socket by reflexivity.
  unfold socket_state. now rewrite Hs.
Qed.

Lemma socket_state_listener L c r s w :
  closing c w -> socket_state s (RoomServer__disconnectClient L c r w) = socket_state s w.
Proof.
  intros Hc. unfold RoomServer__disconnectClient.
  destruct (_ && _); rewrite ?socket_state_removeRoom; cbn;
    apply (socket_state_leave L r c s w Hc).
Qed.

Lemma socket_state_emit_close c s w :
  closing c w ->
  socket_state s (socket_emit_close on_socket_close c w) = socket_state s w.
Proof.
  intros Hc. unfold socket_emit_close.
  destruct (socket_on_close c w); [|reflexivity].
  unfold on_socket_close. cbn [close_listener].
  rewrite socket_state_listener.
  - now apply socket_state_set_socket.
  - apply closing_set_socket; auto.
Qed.

Lemma closing_emit_close c w :
  closing c w -> closing c (socket_emit_close on_socket_close c w).
Proof.
  intros Hc. unfold closing, Client__isClosing.
  now rewrite socket_state_emit_close.
Qed.

Lemma Inv_Client_disconnect c w : Inv w -> Inv (Client_disconnect on_socket_close c w).
Proof.
  intros H. unfold Client_disconnect.
  destruct (Client__isClosing c w) eqn:Hc.
  - now apply Inv_removeAllListeners.
  - assert (Hc' : closing c (ws_close c w)).
    { apply (closing_close_state c (emit (SocketClose c) w)). exact Hc. }
    apply Inv_removeAllListeners.
    + now apply closing_emit_close.
    + apply Inv_socket_emit_close; [|exact Hc'].
      apply (Inv_close_state c (emit (SocketClose c) w)). now apply Inv_emit.
Qed.

Lemma Inv_Client_terminate c w : Inv w -> Inv (Client_terminate on_socket_close c w).
Proof.
  intros H. unfold Client_terminate.
  destruct (Client__isClosing c w) eqn:Hc.
  - now apply Inv_removeAllListeners.
  - assert (Hc' : closing c (ws_terminate c w)).
    { apply (closing_close_state c (emit (SocketTerminate c) w)). exact Hc. }
    apply Inv_removeAllListeners.
    + now apply closing_emit_close.
    + apply Inv_socket_emit_close; [|exact Hc'].
      apply (Inv_close_state c (emit (SocketTerminate c) w)). now apply Inv_emit.
Qed.

Lemma Inv_missedPings c z w : Inv w -> Inv (set_socket c (with_missedPings z) w).
Proof.
  apply Inv_set_socket. intros k _. cbn. repeat split; auto.
  now destruct (sk_client k).
Qed.

Lemma Inv_Client_ping l c w : Inv w -> Inv (Client_ping on_socket_close l c w).
Proof.
  intros H. unfold Client_ping.
  destruct (Client__isClosing c w); [exact H|].
  destruct (client_of c w) as [cl|]; [|exact H].
  destruct (match l with Some _ => _ | None => _ end).
  - now apply Inv_Client_terminate.
  - apply Inv_emit. now apply Inv_missedPings.
Qed.

Lemma Inv_forEach_member visit entries r w :
  (forall c w, Inv w -> Inv (visit c w)) ->
  Inv w -> Inv (forEach_member entries r visit w).
Proof.
  intros Hv. revert w. induction entries as [|[k c] rest IH]; intros w H; simpl.
  - exact H.
  - apply IH. destruct (JsMap.get k (members r w)) as [c'|]; [|exact H].
    destruct (Nat.eqb c' c); auto.
Qed.

Lemma Inv_Room_terminate r w : Inv w -> Inv (Room_terminate on_socket_close r w).
Proof.
  intros H. unfold Room_terminate, Room_forEach.
  apply Inv_Room_emit. apply Inv_forEach_member; [|exact H].
  intros c w'. apply Inv_Client_disconnect.
Qed.

Lemma Inv_Room__pingClients r w : Inv w -> Inv (Room__pingClients on_socket_close r w).
Proof.
  intros H. unfold Room__pingClients, Room_forEach.
  destruct (rooms w !! r) as [x|]; [|exact H].
  apply Inv_forEach_member; [|exact H].
  intros c w'. apply Inv_Client_ping.
Qed.

(** ** Effects of the server-level operations *)

Lemma createRoom_frame roomId properties w :
  let '(r, w') := RoomServer__createRoom roomId properties w in
  r = length (rooms w) /\
  sockets w' = sockets w /\
  cores w' = cores w ++ [(roomId,
                          defaults_roomOptions (roomOptions (srv_options (server w))),
                          [])] /\
  srv_clientCount (server w') = srv_clientCount (server w) /\
  srv_rooms (server w') = JsMap.set roomId r (srv_rooms (server w)).
Proof.
  unfold RoomServer__createRoom. cbn zeta.
  unfold server_syncRooms, server_syncClients, RoomServer__notify. cbn.
  rewrite lookup_app_r by lia. rewrite Nat.sub_diag. cbn.
  destruct (opt_true (syncRooms _)); cbn; [destruct (opt_true (syncClients _)); cbn|];
    unfold cores; cbn; rewrite ?cores_alter_flags by reflexivity;
    rewrite fmap_app; cbn; auto.
Qed.

Lemma members_app_cores w w' k o r :
  cores w' = cores w ++ [(k, o, [])] -> members r w' = members r w.
Proof.
  intros H. unfold members.
  assert (E : room_core <$> rooms w' !! r = (cores w ++ [(k, o, [])]) !! r).
  { rewrite <- list_lookup_fmap. now rewrite <- H. }
  destruct (decide (r < length (rooms w))%nat) as [Hlt|Hge].
  - rewrite lookup_app_l in E by (unfold cores; now rewrite length_fmap).
    unfold cores in E. rewrite list_lookup_fmap in E.
    destruct (rooms w' !! r), (rooms w !! r); cbn in E; try congruence.
    unfold room_core in E. congruence.
  - assert (Hn : rooms w !! r = None) by (apply lookup_ge_None; lia).
    rewrite Hn. rewrite lookup_app_r in E by (unfold cores; rewrite length_fmap; lia).
    destruct (rooms w' !! r) as [x|]; [|reflexivity]. cbn in E.
    destruct (r - length (cores w))%nat as [|n]; cbn in E.
    + unfold room_core in E. congruence.
    + destruct n; discriminate E.
Qed.

Lemma room_id_of_app_cores w w' k o r :
  cores w' = cores w ++ [(k, o, [])] ->
  room_id_of r w' = if decide (r = length (rooms w)) then Some k else room_id_of r w.
Proof.
  intros H. unfold room_id_of.
  assert (E : room_core <$> rooms w' !! r = (cores w ++ [(k, o, [])]) !! r).
  { rewrite <- list_lookup_fmap. now rewrite <- H. }
  assert (Hl : length (cores w) = length (rooms w)) by (unfold cores; apply length_fmap).
  destruct (decide (r = length (rooms w))) as [->|Hne].
  - rewrite lookup_app_r in E by lia. rewrite Hl, Nat.sub_diag in E. cbn in E.
    destruct (rooms w' !! _); cbn in *; [|discriminate]. unfold room_core in E. congruence.
  - destruct (decide (r < length (rooms w))%nat) as [Hlt|Hge].
    + rewrite lookup_app_l in E by lia. unfold cores in E. rewrite list_lookup_fmap in E.
      destruct (rooms w' !! r), (rooms w !! r); cbn in *; try congruence.
      unfold room_core in E. congruence.
    + rewrite lookup_app_r in E by lia.
      destruct (r - length (cores w))%nat as [|n] eqn:En; [lia|].
      assert (E' : room_core <$> rooms w' !! r = None) by (destruct n; exact E).
      clear E. rename E' into E.
      assert (Hn : rooms w !! r = None) by (apply lookup_ge_None; lia).
      rewrite Hn. now destruct (rooms w' !! r).
Qed.

Lemma total_members_app_cores w w' k o :
  cores w' = cores w ++ [(k, o, [])] -> total_members w' = total_members w.
Proof.
  unfold total_members, cores. intros H. f_equal.
  assert (G : forall l : list Room,
             sum_list_with (fun x => length (room_clients x)) l
             = sum_list_with (fun c => length (snd c)) (room_core <$> l)).
  { induction l as [|x l IH]; simpl; [reflexivity|]. now rewrite IH. }
  rewrite !G, H, sum_list_with_app. cbn. lia.
Qed.

Lemma createRoom_listening roomId properties w r :
  listening r (RoomServer__createRoom roomId properties w).2
  = if decide (r = length (rooms w)) then Some true else listening r w.
Proof.
  unfold RoomServer__createRoom. cbn zeta.
  unfold server_syncRooms, server_syncClients, RoomServer__notify. cbn.
  rewrite lookup_app_r by lia. rewrite Nat.sub_diag. cbn.
  assert (G : forall (g : Room -> Room) x,
            room_on_terminated (g x) = true ->
            room_on_terminated <$> alter g (length (rooms w)) (rooms w ++ [x]) !! r
            = if decide (r = length (rooms w)) then Some true
              else room_on_terminated <$> rooms w !! r).
  { intros g x Hg. destruct (decide (r = length (rooms w))) as [->|Hne].
    - rewrite list_lookup_alter_eq. rewrite list_lookup_middle by reflexivity.
      cbn. now rewrite Hg.
    - rewrite list_lookup_alter_ne by congruence.
      destruct (decide (r < length (rooms w))%nat).
      + now rewrite lookup_app_l by lia.
      + rewrite (proj2 (lookup_ge_None (rooms w) r)) by lia.
        rewrite (proj2 (lookup_ge_None (rooms w ++ [x]) r)); [reflexivity|].
        rewrite length_app. cbn. lia. }
  unfold listening.
  destruct (opt_true (syncRooms _)); cbn; [destruct (opt_true (syncClients _)); cbn|].
  - rewrite list_alter_alter_eq. apply G. reflexivity.
  - apply G. reflexivity.
  - apply G. reflexivity.
Qed.

Lemma Inv_createRoom roomId properties w :
  Inv w -> JsMap.get roomId (srv_rooms (server w)) = None ->
  Inv (RoomServer__createRoom roomId properties w).2.
Proof.
  intros [[H1 H2 H3 H4 H5 H5c H6 H7 H8] Hn] Hfresh.
  pose proof (createRoom_frame roomId properties w) as F.
  pose proof (createRoom_listening roomId properties w) as Hl.
  destruct (RoomServer__createRoom roomId properties w) as [r w']. cbn in Hl |- *.
  destruct F as (-> & Hs & Hc & Hk & Hr).
  set (o := defaults_roomOptions _) in Hc.
  assert (Hm : forall r, members r w' = members r w).
  { intros r. apply (members_app_cores w w' roomId o). exact Hc. }
  assert (Hi := fun r => room_id_of_app_cores w w' roomId o r Hc).
  split; [split|]; intros *;
    unfold socket_on_close, client_of, Client__isClosing, socket_state in *;
    rewrite ?Hm, ?Hs, ?Hr; eauto.
  - now apply JsMap.wf_set.
  - rewrite Hi. destruct (String.eqb_spec roomId k) as [<-|Hne].
    + rewrite JsMap.get_set_eq. intros E. inversion E; subst r.
      now rewrite decide_True.
    + rewrite JsMap.get_set_ne by assumption. intros G.
      specialize (H7 _ _ G). rewrite decide_False; [assumption|].
      intros ->. unfold room_id_of in H7.
      rewrite (proj2 (lookup_ge_None (rooms w) (length (rooms w)))) in H7 by lia.
      discriminate.
  - rewrite Hl. destruct (String.eqb_spec roomId k) as [<-|Hne].
    + rewrite JsMap.get_set_eq. intros E. inversion E; subst r.
      now rewrite decide_True.
    + rewrite JsMap.get_set_ne by assumption. intros G.
      destruct (decide (r = length (rooms w))); [reflexivity|eauto].
  - rewrite Hk, Hn. symmetry. eapply total_members_app_cores; eauto.
Qed.

Lemma getRoom_spec roomId properties w :
  Inv w ->
  let '(r, w') := RoomServer__getRoom roomId properties w in
  Inv w' /\ sockets w' = sockets w /\
  JsMap.get roomId (srv_rooms (server w')) = Some r /\
  (exists x, rooms w' !! r = Some x) /\
  srv_clientCount (server w') = srv_clientCount (server w) /\
  (forall r', members r' w' = members r' w).
Proof.
  intros H. unfold RoomServer__getRoom.
  destruct (JsMap.get roomId (srv_rooms (server w))) as [r|] eqn:E.
  - split; [exact H|]. split; [reflexivity|]. split; [exact E|].
    split; [|split; [reflexivity|reflexivity]].
    pose proof (inv_rooms w (proj1 H) _ _ E) as G. unfold room_id_of in G.
    destruct (rooms w !! r); [eauto|discriminate].
  - pose proof (Inv_createRoom roomId properties w H E) as I.
    pose proof (createRoom_frame roomId properties w) as F.
    destruct (RoomServer__createRoom roomId properties w) as [r w']. cbn in I.
    destruct F as (-> & Hs & Hc & Hk & Hr).
    split; [exact I|]. split; [exact Hs|]. split; [|split; [|split; [exact Hk|]]].
    + rewrite Hr. apply JsMap.get_set_eq.
    + pose proof (room_id_of_app_cores w w' _ _ (length (rooms w)) Hc) as G.
      rewrite decide_True in G by reflexivity. unfold room_id_of in G.
      destruct (rooms w' !! _); [eauto|discriminate].
    + intros r'. eapply (members_app_cores w w' roomId). exact Hc.
Qed.

Lemma Room_join_frame r s cl w x :
  client_of s w = Some cl -> rooms w !! r = Some x ->
  JsMap.get (cl_id cl) (members r w) = None ->
  let w' := Room_join r s w in
  sockets w' = sockets w /\ server w' = server w /\
  members r w' = JsMap.set (cl_id cl) s (members r w) /\
  (forall r', r' <> r -> members r' w' = members r' w) /\
  (forall r', room_id_of r' w' = room_id_of r' w) /\
  total_members w' = total_members w + 1.
Proof.
  intros Hcl Hx Hfresh. unfold Room_join. rewrite Hcl.
  unfold Room_hasClient, JsMap.has. rewrite Hfresh.
  set (w1 := set_room r (update_clients (JsMap.set (cl_id cl) s)) w).
  destruct (Room_emit_member_frame r (Joined s) w1) as (Hs & Hr & Hv); [discriminate|].
  cbn zeta. assert (Hxm : room_clients x = members r w) by (unfold members; now rewrite Hx).
  assert (Hm : forall r', members r' (Room_emit r (Joined s) w1) = members r' w1).
  { intros r'. unfold members. now rewrite Hr. }
  split; [exact Hs|]. split; [exact Hv|]. split; [|split; [|split]].
  - rewrite Hm. unfold w1. rewrite (members_update_eq r _ w x Hx). now rewrite Hxm.
  - intros r' Hr'. rewrite Hm. now apply members_set_room_ne.
  - intros r'. unfold room_id_of. rewrite Hr. apply room_id_of_update.
  - transitivity (total_members w1); [unfold total_members; now rewrite Hr|].
    unfold w1. rewrite (total_members_update r _ w x Hx). rewrite Hxm.
    rewrite (JsMap.length_set_fresh _ _ _ Hfresh). lia.
Qed.

Lemma Room_join_listening r s w r' :
  listening r' (Room_join r s w) = listening r' w.
Proof.
  unfold Room_join. destruct (client_of s w) as [cl|]; [|reflexivity].
  destruct (Room_hasClient _ _ _); [reflexivity|].
  set (w1 := set_room r _ w).
  destruct (Room_emit_member_frame r (Joined s) w1) as (_ & Hr & _); [discriminate|].
  unfold listening at 1. rewrite Hr. apply listening_update.
Qed.

Lemma Inv_connectClient s token w k :
  Inv w -> sockets w !! s = Some k -> sk_client k = None -> on_token k = false ->
  Inv (RoomServer__connectClient s token w).1.
Proof.
  intros H Hk Hnc Hnt. unfold RoomServer__connectClient.
  pose proof (getRoom_spec (tk_roomId token) (tk_roomProperties token) w H) as G.
  destruct (RoomServer__getRoom _ _ w) as [r w1].
  destruct G as (I1 & Hs1 & Hg1 & [x Hx] & Hn1 & Hm1).
  destruct (Room_hasClient r (tk_clientId token) w1) eqn:Hhas; [exact I1|].
  cbn [fst].
  set (cl := {| cl_id := tk_clientId token; cl_properties := tk_clientProperties token;
                cl_missedPings := 0 |}).
  set (w2 := set_socket s (with_client cl) w1).
  assert (Hk1 : sockets w1 !! s = Some k) by now rewrite Hs1.
  assert (Hcl2 : client_of s w2 = Some cl).
  { unfold client_of, w2. cbn. rewrite list_lookup_alter_eq, Hk1. reflexivity. }
  assert (Hfresh : JsMap.get (cl_id cl) (members r w2) = None).
  { apply JsMap.has_false_get. exact Hhas. }
  destruct (Room_join_frame r s cl w2 x Hcl2 Hx Hfresh) as (Hs3 & Hv3 & Hmr & Hmo & Hi & Ht).
  set (w3 := Room_join r s w2) in *.
  split.
  - apply (Inv0_admitted s r cl w1 _ k (proj1 I1) Hk1 Hnc Hnt).
    + eauto.
    + exact Hfresh.
    + cbn. rewrite Hs3. unfold w2. cbn. now rewrite list_alter_alter_eq.
    + cbn. now rewrite Hv3.
    + exact Hi.
    + intros r'. apply (Room_join_listening r s w2 r').
    + exact Hmr.
    + exact Hmo.
  - cbn. rewrite Hv3. cbn. rewrite (proj2 I1).
    unfold total_members at 2. cbn. fold (total_members w3). rewrite Ht.
    reflexivity.
Qed.

Lemma Inv_reject s msg w : Inv w -> Inv (reject s msg w).
Proof.
  intros H. unfold reject, ws_close, ws_send.
  apply Inv_close_state. now do 2 apply Inv_emit.
Qed.

Section JwtFacts.

Variable jwt_verify : string -> string -> string -> Z -> option ITokenOptions.

Lemma Inv_handleClient_message s data now w k :
  Inv w -> sockets w !! s = Some k -> sk_client k = None -> on_token k = false ->
  Inv (RoomServer__handleClient_message jwt_verify s data now w).
Proof.
  intros H Hk Hnc Hnt. unfold RoomServer__handleClient_message.
  destruct (RoomServer__authenticate jwt_verify data now w) as [msg|token].
  - now apply Inv_reject.
  - pose proof (Inv_connectClient s token w k H Hk Hnc Hnt) as I.
    destruct (RoomServer__connectClient s token w) as [w' [msg|]]; cbn in I.
    + now apply Inv_reject.
    + exact I.
Qed.

Lemma Inv_forEach_room visit entries w :
  (forall r w, Inv w -> Inv (visit r w)) ->
  Inv w -> Inv (forEach_room entries visit w).
Proof.
  intros Hv. revert w. induction entries as [|[k r] rest IH]; intros w H; simpl.
  - exact H.
  - apply IH. destruct (JsMap.get k (srv_rooms (server w))) as [r'|]; [|exact H].
    destruct (Nat.eqb r' r); auto.
Qed.

Lemma Inv_stop w : Inv w -> Inv (RoomServer_stop_callback w).
Proof.
  intros H. unfold RoomServer_stop_callback.
  do 2 apply Inv_emit.
  assert (I : Inv (forEach_room (srv_rooms (server w)) RoomServer__removeRoom w)).
  { apply Inv_forEach_room; [|exact H]. intros r w'. apply Inv_removeRoom. }
  destruct I as [I In]. split; [|exact In].
  eapply Inv0_ext; [| | | |exact I]; reflexivity.
Qed.

Lemma Inv_new_socket w :
  Inv w ->
  Inv {| server := server w; rooms := rooms w;
         sockets := sockets w ++ [new_socket]; log := log w |}.
Proof.
  intros [[H1 H2 H3 H4 H5 H5c H6 H7 H8] Hn].
  set (w' := {| server := server w; rooms := rooms w;
                sockets := sockets w ++ [new_socket]; log := log w |}).
  assert (Hl : forall s k, sockets w' !! s = Some k ->
               sockets w !! s = Some k \/ (sockets w !! s = None /\ k = new_socket)).
  { intros s k. cbn. intros G. apply lookup_app_Some in G as [G|[Hge G]]; [now left|].
    right. split; [now apply lookup_ge_None|].
    apply list_lookup_singleton_Some in G. symmetry. tauto. }
  assert (Hold : forall s k, sockets w !! s = Some k -> sockets w' !! s = Some k).
  { intros s k G. cbn. now apply lookup_app_l_Some. }
  split; [split|exact Hn]; auto.
  - intros c r. unfold socket_on_close, client_of.
    destruct (sockets w' !! c) as [k|] eqn:Ek; [|discriminate].
    destruct (Hl _ _ Ek) as [G|[_ ->]]; [|discriminate].
    intros E. specialize (H2 c r). unfold socket_on_close, client_of in H2.
    rewrite G in H2. exact (H2 E).
  - intros r k c G. destruct (H3 _ _ _ G) as [cl [Hcl Hid]]. exists cl. split; [|exact Hid].
    unfold client_of in *. destruct (sockets w !! c) as [k0|] eqn:Ek; [|discriminate].
    now rewrite (Hold _ _ Ek).
  - intros r k c G. destruct (H3 _ _ _ G) as [cl [Hcl _]]. specialize (H4 _ _ _ G).
    unfold socket_on_close, client_of, Client__isClosing, socket_state in *.
    destruct (sockets w !! c) as [k0|] eqn:Ek; [|discriminate].
    now rewrite (Hold _ _ Ek).
  - intros s k G. destruct (Hl _ _ G) as [G'|[_ ->]]; [eauto|reflexivity].
  - intros s k r G. destruct (Hl _ _ G) as [G'|[_ ->]]; [eauto|discriminate].
Qed.

Lemma Inv_step w i : Inv w -> Inv (step jwt_verify w i).
Proof.
  intros H. destruct i as [|s data now|s|s|s|s|r|r|]; cbn [step].
  - destruct (srv_on_connection (server w)); [now apply Inv_new_socket|exact H].
  - destruct (sockets w !! s) as [k|] eqn:Ek; [|exact H].
    destruct (readyState k =? OPEN); [|exact H].
    destruct (on_token k) eqn:Et.
    + apply (Inv_handleClient_message s data now _ (with_on_token false k)).
      * apply Inv_set_socket; [|exact H]. intros k' _. cbn. repeat split; auto. discriminate.
      * cbn. rewrite list_lookup_alter_eq, Ek. reflexivity.
      * cbn. exact (inv_token w (proj1 H) s k Ek Et).
      * reflexivity.
    + destruct (on_client k); [now apply Inv_emit|exact H].
  - destruct (sockets w !! s) as [k|]; [|exact H].
    destruct (on_client k); [now apply Inv_missedPings|exact H].
  - destruct (sockets w !! s) as [k|]; [|exact H].
    destruct (on_client k); [now apply Inv_Client_terminate|exact H].
  - apply Inv_set_socket; [|exact H]. intros k _.
    destruct (readyState k =? OPEN); cbn; repeat split; auto.
  - destruct (sockets w !! s) as [k|] eqn:Ek; [|exact H].
    destruct (readyState k =? CLOSED); [exact H|].
    apply Inv_socket_emit_close.
    + apply Inv_set_socket; [|exact H]. intros k' _. cbn. repeat split; auto.
    + unfold closing, Client__isClosing, socket_state. cbn.
      rewrite list_lookup_alter_eq, Ek. reflexivity.
  - destruct (rooms w !! r) as [x|]; [|exact H].
    destruct (room_timer x); [now apply Inv_Room__pingClients|exact H].
  - now apply Inv_Room_terminate.
  - now apply Inv_stop.
Qed.

Lemma Inv_run inputs w : Inv w -> Inv (run jwt_verify w inputs).
Proof.
  revert w. induction inputs as [|i inputs IH]; intros w H; cbn.
  - exact H.
  - apply IH. now apply Inv_step.
Qed.

End JwtFacts.

Lemma Inv_new publicUrl env options : Inv (RoomServer_new publicUrl env options).
Proof.
  unfold RoomServer_new, RoomServer__sendPing. apply Inv_emit.
  split; [split|reflexivity]; cbn; intros *;
    unfold members, socket_on_close, client_of, room_id_of; cbn;
    rewrite ?lookup_nil; try discriminate; try apply NoDup_nil_2.
Qed.

(** ** Rooms that hold members stay registered (up to shutdown) *)

(** Room [r] is registered with the server under its own id. *)
Definition attached (r : nat) (w : World) : Prop :=
  exists k, room_id_of r w = Some k /\ JsMap.get k (srv_rooms (server w)) = Some r.

Definition NoOrphans (w : World) : Prop :=
  forall r, members r w <> [] -> attached r w.

Definition Inv1 (w : World) : Prop := Inv w /\ NoOrphans w.

Lemma NoOrphans_ext w w' :
  (forall r, members r w' = members r w) ->
  (forall r, room_id_of r w' = room_id_of r w) ->
  srv_rooms (server w') = srv_rooms (server w) ->
  NoOrphans w -> NoOrphans w'.
Proof.
  intros Hm Hi Hr H r. unfold attached. rewrite Hm, Hi, Hr. apply H.
Qed.

Lemma NoOrphans_cores w w' :
  cores w' = cores w -> srv_rooms (server w') = srv_rooms (server w) ->
  NoOrphans w -> NoOrphans w'.
Proof.
  intros Hc. apply NoOrphans_ext; intros.
  - now apply members_cores.
  - now apply room_id_of_cores.
Qed.

Lemma Inv1_emit e w : Inv1 w -> Inv1 (emit e w).
Proof.
  intros [H J]. split; [now apply Inv_emit|].
  eapply NoOrphans_ext; eauto; reflexivity.
Qed.

Lemma Inv1_set_socket c f w :
  Inv (set_socket c f w) -> Inv1 w -> Inv1 (set_socket c f w).
Proof.
  intros H' [H J]. split; [exact H'|].
  eapply NoOrphans_ext; eauto; reflexivity.
Qed.

Lemma attached_cores w w' r :
  cores w' = cores w -> srv_rooms (server w') = srv_rooms (server w) ->
  attached r w -> attached r w'.
Proof.
  intros Hc Hr. unfold attached. now rewrite (room_id_of_cores _ _ r Hc), Hr.
Qed.

Lemma NoOrphans_removeRoom_empty r w :
  NoOrphans w -> members r w = [] -> attached r w ->
  NoOrphans (RoomServer__removeRoom r w).
Proof.
  intros J He [k0 [Hk0 Hg0]].
  destruct (removeRoom_frame r w) as (Hs & Hc & _ & [Hr|[k [Hk Hr]]]).
  - eapply NoOrphans_cores; eauto.
  - intros r' Hne. rewrite (members_cores _ _ r' Hc) in Hne.
    destruct (J r' Hne) as [k' [Hk' Hg]]. exists k'.
    rewrite (room_id_of_cores _ _ r' Hc). split; [exact Hk'|].
    rewrite Hr. rewrite JsMap.get_delete_ne; [exact Hg|].
    intros <-. assert (k0 = k) by congruence. subst k0.
    assert (r' = r) by congruence. subst r'. contradiction.
Qed.

Lemma Inv1_listener L c r cl w :
  Inv1 w -> closing c w -> socket_on_close c w = None ->
  client_of c w = Some cl ->
  JsMap.get (cl_id cl) (members r w) = Some c ->
  Inv1 (RoomServer__disconnectClient L c r w).
Proof.
  intros [H J] Hc Hoc Hcl Hm. split; [now apply (Inv_listener L c r cl)|].
  rewrite (disconnectClient_closing L c r cl w Hc Hcl Hm). cbn zeta.
  set (w1 := set_room r (update_clients (JsMap.delete (cl_id cl))) w).
  destruct (members_Some _ _ _ _ Hm) as [x [Hx Hxm]].
  destruct (Room_emit_member_frame r (Left c) w1) as (Hs2 & Hr2 & Hv2); [discriminate|].
  set (w2 := Room_emit r (Left c) w1) in *.
  set (w4 := set_server _ _).
  assert (Hm4 : forall r', members r' w4 = members r' w1).
  { intros r'. unfold members, w4. cbn. now rewrite Hr2. }
  assert (Hi4 : forall r', room_id_of r' w4 = room_id_of r' w).
  { intros r'. unfold room_id_of, w4. cbn. rewrite Hr2. apply room_id_of_update. }
  assert (Hr4 : srv_rooms (server w4) = srv_rooms (server w)).
  { unfold w4. cbn. now rewrite Hv2. }
  assert (Ha : attached r w).
  { apply J. intros E. rewrite E in Hm. discriminate. }
  assert (J4 : NoOrphans w4).
  { intros r' Hne. unfold attached. rewrite Hi4, Hr4.
    destruct (decide (r' = r)) as [->|Hr']; [exact Ha|].
    apply J. rewrite Hm4 in Hne. unfold w1 in Hne.
    now rewrite members_set_room_ne in Hne. }
  destruct (Room_isEmpty r w4 && negb (Room_keepAlive r w4)) eqn:E; [|exact J4].
  apply andb_true_iff in E as [E _].
  apply NoOrphans_removeRoom_empty; [exact J4| |].
  - unfold Room_isEmpty, Room_clientCount in E. apply Z.eqb_eq in E.
    destruct (members r w4); [reflexivity|cbn in E; lia].
  - destruct Ha as [k [Hk Hg]]. exists k. now rewrite Hi4, Hr4.
Qed.

Lemma Inv1_socket_emit_close c w :
  Inv1 w -> closing c w -> Inv1 (socket_emit_close on_socket_close c w).
Proof.
  intros H Hc. unfold socket_emit_close.
  destruct (socket_on_close c w) as [r|] eqn:Hoc; [|exact H].
  destruct (inv_close_member w (proj1 (proj1 H)) c r Hoc) as [cl [Hcl Hm]].
  unfold on_socket_close. cbn [close_listener].
  apply (Inv1_listener _ c r cl).
  - apply Inv1_set_socket; [|exact H]. apply Inv_detach_close; [exact Hc|apply H].
  - apply closing_set_socket; auto.
  - unfold socket_on_close. cbn. rewrite list_lookup_alter_eq.
    now destruct (sockets w !! c).
  - unfold client_of in *. cbn. rewrite list_lookup_alter_eq.
    now destruct (sockets w !! c).
  - exact Hm.
Qed.

Lemma Inv1_removeAllListeners c w :
  closing c w -> Inv1 w -> Inv1 (Client__removeAllListeners c w).
Proof.
  intros Hc H. apply Inv1_set_socket; [|exact H].
  apply Inv_removeAllListeners; [exact Hc|apply H].
Qed.

Lemma Inv1_Client_disconnect c w : Inv1 w -> Inv1 (Client_disconnect on_socket_close c w).
Proof.
  intros H. unfold Client_disconnect.
  destruct (Client__isClosing c w) eqn:Hc.
  - now apply Inv1_removeAllListeners.
  - assert (Hc' : closing c (ws_close c w)).
    { apply (closing_close_state c (emit (SocketClose c) w)). exact Hc. }
    apply Inv1_removeAllListeners.
    + now apply closing_emit_close.
    + apply Inv1_socket_emit_close; [|exact Hc'].
      apply Inv1_set_socket; [|now apply Inv1_emit].
      apply Inv_close_state. apply Inv_emit. apply H.
Qed.

Lemma Inv1_Client_terminate c w : Inv1 w -> Inv1 (Client_terminate on_socket_close c w).
Proof.
  intros H. unfold Client_terminate.
  destruct (Client__isClosing c w) eqn:Hc.
  - now apply Inv1_removeAllListeners.
  - assert (Hc' : closing c (ws_terminate c w)).
    { apply (closing_close_state c (emit (SocketTerminate c) w)). exact Hc. }
    apply Inv1_removeAllListeners.
    + now apply closing_emit_close.
    + apply Inv1_socket_emit_close; [|exact Hc'].
      apply Inv1_set_socket; [|now apply Inv1_emit].
      apply Inv_close_state. apply Inv_emit. apply H.
Qed.

Lemma Inv1_Client_ping l c w : Inv1 w -> Inv1 (Client_ping on_socket_close l c w).
Proof.
  intros H. unfold Client_ping.
  destruct (Client__isClosing c w); [exact H|].
  destruct (client_of c w) as [cl|]; [|exact H].
  destruct (match l with Some _ => _ | None => _ end).
  - now apply Inv1_Client_terminate.
  - apply Inv1_emit. apply Inv1_set_socket; [|exact H].
    apply Inv_missedPings. apply H.
Qed.

Lemma forEach_member_preserves (P : World -> Prop) visit entries r w :
  (forall c w, P w -> P (visit c w)) ->
  P w -> P (forEach_member entries r visit w).
Proof.
  intros Hv. revert w. induction entries as [|[k c] rest IH]; intros w H; simpl.
  - exact H.
  - apply IH. destruct (JsMap.get k (members r w)) as [c'|]; [|exact H].
    destruct (Nat.eqb c' c); auto.
Qed.

Lemma Inv1_Room__pingClients r w : Inv1 w -> Inv1 (Room__pingClients on_socket_close r w).
Proof.
  intros H. unfold Room__pingClients, Room_forEach.
  destruct (rooms w !! r) as [x|]; [|exact H].
  apply forEach_member_preserves; [|exact H].
  intros c w'. apply Inv1_Client_ping.
Qed.

Lemma NoOrphans_getRoom roomId properties w :
  Inv w -> NoOrphans w ->
  NoOrphans (RoomServer__getRoom roomId properties w).2.
Proof.
  intros H J. unfold RoomServer__getRoom.
  destruct (JsMap.get roomId (srv_rooms (server w))) as [r|] eqn:E; [exact J|].
  pose proof (createRoom_frame roomId properties w) as F.
  destruct (RoomServer__createRoom roomId properties w) as [r w']. cbn.
  destruct F as (-> & Hs & Hc & Hk & Hr).
  intros r' Hne. rewrite (members_app_cores w w' _ _ r' Hc) in Hne.
  destruct (J r' Hne) as [k' [Hk' Hg]]. exists k'.
  rewrite (room_id_of_app_cores w w' _ _ r' Hc). split.
  - rewrite decide_False; [exact Hk'|]. intros ->. unfold room_id_of in Hk'.
    rewrite (proj2 (lookup_ge_None (rooms w) (length (rooms w)))) in Hk' by lia.
    discriminate.
  - rewrite Hr. rewrite JsMap.get_set_ne; [exact Hg|]. intros <-. congruence.
Qed.

Lemma Inv1_connectClient s token w k :
  Inv1 w -> sockets w !! s = Some k -> sk_client k = None -> on_token k = false ->
  Inv1 (RoomServer__connectClient s token w).1.
Proof.
  intros [H J] Hk Hnc Hnt. split; [now apply (Inv_connectClient s token w k)|].
  unfold RoomServer__connectClient.
  pose proof (getRoom_spec (tk_roomId token) (tk_roomProperties token) w H) as G.
  pose proof (NoOrphans_getRoom (tk_roomId token) (tk_roomProperties token) w H J) as J1.
  destruct (RoomServer__getRoom _ _ w) as [r w1]. cbn in J1.
  destruct G as (I1 & Hs1 & Hg1 & [x Hx] & Hn1 & Hm1).
  destruct (Room_hasClient r (tk_clientId token) w1) eqn:Hhas; [exact J1|].
  cbn [fst].
  set (cl := {| cl_id := tk_clientId token; cl_properties := tk_clientProperties token;
                cl_missedPings := 0 |}).
  set (w2 := set_socket s (with_client cl) w1).
  assert (Hk1 : sockets w1 !! s = Some k) by now rewrite Hs1.
  assert (Hcl2 : client_of s w2 = Some cl).
  { unfold client_of, w2. cbn. rewrite list_lookup_alter_eq, Hk1. reflexivity. }
  assert (Hfresh : JsMap.get (cl_id cl) (members r w2) = None).
  { apply JsMap.has_false_get. exact Hhas. }
  destruct (Room_join_frame r s cl w2 x Hcl2 Hx Hfresh) as (Hs3 & Hv3 & Hmr & Hmo & Hi & Ht).
  set (w3 := Room_join r s w2) in *.
  intros r' Hne. unfold attached. cbn.
  change (room_id_of r' (set_socket s _ (set_server _ w3))) with (room_id_of r' w3).
  rewrite Hi, Hv3.
  change (room_id_of r' w2) with (room_id_of r' w1).
  change (srv_rooms (server w2)) with (srv_rooms (server w1)).
  destruct (decide (r' = r)) as [->|Hr'].
  - exists (tk_roomId token). split; [|exact Hg1].
    exact (inv_rooms w1 (proj1 I1) _ _ Hg1).
  - apply J1. change (members r' (set_socket s _ (set_server _ w3))) with (members r' w3) in Hne.
    now rewrite Hmo in Hne.
Qed.

Lemma Inv1_reject s msg w : Inv1 w -> Inv1 (reject s msg w).
Proof.
  intros H. unfold reject, ws_close, ws_send.
  apply Inv1_set_socket; [|now do 2 apply Inv1_emit].
  apply Inv_close_state. do 2 apply Inv_emit. apply H.
Qed.

(** The inputs that remove rooms which may still hold members. *)
Definition removes_rooms (i : Input) : bool :=
  match i with
  | Stop | Terminate _ => true
  | _ => false
  end.

Section JwtFacts1.

Variable jwt_verify : string -> string -> string -> Z -> option ITokenOptions.

Lemma Inv1_handleClient_message s data now w k :
  Inv1 w -> sockets w !! s = Some k -> sk_client k = None -> on_token k = false ->
  Inv1 (RoomServer__handleClient_message jwt_verify s data now w).
Proof.
  intros H Hk Hnc Hnt. unfold RoomServer__handleClient_message.
  destruct (RoomServer__authenticate jwt_verify data now w) as [msg|token].
  - now apply Inv1_reject.
  - pose proof (Inv1_connectClient s token w k H Hk Hnc Hnt) as I.
    destruct (RoomServer__connectClient s token w) as [w' [msg|]]; cbn in I.
    + now apply Inv1_reject.
    + exact I.
Qed.

Lemma Inv1_step w i :
  removes_rooms i = false -> Inv1 w -> Inv1 (step jwt_verify w i).
Proof.
  intros Hi H. pose proof (Inv_step jwt_verify w i (proj1 H)) as H'.
  destruct i as [|s data now|s|s|s|s|r|r|]; cbn [step] in *; try discriminate.
  - destruct (srv_on_connection (server w)); [|exact H].
    split; [exact H'|]. eapply NoOrphans_ext; [..|apply H]; reflexivity.
  - destruct (sockets w !! s) as [k|] eqn:Ek; [|exact H].
    destruct (readyState k =? OPEN); [|exact H].
    destruct (on_token k) eqn:Et.
    + apply (Inv1_handleClient_message s data now _ (with_on_token false k)).
      * apply Inv1_set_socket; [|exact H].
        apply Inv_set_socket; [|apply H]. intros k' _. cbn. repeat split; auto. discriminate.
      * cbn. rewrite list_lookup_alter_eq, Ek. reflexivity.
      * cbn. exact (inv_token w (proj1 (proj1 H)) s k Ek Et).
      * reflexivity.
    + destruct (on_client k); [now apply Inv1_emit|exact H].
  - destruct (sockets w !! s) as [k|]; [|exact H].
    destruct (on_client k); [now apply Inv1_set_socket|exact H].
  - destruct (sockets w !! s) as [k|]; [|exact H].
    destruct (on_client k); [now apply Inv1_Client_terminate|exact H].
  - now apply Inv1_set_socket.
  - destruct (sockets w !! s) as [k|] eqn:Ek; [|exact H].
    destruct (readyState k =? CLOSED); [exact H|].
    apply Inv1_socket_emit_close.
    + apply Inv1_set_socket; [|exact H].
      apply Inv_set_socket; [|apply H]. intros k' _. cbn. repeat split; auto.
    + unfold closing, Client__isClosing, socket_state. cbn.
      rewrite list_lookup_alter_eq, Ek. reflexivity.
  - destruct (rooms w !! r) as [x|]; [|exact H].
    destruct (room_timer x); [now apply Inv1_Room__pingClients|exact H].
Qed.

Lemma Inv1_run inputs w :
  forallb (fun i => negb (removes_rooms i)) inputs = true ->
  Inv1 w -> Inv1 (run jwt_verify w inputs).
Proof.
  revert w. induction inputs as [|i inputs IH]; intros w Hq H; cbn in *.
  - exact H.
  - apply andb_true_iff in Hq as [Hi Hq]. apply IH; [exact Hq|].
    apply Inv1_step; [|exact H]. now apply negb_true_iff.
Qed.

End JwtFacts1.

Lemma Inv1_new publicUrl env options : Inv1 (RoomServer_new publicUrl env options).
Proof.
  split; [apply Inv_new|]. intros r Hne. exfalso. apply Hne.
  unfold members, RoomServer_new, RoomServer__sendPing. cbn. now rewrite lookup_nil.
Qed.

(** With every non-empty room registered, counting over the registered
    rooms is counting over all room objects. *)
Lemma sum_list_with_zero {A} (h : A -> nat) (l : list A) :
  (forall x, x ∈ l -> h x = 0%nat) -> sum_list_with h l = 0%nat.
Proof.
  induction l as [|x l IH]; intros H; simpl; [reflexivity|].
  rewrite (H x) by apply list_elem_of_here. rewrite IH; [reflexivity|].
  intros y Hy. apply H. now apply list_elem_of_further.
Qed.

Lemma total_members_seq w :
  total_members w
  = Z.of_nat (sum_list_with (fun r => length (members r w)) (seq 0 (length (rooms w)))).
Proof.
  unfold total_members, members. f_equal.
  generalize (rooms w). intros l.
  assert (G : forall (l0 l : list Room),
    sum_list_with (fun x => length (room_clients x)) l =
    sum_list_with (fun r => length match (l0 ++ l) !! r with
                                  | Some x => room_clients x | None => [] end)
      (seq (length l0) (length l))).
  { clear. intros l0 l. revert l0. induction l as [|x l IH]; intros l0; simpl; [reflexivity|].
    rewrite list_lookup_middle by reflexivity. f_equal.
    specialize (IH (l0 ++ [x])). rewrite <- app_assoc in IH. cbn in IH.
    rewrite length_app in IH. cbn in IH. rewrite Nat.add_1_r in IH. exact IH. }
  exact (G [] l).
Qed.

Lemma values_NoDup {V} (m : list (string * V)) (g : V -> option string) :
  JsMap.wf m -> (forall k v, (k, v) ∈ m -> g v = Some k) -> NoDup (JsMap.values m).
Proof.
  unfold JsMap.wf, JsMap.values, JsMap.keys.
  induction m as [|[k v] m IH]; intros Hwf Hg; simpl; [apply NoDup_nil_2|].
  apply NoDup_cons in Hwf as [Hni Hwf]. apply NoDup_cons. split.
  - intros Hin. apply list_elem_of_fmap in Hin as [[k' v'] [E Hin]]. cbn in E. subst v'.
    apply Hni. apply list_elem_of_fmap. exists (k', v). split; [|exact Hin]. cbn.
    assert (E1 : g v = Some k) by (apply Hg; apply list_elem_of_here).
    assert (E2 : g v = Some k') by (apply Hg; now apply list_elem_of_further).
    congruence.
  - apply IH; [exact Hwf|]. intros k' v' Hin. apply Hg. now apply list_elem_of_further.
Qed.

Lemma attached_values w r :
  Inv0 w -> (r ∈ JsMap.values (srv_rooms (server w)) <-> attached r w).
Proof.
  intros H. unfold attached, JsMap.values. split.
  - intros Hin. apply list_elem_of_fmap in Hin as [[k r'] [E Hin]]. cbn in E. subst r'.
    exists k. apply JsMap.In_get in Hin; [|apply H]. split; [|exact Hin].
    now apply (inv_rooms w H).
  - intros [k [_ Hg]]. apply JsMap.get_In in Hg.
    apply list_elem_of_fmap. exists (k, r). auto.
Qed.

Lemma attached_members_values w :
  attached_members w
  = Z.of_nat (sum_list_with (fun r => length (members r w))
                (JsMap.values (srv_rooms (server w)))).
Proof.
  unfold attached_members, JsMap.values. f_equal.
  induction (srv_rooms (server w)) as [|[k r] m IH]; simpl; [reflexivity|].
  now rewrite IH.
Qed.

Lemma total_members_attached w :
  Inv0 w -> NoOrphans w -> total_members w = attached_members w.
Proof.
  intros H J. rewrite total_members_seq, attached_members_values. f_equal.
  set (vals := JsMap.values (srv_rooms (server w))).
  set (n := length (rooms w)).
  assert (Hnd : NoDup vals).
  { apply (values_NoDup _ (fun r => room_id_of r w)); [apply H|].
    intros k r Hin. apply JsMap.In_get in Hin; [|apply H]. now apply (inv_rooms w H). }
  assert (Hsub : vals ⊆+ seq 0 n).
  { apply NoDup_submseteq; [exact Hnd|]. intros r Hin.
    apply attached_values in Hin as [k [Hk _]]; [|exact H].
    apply elem_of_seq. unfold room_id_of in Hk.
    destruct (rooms w !! r) as [x|] eqn:Ex; [|discriminate].
    apply lookup_lt_Some in Ex. unfold n. lia. }
  apply submseteq_Permutation in Hsub as [rest Hperm].
  rewrite Hperm, sum_list_with_app.
  rewrite (sum_list_with_zero _ rest); [lia|].
  intros r Hin.
  assert (Hnd' : NoDup (vals ++ rest)) by (rewrite <- Hperm; apply NoDup_seq).
  apply NoDup_app in Hnd' as (_ & Hdisj & _).
  destruct (members r w) as [|p l] eqn:E; [reflexivity|].
  exfalso. assert (Ha : attached r w) by (apply J; rewrite E; discriminate).
  apply attached_values in Ha; [|exact H]. exact (Hdisj r Ha Hin).
Qed.

(** * A concrete server for examples

    A stand-in for the token library: a token is the text [room/client],
    valid for the server [rs-a] and accepted whatever the secret and the
    time. *)

Fixpoint split_at (sep : Ascii.ascii) (s : string) : option (string * string) :=
  match s with
  | EmptyString => None
  | String a s' =>
      if Ascii.eqb a sep then Some (EmptyString, s')
      else match split_at sep s' with
           | Some (l, r) => Some (String a l, r)
           | None => None
           end
  end.

Definition demo_token (publicUrl room client : string) : ITokenOptions :=
  {| tk_publicUrl := publicUrl; tk_roomId := room; tk_roomProperties := JUndefined;
     tk_clientId := client; tk_clientProperties := JUndefined;
     tk_joinOnly := None; tk_expiresIn := None |}.

Definition demo_verify (token secret subject : string) (now : Z) : option ITokenOptions :=
  if String.eqb subject "joinRoom" then
    match split_at "/"%char token with
    | Some (room, client) => Some (demo_token "rs-a" room client)
    | None => None
    end
  else None.

Definition demo_server : World := RoomServer_new "rs-a" None None.

(** * C1: [clientCount] and the sizes of the rooms *)

(** Two clients join room [R1], the shutdown callback runs, then the close
    of the first socket is handled: the server has no room left and still
    counts one client. *)
Definition shutdown_run : list Input :=
  [Connection; Message 0 "R1/C1" 0; Connection; Message 1 "R1/C2" 0; Stop; Close 0].

(** C1, counterexample: after a socket close handled by the server,
    [clientCount] is 1 while the server's rooms (there are none left) hold 0
    clients in total; the client is still a member of the room object that
    the shutdown removed. *)
Lemma clientCount_after_shutdown_counterexample :
  let w := run demo_verify demo_server shutdown_run in
  srv_rooms (server w) = [] /\
  attached_members w = 0 /\
  srv_clientCount (server w) = 1 /\
  members 0 w = [("C2", 1%nat)] /\
  srv_clientCount (server w) <> attached_members w.
Proof. vm_compute. repeat split; congruence. Qed.

(** C1, as amended: after every step of every run, [clientCount] is the
    number of members of all the rooms the server has created, registered
    or already removed; and in a run without shutdown and without
    [terminate()] no room is removed while it holds members, so
    [clientCount] is the sum of the sizes of the server's rooms. *)
Theorem clientCount_is_sum_of_room_sizes
    (jwt_verify : string -> string -> string -> Z -> option ITokenOptions)
    (publicUrl : string) (env_DISCOVERY_SECRET : option string)
    (options : option IRoomServerOptions) (inputs : list Input) :
  let w := run jwt_verify (RoomServer_new publicUrl env_DISCOVERY_SECRET options) inputs in
  srv_clientCount (server w) = total_members w /\
  (forallb (fun i => negb (removes_rooms i)) inputs = true ->
   srv_clientCount (server w) = attached_members w).
Proof.
  cbn zeta. split.
  - apply Inv_run. apply Inv_new.
  - intros Hq.
    pose proof (Inv1_run jwt_verify inputs _ Hq (Inv1_new publicUrl env_DISCOVERY_SECRET options))
      as [[H Hn] J].
    rewrite Hn. now apply total_members_attached.
Qed.

Lemma clientCount_is_sum_of_room_sizes_witness :
  let w := run demo_verify demo_server
             [Connection; Message 0 "R1/C1" 0; Connection; Message 1 "R1/C2" 0; Close 0] in
  srv_clientCount (server w) = attached_members w.
Proof.
  apply (proj2 (clientCount_is_sum_of_room_sizes demo_verify "rs-a" None None
                  [Connection; Message 0 "R1/C1" 0; Connection; Message 1 "R1/C2" 0; Close 0])).
  reflexivity.
Defined.

(** * C4, C5, C6: the admission path *)

(** The envelope sent on a rejection. *)
Definition envelope (message : string) : json :=
  JObj [("error", JStr "Authentication Failed"); ("message", JStr message)].

(** C5: a socket whose first frame is a token that verifies but names
    another server's [publicUrl] is sent the envelope with the message
    [The authentication token is intended for another room server.] and is
    closed; the server (its [clientCount] and its room map) and all rooms
    are unchanged. *)
Theorem wrong_server_rejected
    (jwt_verify : string -> string -> string -> Z -> option ITokenOptions)
    (w : World) (s : nat) (k : Socket) (data : string) (now : Z) (token : ITokenOptions) :
  sockets w !! s = Some k -> readyState k = OPEN -> on_token k = true ->
  jwt_verify data (srv_tokenSecret (server w)) "joinRoom" now = Some token ->
  tk_publicUrl token <> srv_publicUrl (server w) ->
  let w' := step jwt_verify w (Message s data now) in
  log w' = SocketClose s
             :: SocketSend s
                  (envelope "The authentication token is intended for another room server.")
             :: log w /\
  socket_state s w' = Some CLOSING /\
  server w' = server w /\
  rooms w' = rooms w.
Proof.
  intros Hk Ho Ht Hv Hurl. cbn [step]. rewrite Hk, Ho, Ht. cbn [Z.eqb OPEN Pos.eqb].
  unfold RoomServer__handleClient_message, RoomServer__authenticate.
  cbn [server set_socket]. rewrite Hv.
  destruct (String.eqb_spec (tk_publicUrl token) (srv_publicUrl (server w))) as [E|_];
    [contradiction|].
  cbn. repeat split.
  unfold socket_state. cbn. rewrite list_lookup_alter_eq, list_lookup_alter_eq, Hk.
  cbn. unfold close_state. cbn. now rewrite Ho.
Qed.

Lemma wrong_server_rejected_witness :
  let w := run demo_verify (RoomServer_new "rs-b" None None) [Connection] in
  let w' := step demo_verify w (Message 0 "R1/C1" 0) in
  log w' = SocketClose 0
             :: SocketSend 0
                  (envelope "The authentication token is intended for another room server.")
             :: log w /\
  socket_state 0 w' = Some CLOSING /\
  server w' = server w /\
  rooms w' = rooms w.
Proof.
  apply (wrong_server_rejected demo_verify
           (run demo_verify (RoomServer_new "rs-b" None None) [Connection])
           0%nat new_socket "R1/C1" 0 (demo_token "rs-a" "R1" "C1"));
    try reflexivity.
  vm_compute. discriminate.
Defined.

(** C4: a socket whose first frame is a token accepted by [_authenticate]
    and naming a room that already holds a client with the token's
    [clientId] is sent the envelope with the message
    [You are already connected to this room.] and is closed; the server, the
    rooms (membership and size) and every other socket are unchanged. *)
Theorem duplicate_client_rejected
    (jwt_verify : string -> string -> string -> Z -> option ITokenOptions)
    (w : World) (s r : nat) (k : Socket) (data : string) (now : Z) (token : ITokenOptions) :
  sockets w !! s = Some k -> readyState k = OPEN -> on_token k = true ->
  jwt_verify data (srv_tokenSecret (server w)) "joinRoom" now = Some token ->
  tk_publicUrl token = srv_publicUrl (server w) ->
  JsMap.get (tk_roomId token) (srv_rooms (server w)) = Some r ->
  Room_hasClient r (tk_clientId token) w = true ->
  let w' := step jwt_verify w (Message s data now) in
  log w' = SocketClose s
             :: SocketSend s (envelope "You are already connected to this room.")
             :: log w /\
  socket_state s w' = Some CLOSING /\
  server w' = server w /\
  rooms w' = rooms w /\
  (forall s', s' <> s -> sockets w' !! s' = sockets w !! s').
Proof.
  intros Hk Ho Ht Hv Hurl Hr Hhas. cbn [step]. rewrite Hk, Ho, Ht. cbn [Z.eqb OPEN Pos.eqb].
  unfold RoomServer__handleClient_message, RoomServer__authenticate.
  cbn [server set_socket]. rewrite Hv, Hurl, String.eqb_refl. cbn [negb].
  unfold RoomServer__connectClient, RoomServer__getRoom. cbn [server set_socket].
  rewrite Hr.
  change (Room_hasClient r (tk_clientId token) (set_socket s (with_on_token false) w))
    with (Room_hasClient r (tk_clientId token) w).
  rewrite Hhas. cbn. repeat split.
  - unfold socket_state. cbn. rewrite list_lookup_alter_eq, list_lookup_alter_eq, Hk.
    cbn. unfold close_state. cbn. now rewrite Ho.
  - intros s' Hs'. now rewrite !list_lookup_alter_ne by congruence.
Qed.

Lemma duplicate_client_rejected_witness :
  let w := run demo_verify demo_server [Connection; Message 0 "R1/C1" 0; Connection] in
  let w' := step demo_verify w (Message 1 "R1/C1" 0) in
  log w' = SocketClose 1
             :: SocketSend 1 (envelope "You are already connected to this room.")
             :: log w /\
  socket_state 1 w' = Some CLOSING /\
  server w' = server w /\
  rooms w' = rooms w /\
  (forall s', s' <> 1%nat -> sockets w' !! s' = sockets w !! s').
Proof.
  apply (duplicate_client_rejected demo_verify
           (run demo_verify demo_server [Connection; Message 0 "R1/C1" 0; Connection])
           1%nat 0%nat new_socket "R1/C1" 0 (demo_token "rs-a" "R1" "C1"));
    reflexivity.
Defined.

Definition with_joinOnly (j : option bool) (t : ITokenOptions) : ITokenOptions :=
  {| tk_publicUrl := tk_publicUrl t; tk_roomId := tk_roomId t;
     tk_roomProperties := tk_roomProperties t; tk_clientId := tk_clientId t;
     tk_clientProperties := tk_clientProperties t; tk_joinOnly := j;
     tk_expiresIn := tk_expiresIn t |}.

Lemma lookup_alter_snoc {A} (f : A -> A) (l : list A) (x : A) :
  alter f (length l) (l ++ [x]) = l ++ [f x].
Proof.
  rewrite alter_app_r_alt by lia. now rewrite Nat.sub_diag.
Qed.

Lemma lookup_snoc {A} (l : list A) (x : A) : (l ++ [x]) !! length l = Some x.
Proof. now rewrite list_lookup_middle. Qed.


(** ** The log only grows *)

Lemma notify_log r subj payload w :
  exists l, log (RoomServer__notify r subj payload w) = l ++ log w.
Proof.
  unfold RoomServer__notify. destruct (rooms w !! r); cbn.
  - eexists [_]. reflexivity.
  - now exists [].
Qed.

Lemma removeRoom_log r w :
  exists l, log (RoomServer__removeRoom r w) = l ++ log w.
Proof.
  unfold RoomServer__removeRoom. destruct (rooms w !! r); [|now exists []].
  destruct (negb _); [now exists []|]. cbn.
  destruct (server_syncRooms _); cbn.
  - unfold RoomServer__notify. cbn. destruct (alter _ r (rooms w) !! r); cbn.
    + eexists [_; _]. reflexivity.
    + eexists [_]. reflexivity.
  - eexists [_]. reflexivity.
Qed.

Lemma Room_emit_log r e w :
  exists l, log (Room_emit r e w) = l ++ RoomEmit r e :: log w.
Proof.
  unfold Room_emit. cbn zeta.
  set (w1 := emit (RoomEmit r e) w).
  change (RoomEmit r e :: log w) with (log w1).
  destruct (rooms w1 !! r) as [x|]; [|now exists []].
  destruct e as [c|c|].
  - destruct (room_on_sync x); [|now exists []].
    destruct (client_of c w1); [apply notify_log|now exists []].
  - destruct (room_on_sync x); [|now exists []].
    destruct (client_of c w1); [apply notify_log|now exists []].
  - destruct (room_on_terminated x); [apply removeRoom_log|now exists []].
Qed.

Lemma Room_join_rooms r s cl w :
  client_of s w = Some cl -> Room_hasClient r (cl_id cl) w = false ->
  rooms (Room_join r s w) = alter (update_clients (JsMap.set (cl_id cl) s)) r (rooms w) /\
  exists l, log (Room_join r s w) = l ++ RoomEmit r (Joined s) :: log w.
Proof.
  intros Hcl Hhas. unfold Room_join. rewrite Hcl, Hhas.
  set (w1 := set_room r _ w).
  destruct (Room_emit_member_frame r (Joined s) w1) as (_ & Hr & _); [discriminate|].
  split; [exact Hr|]. apply (Room_emit_log r (Joined s) w1).
Qed.

Lemma admission_creates_room
    (jwt_verify : string -> string -> string -> Z -> option ITokenOptions)
    (w : World) (s : nat) (k : Socket) (data : string) (now : Z) (token : ITokenOptions) :
  sockets w !! s = Some k -> readyState k = OPEN -> on_token k = true ->
  jwt_verify data (srv_tokenSecret (server w)) "joinRoom" now = Some token ->
  tk_publicUrl token = srv_publicUrl (server w) ->
  JsMap.get (tk_roomId token) (srv_rooms (server w)) = None ->
  let w' := step jwt_verify w (Message s data now) in
  let r := length (rooms w) in
  JsMap.get (tk_roomId token) (srv_rooms (server w')) = Some r /\
  (exists x, rooms w' !! r = Some x /\
     room_id x = tk_roomId token /\
     room_properties x = tk_roomProperties token /\
     room_options x = defaults_roomOptions (roomOptions (srv_options (server w))) /\
     room_clients x = [(tk_clientId token, s)]) /\
  client_of s w' = Some {| cl_id := tk_clientId token;
                           cl_properties := tk_clientProperties token;
                           cl_missedPings := 0 |} /\
  socket_on_close s w' = Some r /\
  socket_state s w' = Some OPEN /\
  srv_clientCount (server w') = srv_clientCount (server w) + 1 /\
  ServerEmit (NewRoom r) ∈ log w' /\
  RoomEmit r (Joined s) ∈ log w'.
Proof.
  intros Hk Ho Ht Hv Hurl Hr. cbn [step]. rewrite Hk, Ho, Ht. cbn [Z.eqb OPEN Pos.eqb].
  unfold RoomServer__handleClient_message, RoomServer__authenticate.
  cbn [server set_socket]. rewrite Hv, Hurl, String.eqb_refl. cbn [negb].
  unfold RoomServer__connectClient, RoomServer__getRoom. cbn [server set_socket].
  rewrite Hr.
  set (w0 := set_socket s (with_on_token false) w).
  pose proof (createRoom_frame (tk_roomId token) (tk_roomProperties token) w0) as F.
  assert (Hx : exists x, rooms (RoomServer__createRoom (tk_roomId token)
                                   (tk_roomProperties token) w0).2 !! length (rooms w)
                         = Some x /\
     room_id x = tk_roomId token /\
     room_properties x = tk_roomProperties token /\
     room_options x = defaults_roomOptions (roomOptions (srv_options (server w))) /\
     room_clients x = [] /\
     room_publicUrl x = srv_publicUrl (server w) /\
     ServerEmit (NewRoom (length (rooms w)))
       ∈ log (RoomServer__createRoom (tk_roomId token) (tk_roomProperties token) w0).2).
  { unfold RoomServer__createRoom, server_syncRooms, server_syncClients, RoomServer__notify.
    cbn. rewrite lookup_snoc. cbn.
    destruct (opt_true (syncRooms _)); [destruct (opt_true (syncClients _))|]; cbn;
      rewrite ?lookup_alter_snoc, ?lookup_snoc; cbn;
      eexists; (split; [reflexivity|]); cbn; repeat split;
      repeat first [apply list_elem_of_here | apply list_elem_of_further]. }
  destruct (RoomServer__createRoom _ _ w0) as [r w1]. cbn [snd] in Hx.
  destruct F as (-> & Hs1 & Hc1 & Hn1 & Hr1).
  destruct Hx as (x & Hx & Hxi & Hxp & Hxo & Hxc & Hxu & Hlog).
  change (length (rooms w0)) with (length (rooms w)) in *.
  set (r := length (rooms w)) in *.
  assert (Hnot : Room_hasClient r (tk_clientId token) w1 = false).
  { unfold Room_hasClient, members. now rewrite Hx, Hxc. }
  rewrite Hnot.
  set (cl := {| cl_id := tk_clientId token; cl_properties := tk_clientProperties token;
                cl_missedPings := 0 |}).
  set (w2 := set_socket s (with_client cl) w1).
  assert (Hk1 : sockets w1 !! s = Some (with_on_token false k)).
  { rewrite Hs1. cbn. now rewrite list_lookup_alter_eq, Hk. }
  assert (Hcl2 : client_of s w2 = Some cl).
  { unfold client_of, w2. cbn. rewrite list_lookup_alter_eq, Hk1. reflexivity. }
  assert (Hfresh : JsMap.get (cl_id cl) (members r w2) = None).
  { apply JsMap.has_false_get. exact Hnot. }
  destruct (Room_join_frame r s cl w2 x Hcl2 Hx Hfresh) as (Hs3 & Hv3 & Hmr & Hmo & Hi & _).
  destruct (Room_join_rooms r s cl w2 Hcl2 Hnot) as (Hr3 & l3 & Hl3).
  assert (Hlog3 : RoomEmit r (Joined s) ∈ log (Room_join r s w2) /\
                  ServerEmit (NewRoom r) ∈ log (Room_join r s w2)).
  { rewrite Hl3. split.
    - apply elem_of_app. right. apply list_elem_of_here.
    - apply elem_of_app. right. now apply list_elem_of_further. }
  set (w3 := Room_join r s w2) in *.
  cbn [fst]. cbn [server set_socket set_server log rooms].
  split; [|split; [|split; [|split; [|split; [|split; [|split]]]]]].
  - cbn. rewrite Hv3. cbn. rewrite Hr1. apply JsMap.get_set_eq.
  - rewrite Hr3. rewrite list_lookup_alter_eq. change (rooms w2) with (rooms w1).
    rewrite Hx. cbn.
    eexists. split; [reflexivity|]. cbn. rewrite Hxc. cbn.
    repeat split; assumption.
  - unfold client_of. cbn. rewrite list_lookup_alter_eq, Hs3. cbn.
    rewrite list_lookup_alter_eq, Hk1. reflexivity.
  - unfold socket_on_close. cbn. rewrite list_lookup_alter_eq, Hs3. cbn.
    rewrite list_lookup_alter_eq, Hk1. reflexivity.
  - unfold socket_state. cbn. rewrite list_lookup_alter_eq, Hs3. cbn.
    rewrite list_lookup_alter_eq, Hk1. cbn. now rewrite Ho.
  - cbn. rewrite Hv3. cbn. now rewrite Hn1.
  - apply Hlog3.
  - apply Hlog3.
Qed.

(** C6: the admission path never reads [joinOnly].  A socket whose first
    frame is an accepted token with [joinOnly = true] for a room id the
    server does not know gets the room created (with the token's
    [roomProperties] and the server's default room options) and is joined to
    it: the room is registered, holds exactly this client, [clientCount] is
    incremented, the socket stays open and gets its close listener; and
    [_connectClient] gives the same result whatever the value of
    [joinOnly]. *)
Theorem joinOnly_not_enforced
    (jwt_verify : string -> string -> string -> Z -> option ITokenOptions)
    (w : World) (s : nat) (k : Socket) (data : string) (now : Z) (token : ITokenOptions) :
  sockets w !! s = Some k -> readyState k = OPEN -> on_token k = true ->
  jwt_verify data (srv_tokenSecret (server w)) "joinRoom" now = Some token ->
  tk_publicUrl token = srv_publicUrl (server w) ->
  tk_joinOnly token = Some true ->
  JsMap.get (tk_roomId token) (srv_rooms (server w)) = None ->
  let w' := step jwt_verify w (Message s data now) in
  let r := length (rooms w) in
  JsMap.get (tk_roomId token) (srv_rooms (server w')) = Some r /\
  (exists x, rooms w' !! r = Some x /\
     room_id x = tk_roomId token /\
     room_properties x = tk_roomProperties token /\
     room_options x = defaults_roomOptions (roomOptions (srv_options (server w))) /\
     room_clients x = [(tk_clientId token, s)]) /\
  client_of s w' = Some {| cl_id := tk_clientId token;
                           cl_properties := tk_clientProperties token;
                           cl_missedPings := 0 |} /\
  socket_on_close s w' = Some r /\
  socket_state s w' = Some OPEN /\
  srv_clientCount (server w') = srv_clientCount (server w) + 1 /\
  ServerEmit (NewRoom r) ∈ log w' /\
  RoomEmit r (Joined s) ∈ log w' /\
  (forall j, RoomServer__connectClient s (with_joinOnly j token) w
             = RoomServer__connectClient s token w).
Proof.
  intros Hk Ho Ht Hv Hurl Hj Hr.
  pose proof (admission_creates_room jwt_verify w s k data now token Hk Ho Ht Hv Hurl Hr) as H.
  cbn zeta in *. destruct H as (H1 & H2 & H3 & H4 & H5 & H6 & H7 & H8).
  repeat (split; [assumption|]). intros j. reflexivity.
Qed.

Lemma joinOnly_not_enforced_witness :
  let token := with_joinOnly (Some true) (demo_token "rs-a" "R1" "C1") in
  let verify := fun _ _ _ _ => Some token in
  let w := run verify demo_server [Connection] in
  let w' := step verify w (Message 0 "any" 0) in
  JsMap.get "R1" (srv_rooms (server w')) = Some 0%nat /\
  members 0 w' = [("C1", 0%nat)] /\
  srv_clientCount (server w') = 1.
Proof.
  pose proof (joinOnly_not_enforced
                (fun _ _ _ _ => Some (with_joinOnly (Some true) (demo_token "rs-a" "R1" "C1")))
                (run demo_verify demo_server [Connection]) 0%nat new_socket "any" 0
                (with_joinOnly (Some true) (demo_token "rs-a" "R1" "C1"))
                eq_refl eq_refl eq_refl eq_refl eq_refl eq_refl eq_refl) as H.
  cbn zeta in H. destruct H as (H1 & _ & _ & _ & _ & H6 & _).
  split; [exact H1|]. split; [reflexivity|exact H6].
Defined.

(** ** What an operation on one client leaves alone *)

Definition room_meta (r : nat) (w : World) : option (bool * IRoomOptions) :=
  (fun x => (room_timer x, room_options x)) <$> rooms w !! r.

(** [Frame c' w w']: going from [w] to [w'] only socket [c'] changed, rooms
    lost no member other than [c'] and gained none, the log grew, and a room
    that still has members kept its timer and options; no client changed
    its id. *)
Record Frame (c' : nat) (w w' : World) : Prop := {
  fr_sockets : forall c, c <> c' -> sockets w' !! c = sockets w !! c;
  fr_shrink : forall r k v,
    JsMap.get k (members r w') = Some v -> JsMap.get k (members r w) = Some v;
  fr_keep : forall r k v,
    JsMap.get k (members r w) = Some v -> v <> c' -> JsMap.get k (members r w') = Some v;
  fr_client : forall c, cl_id <$> client_of c w' = cl_id <$> client_of c w;
  fr_log : exists l, log w' = l ++ log w;
  fr_meta : forall r, members r w' <> [] -> room_meta r w' = room_meta r w
}.

Lemma Frame_refl c' w : Frame c' w w.
Proof. split; auto. now exists []. Qed.

Lemma Frame_trans c' w1 w2 w3 : Frame c' w1 w2 -> Frame c' w2 w3 -> Frame c' w1 w3.
Proof.
  intros [A1 A2 A3 Ac [l1 A4] A5] [B1 B2 B3 Bc [l2 B4] B5]. split.
  - intros c Hc. rewrite B1, A1; auto.
  - eauto.
  - eauto.
  - intros c. now rewrite Bc, Ac.
  - exists (l2 ++ l1). rewrite B4, A4. now rewrite app_assoc.
  - intros r Hne. rewrite B5 by assumption. apply A5.
    destruct (members r w3) as [|[k v] l] eqn:E; [contradiction|].
    assert (G : JsMap.get k (members r w3) = Some v).
    { rewrite E. cbn. now rewrite String.eqb_refl. }
    apply B2 in G. intros E2. rewrite E2 in G. discriminate.
Qed.

Lemma Frame_same c' w w' :
  sockets w' = sockets w -> rooms w' = rooms w ->
  (exists l, log w' = l ++ log w) -> Frame c' w w'.
Proof.
  intros Hs Hr Hl.
  assert (Hm : forall r, members r w' = members r w) by (intros; unfold members; now rewrite Hr).
  split; intros *; unfold client_of; rewrite ?Hs, ?Hm; auto.
  intros _. unfold room_meta. now rewrite Hr.
Qed.

Lemma Frame_emit c' e w : Frame c' w (emit e w).
Proof. apply Frame_same; try reflexivity. now exists [e]. Qed.

Lemma Frame_set_socket c' f w :
  (forall k, cl_id <$> sk_client (f k) = cl_id <$> sk_client k) ->
  Frame c' w (set_socket c' f w).
Proof.
  intros Hf. split; auto.
  - intros c Hc. cbn. now apply list_lookup_alter_ne.
  - intros c. unfold client_of. cbn. destruct (decide (c' = c)) as [->|Hc].
    + rewrite list_lookup_alter_eq. destruct (sockets w !! c); cbn; [apply Hf|reflexivity].
    + now rewrite list_lookup_alter_ne.
  - now exists [].
Qed.

Lemma close_state_client k : cl_id <$> sk_client (close_state k) = cl_id <$> sk_client k.
Proof. unfold close_state. now destruct (readyState k <? CLOSING). Qed.

Lemma with_missedPings_client z k :
  cl_id <$> sk_client (with_missedPings z k) = cl_id <$> sk_client k.
Proof. cbn. now destruct (sk_client k). Qed.

Lemma Frame_set_server c' f w : Frame c' w (set_server f w).
Proof. apply Frame_same; try reflexivity. now exists []. Qed.

Lemma Frame_Room_emit c' r e w : e <> Terminated -> Frame c' w (Room_emit r e w).
Proof.
  intros He. destruct (Room_emit_member_frame r e w He) as (Hs & Hr & _).
  apply Frame_same; auto.
  destruct (Room_emit_log r e w) as [l Hl]. exists (l ++ [RoomEmit r e]).
  rewrite Hl. now rewrite <- app_assoc.
Qed.

Lemma room_meta_flags r r' f w :
  r' <> r -> room_meta r' (set_room r f w) = room_meta r' w.
Proof. intros H. unfold room_meta. cbn. now rewrite list_lookup_alter_ne by congruence. Qed.

Lemma Frame_removeRoom_empty c' r w :
  members r w = [] -> Frame c' w (RoomServer__removeRoom r w).
Proof.
  intros He. destruct (removeRoom_frame r w) as (Hs & Hc & _ & _).
  assert (Hm : forall r', members r' (RoomServer__removeRoom r w) = members r' w).
  { intros r'. now apply members_cores. }
  split; intros *; unfold client_of; rewrite ?Hm, ?Hs; auto.
  - apply removeRoom_log.
  - intros Hne. assert (Hr : r0 <> r) by congruence.
    unfold RoomServer__removeRoom. destruct (rooms w !! r) as [x|]; [|reflexivity].
    destruct (negb _); [reflexivity|].
    unfold server_syncRooms, RoomServer__notify, Room_clearPingInterval. cbn.
    destruct (opt_true _); cbn.
    + rewrite list_lookup_alter_eq. destruct (rooms w !! r); cbn;
        unfold room_meta; cbn; now rewrite !list_lookup_alter_ne by congruence.
    + unfold room_meta; cbn; now rewrite !list_lookup_alter_ne by congruence.
Qed.

Lemma Frame_delete_member c' r cl w :
  JsMap.wf (members r w) ->
  JsMap.get (cl_id cl) (members r w) = Some c' ->
  Frame c' w (set_room r (update_clients (JsMap.delete (cl_id cl))) w).
Proof.
  intros Hwf Hm. destruct (members_Some _ _ _ _ Hm) as [x [Hx Hxm]].
  set (w1 := set_room _ _ w).
  assert (Hmr : members r w1 = JsMap.delete (cl_id cl) (members r w)).
  { unfold w1. rewrite (members_update_eq r _ w x Hx). now rewrite Hxm. }
  assert (Hmo : forall r', r' <> r -> members r' w1 = members r' w).
  { intros r' Hr'. now apply members_set_room_ne. }
  split; auto.
  - intros r' k v G. destruct (decide (r' = r)) as [->|Hr'].
    + rewrite Hmr in G. now apply get_delete_Some in G.
    + now rewrite Hmo in G.
  - intros r' k v G Hv. destruct (decide (r' = r)) as [->|Hr'].
    + rewrite Hmr. rewrite JsMap.get_delete_ne; [exact G|]. intros <-. congruence.
    + now rewrite Hmo.
  - now exists [].
  - intros r' _. unfold room_meta, w1. cbn. destruct (decide (r = r')) as [->|Hr'].
    + rewrite list_lookup_alter_eq. now destruct (rooms w !! r').
    + now rewrite list_lookup_alter_ne.
Qed.

Lemma Frame_listener L c' r cl w :
  JsMap.wf (members r w) -> closing c' w -> client_of c' w = Some cl ->
  JsMap.get (cl_id cl) (members r w) = Some c' ->
  Frame c' w (RoomServer__disconnectClient L c' r w).
Proof.
  intros Hwf Hc Hcl Hm.
  rewrite (disconnectClient_closing L c' r cl w Hc Hcl Hm). cbn zeta.
  set (w1 := set_room r (update_clients (JsMap.delete (cl_id cl))) w).
  set (w2 := Room_emit r (Left c') w1).
  set (w3 := Client__removeAllListeners c' w2).
  set (w4 := set_server _ w3).
  assert (F4 : Frame c' w w4).
  { eapply Frame_trans; [apply (Frame_delete_member c' r cl w Hwf Hm)|].
    eapply Frame_trans; [apply (Frame_Room_emit c' r (Left c') w1); discriminate|].
    eapply Frame_trans; [apply (Frame_set_socket c' with_no_listeners w2); reflexivity|].
    apply Frame_set_server. }
  destruct (Room_isEmpty r w4 && negb (Room_keepAlive r w4)) eqn:E; [|exact F4].
  apply andb_true_iff in E as [E _].
  eapply Frame_trans; [exact F4|]. apply Frame_removeRoom_empty.
  unfold Room_isEmpty, Room_clientCount in E. apply Z.eqb_eq in E.
  destruct (members r w4); [reflexivity|cbn in E; lia].
Qed.

Lemma Frame_socket_emit_close c' w :
  Inv w -> closing c' w -> Frame c' w (socket_emit_close on_socket_close c' w).
Proof.
  intros H Hc. unfold socket_emit_close.
  destruct (socket_on_close c' w) as [r|] eqn:Hoc; [|apply Frame_refl].
  destruct (inv_close_member w (proj1 H) c' r Hoc) as [cl [Hcl Hm]].
  unfold on_socket_close. cbn [close_listener].
  eapply Frame_trans; [apply (Frame_set_socket c' (with_on_close None) w); reflexivity|].
  apply (Frame_listener _ c' r cl).
  - apply (inv_members_wf w (proj1 H)).
  - apply closing_set_socket; auto.
  - unfold client_of in *. cbn. rewrite list_lookup_alter_eq.
    now destruct (sockets w !! c').
  - exact Hm.
Qed.

Lemma Frame_Client_terminate c' w :
  Inv w -> Frame c' w (Client_terminate on_socket_close c' w).
Proof.
  intros H. unfold Client_terminate.
  destruct (Client__isClosing c' w) eqn:Hc.
  - now apply Frame_set_socket.
  - assert (Hc' : closing c' (ws_terminate c' w)).
    { apply (closing_close_state c' (emit (SocketTerminate c') w)). exact Hc. }
    eapply Frame_trans; [apply (Frame_emit c' (SocketTerminate c') w)|].
    eapply Frame_trans; [apply (Frame_set_socket c' close_state), close_state_client|].
    eapply Frame_trans; [|now apply Frame_set_socket].
    apply Frame_socket_emit_close; [|exact Hc'].
    apply Inv_close_state. now apply Inv_emit.
Qed.

Lemma Frame_Client_disconnect c' w :
  Inv w -> Frame c' w (Client_disconnect on_socket_close c' w).
Proof.
  intros H. unfold Client_disconnect.
  destruct (Client__isClosing c' w) eqn:Hc.
  - now apply Frame_set_socket.
  - assert (Hc' : closing c' (ws_close c' w)).
    { apply (closing_close_state c' (emit (SocketClose c') w)). exact Hc. }
    eapply Frame_trans; [apply (Frame_emit c' (SocketClose c') w)|].
    eapply Frame_trans; [apply (Frame_set_socket c' close_state), close_state_client|].
    eapply Frame_trans; [|now apply Frame_set_socket].
    apply Frame_socket_emit_close; [|exact Hc'].
    apply Inv_close_state. now apply Inv_emit.
Qed.

Lemma Frame_Client_ping l c' w :
  Inv w -> Frame c' w (Client_ping on_socket_close l c' w).
Proof.
  intros H. unfold Client_ping.
  destruct (Client__isClosing c' w); [apply Frame_refl|].
  destruct (client_of c' w) as [cl|]; [|apply Frame_refl].
  destruct (match l with Some _ => _ | None => _ end).
  - now apply Frame_Client_terminate.
  - eapply Frame_trans; [apply Frame_set_socket, with_missedPings_client|]. apply Frame_emit.
Qed.

(** ** What was logged between two worlds *)

Definition grows (w w' : World) : Prop := exists l, log w' = l ++ log w.

Definition sent (e : Effect) (w w' : World) : Prop :=
  exists l, log w' = l ++ log w /\ e ∈ l.

Lemma grows_refl w : grows w w.
Proof. now exists []. Qed.

Lemma grows_trans w1 w2 w3 : grows w1 w2 -> grows w2 w3 -> grows w1 w3.
Proof.
  intros [l1 H1] [l2 H2]. exists (l2 ++ l1). rewrite H2, H1. now rewrite app_assoc.
Qed.

Lemma sent_grows e w1 w2 w3 : sent e w1 w2 -> grows w2 w3 -> sent e w1 w3.
Proof.
  intros (l1 & H1 & Hin) [l2 H2]. exists (l2 ++ l1). rewrite H2, H1.
  split; [now rewrite app_assoc|]. apply elem_of_app. now right.
Qed.

Lemma grows_sent e w1 w2 w3 : grows w1 w2 -> sent e w2 w3 -> sent e w1 w3.
Proof.
  intros [l1 H1] (l2 & H2 & Hin). exists (l2 ++ l1). rewrite H2, H1.
  split; [now rewrite app_assoc|]. apply elem_of_app. now left.
Qed.

Lemma sent_emit e w : sent e w (emit e w).
Proof. exists [e]. split; [reflexivity|apply list_elem_of_here]. Qed.

Lemma grows_set_socket c f w : grows w (set_socket c f w).
Proof. now exists []. Qed.

(** ** The close listener removes the member and reports it *)

Lemma listener_effect L c r cl w :
  JsMap.wf (members r w) -> closing c w -> client_of c w = Some cl ->
  JsMap.get (cl_id cl) (members r w) = Some c ->
  let w' := RoomServer__disconnectClient L c r w in
  JsMap.get (cl_id cl) (members r w') = None /\ sent (RoomEmit r (Left c)) w w'.
Proof.
  intros Hwf Hc Hcl Hm.
  rewrite (disconnectClient_closing L c r cl w Hc Hcl Hm). cbn zeta.
  destruct (members_Some _ _ _ _ Hm) as [x [Hx Hxm]].
  set (w1 := set_room r (update_clients (JsMap.delete (cl_id cl))) w).
  destruct (Room_emit_member_frame r (Left c) w1) as (Hs2 & Hr2 & Hv2); [discriminate|].
  destruct (Room_emit_log r (Left c) w1) as [l2 Hl2].
  set (w2 := Room_emit r (Left c) w1) in *.
  set (w4 := set_server _ _).
  assert (Hm4 : JsMap.get (cl_id cl) (members r w4) = None).
  { unfold members, w4. cbn. rewrite Hr2. fold (members r w1). unfold w1.
    rewrite (members_update_eq r _ w x Hx), Hxm. now apply JsMap.get_delete_eq. }
  assert (Hl4 : sent (RoomEmit r (Left c)) w w4).
  { exists (l2 ++ [RoomEmit r (Left c)]). cbn. rewrite Hl2. cbn.
    split; [now rewrite <- app_assoc|]. apply elem_of_app. right. apply list_elem_of_here. }
  destruct (_ && _); [|auto]. split.
  - destruct (removeRoom_frame r w4) as (_ & Hc4 & _).
    now rewrite (members_cores _ _ r Hc4).
  - eapply sent_grows; [exact Hl4|]. apply removeRoom_log.
Qed.

(** ** One visit of the heartbeat *)

Lemma client_of_set_socket c c' f w :
  (forall k, sk_client (f k) = sk_client k) ->
  client_of c' (set_socket c f w) = client_of c' w.
Proof.
  intros Hf. unfold client_of. cbn. destruct (decide (c = c')) as [->|Hne].
  - rewrite list_lookup_alter_eq. destruct (sockets w !! c'); cbn; [apply Hf|reflexivity].
  - now rewrite list_lookup_alter_ne.
Qed.

Lemma socket_on_close_set_socket c c' f w :
  (forall k, on_close (f k) = on_close k) ->
  socket_on_close c' (set_socket c f w) = socket_on_close c' w.
Proof.
  intros Hf. unfold socket_on_close. cbn. destruct (decide (c = c')) as [->|Hne].
  - rewrite list_lookup_alter_eq. destruct (sockets w !! c'); cbn; [apply Hf|reflexivity].
  - now rewrite list_lookup_alter_ne.
Qed.

Lemma close_state_fields k :
  sk_client (close_state k) = sk_client k /\ on_close (close_state k) = on_close k.
Proof. unfold close_state. now destruct (readyState k <? CLOSING). Qed.

Lemma open_member_listener r k c w :
  Inv w -> JsMap.get k (members r w) = Some c -> Client__isClosing c w = false ->
  socket_on_close c w = Some r.
Proof.
  intros H Hm Hc. destruct (inv_member_close w (proj1 H) r k c Hm) as [E|[_ E]];
    [exact E|congruence].
Qed.

Lemma ping_evicts L c r cl w :
  Inv w -> JsMap.get (cl_id cl) (members r w) = Some c -> client_of c w = Some cl ->
  Client__isClosing c w = false -> L <= cl_missedPings cl ->
  let w' := Client_ping on_socket_close (Some L) c w in
  sent (SocketTerminate c) w w' /\ sent (RoomEmit r (Left c)) w w' /\
  closing c w' /\ JsMap.get (cl_id cl) (members r w') = None.
Proof.
  intros H Hm Hcl Hc HL. cbn zeta. unfold Client_ping. rewrite Hc, Hcl.
  rewrite (proj2 (Z.leb_le _ _) HL). unfold Client_terminate. rewrite Hc.
  pose proof (open_member_listener r _ c w H Hm Hc) as Hoc.
  set (w1 := ws_terminate c w).
  assert (Hc1 : closing c w1).
  { apply (closing_close_state c (emit (SocketTerminate c) w)). exact Hc. }
  assert (Hoc1 : socket_on_close c w1 = Some r).
  { unfold w1, ws_terminate.
    rewrite socket_on_close_set_socket by (intros; apply close_state_fields). exact Hoc. }
  assert (Hcl1 : client_of c w1 = Some cl).
  { unfold w1, ws_terminate.
    rewrite client_of_set_socket by (intros; apply close_state_fields). exact Hcl. }
  assert (S1 : sent (SocketTerminate c) w w1).
  { exists [SocketTerminate c]. split; [reflexivity|apply list_elem_of_here]. }
  unfold socket_emit_close. rewrite Hoc1. unfold on_socket_close. cbn [close_listener].
  set (w2 := set_socket c (with_on_close None) w1).
  destruct (listener_effect (close_listener 0) c r cl w2) as [Hm3 S3].
  - apply (inv_members_wf w (proj1 H)).
  - apply closing_set_socket; auto.
  - unfold w2. now rewrite client_of_set_socket by reflexivity.
  - exact Hm.
  - set (w3 := RoomServer__disconnectClient _ c r w2) in *.
    assert (Hc3 : closing c w3).
    { unfold closing, Client__isClosing, w3. rewrite socket_state_listener.
      - apply (closing_set_socket c c (with_on_close None) w1); auto.
      - apply closing_set_socket; auto. }
    repeat split.
    + eapply sent_grows; [exact S1|]. destruct S3 as (l & Hl & _). now exists l.
    + apply (grows_sent _ w w2); [|exact S3]. now exists [SocketTerminate c].
    + apply closing_set_socket; auto.
    + exact Hm3.
Qed.

Lemma ping_counts L c cl w :
  client_of c w = Some cl -> Client__isClosing c w = false -> cl_missedPings cl < L ->
  let w' := Client_ping on_socket_close (Some L) c w in
  sent (SocketPing c) w w' /\
  client_of c w' = Some {| cl_id := cl_id cl; cl_properties := cl_properties cl;
                           cl_missedPings := cl_missedPings cl + 1 |} /\
  Client__isClosing c w' = false /\
  rooms w' = rooms w.
Proof.
  intros Hcl Hc HL. cbn zeta. unfold Client_ping. rewrite Hc, Hcl.
  rewrite (proj2 (Z.leb_gt _ _) HL). repeat split.
  - exists [SocketPing c]. split; [reflexivity|apply list_elem_of_here].
  - unfold client_of in *. cbn. rewrite list_lookup_alter_eq.
    destruct (sockets w !! c) as [k0|]; [|discriminate]. cbn in *. now rewrite Hcl.
  - unfold Client__isClosing, socket_state in *. cbn. rewrite list_lookup_alter_eq.
    now destruct (sockets w !! c).
Qed.

(** ** One heartbeat tick, seen from one member *)

Lemma forEach_member_app l1 l2 r visit w :
  forEach_member (l1 ++ l2) r visit w
  = forEach_member l2 r visit (forEach_member l1 r visit w).
Proof.
  revert w. induction l1 as [|[k c] l1 IH]; intros w; simpl; [reflexivity|]. apply IH.
Qed.

Lemma forEach_member_inv (P : World -> Prop) entries r visit w :
  (forall k' c' w, (k', c') ∈ entries -> P w ->
     JsMap.get k' (members r w) = Some c' -> P (visit c' w)) ->
  P w -> P (forEach_member entries r visit w).
Proof.
  revert w. induction entries as [|[k c] rest IH]; intros w Hv H; simpl; [exact H|].
  apply IH.
  - intros k' c' w' Hin. apply Hv. now apply list_elem_of_further.
  - destruct (JsMap.get k (members r w)) as [c'|] eqn:E; [|exact H].
    destruct (Nat.eqb_spec c' c) as [->|Hne]; [|exact H].
    apply (Hv k c w); [apply list_elem_of_here|exact H|exact E].
Qed.

Lemma split_entry (m : list (string * nat)) id c :
  JsMap.wf m -> JsMap.get id m = Some c ->
  exists l1 l2, m = l1 ++ (id, c) :: l2 /\
    (forall k v, (k, v) ∈ l1 -> k <> id) /\ (forall k v, (k, v) ∈ l2 -> k <> id).
Proof.
  unfold JsMap.wf, JsMap.keys.
  induction m as [|[k v] m IH]; simpl; intros Hwf Hg; [discriminate|].
  apply NoDup_cons in Hwf as [Hni Hwf].
  destruct (String.eqb_spec id k) as [->|Hne].
  - inversion Hg; subst v. exists [], m. split; [reflexivity|]. split.
    + intros k' v' Hin. now apply elem_of_nil in Hin.
    + intros k' v' Hin ->. apply Hni. apply list_elem_of_fmap. exists (k, v'). auto.
  - destruct (IH Hwf Hg) as (l1 & l2 & -> & H1 & H2).
    exists ((k, v) :: l1), l2. split; [reflexivity|]. split; [|exact H2].
    intros k' v' Hin. apply elem_of_cons in Hin as [E|Hin]; [|eauto].
    inversion E; subst. congruence.
Qed.

(** While the other members are visited, member [c] of room [r] is left as
    it was. *)
Definition Undisturbed (r c : nat) (id : string) (w0 w : World) : Prop :=
  Inv w /\ sockets w !! c = sockets w0 !! c /\
  JsMap.get id (members r w) = Some c /\
  room_meta r w = room_meta r w0 /\ grows w0 w.

Lemma Undisturbed_visit l r c id w0 w k' c' :
  Undisturbed r c id w0 w -> k' <> id ->
  JsMap.get k' (members r w) = Some c' ->
  Undisturbed r c id w0 (Client_ping on_socket_close l c' w).
Proof.
  intros (H & Hs & Hm & Hmeta & Hg) Hk Hm'.
  assert (Hc : c <> c').
  { intros <-.
    destruct (inv_member_client w (proj1 H) r id c Hm) as [cl1 [E1 I1]].
    destruct (inv_member_client w (proj1 H) r k' c Hm') as [cl2 [E2 I2]]. congruence. }
  destruct (Frame_Client_ping l c' w H) as [F1 F2 F3 F4 F5 F6].
  assert (Hm2 : JsMap.get id (members r (Client_ping on_socket_close l c' w)) = Some c)
    by (apply F3; auto).
  split; [now apply Inv_Client_ping|]. split; [now rewrite F1|]. split; [exact Hm2|].
  split.
  - rewrite F6; [exact Hmeta|]. intros E. rewrite E in Hm2. discriminate.
  - eapply grows_trans; [exact Hg|exact F5].
Qed.

(** Once member [c] has been removed, it stays removed while the others are
    visited. *)
Definition Evicted (r c : nat) (id : string) (w0 w : World) : Prop :=
  Inv w /\ sockets w !! c = sockets w0 !! c /\
  JsMap.get id (members r w) = None /\ grows w0 w.

Lemma Evicted_visit l r c id cl w0 w k' c' :
  client_of c w0 = Some cl -> cl_id cl = id ->
  Evicted r c id w0 w -> k' <> id ->
  JsMap.get k' (members r w) = Some c' ->
  Evicted r c id w0 (Client_ping on_socket_close l c' w).
Proof.
  intros Hcl Hid (H & Hs & Hm & Hg) Hk Hm'.
  assert (Hc : c <> c').
  { intros <-.
    destruct (inv_member_client w (proj1 H) r k' c Hm') as [cl2 [E2 I2]].
    unfold client_of in *. rewrite Hs, Hcl in E2. congruence. }
  destruct (Frame_Client_ping l c' w H) as [F1 F2 F3 F4 F5 F6].
  split; [now apply Inv_Client_ping|]. split; [now rewrite F1|]. split.
  - destruct (JsMap.get id (members r (Client_ping on_socket_close l c' w))) as [v|] eqn:E;
      [|reflexivity]. apply F2 in E. congruence.
  - eapply grows_trans; [exact Hg|exact F5].
Qed.

Definition bump (cl : Client) : Client :=
  {| cl_id := cl_id cl; cl_properties := cl_properties cl;
     cl_missedPings := cl_missedPings cl + 1 |}.

Lemma tick_member r x id c cl L w :
  Inv w -> rooms w !! r = Some x -> missedPingsLimit (room_options x) = Some L ->
  JsMap.get id (members r w) = Some c -> client_of c w = Some cl ->
  Client__isClosing c w = false ->
  let w' := Room__pingClients on_socket_close r w in
  Inv w' /\
  if L <=? cl_missedPings cl
  then sent (SocketTerminate c) w w' /\ sent (RoomEmit r (Left c)) w w' /\
       Client__isClosing c w' = true /\ JsMap.get id (members r w') = None
  else sent (SocketPing c) w w' /\ client_of c w' = Some (bump cl) /\
       Client__isClosing c w' = false /\ JsMap.get id (members r w') = Some c /\
       room_meta r w' = room_meta r w.
Proof.
  intros H Hx HL Hm Hcl Hc. cbn zeta.
  split; [now apply Inv_Room__pingClients|].
  unfold Room__pingClients, Room_forEach. rewrite Hx, HL.
  destruct (inv_member_client w (proj1 H) r id c Hm) as [cl' [Hcl' Hid]].
  assert (cl' = cl) by congruence. subst cl'.
  destruct (split_entry (members r w) id c (inv_members_wf w (proj1 H) r) Hm)
    as (l1 & l2 & Hsplit & Hl1 & Hl2).
  rewrite Hsplit, forEach_member_app.
  set (visit := Client_ping on_socket_close (Some L)).
  (* the members before [c] *)
  assert (U1 : Undisturbed r c id w (forEach_member l1 r visit w)).
  { apply (forEach_member_inv (Undisturbed r c id w)).
    - intros k' c' w1 Hin U Hg.
      apply (Undisturbed_visit _ r c id w w1 k' c'); [exact U|eapply Hl1, Hin|exact Hg].
    - split; [exact H|]. split; [reflexivity|]. split; [exact Hm|].
      split; [reflexivity|apply grows_refl]. }
  set (w1 := forEach_member l1 r visit w) in *.
  destruct U1 as (H1 & Hs1 & Hm1 & Hmeta1 & Hg1).
  assert (Hcl1 : client_of c w1 = Some cl) by (unfold client_of in *; now rewrite Hs1).
  assert (Hc1 : Client__isClosing c w1 = false)
    by (unfold Client__isClosing, socket_state in *; now rewrite Hs1).
  (* the visit of [c] *)
  cbn [forEach_member]. rewrite Hm1, Nat.eqb_refl.
  set (w2 := visit c w1).
  assert (H2 : Inv w2) by now apply Inv_Client_ping.
  destruct (Z.leb_spec L (cl_missedPings cl)) as [Hle|Hlt].
  - (* evicted *)
    rewrite <- Hid in Hm1.
    destruct (ping_evicts L c r cl w1 H1 Hm1 Hcl1 Hc1 Hle) as (S1 & S2 & Hc2 & Hm2).
    fold visit in S1, S2, Hc2, Hm2. fold w2 in S1, S2, Hc2, Hm2. rewrite Hid in Hm2.
    assert (Hcl2 : cl_id <$> client_of c w2 = Some id).
    { rewrite (fr_client c w1 w2 (Frame_Client_ping (Some L) c w1 H1)).
      rewrite Hcl1. cbn. now rewrite Hid. }
    destruct (client_of c w2) as [cl2|] eqn:Ecl2; [|discriminate].
    assert (E3 : Evicted r c id w2 (forEach_member l2 r visit w2)).
    { apply (forEach_member_inv (Evicted r c id w2)).
      - intros k' c' w3 Hin U Hg.
        apply (Evicted_visit _ r c id cl2 w2 w3 k' c');
          [exact Ecl2|cbn in Hcl2; congruence|exact U|eapply Hl2, Hin|exact Hg].
      - split; [exact H2|]. split; [reflexivity|]. split; [exact Hm2|apply grows_refl]. }
    destruct E3 as (H3 & Hs3 & Hm3 & Hg3).
    split; [|split; [|split]].
    + apply (grows_sent _ w w1); [exact Hg1|]. eapply sent_grows; eauto.
    + apply (grows_sent _ w w1); [exact Hg1|]. eapply sent_grows; eauto.
    + unfold closing, Client__isClosing, socket_state in *. now rewrite Hs3.
    + exact Hm3.
  - (* pinged *)
    destruct (ping_counts L c cl w1 Hcl1 Hc1 Hlt) as (S1 & Hcl2 & Hc2 & Hr2).
    fold visit in S1, Hcl2, Hc2, Hr2. fold w2 in S1, Hcl2, Hc2, Hr2.
    assert (Hm2 : JsMap.get id (members r w2) = Some c).
    { unfold members. rewrite Hr2. exact Hm1. }
    assert (U3 : Undisturbed r c id w2 (forEach_member l2 r visit w2)).
    { apply (forEach_member_inv (Undisturbed r c id w2)).
      - intros k' c' w3 Hin U Hg.
        apply (Undisturbed_visit _ r c id w2 w3 k' c'); [exact U|eapply Hl2, Hin|exact Hg].
      - split; [exact H2|]. split; [reflexivity|]. split; [exact Hm2|].
        split; [reflexivity|apply grows_refl]. }
    destruct U3 as (H3 & Hs3 & Hm3 & Hmeta3 & Hg3).
    split; [|split; [|split; [|split]]].
    + apply (grows_sent _ w w1); [exact Hg1|]. eapply sent_grows; eauto.
    + unfold client_of in *. now rewrite Hs3.
    + unfold Client__isClosing, socket_state in *. now rewrite Hs3.
    + exact Hm3.
    + rewrite Hmeta3. unfold room_meta at 1. rewrite Hr2. exact Hmeta1.
Qed.

(** * C3: the heartbeat *)

Definition heartbeat_options : option IRoomServerOptions :=
  Some {| syncRooms := None; syncClients := None;
          roomOptions := Some {| pingInterval := Some 50; missedPingsLimit := Some 2;
                                 keepAlive := None |} |}.

Definition heartbeat_server : World := RoomServer_new "rs-a" None heartbeat_options.

(** C3, counterexample: a member whose socket is already closing (the peer
    has started the closing handshake, the ['close'] event has not been
    delivered yet).  Its counter (0) is below the limit (2), yet a tick
    neither increments the counter nor sends a ping nor terminates the
    client: the tick leaves the world as it is, however often it fires. *)
Lemma heartbeat_skips_closing_member_counterexample :
  let w := run demo_verify heartbeat_server
             [Connection; Message 0 "R1/C1" 0; Closing 0] in
  members 0 w = [("C1", 0%nat)] /\
  room_meta 0 w = Some (true, {| pingInterval := Some 50; missedPingsLimit := Some 2;
                                 keepAlive := Some false |}) /\
  cl_missedPings <$> client_of 0 w = Some 0 /\
  socket_state 0 w = Some CLOSING /\
  step demo_verify w (Tick 0) = w /\
  forall n, run demo_verify w (repeat (Tick 0) n) = w.
Proof.
  cbn zeta.
  set (w := run demo_verify heartbeat_server [Connection; Message 0 "R1/C1" 0; Closing 0]).
  assert (Hstep : step demo_verify w (Tick 0) = w) by (vm_compute; reflexivity).
  do 4 (split; [vm_compute; reflexivity|]).
  split; [exact Hstep|].
  intros n. induction n as [|n IH]; [reflexivity|].
  cbn [repeat run fold_left]. rewrite Hstep. exact IH.
Qed.

Definition reset (cl : Client) : Client :=
  {| cl_id := cl_id cl; cl_properties := cl_properties cl; cl_missedPings := 0 |}.

Section Heartbeat.

Variable jwt_verify : string -> string -> string -> Z -> option ITokenOptions.
Variables (r c : nat) (id : string) (L : Z) (opts : IRoomOptions).
Hypothesis limit : missedPingsLimit opts = Some L.

(** Member [c] of room [r] has an open socket and has missed [m] pings;
    the room's timer is running. *)
Definition Alive (m : Z) (w : World) : Prop :=
  Inv w /\ room_meta r w = Some (true, opts) /\
  JsMap.get id (members r w) = Some c /\
  (exists cl, client_of c w = Some cl /\ cl_missedPings cl = m) /\
  Client__isClosing c w = false.

Lemma step_Tick w :
  room_meta r w = Some (true, opts) ->
  step jwt_verify w (Tick r) = Room__pingClients on_socket_close r w /\
  exists x, rooms w !! r = Some x /\ missedPingsLimit (room_options x) = Some L.
Proof using limit.
  unfold room_meta. cbn [step]. destruct (rooms w !! r) as [x|]; [|discriminate].
  cbn. intros E. inversion E as [[Et Eo]]. rewrite Et. split; [reflexivity|].
  exists x. split; [reflexivity|]. now rewrite Eo.
Qed.

Lemma Alive_tick m w :
  Alive m w -> m < L -> Alive (m + 1) (step jwt_verify w (Tick r)).
Proof using limit.
  intros (H & Hmeta & Hm & (cl & Hcl & Hmiss) & Hc) Hlt.
  destruct (step_Tick w Hmeta) as (-> & x & Hx & HL).
  destruct (tick_member r x id c cl L w H Hx HL Hm Hcl Hc) as [H' T].
  rewrite (proj2 (Z.leb_gt _ _)) in T by lia.
  destruct T as (_ & Hcl' & Hc' & Hm' & Hmeta').
  split; [exact H'|]. split; [congruence|]. split; [exact Hm'|]. split; [|exact Hc'].
  exists (bump cl). split; [exact Hcl'|]. cbn. lia.
Qed.

Lemma Alive_ticks n m w :
  Alive m w -> m + Z.of_nat n <= L ->
  Alive (m + Z.of_nat n) (run jwt_verify w (repeat (Tick r) n)).
Proof using limit.
  revert m w. induction n as [|n IH]; intros m w HA Hle.
  - cbn. now rewrite Z.add_0_r.
  - cbn [repeat run fold_left]. replace (m + Z.of_nat (S n)) with ((m + 1) + Z.of_nat n) by lia.
    apply IH; [|lia]. apply Alive_tick; [exact HA|lia].
Qed.

Lemma Alive_evicted m w :
  Alive m w -> L <= m ->
  let w' := step jwt_verify w (Tick r) in
  sent (SocketTerminate c) w w' /\ sent (RoomEmit r (Left c)) w w' /\
  Client__isClosing c w' = true /\ JsMap.get id (members r w') = None.
Proof using limit.
  intros (H & Hmeta & Hm & (cl & Hcl & Hmiss) & Hc) Hle. cbn zeta.
  destruct (step_Tick w Hmeta) as (-> & x & Hx & HL).
  destruct (tick_member r x id c cl L w H Hx HL Hm Hcl Hc) as [H' T].
  rewrite (proj2 (Z.leb_le _ _)) in T by lia. exact T.
Qed.

End Heartbeat.

(** * C9: a terminated room *)

(** The [Room] class keeps no record of having been terminated: a room
    built on its own, terminated, and then handed a client still admits it
    and emits ['joined']. *)
Definition lone_room : World :=
  {| server := server demo_server;
     rooms := [Room_new "rs-a" "R1" JNull None];
     sockets := [with_client {| cl_id := "C1"; cl_properties := JNull;
                                cl_missedPings := 0 |} new_socket];
     log := [] |}.

(** C9, counterexample: the lone room is terminated (it has no member, so
    only ['terminated'] is emitted); [join] then adds client C1 and emits
    ['joined'] after ['terminated']. *)
Lemma join_after_terminate_counterexample :
  let w := Room_terminate on_socket_close 0 lone_room in
  log w = [RoomEmit 0 Terminated] /\
  members 0 w = [] /\
  log (Room_join 0 0 w) = [RoomEmit 0 (Joined 0); RoomEmit 0 Terminated] /\
  members 0 (Room_join 0 0 w) = [("C1", 0%nat)].
Proof. vm_compute. repeat split; reflexivity. Qed.

(** ** What cannot bring a room back *)

(** ['joined'] and ['left'] of room [r]. *)
Definition membership_event (r : nat) (e : Effect) : bool :=
  match e with
  | RoomEmit r' (Joined _) | RoomEmit r' (Left _) => Nat.eqb r' r
  | _ => false
  end.

(** [Calm P r w w']: going from [w] to [w'] no room object was lost, the
    server's map and the close listeners gained no reference to room [r],
    and a ['joined'] or ['left'] of [r] was logged only if [P]. *)
Record Calm (P : Prop) (r : nat) (w w' : World) : Prop := {
  calm_length : (length (rooms w) <= length (rooms w'))%nat;
  calm_rooms : forall k, (k, r) ∈ srv_rooms (server w') -> (k, r) ∈ srv_rooms (server w);
  calm_close : forall c, socket_on_close c w' = Some r -> socket_on_close c w = Some r;
  calm_log : exists l, log w' = l ++ log w /\
               forall e, e ∈ l -> membership_event r e = true -> P
}.

(** Some close listener still points to room [r]. *)
Definition Bound (r : nat) (w : World) : Prop :=
  exists c, socket_on_close c w = Some r.

Lemma Calm_refl P r w : Calm P r w w.
Proof.
  split; auto. exists []. split; [reflexivity|].
  intros e He. now apply elem_of_nil in He.
Qed.

Lemma Calm_trans P r w1 w2 w3 : Calm P r w1 w2 -> Calm P r w2 w3 -> Calm P r w1 w3.
Proof.
  intros [A1 A2 A3 (l1 & A4 & A5)] [B1 B2 B3 (l2 & B4 & B5)]. split.
  - lia.
  - auto.
  - auto.
  - exists (l2 ++ l1). split; [rewrite B4, A4; now rewrite app_assoc|].
    intros e He. apply elem_of_app in He as [He|He]; eauto.
Qed.

Lemma Calm_weaken (P Q : Prop) r w w' : (P -> Q) -> Calm P r w w' -> Calm Q r w w'.
Proof.
  intros HPQ [A1 A2 A3 (l & A4 & A5)]. split; auto.
  exists l. split; [exact A4|]. intros e He Hm. apply HPQ. eauto.
Qed.

Lemma Bound_Calm P r w w' : Calm P r w w' -> Bound r w' -> Bound r w.
Proof. intros [_ _ H _] [c Hc]. exists c. auto. Qed.

(** Sequencing two steps whose events are excused by a listener pointing to
    [r] at their start. *)
Lemma Calm_seq r w1 w2 w3 :
  Calm (Bound r w1) r w1 w2 -> Calm (Bound r w2) r w2 w3 -> Calm (Bound r w1) r w1 w3.
Proof.
  intros A B. eapply Calm_trans; [exact A|].
  eapply Calm_weaken; [|exact B]. exact (Bound_Calm _ r w1 w2 A).
Qed.

Lemma Calm_emit P r e w : membership_event r e = false -> Calm P r w (emit e w).
Proof.
  intros He. split; auto. exists [e]. split; [reflexivity|].
  intros e' Hin. apply list_elem_of_singleton in Hin as ->. congruence.
Qed.

Lemma Calm_set_socket P r c f w :
  (forall k, on_close (f k) = Some r -> on_close k = Some r) ->
  Calm P r w (set_socket c f w).
Proof.
  intros Hf. split; auto.
  - intros c'. unfold socket_on_close. cbn. destruct (decide (c = c')) as [->|Hne].
    + rewrite list_lookup_alter_eq. destruct (sockets w !! c') as [k|]; cbn; [apply Hf|auto].
    + now rewrite list_lookup_alter_ne.
  - exists []. split; [reflexivity|]. intros e He. now apply elem_of_nil in He.
Qed.

Lemma Calm_set_server P r f w :
  (forall k, (k, r) ∈ srv_rooms (f (server w)) -> (k, r) ∈ srv_rooms (server w)) ->
  Calm P r w (set_server f w).
Proof.
  intros Hf. split; auto.
  exists []. split; [reflexivity|]. intros e He. now apply elem_of_nil in He.
Qed.

Lemma Calm_set_room P r r' f w : Calm P r w (set_room r' f w).
Proof.
  split; auto.
  - cbn. now rewrite length_alter.
  - exists []. split; [reflexivity|]. intros e He. now apply elem_of_nil in He.
Qed.

Lemma Calm_notify P r r' subj payload w : Calm P r w (RoomServer__notify r' subj payload w).
Proof.
  unfold RoomServer__notify. destruct (rooms w !! r'); [|apply Calm_refl].
  now apply Calm_emit.
Qed.

Lemma Calm_removeRoom P r r' w : Calm P r w (RoomServer__removeRoom r' w).
Proof.
  unfold RoomServer__removeRoom. destruct (rooms w !! r') as [x|]; [|apply Calm_refl].
  destruct (negb _); [apply Calm_refl|].
  cbn zeta. unfold Room_clearPingInterval.
  set (w1 := set_room r' (with_timer false) w).
  set (w2 := emit (ServerEmit (RoomRemoved r')) w1).
  set (w3 := if server_syncRooms w2 then _ else w2).
  set (w4 := set_room r' _ w3).
  apply (Calm_trans P r w w1); [apply Calm_set_room|].
  apply (Calm_trans P r w1 w2); [now apply Calm_emit|].
  apply (Calm_trans P r w2 w3).
  { unfold w3. destruct (server_syncRooms w2); [apply Calm_notify|apply Calm_refl]. }
  apply (Calm_trans P r w3 w4); [apply Calm_set_room|].
  apply Calm_set_server. intros k. cbn. apply JsMap.In_delete.
Qed.

Lemma Calm_Room_emit r r' e w :
  Calm (r' = r /\ e <> Terminated) r w (Room_emit r' e w).
Proof.
  unfold Room_emit.
  assert (A : Calm (r' = r /\ e <> Terminated) r w (emit (RoomEmit r' e) w)).
  { split; auto. exists [RoomEmit r' e]. split; [reflexivity|].
    intros e' Hin. apply list_elem_of_singleton in Hin as ->.
    destruct e; cbn; try discriminate; intros E; apply Nat.eqb_eq in E; now split. }
  eapply Calm_trans; [exact A|]. cbn.
  destruct (rooms w !! r') as [x|]; [|apply Calm_refl].
  destruct e as [c|c|].
  - destruct (room_on_sync x); [|apply Calm_refl].
    destruct (client_of c _); [apply Calm_notify|apply Calm_refl].
  - destruct (room_on_sync x); [|apply Calm_refl].
    destruct (client_of c _); [apply Calm_notify|apply Calm_refl].
  - destruct (room_on_terminated x); [apply Calm_removeRoom|apply Calm_refl].
Qed.

(** ** The close path *)

Section CalmClose.

Variables (r : nat) (Q : nat -> Prop) (L : nat -> nat -> World -> World).
Hypothesis L_calm : forall c r' w, Calm (Q r') r w (L c r' w).

Lemma Calm_socket_emit_close_gen c w :
  Calm (exists r', socket_on_close c w = Some r' /\ Q r') r w (socket_emit_close L c w).
Proof using L_calm.
  unfold socket_emit_close. destruct (socket_on_close c w) as [r'|] eqn:E; [|apply Calm_refl].
  eapply Calm_trans.
  - apply (Calm_set_socket _ r c (with_on_close None) w). intros k. discriminate.
  - eapply Calm_weaken; [|apply L_calm]. intros HQ. now exists r'.
Qed.

Lemma Calm_closed_gen c e w :
  membership_event r e = false ->
  let w1 := set_socket c close_state (emit e w) in
  Calm (exists r', socket_on_close c w = Some r' /\ Q r') r w
    (Client__removeAllListeners c
       (if Client__isClosing c w then w else socket_emit_close L c w1)).
Proof using L_calm.
  intros He w1. eapply Calm_trans; [|apply Calm_set_socket; intros k; discriminate].
  destruct (Client__isClosing c w); [apply Calm_refl|].
  eapply Calm_trans; [apply (Calm_emit _ r e w He)|].
  eapply Calm_trans.
  { apply (Calm_set_socket _ r c close_state). intros k.
    now rewrite (proj2 (close_state_fields k)). }
  eapply Calm_weaken; [|apply Calm_socket_emit_close_gen].
  unfold w1. now rewrite socket_on_close_set_socket by (intros; apply close_state_fields).
Qed.

Lemma Calm_Client_disconnect_gen c w :
  Calm (exists r', socket_on_close c w = Some r' /\ Q r') r w (Client_disconnect L c w).
Proof using L_calm. now apply (Calm_closed_gen c (SocketClose c) w). Qed.

Lemma Calm_Client_terminate_gen c w :
  Calm (exists r', socket_on_close c w = Some r' /\ Q r') r w (Client_terminate L c w).
Proof using L_calm. now apply (Calm_closed_gen c (SocketTerminate c) w). Qed.

End CalmClose.

Lemma Calm_Room_leave r r' c w :
  Calm (r' = r) r w (Room_leave (close_listener 0) r' c w).
Proof.
  unfold Room_leave. destruct (client_of c w) as [cl|]; [|apply Calm_refl].
  destruct (Room_hasClient _ _ _); [|apply Calm_refl]. cbn zeta.
  set (w1 := set_room r' _ w). set (w2 := Room_emit r' (Left c) w1).
  apply (Calm_trans _ r w w1); [apply Calm_set_room|].
  apply (Calm_trans _ r w1 w2).
  { eapply Calm_weaken; [|apply Calm_Room_emit]. tauto. }
  eapply Calm_weaken; [|apply (Calm_Client_disconnect_gen r (fun _ => False))].
  - intros (? & _ & []).
  - intros c0 r0 w0. apply Calm_refl.
Qed.

Lemma Calm_on_socket_close r c r' w : Calm (r' = r) r w (on_socket_close c r' w).
Proof.
  unfold on_socket_close. cbn [close_listener]. unfold RoomServer__disconnectClient.
  set (w1 := Room_leave _ r' c w).
  set (w2 := set_server _ w1).
  assert (A : Calm (r' = r) r w w2).
  { eapply Calm_trans; [apply Calm_Room_leave|]. now apply Calm_set_server. }
  destruct (_ && _); [|exact A].
  eapply Calm_trans; [exact A|apply Calm_removeRoom].
Qed.

Lemma Bound_listener r c w :
  (exists r', socket_on_close c w = Some r' /\ r' = r) -> Bound r w.
Proof. intros (r' & E & ->). now exists c. Qed.

Lemma Calm_socket_emit_close r c w :
  Calm (Bound r w) r w (socket_emit_close on_socket_close c w).
Proof.
  eapply Calm_weaken; [apply Bound_listener|].
  apply (Calm_socket_emit_close_gen r (fun r' => r' = r)). intros. apply Calm_on_socket_close.
Qed.

Lemma Calm_Client_disconnect r c w :
  Calm (Bound r w) r w (Client_disconnect on_socket_close c w).
Proof.
  eapply Calm_weaken; [apply Bound_listener|].
  apply (Calm_Client_disconnect_gen r (fun r' => r' = r)). intros. apply Calm_on_socket_close.
Qed.

Lemma Calm_Client_terminate r c w :
  Calm (Bound r w) r w (Client_terminate on_socket_close c w).
Proof.
  eapply Calm_weaken; [apply Bound_listener|].
  apply (Calm_Client_terminate_gen r (fun r' => r' = r)). intros. apply Calm_on_socket_close.
Qed.

Lemma Calm_Client_ping r l c w :
  Calm (Bound r w) r w (Client_ping on_socket_close l c w).
Proof.
  unfold Client_ping. destruct (Client__isClosing c w); [apply Calm_refl|].
  destruct (client_of c w) as [cl|]; [|apply Calm_refl].
  destruct (match l with Some _ => _ | None => _ end); [apply Calm_Client_terminate|].
  unfold ws_ping.
  eapply Calm_trans; [apply (Calm_set_socket _ r c (with_missedPings (cl_missedPings cl + 1)) w)|].
  - intros k. now cbn.
  - now apply Calm_emit.
Qed.

Lemma Calm_forEach_member r visit entries r' w :
  (forall c w, Calm (Bound r w) r w (visit c w)) ->
  Calm (Bound r w) r w (forEach_member entries r' visit w).
Proof.
  intros Hv. revert w. induction entries as [|[k c] rest IH]; intros w; simpl.
  - apply Calm_refl.
  - eapply Calm_seq; [|apply IH].
    destruct (JsMap.get k (members r' w)) as [c'|]; [|apply Calm_refl].
    destruct (Nat.eqb c' c); [apply Hv|apply Calm_refl].
Qed.

Lemma Calm_Room_terminate r r' w :
  Calm (Bound r w) r w (Room_terminate on_socket_close r' w).
Proof.
  unfold Room_terminate, Room_forEach.
  set (w1 := forEach_member _ _ _ _).
  apply (Calm_trans _ r w w1).
  { apply Calm_forEach_member. intros. apply Calm_Client_disconnect. }
  eapply Calm_weaken; [|apply Calm_Room_emit]. now intros [_ []].
Qed.

Lemma Calm_Room__pingClients r r' w :
  Calm (Bound r w) r w (Room__pingClients on_socket_close r' w).
Proof.
  unfold Room__pingClients, Room_forEach. destruct (rooms w !! r'); [|apply Calm_refl].
  apply Calm_forEach_member. intros. apply Calm_Client_ping.
Qed.

(** ** The admission path and the other inputs *)

(** Room [r] exists, and neither the server's map nor a close listener
    refers to it. *)
Definition Dead (r : nat) (w : World) : Prop :=
  (r < length (rooms w))%nat /\
  (forall k, (k, r) ∉ srv_rooms (server w)) /\
  ~ Bound r w.

Lemma Dead_Calm P r w w' : Calm P r w w' -> Dead r w -> Dead r w'.
Proof.
  intros [A1 A2 A3 _] (D1 & D2 & D3). split; [lia|]. split.
  - intros k Hk. exact (D2 k (A2 k Hk)).
  - intros [c Hc]. apply D3. exists c. auto.
Qed.

Lemma Calm_unbound r w w' : Calm (Bound r w) r w w' -> Dead r w -> Calm False r w w'.
Proof. intros H (_ & _ & D). eapply Calm_weaken; [|exact H]. exact D. Qed.

Lemma In_set {V} k (v : V) x m : x ∈ JsMap.set k v m -> x = (k, v) \/ x ∈ m.
Proof.
  induction m as [|[k' v'] m IH]; simpl.
  - intros H. apply list_elem_of_singleton in H. now left.
  - destruct (String.eqb k k').
    + intros H. apply elem_of_cons in H as [H|H]; [now left|].
      right. now apply list_elem_of_further.
    + intros H. apply elem_of_cons in H as [H|H].
      * right. subst. apply list_elem_of_here.
      * destruct (IH H) as [E|E]; [now left|]. right. now apply list_elem_of_further.
Qed.

Lemma Calm_createRoom r roomId properties w :
  (r < length (rooms w))%nat ->
  fst (RoomServer__createRoom roomId properties w) = length (rooms w) /\
  Calm False r w (snd (RoomServer__createRoom roomId properties w)).
Proof.
  intros Hr. split; [reflexivity|]. unfold RoomServer__createRoom. cbn [snd].
  set (x := Room_new _ _ _ _).
  set (w0 := {| server := server w; rooms := rooms w ++ [x];
                sockets := sockets w; log := log w |}).
  set (w1 := emit (ServerEmit (NewRoom (length (rooms w)))) w0).
  set (w2 := if server_syncRooms w1 then _ else w1).
  set (w3 := set_server _ w2).
  apply (Calm_trans _ r w w0).
  { split; auto.
    - cbn. rewrite length_app. lia.
    - exists []. split; [reflexivity|]. intros e He. now apply elem_of_nil in He. }
  apply (Calm_trans _ r w0 w1); [now apply Calm_emit|].
  apply (Calm_trans _ r w1 w2).
  { unfold w2. destruct (server_syncRooms w1); [|apply Calm_refl].
    set (w1' := RoomServer__notify _ _ _ w1).
    apply (Calm_trans _ r w1 w1'); [apply Calm_notify|].
    destruct (server_syncClients w1'); [apply Calm_set_room|apply Calm_refl]. }
  apply (Calm_trans _ r w2 w3); [|apply Calm_set_room].
  apply Calm_set_server. intros k. cbn. intros Hk.
  apply In_set in Hk as [E|Hk]; [|exact Hk]. inversion E. lia.
Qed.

Lemma Calm_getRoom r roomId properties w :
  Dead r w ->
  fst (RoomServer__getRoom roomId properties w) <> r /\
  Calm False r w (snd (RoomServer__getRoom roomId properties w)).
Proof.
  intros (D1 & D2 & D3). unfold RoomServer__getRoom.
  destruct (JsMap.get roomId (srv_rooms (server w))) as [r'|] eqn:E.
  - cbn. split; [|apply Calm_refl]. intros ->. apply (D2 roomId). now apply JsMap.get_In.
  - destruct (Calm_createRoom r roomId properties w D1) as [E1 C1].
    split; [rewrite E1; lia|exact C1].
Qed.

Lemma Calm_Room_join r r' c w : r' <> r -> Calm False r w (Room_join r' c w).
Proof.
  intros Hr. unfold Room_join. destruct (client_of c w) as [cl|]; [|apply Calm_refl].
  destruct (Room_hasClient _ _ _); [apply Calm_refl|]. cbn zeta.
  set (w1 := set_room r' _ w).
  apply (Calm_trans _ r w w1); [apply Calm_set_room|].
  eapply Calm_weaken; [|apply Calm_Room_emit]. tauto.
Qed.

Lemma Calm_connectClient r s token w :
  Dead r w -> Calm False r w (fst (RoomServer__connectClient s token w)).
Proof.
  intros D. unfold RoomServer__connectClient.
  destruct (Calm_getRoom r (tk_roomId token) (tk_roomProperties token) w D) as [Hr C1].
  destruct (RoomServer__getRoom _ _ w) as [r' w1]. cbn [fst snd] in *.
  destruct (Room_hasClient r' _ w1); [exact C1|]. cbn [fst].
  set (w2 := set_socket s (with_client _) w1).
  set (w3 := Room_join r' s w2).
  set (w4 := set_server _ w3).
  apply (Calm_trans _ r w w1); [exact C1|].
  apply (Calm_trans _ r w1 w2); [now apply Calm_set_socket|].
  apply (Calm_trans _ r w2 w3); [now apply Calm_Room_join|].
  apply (Calm_trans _ r w3 w4); [now apply Calm_set_server|].
  apply Calm_set_socket. intros k. cbn. congruence.
Qed.

Lemma Calm_reject P r s message w : Calm P r w (reject s message w).
Proof.
  unfold reject, ws_close, ws_send.
  set (w1 := emit (SocketSend _ _) w). set (w2 := emit (SocketClose s) w1).
  apply (Calm_trans _ r w w1); [now apply Calm_emit|].
  apply (Calm_trans _ r w1 w2); [now apply Calm_emit|].
  apply Calm_set_socket. intros k. now rewrite (proj2 (close_state_fields k)).
Qed.

Section CalmRun.

Variable jwt_verify : string -> string -> string -> Z -> option ITokenOptions.

Lemma Calm_handleClient_message r s data now w :
  Dead r w -> Calm False r w (RoomServer__handleClient_message jwt_verify s data now w).
Proof.
  intros D. unfold RoomServer__handleClient_message.
  destruct (RoomServer__authenticate jwt_verify data now w) as [msg|token];
    [apply Calm_reject|].
  pose proof (Calm_connectClient r s token w D) as C.
  destruct (RoomServer__connectClient s token w) as [w' [msg|]]; cbn [fst] in C; [|exact C].
  eapply Calm_trans; [exact C|apply Calm_reject].
Qed.

Lemma Calm_forEach_room P r entries w :
  Calm P r w (forEach_room entries RoomServer__removeRoom w).
Proof.
  revert w. induction entries as [|[k r'] rest IH]; intros w; simpl; [apply Calm_refl|].
  eapply Calm_trans; [|apply IH].
  destruct (JsMap.get k (srv_rooms (server w))) as [r''|]; [|apply Calm_refl].
  destruct (Nat.eqb r'' r'); [apply Calm_removeRoom|apply Calm_refl].
Qed.

Lemma Calm_stop P r w : Calm P r w (RoomServer_stop_callback w).
Proof.
  unfold RoomServer_stop_callback.
  set (w1 := forEach_room _ _ w). set (w2 := set_server with_stopped w1).
  set (w3 := emit (NatsPublish _ _) w2). cbn zeta.
  apply (Calm_trans _ r w w1); [apply Calm_forEach_room|].
  apply (Calm_trans _ r w1 w2); [now apply Calm_set_server|].
  apply (Calm_trans _ r w2 w3); now apply Calm_emit.
Qed.

Lemma Calm_new_socket P r w :
  Calm P r w {| server := server w; rooms := rooms w;
                sockets := sockets w ++ [new_socket]; log := log w |}.
Proof.
  split; auto.
  - intros c. unfold socket_on_close. cbn.
    destruct (decide (c < length (sockets w))%nat) as [Hlt|Hge].
    + now rewrite lookup_app_l.
    + rewrite lookup_app_r by lia. destruct (c - length (sockets w))%nat as [|n]; cbn.
      * discriminate.
      * discriminate.
  - exists []. split; [reflexivity|]. intros e He. now apply elem_of_nil in He.
Qed.

Lemma Calm_step r w i : Dead r w -> Calm False r w (step jwt_verify w i).
Proof.
  intros D. destruct i as [|s data now|s|s|s|s|r'|r'|]; cbn [step].
  - destruct (srv_on_connection (server w)); [apply Calm_new_socket|apply Calm_refl].
  - destruct (sockets w !! s) as [k|]; [|apply Calm_refl].
    destruct (readyState k =? OPEN); [|apply Calm_refl].
    destruct (on_token k).
    + set (w1 := set_socket s (with_on_token false) w).
      assert (C1 : Calm False r w w1) by now apply Calm_set_socket.
      apply (Calm_trans _ r w w1); [exact C1|].
      apply Calm_handleClient_message. exact (Dead_Calm _ r w w1 C1 D).
    + destruct (on_client k); [now apply Calm_emit|apply Calm_refl].
  - destruct (sockets w !! s) as [k|]; [|apply Calm_refl].
    destruct (on_client k); [now apply Calm_set_socket|apply Calm_refl].
  - destruct (sockets w !! s) as [k|]; [|apply Calm_refl].
    destruct (on_client k); [|apply Calm_refl].
    apply Calm_unbound; [apply Calm_Client_terminate|exact D].
  - apply Calm_set_socket. intros k. now destruct (readyState k =? OPEN).
  - destruct (sockets w !! s) as [k|]; [|apply Calm_refl].
    destruct (readyState k =? CLOSED); [apply Calm_refl|].
    set (w1 := set_socket s (with_readyState CLOSED) w).
    assert (C1 : Calm False r w w1) by now apply Calm_set_socket.
    apply (Calm_trans _ r w w1); [exact C1|].
    apply Calm_unbound; [apply Calm_socket_emit_close|exact (Dead_Calm _ r w w1 C1 D)].
  - destruct (rooms w !! r') as [x|]; [|apply Calm_refl].
    destruct (room_timer x); [|apply Calm_refl].
    apply Calm_unbound; [apply Calm_Room__pingClients|exact D].
  - apply Calm_unbound; [apply Calm_Room_terminate|exact D].
  - apply Calm_stop.
Qed.

Lemma Calm_run r inputs w : Dead r w -> Calm False r w (run jwt_verify w inputs).
Proof.
  revert w. induction inputs as [|i inputs IH]; intros w D; cbn; [apply Calm_refl|].
  pose proof (Calm_step r w i D) as C.
  eapply Calm_trans; [exact C|]. apply IH. exact (Dead_Calm _ r _ _ C D).
Qed.

End CalmRun.

(** ** [terminate] cuts the room off *)

Lemma on_close_removed c w o :
  socket_on_close c (Client__removeAllListeners c w) = Some o -> False.
Proof.
  unfold socket_on_close, Client__removeAllListeners, ws_removeAllListeners. cbn.
  rewrite list_lookup_alter_eq. now destruct (sockets w !! c).
Qed.

Lemma In_delete_same {V} k (v : V) m : JsMap.wf m -> (k, v) ∉ JsMap.delete k m.
Proof.
  intros Hwf Hin. apply JsMap.In_get in Hin; [|now apply JsMap.wf_delete].
  rewrite JsMap.get_delete_eq in Hin by assumption. discriminate.
Qed.

(** While the members listed before [c] are disconnected, [c] stays a
    member. *)
Lemma disconnect_keeps_member r c id k' c' w :
  Inv w -> JsMap.get id (members r w) = Some c -> k' <> id ->
  JsMap.get k' (members r w) = Some c' ->
  let w' := Client_disconnect on_socket_close c' w in
  Inv w' /\ JsMap.get id (members r w') = Some c.
Proof.
  intros H Hm Hk Hm'. cbn zeta. split; [now apply Inv_Client_disconnect|].
  apply (fr_keep c' w _ (Frame_Client_disconnect c' w H)); [exact Hm|].
  intros ->.
  destruct (inv_member_client w (proj1 H) r id c' Hm) as [cl1 [E1 I1]].
  destruct (inv_member_client w (proj1 H) r k' c' Hm') as [cl2 [E2 I2]]. congruence.
Qed.

Lemma terminate_unbinds r w :
  Inv w -> ~ Bound r (Room_forEach r (Client_disconnect on_socket_close) w).
Proof.
  intros H [c Hc]. unfold Room_forEach in Hc.
  pose proof (Calm_forEach_member r (Client_disconnect on_socket_close) (members r w) r w
                (fun c w => Calm_Client_disconnect r c w)) as [_ _ C _].
  destruct (inv_close_member w (proj1 H) c r (C c Hc)) as [cl [Hcl Hm]].
  destruct (split_entry (members r w) (cl_id cl) c (inv_members_wf w (proj1 H) r) Hm)
    as (l1 & l2 & Hsplit & Hl1 & _).
  rewrite Hsplit, forEach_member_app in Hc.
  set (visit := Client_disconnect on_socket_close) in *.
  assert (P1 : Inv (forEach_member l1 r visit w) /\
               JsMap.get (cl_id cl) (members r (forEach_member l1 r visit w)) = Some c).
  { apply (forEach_member_inv
             (fun w => Inv w /\ JsMap.get (cl_id cl) (members r w) = Some c)); [|auto].
    intros k' c' w1 Hin [H1 Hm1] Hg.
    apply (disconnect_keeps_member r c (cl_id cl) k' c' w1); auto. eapply Hl1, Hin. }
  set (w1 := forEach_member l1 r visit w) in *. destruct P1 as [H1 Hm1].
  cbn [forEach_member] in Hc. rewrite Hm1, Nat.eqb_refl in Hc.
  pose proof (Calm_forEach_member r visit l2 r (visit c w1)
                (fun c w => Calm_Client_disconnect r c w)) as [_ _ C2 _].
  apply C2 in Hc. unfold visit, Client_disconnect in Hc.
  now apply on_close_removed in Hc.
Qed.

Lemma terminated_detaches r w :
  Inv w -> forall k, (k, r) ∉ srv_rooms (server (Room_emit r Terminated w)).
Proof.
  intros H k Hin.
  pose proof (Calm_Room_emit r r Terminated w) as [_ C _ _].
  pose proof (inv_rooms_wf w (proj1 H)) as Hwf.
  pose proof (JsMap.In_get _ _ _ Hwf (C k Hin)) as Hg.
  pose proof (inv_rooms w (proj1 H) k r Hg) as Hid.
  pose proof (inv_listening w (proj1 H) k r Hg) as Hl.
  unfold room_id_of, listening in Hid, Hl. unfold Room_emit in Hin. cbn in Hin.
  destruct (rooms w !! r) as [x|] eqn:Hx; [|discriminate].
  cbn in Hid, Hl. injection Hid as Hid. injection Hl as Hl. rewrite Hl in Hin.
  unfold RoomServer__removeRoom in Hin. cbn in Hin. rewrite Hx, Hid in Hin.
  unfold JsMap.has in Hin. rewrite Hg in Hin. cbn in Hin.
  destruct (server_syncRooms _) in Hin.
  - unfold RoomServer__notify in Hin. destruct (rooms _ !! r) in Hin; cbn in Hin;
      now apply In_delete_same in Hin.
  - cbn in Hin. now apply In_delete_same in Hin.
Qed.

Lemma terminate_Dead r w :
  Inv w -> (r < length (rooms w))%nat -> Dead r (Room_terminate on_socket_close r w).
Proof.
  intros H Hr. pose proof (Calm_Room_terminate r r w) as [C1 _ _ _].
  split; [lia|]. unfold Room_terminate. split.
  - apply terminated_detaches. unfold Room_forEach.
    apply Inv_forEach_member; [|exact H]. intros. now apply Inv_Client_disconnect.
  - intros B. apply (terminate_unbinds r w H).
    exact (Bound_Calm _ r _ _ (Calm_Room_emit r r Terminated _) B).
Qed.

Lemma membership_event_Joined r c : membership_event r (RoomEmit r (Joined c)) = true.
Proof. cbn. apply Nat.eqb_refl. Qed.

Lemma membership_event_Left r c : membership_event r (RoomEmit r (Left c)) = true.
Proof. cbn. apply Nat.eqb_refl. Qed.

(** C9, as amended: in a run of a room server, take a room that exists when
    the application calls [terminate()] on it.  The call emits
    ['terminated'], and from its return on nothing the server does makes
    that room emit ['joined'] or ['left'] again, whatever arrives
    afterwards: the room is no longer in the server's map and no close
    listener refers to it.  (The [Room] class alone gives no such guarantee:
    [join] on a terminated room still emits ['joined'].) *)
Theorem terminated_room_is_silent
    (jwt_verify : string -> string -> string -> Z -> option ITokenOptions)
    (publicUrl : string) (env_DISCOVERY_SECRET : option string)
    (options : option IRoomServerOptions) (before after : list Input) (r : nat) :
  let w1 := run jwt_verify (RoomServer_new publicUrl env_DISCOVERY_SECRET options) before in
  let w2 := step jwt_verify w1 (Terminate r) in
  (r < length (rooms w1))%nat ->
  sent (RoomEmit r Terminated) w1 w2 /\
  (forall k, JsMap.get k (srv_rooms (server w2)) <> Some r) /\
  exists l, log (run jwt_verify w2 after) = l ++ log w2 /\
    forall c, (RoomEmit r (Joined c) ∉ l) /\ (RoomEmit r (Left c) ∉ l).
Proof.
  cbn zeta. intros Hr.
  set (w1 := run jwt_verify _ before) in *.
  assert (H : Inv w1) by (apply Inv_run, Inv_new).
  cbn [step]. pose proof (terminate_Dead r w1 H Hr) as D.
  split; [|split].
  - unfold Room_terminate.
    destruct (Calm_forEach_member r (Client_disconnect on_socket_close) (members r w1) r w1
                (fun c w => Calm_Client_disconnect r c w)) as [_ _ _ (l1 & Hl1 & _)].
    fold (Room_forEach r (Client_disconnect on_socket_close) w1) in Hl1.
    destruct (Room_emit_log r Terminated (Room_forEach r (Client_disconnect on_socket_close) w1))
      as [l2 Hl2].
    exists (l2 ++ RoomEmit r Terminated :: l1). rewrite Hl2, Hl1. split.
    + now rewrite <- app_assoc.
    + apply elem_of_app. right. apply list_elem_of_here.
  - intros k Hk. destruct D as (_ & D & _). apply (D k). now apply JsMap.get_In.
  - destruct (Calm_run jwt_verify r after _ D) as [_ _ _ (l & Hl & Hq)].
    exists l. split; [exact Hl|]. intros c. split; intros Hin.
    + exact (Hq _ Hin (membership_event_Joined r c)).
    + exact (Hq _ Hin (membership_event_Left r c)).
Qed.

Lemma terminated_room_is_silent_witness :
  let w1 := run demo_verify demo_server [Connection; Message 0 "R1/C1" 0] in
  let w2 := step demo_verify w1 (Terminate 0) in
  (0 < length (rooms w1))%nat /\
  exists l, log (run demo_verify w2 [Connection; Message 1 "R1/C2" 0; Close 0; Close 1])
            = l ++ log w2 /\
    forall c, (RoomEmit 0 (Joined c) ∉ l) /\ (RoomEmit 0 (Left c) ∉ l).
Proof.
  assert (Hr : (0 < length (rooms (run demo_verify demo_server
                                     [Connection; Message 0 "R1/C1" 0])))%nat)
    by (vm_compute; lia).
  split; [exact Hr|].
  exact (proj2 (proj2 (terminated_room_is_silent demo_verify "rs-a" None None
                         [Connection; Message 0 "R1/C1" 0]
                         [Connection; Message 1 "R1/C2" 0; Close 0; Close 1] 0%nat Hr))).
Defined.

(** ** Nested ['close'] emissions

    The listener runs with its own registration already consumed, so the
    emission nested in [client.disconnect()] finds no listener: one level
    of [close_listener] is all there is. *)

Lemma socket_emit_close_detached L c w :
  socket_on_close c w = None -> socket_emit_close L c w = w.
Proof. unfold socket_emit_close. now intros ->. Qed.

Lemma Client_disconnect_detached L L' c w :
  socket_on_close c w = None -> Client_disconnect L c w = Client_disconnect L' c w.
Proof.
  intros H. unfold Client_disconnect. destruct (Client__isClosing c w); [reflexivity|].
  assert (E : socket_on_close c (ws_close c w) = None).
  { unfold ws_close. now rewrite socket_on_close_set_socket by (intros; apply close_state_fields). }
  now rewrite !socket_emit_close_detached.
Qed.

Lemma Room_leave_detached L L' r c w :
  socket_on_close c w = None -> Room_leave L r c w = Room_leave L' r c w.
Proof.
  intros H. unfold Room_leave. destruct (client_of c w) as [cl|]; [|reflexivity].
  destruct (Room_hasClient _ _ _); [|reflexivity]. cbn zeta.
  apply Client_disconnect_detached.
  destruct (Room_emit_member_frame r (Left c)
              (set_room r (update_clients (JsMap.delete (cl_id cl))) w)) as (Hs & _);
    [discriminate|].
  unfold socket_on_close in *. now rewrite Hs.
Qed.

Lemma close_listener_depth n c r w :
  socket_on_close c w = None -> close_listener (S n) c r w = on_socket_close c r w.
Proof.
  intros H. unfold on_socket_close. cbn [close_listener].
  unfold RoomServer__disconnectClient.
  now rewrite (Room_leave_detached (close_listener n) (close_listener 0)).
Qed.


(** * C3, continued: the heartbeat in a run *)

(** ** What is written to a socket *)

(** The calls on socket [c]. *)
Definition on_socket (c : nat) (e : Effect) : bool :=
  match e with
  | SocketSend s _ | SocketPing s | SocketClose s | SocketTerminate s => Nat.eqb s c
  | _ => false
  end.

(** [Quiet c w w']: going from [w] to [w'] nothing was called on socket
    [c]. *)
Definition Quiet (c : nat) (w w' : World) : Prop :=
  exists l, log w' = l ++ log w /\ forall e, e ∈ l -> on_socket c e = false.

Lemma Quiet_refl c w : Quiet c w w.
Proof. exists []. split; [reflexivity|]. intros e He. now apply elem_of_nil in He. Qed.

Lemma Quiet_trans c w1 w2 w3 : Quiet c w1 w2 -> Quiet c w2 w3 -> Quiet c w1 w3.
Proof.
  intros (l1 & A1 & A2) (l2 & B1 & B2). exists (l2 ++ l1).
  split; [rewrite B1, A1; now rewrite app_assoc|].
  intros e He. apply elem_of_app in He as [He|He]; auto.
Qed.

Lemma Quiet_same c w w' : log w' = log w -> Quiet c w w'.
Proof.
  intros H. exists []. split; [exact H|]. intros e He. now apply elem_of_nil in He.
Qed.

Lemma Quiet_emit c e w : on_socket c e = false -> Quiet c w (emit e w).
Proof.
  intros He. exists [e]. split; [reflexivity|].
  intros e' Hin. now apply list_elem_of_singleton in Hin as ->.
Qed.

Lemma Quiet_grows c w w' : Quiet c w w' -> grows w w'.
Proof. intros (l & H & _). now exists l. Qed.

Lemma Quiet_not_sent c e w w' : Quiet c w w' -> on_socket c e = true -> ~ sent e w w'.
Proof.
  intros (l & H & Hl) He (l' & H' & Hin). rewrite H in H'.
  apply app_inv_tail in H'. subst l'. specialize (Hl e Hin). congruence.
Qed.

Lemma Quiet_notify c r subj payload w : Quiet c w (RoomServer__notify r subj payload w).
Proof.
  unfold RoomServer__notify. destruct (rooms w !! r); [|apply Quiet_refl].
  now apply Quiet_emit.
Qed.

Lemma Quiet_removeRoom c r w : Quiet c w (RoomServer__removeRoom r w).
Proof.
  unfold RoomServer__removeRoom. destruct (rooms w !! r) as [x|]; [|apply Quiet_refl].
  destruct (negb _); [apply Quiet_refl|].
  cbn zeta. unfold Room_clearPingInterval.
  set (w1 := set_room r (with_timer false) w).
  set (w2 := emit (ServerEmit (RoomRemoved r)) w1).
  set (w3 := if server_syncRooms w2 then _ else w2).
  apply (Quiet_trans c w w2); [now apply (Quiet_emit c _ w1)|].
  apply (Quiet_trans c w2 w3); [|now apply Quiet_same].
  unfold w3. destruct (server_syncRooms w2); [apply Quiet_notify|apply Quiet_refl].
Qed.

Lemma Quiet_Room_emit c r e w : Quiet c w (Room_emit r e w).
Proof.
  unfold Room_emit. cbn zeta. set (w1 := emit (RoomEmit r e) w).
  apply (Quiet_trans c w w1); [now apply Quiet_emit|].
  destruct (rooms w1 !! r) as [x|]; [|apply Quiet_refl].
  destruct e as [c'|c'|].
  - destruct (room_on_sync x); [|apply Quiet_refl].
    destruct (client_of c' w1); [apply Quiet_notify|apply Quiet_refl].
  - destruct (room_on_sync x); [|apply Quiet_refl].
    destruct (client_of c' w1); [apply Quiet_notify|apply Quiet_refl].
  - destruct (room_on_terminated x); [apply Quiet_removeRoom|apply Quiet_refl].
Qed.

Lemma on_socket_ne c c' (f : nat -> Effect) :
  (forall s, on_socket c (f s) = Nat.eqb s c) -> c' <> c -> on_socket c (f c') = false.
Proof. intros Hf Hne. rewrite Hf. now apply Nat.eqb_neq. Qed.

Section QuietListener.

Variables (c : nat) (L : nat -> nat -> World -> World).
Hypothesis Quiet_L : forall c' r w, c' <> c -> Quiet c w (L c' r w).

Lemma Quiet_socket_emit_close c' w : c' <> c -> Quiet c w (socket_emit_close L c' w).
Proof using Quiet_L.
  intros Hne. unfold socket_emit_close.
  destruct (socket_on_close c' w) as [r|]; [|apply Quiet_refl].
  apply (Quiet_trans c w (set_socket c' (with_on_close None) w)); [now apply Quiet_same|].
  now apply Quiet_L.
Qed.

Lemma Quiet_closed c' e w :
  c' <> c -> on_socket c e = false ->
  Quiet c w
    (Client__removeAllListeners c'
       (if Client__isClosing c' w then w
        else socket_emit_close L c' (set_socket c' close_state (emit e w)))).
Proof using Quiet_L.
  intros Hne He.
  set (w1 := if Client__isClosing c' w then w else _).
  apply (Quiet_trans c w w1); [|now apply Quiet_same].
  unfold w1. destruct (Client__isClosing c' w); [apply Quiet_refl|].
  apply (Quiet_trans c w (emit e w)); [apply (Quiet_emit c e w He)|].
  apply (Quiet_trans c _ (set_socket c' close_state (emit e w))); [now apply Quiet_same|].
  now apply Quiet_socket_emit_close.
Qed.

Lemma Quiet_Client_disconnect c' w : c' <> c -> Quiet c w (Client_disconnect L c' w).
Proof using Quiet_L.
  intros Hne. apply (Quiet_closed c' (SocketClose c') w Hne).
  cbn. now apply Nat.eqb_neq.
Qed.

Lemma Quiet_Client_terminate c' w : c' <> c -> Quiet c w (Client_terminate L c' w).
Proof using Quiet_L.
  intros Hne. apply (Quiet_closed c' (SocketTerminate c') w Hne).
  cbn. now apply Nat.eqb_neq.
Qed.

Lemma Quiet_Client_ping l c' w : c' <> c -> Quiet c w (Client_ping L l c' w).
Proof using Quiet_L.
  intros Hne. unfold Client_ping. destruct (Client__isClosing c' w); [apply Quiet_refl|].
  destruct (client_of c' w) as [cl|]; [|apply Quiet_refl].
  destruct (match l with Some _ => _ | None => _ end).
  - now apply Quiet_Client_terminate.
  - unfold ws_ping. set (w1 := set_socket c' _ w).
    apply (Quiet_trans c w w1); [now apply Quiet_same|].
    apply Quiet_emit. cbn. now apply Nat.eqb_neq.
Qed.

Lemma Quiet_Room_leave r c' w : c' <> c -> Quiet c w (Room_leave L r c' w).
Proof using Quiet_L.
  intros Hne. unfold Room_leave. destruct (client_of c' w) as [cl|]; [|apply Quiet_refl].
  destruct (Room_hasClient _ _ _); [|apply Quiet_refl]. cbn zeta.
  set (w1 := set_room r _ w).
  apply (Quiet_trans c w w1); [now apply Quiet_same|].
  apply (Quiet_trans c w1 (Room_emit r (Left c') w1)); [apply Quiet_Room_emit|].
  now apply Quiet_Client_disconnect.
Qed.

Lemma Quiet_disconnectClient c' r w :
  c' <> c -> Quiet c w (RoomServer__disconnectClient L c' r w).
Proof using Quiet_L.
  intros Hne. unfold RoomServer__disconnectClient. cbn zeta.
  set (w1 := Room_leave L r c' w). set (w2 := set_server _ w1).
  assert (Q2 : Quiet c w w2).
  { apply (Quiet_trans c w w1); [now apply Quiet_Room_leave|now apply Quiet_same]. }
  destruct (_ && _); [|exact Q2].
  eapply Quiet_trans; [exact Q2|apply Quiet_removeRoom].
Qed.

End QuietListener.

Lemma Quiet_close_listener c n : forall c' r w, c' <> c -> Quiet c w (close_listener n c' r w).
Proof.
  induction n as [|n IH]; intros c' r w Hne; cbn [close_listener]; [apply Quiet_refl|].
  now apply Quiet_disconnectClient.
Qed.

Lemma Quiet_reject c s msg w : s <> c -> Quiet c w (reject s msg w).
Proof.
  intros Hne. unfold reject, ws_close, ws_send.
  set (w1 := emit (SocketSend _ _) w). set (w2 := emit (SocketClose s) w1).
  apply (Quiet_trans c w w1); [apply Quiet_emit; cbn; now apply Nat.eqb_neq|].
  apply (Quiet_trans c w1 w2); [apply Quiet_emit; cbn; now apply Nat.eqb_neq|].
  now apply Quiet_same.
Qed.

(** ** A tick and a member whose socket is closing *)

Lemma tick_skips_closing r x id c w :
  Inv w -> rooms w !! r = Some x -> JsMap.get id (members r w) = Some c ->
  Client__isClosing c w = true ->
  let w' := Room__pingClients on_socket_close r w in
  sockets w' !! c = sockets w !! c /\ JsMap.get id (members r w') = Some c /\
  Quiet c w w'.
Proof.
  intros H Hx Hm Hc. cbn zeta. unfold Room__pingClients, Room_forEach. rewrite Hx.
  set (visit := Client_ping on_socket_close (missedPingsLimit (room_options x))).
  assert (P : Undisturbed r c id w (forEach_member (members r w) r visit w) /\
              Quiet c w (forEach_member (members r w) r visit w)).
  { apply (forEach_member_inv (fun w1 => Undisturbed r c id w w1 /\ Quiet c w w1)).
    - intros k' c' w1 _ [U Q] Hg. destruct (String.eqb_spec k' id) as [->|Hk].
      + destruct U as (H1 & Hs1 & Hm1 & Hmeta1 & Hg1).
        assert (c' = c) by congruence. subst c'.
        assert (E : visit c w1 = w1).
        { unfold visit, Client_ping, Client__isClosing, socket_state. rewrite Hs1.
          unfold Client__isClosing, socket_state in Hc. now rewrite Hc. }
        rewrite E. split; [|exact Q]. split; [exact H1|]. split; [exact Hs1|].
        split; [exact Hm1|]. split; [exact Hmeta1|exact Hg1].
      + assert (Hne : c' <> c).
        { intros ->. destruct U as (H1 & _ & Hm1 & _).
          destruct (inv_member_client w1 (proj1 H1) r id c Hm1) as [cl1 [E1 I1]].
          destruct (inv_member_client w1 (proj1 H1) r k' c Hg) as [cl2 [E2 I2]]. congruence. }
        split; [now apply (Undisturbed_visit _ r c id w w1 k' c')|].
        eapply Quiet_trans; [exact Q|]. apply Quiet_Client_ping; [|exact Hne].
        apply Quiet_close_listener.
    - split; [|apply Quiet_refl]. split; [exact H|]. split; [reflexivity|].
      split; [exact Hm|]. split; [reflexivity|apply grows_refl]. }
  destruct P as [(_ & Hs & Hm' & _) Q]. auto.
Qed.

(** ** What the other inputs leave alone *)

(** Inputs that leave member [c] of room [r] to the heartbeat: no pong
    from [c], nothing that closes its socket, no [terminate()] of the room
    and no shutdown of the server. *)
Definition silent (r c : nat) (i : Input) : bool :=
  match i with
  | Pong s | SocketError s | Closing s | Close s => negb (Nat.eqb s c)
  | Terminate r' => negb (Nat.eqb r' r)
  | Stop => false
  | _ => true
  end.

Definition is_tick (r : nat) (i : Input) : bool :=
  match i with
  | Tick r' => Nat.eqb r' r
  | _ => false
  end.

(** The number of ticks of room [r] among the inputs. *)
Definition ticks (r : nat) (inputs : list Input) : nat :=
  length (List.filter (is_tick r) inputs).

(** [Spared r c id w w']: going from [w] to [w'] the socket of [c] was not
    touched, [c] is a member of [r] under [id], and the timer and the
    options of [r] are as before. *)
Definition Spared (r c : nat) (id : string) (w w' : World) : Prop :=
  sockets w' !! c = sockets w !! c /\
  JsMap.get id (members r w') = Some c /\
  room_meta r w' = room_meta r w.

Lemma Spared_refl r c id w : JsMap.get id (members r w) = Some c -> Spared r c id w w.
Proof. intros H. repeat split; auto. Qed.

Lemma Spared_trans r c id w1 w2 w3 :
  Spared r c id w1 w2 -> Spared r c id w2 w3 -> Spared r c id w1 w3.
Proof. intros (A1 & A2 & A3) (B1 & B2 & B3). repeat split; congruence. Qed.

Lemma Spared_Frame r c id c' w w' :
  Frame c' w w' -> c' <> c -> JsMap.get id (members r w) = Some c -> Spared r c id w w'.
Proof.
  intros [F1 F2 F3 F4 F5 F6] Hne Hm.
  assert (Hm' : JsMap.get id (members r w') = Some c) by (apply F3; auto).
  split; [now apply F1|]. split; [exact Hm'|].
  apply F6. intros E. rewrite E in Hm'. discriminate.
Qed.

Lemma Spared_set_socket r c id s f w :
  s <> c -> JsMap.get id (members r w) = Some c -> Spared r c id w (set_socket s f w).
Proof.
  intros Hne Hm. split; [|split; [exact Hm|reflexivity]].
  cbn. now apply list_lookup_alter_ne.
Qed.

Lemma Spared_same r c id w w' :
  sockets w' = sockets w -> rooms w' = rooms w ->
  JsMap.get id (members r w) = Some c -> Spared r c id w w'.
Proof.
  intros Hs Hr Hm. unfold Spared, members, room_meta. rewrite Hs, Hr. auto.
Qed.

Lemma Spared_Undisturbed r c id w w' : Undisturbed r c id w w' -> Spared r c id w w'.
Proof. intros (_ & Hs & Hm & Hmeta & _). repeat split; auto. Qed.

Lemma Spared_reject r c id s msg w :
  s <> c -> JsMap.get id (members r w) = Some c -> Spared r c id w (reject s msg w).
Proof.
  intros Hne Hm. unfold reject, ws_close, ws_send.
  set (w1 := emit (SocketClose s) _).
  apply (Spared_trans r c id w w1); [now apply Spared_same|].
  apply (Spared_set_socket r c id s close_state); [exact Hne|exact Hm].
Qed.

Lemma room_meta_update r r' g w :
  room_meta r (set_room r' (update_clients g) w) = room_meta r w.
Proof.
  unfold room_meta. cbn. destruct (decide (r' = r)) as [->|Hne].
  - rewrite list_lookup_alter_eq. now destruct (rooms w !! r).
  - now rewrite list_lookup_alter_ne.
Qed.

Lemma room_meta_listeners r r' a b w :
  room_meta r (set_room r' (fun x => with_room_listeners (a x) (b x) x) w) = room_meta r w.
Proof.
  unfold room_meta. cbn. destruct (decide (r' = r)) as [->|Hne].
  - rewrite list_lookup_alter_eq. now destruct (rooms w !! r).
  - now rewrite list_lookup_alter_ne.
Qed.

Lemma createRoom_meta r roomId properties w :
  (r < length (rooms w))%nat ->
  room_meta r (RoomServer__createRoom roomId properties w).2 = room_meta r w.
Proof.
  intros Hr. unfold RoomServer__createRoom. cbn zeta. cbn [snd].
  rewrite (room_meta_listeners r _ room_on_sync (fun _ => true)).
  unfold room_meta at 1. cbn [rooms set_server].
  set (x := Room_new _ _ _ _).
  set (w0 := {| server := server w; rooms := rooms w ++ [x];
                sockets := sockets w; log := log w |}).
  set (w1 := emit (ServerEmit (NewRoom (length (rooms w)))) w0).
  assert (E : room_meta r w1 = room_meta r w).
  { unfold room_meta, w1, w0. cbn. now rewrite lookup_app_l. }
  rewrite <- E. destruct (server_syncRooms w1); [|reflexivity].
  destruct (notify_frame (length (rooms w)) "newRoom" [("properties", properties)] w1)
    as (_ & Hr1 & _).
  set (w2 := RoomServer__notify _ _ _ w1) in *.
  destruct (server_syncClients w2).
  - change (room_meta r (set_room (length (rooms w))
                           (fun x => with_room_listeners ((fun _ => true) x) ((fun _ => false) x) x)
                           w2) = room_meta r w1).
    rewrite room_meta_listeners. unfold room_meta. now rewrite Hr1.
  - unfold room_meta. now rewrite Hr1.
Qed.

Lemma getRoom_meta r roomId properties w :
  (r < length (rooms w))%nat ->
  room_meta r (RoomServer__getRoom roomId properties w).2 = room_meta r w.
Proof.
  intros Hr. unfold RoomServer__getRoom.
  destruct (JsMap.get roomId (srv_rooms (server w))); [reflexivity|].
  now apply createRoom_meta.
Qed.

Lemma Spared_connectClient r c id s token w :
  Inv w -> s <> c -> JsMap.get id (members r w) = Some c ->
  Spared r c id w (RoomServer__connectClient s token w).1.
Proof.
  intros H Hne Hm. unfold RoomServer__connectClient.
  assert (Hr : (r < length (rooms w))%nat).
  { destruct (members_Some _ _ _ _ Hm) as [x [Hx _]]. now apply lookup_lt_Some in Hx. }
  pose proof (getRoom_spec (tk_roomId token) (tk_roomProperties token) w H) as G.
  pose proof (getRoom_meta r (tk_roomId token) (tk_roomProperties token) w Hr) as M.
  destruct (RoomServer__getRoom _ _ w) as [r' w1]. cbn [snd] in M.
  destruct G as (I1 & Hs1 & Hg1 & [x Hx] & Hn1 & Hm1).
  assert (S1 : Spared r c id w w1).
  { split; [now rewrite Hs1|]. split; [now rewrite Hm1|exact M]. }
  destruct (Room_hasClient r' (tk_clientId token) w1) eqn:Hhas; [exact S1|].
  cbn [fst].
  set (cl := {| cl_id := tk_clientId token; cl_properties := tk_clientProperties token;
                cl_missedPings := 0 |}).
  set (w2 := set_socket s (with_client cl) w1).
  assert (Hm2 : JsMap.get id (members r w2) = Some c) by (apply S1).
  assert (Hcl2 : client_of s w2 = Some cl \/ sockets w1 !! s = None).
  { unfold client_of, w2. cbn. rewrite list_lookup_alter_eq.
    destruct (sockets w1 !! s); [now left|now right]. }
  assert (S3 : Spared r c id w2 (Room_join r' s w2)).
  { destruct Hcl2 as [Hcl2|Hnone].
    - assert (Hfresh : JsMap.get (cl_id cl) (members r' w2) = None).
      { apply JsMap.has_false_get. exact Hhas. }
      destruct (Room_join_frame r' s cl w2 x Hcl2 Hx Hfresh) as (Hs3 & _ & Hmr & Hmo & _).
      destruct (Room_join_rooms r' s cl w2 Hcl2 Hhas) as (Hr3 & _).
      split; [now rewrite Hs3|]. split.
      + destruct (decide (r = r')) as [->|Hrr].
        * rewrite Hmr. rewrite JsMap.get_set_ne; [exact Hm2|].
          intros E. rewrite E in Hfresh. congruence.
        * now rewrite Hmo.
      + unfold room_meta at 1. rewrite Hr3.
        apply (room_meta_update r r' (JsMap.set (cl_id cl) s) w2).
    - assert (E : Room_join r' s w2 = w2).
      { unfold Room_join, client_of, w2. cbn. now rewrite list_lookup_alter_eq, Hnone. }
      rewrite E. now apply Spared_refl. }
  set (w3 := Room_join r' s w2) in *.
  apply (Spared_trans r c id w w1); [exact S1|].
  apply (Spared_trans r c id w1 w2); [apply Spared_set_socket; [exact Hne|apply S1]|].
  apply (Spared_trans r c id w2 w3); [exact S3|].
  set (w4 := set_server _ w3).
  apply (Spared_trans r c id w3 w4); [apply Spared_same; [reflexivity|reflexivity|apply S3]|].
  apply Spared_set_socket; [exact Hne|apply S3].
Qed.

Lemma removeRoom_meta r r' w :
  r' <> r -> room_meta r (RoomServer__removeRoom r' w) = room_meta r w.
Proof.
  intros Hne. unfold RoomServer__removeRoom. destruct (rooms w !! r') as [x|]; [|reflexivity].
  destruct (negb _); [reflexivity|]. cbn zeta.
  unfold Room_clearPingInterval, server_syncRooms, RoomServer__notify. cbn.
  destruct (opt_true _); cbn.
  - rewrite list_lookup_alter_eq. destruct (rooms w !! r'); cbn;
      unfold room_meta; cbn; now rewrite !list_lookup_alter_ne by congruence.
  - unfold room_meta; cbn; now rewrite !list_lookup_alter_ne by congruence.
Qed.

Section SparedRun.

Variable jwt_verify : string -> string -> string -> Z -> option ITokenOptions.
Variables (r c : nat) (id : string).

(** An open member of [r] is a member of no other room. *)
Lemma open_member_elsewhere w r' k' :
  Inv w -> JsMap.get id (members r w) = Some c -> Client__isClosing c w = false ->
  JsMap.get k' (members r' w) = Some c -> r' = r.
Proof.
  intros H Hm Hc Hm'.
  pose proof (open_member_listener r id c w H Hm Hc) as E1.
  pose proof (open_member_listener r' k' c w H Hm' Hc) as E2. congruence.
Qed.

(** Visiting the members of another room. *)
Lemma Undisturbed_elsewhere (visit : nat -> World -> World) r' w :
  (forall c' w1, Inv w1 -> Inv (visit c' w1)) ->
  (forall c' w1, Inv w1 -> Frame c' w1 (visit c' w1)) ->
  r' <> r -> Inv w -> JsMap.get id (members r w) = Some c -> Client__isClosing c w = false ->
  Undisturbed r c id w (Room_forEach r' visit w).
Proof.
  intros HI HF Hne H Hm Hc. unfold Room_forEach.
  apply (forEach_member_inv (Undisturbed r c id w)).
  - intros k' c' w1 _ (H1 & Hs1 & Hm1 & Hmeta1 & Hg1) Hg.
    assert (Hc1 : Client__isClosing c w1 = false).
    { unfold Client__isClosing, socket_state in *. now rewrite Hs1. }
    assert (Hcc : c' <> c).
    { intros ->. apply Hne. exact (open_member_elsewhere w1 r' k' H1 Hm1 Hc1 Hg). }
    destruct (HF c' w1 H1) as [F1 F2 F3 F4 F5 F6].
    assert (Hm2 : JsMap.get id (members r (visit c' w1)) = Some c) by (apply F3; auto).
    split; [now apply HI|]. split; [rewrite F1; auto|]. split; [exact Hm2|]. split.
    + rewrite F6; [exact Hmeta1|]. intros E. rewrite E in Hm2. discriminate.
    + eapply grows_trans; [exact Hg1|exact F5].
  - split; [exact H|]. split; [reflexivity|]. split; [exact Hm|].
    split; [reflexivity|apply grows_refl].
Qed.

Lemma Spared_step w i :
  Inv w -> JsMap.get id (members r w) = Some c -> Client__isClosing c w = false ->
  silent r c i = true -> is_tick r i = false ->
  Spared r c id w (step jwt_verify w i).
Proof.
  intros H Hm Hc Hs Ht.
  destruct (inv_member_client w (proj1 H) r id c Hm) as [cl [Hcl Hid]].
  assert (Hk : exists k, sockets w !! c = Some k /\ sk_client k = Some cl).
  { unfold client_of in Hcl. destruct (sockets w !! c) as [k|]; [|discriminate]. eauto. }
  destruct Hk as (kc & Hkc & Hkcl).
  destruct i as [|s data now|s|s|s|s|r'|r'|]; cbn [step]; cbn [silent is_tick] in Hs, Ht.
  - destruct (srv_on_connection (server w)); [|now apply Spared_refl].
    split; [|split; [exact Hm|reflexivity]].
    cbn. apply lookup_app_l. now apply lookup_lt_Some in Hkc.
  - destruct (sockets w !! s) as [k|] eqn:Ek; [|now apply Spared_refl].
    destruct (readyState k =? OPEN); [|now apply Spared_refl].
    destruct (on_token k) eqn:Et.
    + assert (Hne : s <> c).
      { intros ->. pose proof (inv_token w (proj1 H) c k Ek Et). congruence. }
      set (w0 := set_socket s (with_on_token false) w).
      assert (S0 : Spared r c id w w0) by (now apply Spared_set_socket).
      assert (I0 : Inv w0).
      { apply Inv_set_socket; [|exact H]. intros k' _. cbn. repeat split; auto. discriminate. }
      apply (Spared_trans r c id w w0); [exact S0|].
      unfold RoomServer__handleClient_message.
      destruct (RoomServer__authenticate jwt_verify data now w0) as [msg|token].
      * apply Spared_reject; [exact Hne|apply S0].
      * pose proof (Spared_connectClient r c id s token w0 I0 Hne (proj1 (proj2 S0))) as S1.
        destruct (RoomServer__connectClient s token w0) as [w1 [msg|]]; cbn [fst] in S1;
          [|exact S1].
        apply (Spared_trans r c id w0 w1); [exact S1|].
        apply Spared_reject; [exact Hne|apply S1].
    + destruct (on_client k); [|now apply Spared_refl].
      now apply Spared_same.
  - apply negb_true_iff, Nat.eqb_neq in Hs.
    destruct (sockets w !! s) as [k|]; [|now apply Spared_refl].
    destruct (on_client k); [|now apply Spared_refl]. now apply Spared_set_socket.
  - apply negb_true_iff, Nat.eqb_neq in Hs.
    destruct (sockets w !! s) as [k|]; [|now apply Spared_refl].
    destruct (on_client k); [|now apply Spared_refl].
    apply (Spared_Frame r c id s); [now apply Frame_Client_terminate|exact Hs|exact Hm].
  - apply negb_true_iff, Nat.eqb_neq in Hs. now apply Spared_set_socket.
  - apply negb_true_iff, Nat.eqb_neq in Hs.
    destruct (sockets w !! s) as [k|] eqn:Ek; [|now apply Spared_refl].
    destruct (readyState k =? CLOSED); [now apply Spared_refl|].
    set (w0 := set_socket s (with_readyState CLOSED) w).
    assert (S0 : Spared r c id w w0) by (now apply Spared_set_socket).
    apply (Spared_trans r c id w w0); [exact S0|].
    apply (Spared_Frame r c id s); [|exact Hs|apply S0].
    apply Frame_socket_emit_close.
    + apply Inv_set_socket; [|exact H]. intros k' _. cbn. repeat split; auto.
    + unfold closing, Client__isClosing, socket_state, w0. cbn.
      rewrite list_lookup_alter_eq, Ek. reflexivity.
  - apply Nat.eqb_neq in Ht.
    destruct (rooms w !! r') as [x|] eqn:Ex; [|now apply Spared_refl].
    destruct (room_timer x); [|now apply Spared_refl].
    unfold Room__pingClients. rewrite Ex. apply Spared_Undisturbed.
    apply Undisturbed_elsewhere; auto.
    + intros c' w1. apply Inv_Client_ping.
    + intros c' w1. apply Frame_Client_ping.
  - apply negb_true_iff, Nat.eqb_neq in Hs. unfold Room_terminate.
    pose proof (Undisturbed_elsewhere (Client_disconnect on_socket_close) r' w
                  (fun c' w1 => Inv_Client_disconnect c' w1)
                  (fun c' w1 => Frame_Client_disconnect c' w1) Hs H Hm Hc) as U.
    set (w1 := Room_forEach r' (Client_disconnect on_socket_close) w) in *.
    apply (Spared_trans r c id w w1); [now apply Spared_Undisturbed|].
    destruct U as (H1 & Hs1 & Hm1 & _).
    unfold Room_emit. cbn zeta. set (w2 := emit (RoomEmit r' Terminated) w1).
    apply (Spared_trans r c id w1 w2); [now apply Spared_same|].
    destruct (rooms w2 !! r') as [x|]; [|now apply Spared_refl].
    destruct (room_on_terminated x); [|now apply Spared_refl].
    destruct (removeRoom_frame r' w2) as (Hs2 & Hc2 & _).
    split; [now rewrite Hs2|]. split.
    + rewrite (members_cores _ _ r Hc2). exact Hm1.
    + now apply removeRoom_meta.
  - discriminate.
Qed.

End SparedRun.

(** ** An open member between two pongs *)

Section HeartbeatRun.

Variable jwt_verify : string -> string -> string -> Z -> option ITokenOptions.
Variables (r c : nat) (id : string) (L : Z) (opts : IRoomOptions).
Hypothesis limit : missedPingsLimit opts = Some L.

(** An input that is not a tick of [r] leaves the counter alone. *)
Lemma Alive_other m w i :
  Alive r c id opts m w -> silent r c i = true -> is_tick r i = false ->
  Alive r c id opts m (step jwt_verify w i).
Proof.
  intros (H & Hmeta & Hm & (cl & Hcl & Hmiss) & Hc) Hs Ht.
  destruct (Spared_step jwt_verify r c id w i H Hm Hc Hs Ht) as (S1 & S2 & S3).
  split; [now apply Inv_step|]. split; [congruence|]. split; [exact S2|]. split.
  - exists cl. unfold client_of in *. now rewrite S1.
  - unfold Client__isClosing, socket_state in *. now rewrite S1.
Qed.

Lemma is_tick_spec i : is_tick r i = true -> i = Tick r.
Proof.
  destruct i; cbn; try discriminate. intros E. apply Nat.eqb_eq in E. now subst.
Qed.

(** Between two pongs the counter counts the ticks of the room, as long
    as it stays within the limit. *)
Lemma Alive_run rest : forall m w,
  Alive r c id opts m w -> forallb (silent r c) rest = true ->
  (ticks r rest <= Z.to_nat (L - m))%nat ->
  Alive r c id opts (m + Z.of_nat (ticks r rest)) (run jwt_verify w rest).
Proof using limit.
  induction rest as [|i rest IH]; intros m w HA Hs Hle.
  - cbn. now rewrite Z.add_0_r.
  - cbn [forallb] in Hs. apply andb_true_iff in Hs as [Hi Hs].
    cbn [run fold_left]. unfold ticks in *. cbn [List.filter] in *.
    destruct (is_tick r i) eqn:Ht.
    + apply is_tick_spec in Ht. subst i. cbn [length] in *.
      replace (m + Z.of_nat (S (length (List.filter (is_tick r) rest))))
        with ((m + 1) + Z.of_nat (length (List.filter (is_tick r) rest))) by lia.
      apply IH; [|exact Hs|lia].
      apply (Alive_tick jwt_verify r c id L opts limit); [exact HA|lia].
    + apply IH; [|exact Hs|exact Hle]. now apply Alive_other.
Qed.

End HeartbeatRun.

(** C3, as amended: in any reachable world, take a room whose timer runs,
    with limit [L], and a member [c] with counter [m].
    - A tick skips the member if its socket is closing: the socket and its
      counter are as before, the client is still a member, and neither a
      ping nor [terminate()] was called on the socket.  Otherwise the tick
      terminates the client when [L <= m]: [socket.terminate()] is called,
      the socket is closing, the room emits [left] and the client is no
      longer a member; and when [m < L] it sends a ping and the counter
      becomes [m + 1]; the client stays a member.
    - A pong on an open socket resets the counter to 0.
    - A member with an open socket that does not pong: whatever else
      arrives meanwhile (connections, frames, admissions, pongs and closes
      of other sockets, ticks and [terminate()] of other rooms), its
      counter is [m] plus the number of ticks of its room, as long as these
      are at most [max (L - m) 0]; the tick after that many terminates and
      removes it.  A client admitted with counter 0 is evicted by tick
      [L + 1], after [L] unanswered pings. *)
Theorem heartbeat_evicts_silent_client
    (jwt_verify : string -> string -> string -> Z -> option ITokenOptions)
    (publicUrl : string) (env_DISCOVERY_SECRET : option string)
    (options : option IRoomServerOptions) (inputs : list Input)
    (r c : nat) (x : Room) (id : string) (cl : Client) (L : Z) :
  let w := run jwt_verify (RoomServer_new publicUrl env_DISCOVERY_SECRET options) inputs in
  rooms w !! r = Some x -> room_timer x = true ->
  missedPingsLimit (room_options x) = Some L ->
  JsMap.get id (members r w) = Some c ->
  client_of c w = Some cl ->
  (let w' := step jwt_verify w (Tick r) in
   if Client__isClosing c w
   then sockets w' !! c = sockets w !! c /\ JsMap.get id (members r w') = Some c /\
        ~ sent (SocketPing c) w w' /\ ~ sent (SocketTerminate c) w w'
   else if L <=? cl_missedPings cl
   then sent (SocketTerminate c) w w' /\ sent (RoomEmit r (Left c)) w w' /\
        Client__isClosing c w' = true /\ JsMap.get id (members r w') = None
   else sent (SocketPing c) w w' /\ client_of c w' = Some (bump cl) /\
        Client__isClosing c w' = false /\ JsMap.get id (members r w') = Some c) /\
  (Client__isClosing c w = false ->
   client_of c (step jwt_verify w (Pong c)) = Some (reset cl)) /\
  (Client__isClosing c w = false ->
   forall rest, forallb (silent r c) rest = true ->
     (ticks r rest <= Z.to_nat (L - cl_missedPings cl))%nat ->
     let w1 := run jwt_verify w rest in
     JsMap.get id (members r w1) = Some c /\
     Client__isClosing c w1 = false /\
     (exists cl1, client_of c w1 = Some cl1 /\
        cl_missedPings cl1 = cl_missedPings cl + Z.of_nat (ticks r rest)) /\
     (ticks r rest = Z.to_nat (L - cl_missedPings cl) ->
      let w2 := step jwt_verify w1 (Tick r) in
      sent (SocketTerminate c) w1 w2 /\ sent (RoomEmit r (Left c)) w1 w2 /\
      Client__isClosing c w2 = true /\ JsMap.get id (members r w2) = None)).
Proof.
  cbn zeta. intros Hx Ht HL Hm Hcl.
  set (w := run jwt_verify _ inputs) in *.
  assert (H : Inv w) by (apply Inv_run, Inv_new).
  assert (Hmeta : room_meta r w = Some (true, room_options x)).
  { unfold room_meta. rewrite Hx. cbn. now rewrite Ht. }
  split; [|split].
  - destruct (step_Tick jwt_verify r L (room_options x) HL w Hmeta) as (-> & _).
    destruct (Client__isClosing c w) eqn:Hc.
    + destruct (tick_skips_closing r x id c w H Hx Hm Hc) as (A & B & Q).
      split; [exact A|]. split; [exact B|].
      split; apply (Quiet_not_sent c _ _ _ Q); cbn; apply Nat.eqb_refl.
    + destruct (tick_member r x id c cl L w H Hx HL Hm Hcl Hc) as [_ T].
      destruct (L <=? cl_missedPings cl); tauto.
  - intros Hc. pose proof (open_member_listener r id c w H Hm Hc) as Hoc.
    unfold socket_on_close, client_of in *. cbn [step].
    destruct (sockets w !! c) as [k|] eqn:Ek; [|discriminate]. cbn in Hoc, Hcl.
    rewrite (inv_close_client w (proj1 H) c k r Ek Hoc). cbn.
    rewrite list_lookup_alter_eq, Ek. cbn. now rewrite Hcl.
  - intros Hc rest Hs Hle.
    assert (HA : Alive r c id (room_options x) (cl_missedPings cl) w).
    { split; [exact H|]. split; [exact Hmeta|]. split; [exact Hm|]. split; [eauto|exact Hc]. }
    pose proof (Alive_run jwt_verify r c id L (room_options x) HL rest _ w HA Hs Hle) as HA1.
    set (w1 := run jwt_verify w rest) in *.
    split; [apply HA1|]. split; [apply HA1|]. split; [apply HA1|].
    intros Hn.
    pose proof (Alive_evicted jwt_verify r c id L (room_options x) HL _ w1 HA1) as E.
    cbn zeta in E. apply E. lia.
Qed.

Lemma heartbeat_evicts_silent_client_witness :
  let w := run demo_verify heartbeat_server [Connection; Message 0 "R1/C1" 0] in
  let w1 := run demo_verify w [Tick 0; Connection; Tick 0] in
  let w2 := step demo_verify w1 (Tick 0) in
  JsMap.get "C1" (members 0 w1) = Some 0%nat /\
  sent (SocketTerminate 0) w1 w2 /\
  JsMap.get "C1" (members 0 w2) = None.
Proof.
  pose proof (heartbeat_evicts_silent_client demo_verify "rs-a" None heartbeat_options
                [Connection; Message 0 "R1/C1" 0] 0%nat 0%nat
                {| room_publicUrl := "rs-a"; room_id := "R1"; room_properties := JUndefined;
                   room_options := {| pingInterval := Some 50; missedPingsLimit := Some 2;
                                      keepAlive := Some false |};
                   room_clients := [("C1", 0%nat)]; room_timer := true;
                   room_on_sync := true; room_on_terminated := true |}
                "C1" {| cl_id := "C1"; cl_properties := JUndefined; cl_missedPings := 0 |} 2
                eq_refl eq_refl eq_refl eq_refl eq_refl) as H.
  cbn zeta in H. destruct H as (_ & _ & H).
  destruct (H eq_refl [Tick 0; Connection; Tick 0] eq_refl (Nat.le_refl 2))
    as (H1 & _ & _ & H2).
  destruct (H2 eq_refl) as (H3 & _ & _ & H4).
  split; [exact H1|]. split; [exact H3|exact H4].
Defined.

(** * Plain objects used as dictionaries

    [IRoomList] and [IClientList] are plain objects used as dictionaries.
    An object is the list of its own properties in the order of their
    creation, with unique keys.  What the sources do with such an object
    goes through the language, not through the list:
    - a read [o[k]] that finds no own property continues in
      [Object.prototype], whose property names are fixed below;
    - an assignment [o[k] = v] creates or updates an own property, except
      for the key [__proto__], which is the accessor of [Object.prototype]:
      with an object as [v] it replaces the prototype of [o] and creates
      no property;
    - [delete o[k]] removes an own property and nothing else;
    - [Object.keys], [Object.values] and [JSON.stringify] go through the
      own properties, array indices first in ascending order, then the
      other keys in the order of their creation. *)

Module JsObj.

(** The property names of [Object.prototype].  Each holds a function,
    [__proto__] gives [Object.prototype] itself: all are truthy, and none
    has a property [id] or [clients]. *)
Definition Object_prototype : list string :=
  ["constructor"; "__defineGetter__"; "__defineSetter__"; "hasOwnProperty";
   "__lookupGetter__"; "__lookupSetter__"; "isPrototypeOf"; "propertyIsEnumerable";
   "toString"; "valueOf"; "__proto__"; "toLocaleString"].

Definition inherited (k : string) : bool := existsb (String.eqb k) Object_prototype.

(** The value of [o[k]] for an object [o] created by [{}]. *)
Inductive Lookup (V : Type) :=
| Own (v : V)
| Inherited
| Undefined.

Arguments Own {V} v.
Arguments Inherited {V}.
Arguments Undefined {V}.

Section WithValue.
Context {V : Type}.

Definition lookup (k : string) (o : list (string * V)) : Lookup V :=
  match JsMap.get k o with
  | Some v => Own v
  | None => if inherited k then Inherited else Undefined
  end.

(** [o[k] = v], for an object [v]. *)
Definition assign (k : string) (v : V) (o : list (string * V)) : list (string * V) :=
  if String.eqb k "__proto__" then o else JsMap.set k v o.

(** The array index that a key denotes: a decimal numeral without
    leading zero, below [2^32 - 1]. *)
Definition digit (a : ascii) : option N :=
  let n := N_of_ascii a in
  if ((48 <=? n) && (n <=? 57))%N then Some (n - 48)%N else None.

Fixpoint numeral (s : string) (acc : N) : option N :=
  match s with
  | EmptyString => Some acc
  | String a s' =>
      match digit a with
      | Some d => numeral s' (10 * acc + d)%N
      | None => None
      end
  end.

Definition index (k : string) : option N :=
  match k with
  | EmptyString => None
  | String "0" EmptyString => Some 0%N
  | String "0" _ => None
  | _ => match numeral k 0 with
         | Some n => if (n <? 4294967295)%N then Some n else None
         | None => None
         end
  end.

Definition indexed (o : list (string * V)) : list (N * (string * V)) :=
  omap (fun kv => (fun n => (n, kv)) <$> index (fst kv)) o.

Definition named (o : list (string * V)) : list (string * V) :=
  List.filter (fun kv => match index (fst kv) with None => true | Some _ => false end) o.

Definition by_index (a b : N * (string * V)) : Prop := (fst a <= fst b)%N.

#[local] Instance by_index_dec a b : Decision (by_index a b) := N.le_dec (fst a) (fst b).

(** The own properties in the order of [Object.keys]. *)
Definition entries (o : list (string * V)) : list (string * V) :=
  (snd <$> merge_sort by_index (indexed o)) ++ named o.

Definition keys (o : list (string * V)) : list string := fst <$> entries o.
Definition values (o : list (string * V)) : list V := snd <$> entries o.

Lemma lookup_Own k o v : lookup k o = Own v <-> JsMap.get k o = Some v.
Proof.
  unfold lookup. destruct (JsMap.get k o) as [v'|].
  - split; intros [= ->]; reflexivity.
  - destruct (inherited k); split; discriminate.
Qed.

Lemma lookup_Undefined k o :
  lookup k o = Undefined <-> JsMap.get k o = None /\ inherited k = false.
Proof.
  unfold lookup. destruct (JsMap.get k o) as [v'|].
  - split; [discriminate|intros [? _]; discriminate].
  - destruct (inherited k); split; try discriminate; auto. intros [_ ?]. discriminate.
Qed.

Lemma lookup_Inherited k o :
  lookup k o = Inherited <-> JsMap.get k o = None /\ inherited k = true.
Proof.
  unfold lookup. destruct (JsMap.get k o) as [v'|].
  - split; [discriminate|intros [? _]; discriminate].
  - destruct (inherited k); split; try discriminate; auto. intros [_ ?]. discriminate.
Qed.

Lemma split_indexed (o : list (string * V)) : (snd <$> indexed o) ++ named o ≡ₚ o.
Proof.
  unfold indexed, named. induction o as [|[k v] o IH]; cbn; [reflexivity|].
  destruct (index k); cbn.
  - now rewrite IH.
  - rewrite <- Permutation_middle. now rewrite IH.
Qed.

Lemma entries_Permutation (o : list (string * V)) : entries o ≡ₚ o.
Proof.
  unfold entries. rewrite (merge_sort_Permutation by_index (indexed o)).
  apply split_indexed.
Qed.

Lemma keys_Permutation (o : list (string * V)) : keys o ≡ₚ JsMap.keys o.
Proof. unfold keys, JsMap.keys. now rewrite entries_Permutation. Qed.

Lemma values_Permutation (o : list (string * V)) : values o ≡ₚ JsMap.values o.
Proof. unfold values, JsMap.values. now rewrite entries_Permutation. Qed.

Lemma elem_of_entries kv (o : list (string * V)) : kv ∈ entries o <-> kv ∈ o.
Proof. now rewrite entries_Permutation. Qed.

Lemma entries_wf (o : list (string * V)) : JsMap.wf o -> JsMap.wf (entries o).
Proof.
  unfold JsMap.wf. change (JsMap.keys (entries o)) with (keys o).
  now rewrite keys_Permutation.
Qed.

Lemma entries_nil : entries ([] : list (string * V)) = [].
Proof. reflexivity. Qed.

End WithValue.

End JsObj.


(** * discovery.ts: the mirror of the room servers

    [Discovery] keeps one [IRoomServer] record per room server.  The
    records are objects: the map [_roomServers] and the reply callback of
    [_addNewServer] refer to the same record, so records live in a heap and
    are named by their reference.  A room summary is owned by the record
    that holds it and is addressed by the record's reference and the key
    under which the record holds it.

    The [rooms] of a record and the [clients] of a mirrored room are plain
    objects created by [{}] ([JsObj]).  Listeners receive objects; the log
    records their content at the time of the [emit]. *)

Record IClientSummary := {
  cs_id : string;
  cs_properties : json
}.

Record IRoomSummary := {
  rs_id : string;
  rs_publicUrl : string;
  rs_clients : list (string * IClientSummary);
  rs_properties : json
}.

Record IRoomServer := {
  sv_publicUrl : string;
  sv_clientCount : Z;
  sv_rooms : list (string * IRoomSummary);
  sv_lastPing : Z
}.

Record IRoomServerPing := {
  ping_publicUrl : string;
  ping_clientCount : Z;
  ping_reset : option bool
}.

(** The payload of an [rs.event] message ([any] in the source): the fields
    that [_handleServerEvent] reads. *)
Record IServerEvent := {
  ev_publicUrl : string;
  ev_subject : string;
  ev_roomId : string;
  ev_properties : json;
  ev_client : option IClientSummary
}.

(** [EvRoomLeftPrototype room name]: ['roomLeft'] emitted with [room] and,
    in place of a client, the value [Object.prototype[name]]. *)
Inductive DiscoveryEvent :=
| EvNewServer (server : IRoomServer)
| EvServerRemoved (server : IRoomServer)
| EvNewRoom (room : IRoomSummary)
| EvRoomRemoved (room : IRoomSummary)
| EvRoomJoined (room : IRoomSummary) (client : IClientSummary)
| EvRoomLeft (room : IRoomSummary) (client : IClientSummary)
| EvRoomLeftPrototype (room : IRoomSummary) (name : string)
| EvBroadcast (message : json).

(** What [Discovery] emits and what it asks of its environment, most
    recent first.  [NatsRequest subject max sv]: a request whose reply
    callback holds the record [sv].  [ConsoleError]: the [console.error] of
    [_subscribe] for an exception of the callback.  [UncaughtException]: an
    exception that leaves the timer callback. *)
Inductive DiscoveryEffect :=
| DiscoveryEmit (e : DiscoveryEvent)
| NatsRequest (subject : string) (max : Z) (sv : nat)
| ConsoleError
| UncaughtException.

Record Mirror := {
  roomServers : list (string * nat);
  records : list IRoomServer;
  effects : list DiscoveryEffect
}.

(** How a call ends: it returns, or it throws (the only exception that
    the code of [Discovery] can raise is the [TypeError] of a property read
    on [undefined]); either way with the mirror as the call left it. *)
Inductive Outcome :=
| Return (m : Mirror)
| Throw (m : Mirror).

Definition state (o : Outcome) : Mirror :=
  match o with Return m | Throw m => m end.

Definition and_then (o : Outcome) (f : Mirror -> Outcome) : Outcome :=
  match o with
  | Return m => f m
  | Throw m => Throw m
  end.

(** [Array.prototype.forEach]: an exception of the callback ends the
    loop. *)
Fixpoint Array_forEach {A} (l : list A) (f : A -> Mirror -> Outcome) (m : Mirror) : Outcome :=
  match l with
  | [] => Return m
  | a :: l' => and_then (f a m) (Array_forEach l' f)
  end.

Definition with_rs_clients (m : list (string * IClientSummary)) (room : IRoomSummary)
    : IRoomSummary :=
  {| rs_id := rs_id room; rs_publicUrl := rs_publicUrl room;
     rs_clients := m; rs_properties := rs_properties room |}.

Definition with_sv_rooms (m : list (string * IRoomSummary)) (x : IRoomServer) : IRoomServer :=
  {| sv_publicUrl := sv_publicUrl x; sv_clientCount := sv_clientCount x;
     sv_rooms := m; sv_lastPing := sv_lastPing x |}.

Definition with_ping (count now : Z) (x : IRoomServer) : IRoomServer :=
  {| sv_publicUrl := sv_publicUrl x; sv_clientCount := count;
     sv_rooms := sv_rooms x; sv_lastPing := now |}.

Definition set_record (sv : nat) (f : IRoomServer -> IRoomServer) (m : Mirror) : Mirror :=
  {| roomServers := roomServers m; records := alter f sv (records m);
     effects := effects m |}.

Definition set_roomServers (f : list (string * nat) -> list (string * nat)) (m : Mirror)
    : Mirror :=
  {| roomServers := f (roomServers m); records := records m; effects := effects m |}.

Definition effect (e : DiscoveryEffect) (m : Mirror) : Mirror :=
  {| roomServers := roomServers m; records := records m; effects := e :: effects m |}.

(** The room that the record [sv] holds as its own property [key]. *)
Definition room_at (sv : nat) (key : string) (m : Mirror) : option IRoomSummary :=
  records m !! sv ≫= fun x => JsMap.get key (sv_rooms x).

(** Writes the room held by record [sv] under [key]. *)
Definition set_room_at (sv : nat) (key : string) (room : IRoomSummary) (m : Mirror) : Mirror :=
  set_record sv (fun x => with_sv_rooms (JsMap.set key room (sv_rooms x)) x) m.

(** [_addNewClient(room, client)], for the room held by [sv] under [key]:
    [room.clients[client.id]] is truthy for a client of the room and for a
    property name of [Object.prototype]; the assignment is reached with
    neither, so it creates an own property. *)
Definition Discovery__addNewClient (sv : nat) (key : string) (client : IClientSummary)
    (m : Mirror) : Mirror :=
  match room_at sv key m with
  | None => m
  | Some room =>
      match JsObj.lookup (cs_id client) (rs_clients room) with
      | JsObj.Undefined =>
          let room :=
            with_rs_clients (JsMap.set (cs_id client) client (rs_clients room)) room in
          let m := set_room_at sv key room m in
          effect (DiscoveryEmit (EvRoomJoined room client)) m
      | _ => m
      end
  end.

(** [_removeClient(room, clientId)], for the room held by [sv] under
    [key]: the event is emitted before the client is deleted; for a
    property name of [Object.prototype] that the room does not hold, the
    event is emitted with the inherited value and [delete] finds no own
    property. *)
Definition Discovery__removeClient (sv : nat) (key : string) (clientId : string)
    (m : Mirror) : Mirror :=
  match room_at sv key m with
  | None => m
  | Some room =>
      match JsObj.lookup clientId (rs_clients room) with
      | JsObj.Undefined => m
      | JsObj.Inherited => effect (DiscoveryEmit (EvRoomLeftPrototype room clientId)) m
      | JsObj.Own client =>
          let m := effect (DiscoveryEmit (EvRoomLeft room client)) m in
          set_room_at sv key (with_rs_clients (JsMap.delete clientId (rs_clients room)) room) m
      end
  end.

(** [_addNewRoom(roomServer, room)]: [roomServer.rooms[room.id]] is truthy
    for a room of the record and for a property name of
    [Object.prototype]. *)
Definition Discovery__addNewRoom (sv : nat) (room : IRoomSummary) (m : Mirror) : Mirror :=
  match records m !! sv with
  | None => m
  | Some x =>
      match JsObj.lookup (rs_id room) (sv_rooms x) with
      | JsObj.Undefined =>
          let clients := rs_clients room in
          let room := with_rs_clients [] room in
          let m := set_room_at sv (rs_id room) room m in
          let m := effect (DiscoveryEmit (EvNewRoom room)) m in
          fold_left (fun m client => Discovery__addNewClient sv (rs_id room) client m)
            (JsObj.values clients) m
      | _ => m
      end
  end.

(** [_removeRoom(roomServer, roomId)].  For a property name of
    [Object.prototype] that the record does not hold, [room] is the
    inherited value, [room.clients] is [undefined] and [Object.keys]
    throws. *)
Definition Discovery__removeRoom (sv : nat) (roomId : string) (m : Mirror) : Outcome :=
  match records m !! sv with
  | None => Return m
  | Some x =>
      match JsObj.lookup roomId (sv_rooms x) with
      | JsObj.Undefined => Return m
      | JsObj.Inherited => Throw m
      | JsObj.Own room =>
          let m := fold_left (fun m clientId => Discovery__removeClient sv roomId clientId m)
                     (JsObj.keys (rs_clients room)) m in
          (* the same object, read again after its clients were removed *)
          match room_at sv roomId m with
          | None => Return m
          | Some room =>
              let m := set_record sv
                         (fun x => with_sv_rooms (JsMap.delete roomId (sv_rooms x)) x) m in
              Return (effect (DiscoveryEmit (EvRoomRemoved room)) m)
          end
      end
  end.

(** [_removeServer(roomServer)]. *)
Definition Discovery__removeServer (sv : nat) (m : Mirror) : Outcome :=
  match records m !! sv with
  | None => Return m
  | Some x =>
      and_then (Array_forEach (JsObj.keys (sv_rooms x)) (Discovery__removeRoom sv) m)
        (fun m =>
           (* the same record, read again after its rooms were removed *)
           match records m !! sv with
           | None => Return m
           | Some x =>
               let m := set_roomServers (JsMap.delete (sv_publicUrl x)) m in
               Return (effect (DiscoveryEmit (EvServerRemoved x)) m)
           end)
  end.

(** [_removeServerByUrl(publicUrl)]. *)
Definition Discovery__removeServerByUrl (publicUrl : string) (m : Mirror) : Outcome :=
  match JsMap.get publicUrl (roomServers m) with
  | Some sv => Discovery__removeServer sv m
  | None => Return m
  end.

(** [_addNewServer(server)]: the new record gets the next reference. *)
Definition Discovery__addNewServer (server : IRoomServer) (m : Mirror) : Mirror :=
  let sv := length (records m) in
  let m := {| roomServers := JsMap.set (sv_publicUrl server) sv (roomServers m);
              records := records m ++ [server]; effects := effects m |} in
  let m := effect (DiscoveryEmit (EvNewServer server)) m in
  effect (NatsRequest ("rooms." ++ sv_publicUrl server) 1 sv) m.

(** The reply callback of the request issued by [_addNewServer]; [rooms]
    is the object of the reply. *)
Definition Discovery__addNewServer_reply (sv : nat) (rooms : list (string * IRoomSummary))
    (m : Mirror) : Mirror :=
  fold_left (fun m room => Discovery__addNewRoom sv room m) (JsObj.values rooms) m.

(** [_receiveServerPing(server)], at time [now]. *)
Definition Discovery__receiveServerPing (ping : IRoomServerPing) (now : Z) (m : Mirror)
    : Mirror :=
  let m := if opt_false (ping_reset ping)
           then set_roomServers (JsMap.delete (ping_publicUrl ping)) m
           else m in
  match JsMap.get (ping_publicUrl ping) (roomServers m) with
  | Some sv => set_record sv (with_ping (ping_clientCount ping) now) m
  | None =>
      Discovery__addNewServer
        {| sv_publicUrl := ping_publicUrl ping; sv_clientCount := ping_clientCount ping;
           sv_rooms := []; sv_lastPing := now |} m
  end.

(** [_handleServerEvent(event)].  [roomServer.rooms[event.roomId]] passes
    the guard [if (!room)] for a room of the record and for a property name
    of [Object.prototype].  The inherited value has neither [id] nor
    [clients]: ['roomRemoved'] goes on with [room.id], which is
    [undefined] and names the property ["undefined"]; ['roomJoined'] and
    ['roomLeft'] read a property of [room.clients] and throw.  They also
    throw when the event has no [client]. *)
Definition Discovery__handleServerEvent (event : IServerEvent) (m : Mirror) : Outcome :=
  match JsMap.get (ev_publicUrl event) (roomServers m) with
  | None => Return m
  | Some sv =>
      if String.eqb (ev_subject event) "newRoom" then
        Return (Discovery__addNewRoom sv
                  {| rs_id := ev_roomId event; rs_publicUrl := ev_publicUrl event;
                     rs_clients := []; rs_properties := ev_properties event |} m)
      else
        match records m !! sv with
        | None => Return m
        | Some x =>
            match JsObj.lookup (ev_roomId event) (sv_rooms x) with
            | JsObj.Undefined => Return m
            | JsObj.Own room =>
                if String.eqb (ev_subject event) "roomRemoved" then
                  Discovery__removeRoom sv (rs_id room) m
                else if String.eqb (ev_subject event) "roomJoined" then
                  match ev_client event with
                  | Some client =>
                      Return (Discovery__addNewClient sv (ev_roomId event) client m)
                  | None => Throw m
                  end
                else if String.eqb (ev_subject event) "roomLeft" then
                  match ev_client event with
                  | Some client =>
                      Return (Discovery__removeClient sv (ev_roomId event) (cs_id client) m)
                  | None => Throw m
                  end
                else Return m
            | JsObj.Inherited =>
                if String.eqb (ev_subject event) "roomRemoved" then
                  Discovery__removeRoom sv "undefined" m
                else if String.eqb (ev_subject event) "roomJoined" then Throw m
                else if String.eqb (ev_subject event) "roomLeft" then Throw m
                else Return m
            end
        end
  end.

Definition serverTimeout : Z := 5000.

(** [Map.prototype.forEach] over the servers: an entry deleted before its
    turn is skipped, an exception of the callback ends the loop. *)
Fixpoint forEach_server (entries : list (string * nat)) (visit : nat -> Mirror -> Outcome)
    (m : Mirror) : Outcome :=
  match entries with
  | [] => Return m
  | (k, sv) :: rest =>
      and_then
        match JsMap.get k (roomServers m) with
        | Some sv' => if Nat.eqb sv' sv then visit sv m else Return m
        | None => Return m
        end
        (forEach_server rest visit)
  end.

(** [_serverCheckLoop()], at time [now]. *)
Definition Discovery__serverCheckLoop (now : Z) (m : Mirror) : Outcome :=
  forEach_server (roomServers m)
    (fun sv m =>
       match records m !! sv with
       | Some x => if sv_lastPing x + serverTimeout <? now
                   then Discovery__removeServer sv m else Return m
       | None => Return m
       end) m.

(** The wrapper that [_subscribe] puts around a callback: an exception is
    caught and printed. *)
Definition Discovery__subscribe (o : Outcome) : Mirror :=
  match o with
  | Return m => m
  | Throw m => effect ConsoleError m
  end.

(** The timer callback has no handler: an exception would leave it
    ([check_loop_returns]: in a run none does). *)
Definition Discovery__timer (o : Outcome) : Mirror :=
  match o with
  | Return m => m
  | Throw m => effect UncaughtException m
  end.

(** What reaches a [Discovery] from the bus and from its timer. *)
Inductive DiscoveryInput :=
| OnPing (ping : IRoomServerPing) (now : Z)
| OnBroadcast (message : json)
| OnServerEvent (event : IServerEvent)
| OnServerStop (publicUrl : string)
| OnRoomsReply (sv : nat) (rooms : list (string * IRoomSummary))
| OnCheckLoop (now : Z).

Definition Discovery_new : Mirror :=
  {| roomServers := []; records := []; effects := [] |}.

Definition Discovery_step (m : Mirror) (i : DiscoveryInput) : Mirror :=
  match i with
  | OnPing ping now => Discovery__receiveServerPing ping now m
  | OnBroadcast message => effect (DiscoveryEmit (EvBroadcast message)) m
  | OnServerEvent event => Discovery__subscribe (Discovery__handleServerEvent event m)
  | OnServerStop publicUrl => Discovery__subscribe (Discovery__removeServerByUrl publicUrl m)
  | OnRoomsReply sv rooms => Discovery__addNewServer_reply sv rooms m
  | OnCheckLoop now => Discovery__timer (Discovery__serverCheckLoop now m)
  end.

Definition Discovery_run (inputs : list DiscoveryInput) : Mirror :=
  fold_left Discovery_step inputs Discovery_new.

(** ** The invariant of the mirror *)

(** A room is held under its id, and its clients under theirs. *)
Definition RoomOK (key : string) (room : IRoomSummary) : Prop :=
  rs_id room = key /\ JsMap.wf (rs_clients room) /\
  forall k c, (k, c) ∈ rs_clients room -> cs_id c = k.

(** No key of the object is a property name of [Object.prototype]. *)
Definition Plain {V} (o : list (string * V)) : Prop :=
  forall k v, (k, v) ∈ o -> JsObj.inherited k = false.

Definition RecordOK (x : IRoomServer) : Prop :=
  JsMap.wf (sv_rooms x) /\ Plain (sv_rooms x) /\
  forall k room, (k, room) ∈ sv_rooms x -> RoomOK k room /\ Plain (rs_clients room).

Record DInv (m : Mirror) : Prop := {
  d_wf : JsMap.wf (roomServers m);
  d_known : forall url sv, (url, sv) ∈ roomServers m -> is_Some (records m !! sv);
  d_records : forall sv x, records m !! sv = Some x -> RecordOK x
}.

Lemma Plain_nil {V} : Plain ([] : list (string * V)).
Proof. intros k v H. now apply elem_of_nil in H. Qed.

Lemma Plain_set {V} k (v : V) o : Plain o -> JsObj.inherited k = false -> Plain (JsMap.set k v o).
Proof. intros H Hk k' v' Hin. apply In_set in Hin as [[= -> ->]|Hin]; eauto. Qed.

Lemma Plain_delete {V} k (o : list (string * V)) : Plain o -> Plain (JsMap.delete k o).
Proof. intros H k' v' Hin. apply (H k' v'). eapply JsMap.In_delete, Hin. Qed.

Lemma DInv_effect e m : DInv m -> DInv (effect e m).
Proof. intros [H1 H2 H3]. split; auto. Qed.

Lemma DInv_set_record sv f m :
  DInv m -> (forall x, records m !! sv = Some x -> RecordOK (f x)) ->
  DInv (set_record sv f m).
Proof.
  intros [H1 H2 H3] Hf. split; cbn; [exact H1| |].
  - intros url sv' Hin. destruct (H2 url sv' Hin) as [x Hx].
    destruct (decide (sv = sv')) as [->|Hne].
    + rewrite list_lookup_alter_eq, Hx. now eexists.
    + rewrite list_lookup_alter_ne by assumption. now exists x.
  - intros sv' x'. destruct (decide (sv = sv')) as [->|Hne].
    + rewrite list_lookup_alter_eq. destruct (records m !! sv') as [x|] eqn:Hx; [|discriminate].
      cbn. intros [= <-]. now apply Hf.
    + rewrite list_lookup_alter_ne by assumption. apply H3.
Qed.

Lemma DInv_delete_server url m :
  DInv m -> DInv (set_roomServers (JsMap.delete url) m).
Proof.
  intros [H1 H2 H3]. split; cbn; [now apply JsMap.wf_delete| |exact H3].
  intros url' sv Hin. apply (H2 url'). eapply JsMap.In_delete, Hin.
Qed.

Lemma RecordOK_set_room x key room :
  RecordOK x -> RoomOK key room -> Plain (rs_clients room) -> JsObj.inherited key = false ->
  RecordOK (with_sv_rooms (JsMap.set key room (sv_rooms x)) x).
Proof.
  intros (Hwf & Hp & Hr) Hroom Hpc Hk. split; cbn; [now apply JsMap.wf_set|].
  split; [now apply Plain_set|].
  intros k room' Hin. apply In_set in Hin as [[= -> ->]|Hin]; auto.
Qed.

Lemma RecordOK_delete_room x key :
  RecordOK x -> RecordOK (with_sv_rooms (JsMap.delete key (sv_rooms x)) x).
Proof.
  intros (Hwf & Hp & Hr). split; cbn; [now apply JsMap.wf_delete|].
  split; [now apply Plain_delete|].
  intros k room' Hin. apply Hr. eapply JsMap.In_delete, Hin.
Qed.

Lemma room_at_OK sv key room m :
  DInv m -> room_at sv key m = Some room ->
  RoomOK key room /\ Plain (rs_clients room) /\ JsObj.inherited key = false.
Proof.
  intros H. unfold room_at. destruct (records m !! sv) as [x|] eqn:Hx; [|discriminate].
  cbn. intros Hg. destruct (d_records m H sv x Hx) as (_ & Hp & Hr).
  apply JsMap.get_In in Hg. destruct (Hr key room Hg) as [A B].
  split; [exact A|]. split; [exact B|]. exact (Hp key room Hg).
Qed.

Lemma DInv_set_room_at sv key room m :
  DInv m -> RoomOK key room -> Plain (rs_clients room) -> JsObj.inherited key = false ->
  DInv (set_room_at sv key room m).
Proof.
  intros H Hroom Hp Hk. apply DInv_set_record; [exact H|].
  intros x Hx. apply RecordOK_set_room; auto. exact (d_records m H sv x Hx).
Qed.

Lemma DInv_addNewClient sv key client m :
  DInv m -> DInv (Discovery__addNewClient sv key client m).
Proof.
  intros H. unfold Discovery__addNewClient.
  destruct (room_at sv key m) as [room|] eqn:Hroom; [|exact H].
  destruct (JsObj.lookup _ _) eqn:E; try exact H. cbn zeta.
  apply JsObj.lookup_Undefined in E as [_ Ek].
  destruct (room_at_OK sv key room m H Hroom) as ((Hid & Hwf & Hc) & Hp & Hkey).
  apply DInv_effect, DInv_set_room_at; [exact H| | |exact Hkey].
  - split; [exact Hid|]. split; cbn; [now apply JsMap.wf_set|].
    intros k c Hin. apply In_set in Hin as [[= -> ->]|Hin]; auto.
  - cbn. now apply Plain_set.
Qed.

Lemma DInv_removeClient sv key clientId m :
  DInv m -> DInv (Discovery__removeClient sv key clientId m).
Proof.
  intros H. unfold Discovery__removeClient.
  destruct (room_at sv key m) as [room|] eqn:Hroom; [|exact H].
  destruct (room_at_OK sv key room m H Hroom) as ((Hid & Hwf & Hc) & Hp & Hkey).
  destruct (JsObj.lookup _ _); [|now apply DInv_effect|exact H]. cbn zeta.
  apply DInv_set_room_at; [now apply DInv_effect| | |exact Hkey].
  - split; [exact Hid|]. split; cbn; [now apply JsMap.wf_delete|].
    intros k c Hin. apply Hc. eapply JsMap.In_delete, Hin.
  - cbn. now apply Plain_delete.
Qed.

Lemma fold_keeps {A} (P : Mirror -> Prop) (f : Mirror -> A -> Mirror) l m :
  (forall m a, P m -> P (f m a)) -> P m -> P (fold_left f l m).
Proof.
  intros Hf. revert m. induction l as [|a l IH]; intros m H; cbn; auto.
Qed.

Lemma forEach_keeps {A} (P : Mirror -> Prop) (f : A -> Mirror -> Outcome) l m :
  (forall a m, P m -> P (state (f a m))) -> P m -> P (state (Array_forEach l f m)).
Proof.
  intros Hf. revert m. induction l as [|a l IH]; intros m H; cbn; [exact H|].
  specialize (Hf a m H). destruct (f a m) as [m1|m1]; cbn in *; auto.
Qed.

Lemma and_then_keeps (P : Mirror -> Prop) o f :
  P (state o) -> (forall m, P m -> P (state (f m))) -> P (state (and_then o f)).
Proof. destruct o as [m|m]; cbn; auto. Qed.

Lemma DInv_addNewRoom sv room m : DInv m -> DInv (Discovery__addNewRoom sv room m).
Proof.
  intros H. unfold Discovery__addNewRoom.
  destruct (records m !! sv) as [x|]; [|exact H].
  destruct (JsObj.lookup _ _) eqn:E; try exact H. cbn zeta.
  apply JsObj.lookup_Undefined in E as [_ Ek].
  apply fold_keeps; [intros; now apply DInv_addNewClient|].
  apply DInv_effect, DInv_set_room_at; [exact H| |apply Plain_nil|exact Ek].
  split; [reflexivity|]. split; cbn; [apply NoDup_nil_2|].
  intros k c Hin. now apply elem_of_nil in Hin.
Qed.

Lemma DInv_removeRoom sv roomId m :
  DInv m -> DInv (state (Discovery__removeRoom sv roomId m)).
Proof.
  intros H. unfold Discovery__removeRoom.
  destruct (records m !! sv) as [x|]; [|exact H].
  destruct (JsObj.lookup _ _) as [room| |]; try exact H. cbn zeta.
  set (m1 := fold_left _ _ m).
  assert (H1 : DInv m1) by (apply fold_keeps; [intros; now apply DInv_removeClient|exact H]).
  destruct (room_at sv roomId m1) as [room1|]; [|exact H1].
  apply DInv_effect, DInv_set_record; [exact H1|].
  intros x' Hx'. apply RecordOK_delete_room. exact (d_records m1 H1 sv x' Hx').
Qed.

Lemma DInv_removeServer sv m : DInv m -> DInv (state (Discovery__removeServer sv m)).
Proof.
  intros H. unfold Discovery__removeServer.
  destruct (records m !! sv) as [x|]; [|exact H].
  apply and_then_keeps.
  - apply forEach_keeps; [intros; now apply DInv_removeRoom|exact H].
  - intros m1 H1. destruct (records m1 !! sv); [|exact H1].
    now apply DInv_effect, DInv_delete_server.
Qed.

Lemma DInv_removeServerByUrl url m :
  DInv m -> DInv (state (Discovery__removeServerByUrl url m)).
Proof.
  intros H. unfold Discovery__removeServerByUrl.
  destruct (JsMap.get url (roomServers m)); [now apply DInv_removeServer|exact H].
Qed.

Lemma DInv_addNewServer server m :
  DInv m -> sv_rooms server = [] -> DInv (Discovery__addNewServer server m).
Proof.
  intros [H1 H2 H3] Hs. unfold Discovery__addNewServer. do 2 apply DInv_effect.
  split; cbn.
  - now apply JsMap.wf_set.
  - intros url sv Hin. apply In_set in Hin as [[= -> ->]|Hin].
    + rewrite lookup_app_r by lia. rewrite Nat.sub_diag. now eexists.
    + destruct (H2 url sv Hin) as [x Hx]. exists x. now apply lookup_app_l_Some.
  - intros sv x Hx. apply lookup_app_Some in Hx as [Hx|[_ Hx]]; [eauto|].
    apply list_lookup_singleton_Some in Hx as [_ <-]. unfold RecordOK. rewrite Hs.
    split; [apply NoDup_nil_2|]. split; [apply Plain_nil|].
    intros k room Hin. now apply elem_of_nil in Hin.
Qed.

Lemma DInv_receiveServerPing ping now m :
  DInv m -> DInv (Discovery__receiveServerPing ping now m).
Proof.
  intros H. unfold Discovery__receiveServerPing.
  set (m1 := if opt_false (ping_reset ping) then _ else m).
  assert (H1 : DInv m1).
  { unfold m1. destruct (opt_false _); [now apply DInv_delete_server|exact H]. }
  destruct (JsMap.get _ (roomServers m1)) as [sv|].
  - apply DInv_set_record; [exact H1|]. intros x Hx. exact (d_records m1 H1 sv x Hx).
  - now apply DInv_addNewServer.
Qed.

Lemma DInv_handleServerEvent event m :
  DInv m -> DInv (state (Discovery__handleServerEvent event m)).
Proof.
  intros H. unfold Discovery__handleServerEvent.
  destruct (JsMap.get _ (roomServers m)) as [sv|]; [|exact H].
  destruct (String.eqb _ "newRoom"); [now apply DInv_addNewRoom|].
  destruct (records m !! sv) as [x|]; [|exact H].
  destruct (JsObj.lookup _ _) as [room| |]; [| |exact H].
  - destruct (String.eqb _ "roomRemoved"); [now apply DInv_removeRoom|].
    destruct (String.eqb _ "roomJoined").
    { destruct (ev_client event); [now apply DInv_addNewClient|exact H]. }
    destruct (String.eqb _ "roomLeft"); [|exact H].
    destruct (ev_client event); [now apply DInv_removeClient|exact H].
  - destruct (String.eqb _ "roomRemoved"); [now apply DInv_removeRoom|].
    destruct (String.eqb _ "roomJoined"); [exact H|].
    destruct (String.eqb _ "roomLeft"); exact H.
Qed.

Lemma forEach_server_keeps (P : Mirror -> Prop) visit entries m :
  (forall sv m, P m -> P (state (visit sv m))) ->
  P m -> P (state (forEach_server entries visit m)).
Proof.
  intros Hv. revert m. induction entries as [|[k sv] rest IH]; intros m H;
    cbn [forEach_server]; [exact H|].
  apply (and_then_keeps P); [|exact IH].
  destruct (JsMap.get k (roomServers m)) as [sv'|]; [|exact H].
  destruct (Nat.eqb sv' sv); [now apply Hv|exact H].
Qed.

Lemma DInv_serverCheckLoop now m :
  DInv m -> DInv (state (Discovery__serverCheckLoop now m)).
Proof.
  intros H. unfold Discovery__serverCheckLoop.
  apply (forEach_server_keeps DInv); [|exact H]. intros sv m' H'.
  destruct (records m' !! sv) as [x|]; [|exact H'].
  destruct (_ <? _); [now apply DInv_removeServer|exact H'].
Qed.

Lemma subscribe_keeps (P : Mirror -> Prop) o :
  (forall e m, P m -> P (effect e m)) -> P (state o) -> P (Discovery__subscribe o).
Proof. intros He. destruct o as [m|m]; cbn; auto. Qed.

Lemma timer_keeps (P : Mirror -> Prop) o :
  (forall e m, P m -> P (effect e m)) -> P (state o) -> P (Discovery__timer o).
Proof. intros He. destruct o as [m|m]; cbn; auto. Qed.

Lemma DInv_step m i : DInv m -> DInv (Discovery_step m i).
Proof.
  intros H. destruct i as [ping now|message|event|url|sv rooms|now]; cbn [Discovery_step].
  - now apply DInv_receiveServerPing.
  - now apply DInv_effect.
  - apply subscribe_keeps; [apply DInv_effect|now apply DInv_handleServerEvent].
  - apply subscribe_keeps; [apply DInv_effect|now apply DInv_removeServerByUrl].
  - unfold Discovery__addNewServer_reply.
    apply fold_keeps; [intros; now apply DInv_addNewRoom|exact H].
  - apply timer_keeps; [apply DInv_effect|now apply DInv_serverCheckLoop].
Qed.

Lemma DInv_run inputs : DInv (Discovery_run inputs).
Proof.
  unfold Discovery_run.
  assert (H : DInv Discovery_new).
  { split; cbn.
    - apply NoDup_nil_2.
    - intros url sv Hin. now apply elem_of_nil in Hin.
    - intros sv x Hx. now rewrite lookup_nil in Hx. }
  revert H. generalize Discovery_new.
  induction inputs as [|i inputs IH]; intros m H; cbn; [exact H|].
  apply IH. now apply DInv_step.
Qed.

(** ** What the operations of the mirror do to one record *)

Lemma get_head {V} k (v : V) l : JsMap.get k ((k, v) :: l) = Some v.
Proof. cbn. now rewrite String.eqb_refl. Qed.

Lemma delete_head {V} k (v : V) l : JsMap.delete k ((k, v) :: l) = l.
Proof. cbn. now rewrite String.eqb_refl. Qed.

Lemma set_set {V} k (v v' : V) l : JsMap.set k v (JsMap.set k v' l) = JsMap.set k v l.
Proof.
  induction l as [|[k0 v0] l IH]; cbn.
  - now rewrite String.eqb_refl.
  - destruct (String.eqb_spec k k0) as [->|Hne]; cbn.
    + now rewrite String.eqb_refl.
    + destruct (String.eqb_spec k k0); [congruence|]. now rewrite IH.
Qed.

Lemma delete_set {V} k (v : V) l : JsMap.delete k (JsMap.set k v l) = JsMap.delete k l.
Proof.
  induction l as [|[k0 v0] l IH]; cbn.
  - now rewrite String.eqb_refl.
  - destruct (String.eqb_spec k k0) as [->|Hne]; cbn.
    + now rewrite String.eqb_refl.
    + destruct (String.eqb_spec k k0); [congruence|]. now rewrite IH.
Qed.

Lemma set_same {V} k (v : V) l : JsMap.get k l = Some v -> JsMap.set k v l = l.
Proof.
  induction l as [|[k0 v0] l IH]; cbn; [discriminate|].
  destruct (String.eqb_spec k k0) as [->|Hne].
  - now intros [= ->].
  - intros H. now rewrite IH.
Qed.

Lemma with_rs_clients_same room : with_rs_clients (rs_clients room) room = room.
Proof. now destruct room. Qed.

Lemma with_sv_rooms_same x : with_sv_rooms (sv_rooms x) x = x.
Proof. now destruct x. Qed.

(** The object after [delete o[k]] for each [k] of [ks]. *)
Definition deletes {V} (ks : list string) (o : list (string * V)) : list (string * V) :=
  fold_left (fun o k => JsMap.delete k o) ks o.

Lemma deletes_all {V} ks : forall o : list (string * V),
  JsMap.wf o -> (forall k, k ∈ JsMap.keys o -> k ∈ ks) -> deletes ks o = [].
Proof.
  induction ks as [|k ks IH]; intros o Hwf Hall.
  - destruct o as [|[k v] o]; [reflexivity|].
    specialize (Hall k (list_elem_of_here _ _)). now apply elem_of_nil in Hall.
  - cbn. apply IH; [now apply JsMap.wf_delete|].
    intros k' Hk'. pose proof (JsMap.keys_delete_incl _ _ _ Hk') as Hin.
    apply Hall, elem_of_cons in Hin as [->|Hin]; [|exact Hin].
    exfalso. revert Hk'. apply JsMap.get_None_keys. now apply JsMap.get_delete_eq.
Qed.

Lemma In_deletes {V} ks : forall (o : list (string * V)) kv, kv ∈ deletes ks o -> kv ∈ o.
Proof.
  induction ks as [|k ks IH]; intros o kv H; [exact H|].
  cbn in H. apply IH in H. eapply JsMap.In_delete, H.
Qed.

(** [Touches sv l m m']: the map is the same, only record [sv] may differ,
    and the effects grew by [l]. *)
Definition Touches (sv : nat) (l : list DiscoveryEffect) (m m' : Mirror) : Prop :=
  roomServers m' = roomServers m /\
  (forall sv', sv' <> sv -> records m' !! sv' = records m !! sv') /\
  effects m' = l ++ effects m.

Lemma Touches_refl sv m : Touches sv [] m m.
Proof. repeat split; auto. Qed.

Lemma Touches_trans sv l1 l2 m1 m2 m3 :
  Touches sv l1 m1 m2 -> Touches sv l2 m2 m3 -> Touches sv (l2 ++ l1) m1 m3.
Proof.
  intros (A1 & A2 & A3) (B1 & B2 & B3). split; [congruence|]. split.
  - intros sv' Hne. rewrite B2, A2; auto.
  - rewrite B3, A3. now rewrite app_assoc.
Qed.

Lemma Touches_set_record sv f m : Touches sv [] m (set_record sv f m).
Proof.
  split; [reflexivity|]. split; [|reflexivity].
  intros sv' Hne. cbn. now rewrite list_lookup_alter_ne by congruence.
Qed.

Lemma Touches_effect sv e m : Touches sv [e] m (effect e m).
Proof. repeat split; auto. Qed.

Lemma record_set_room_at sv key room x m :
  records m !! sv = Some x ->
  records (set_room_at sv key room m) !! sv
  = Some (with_sv_rooms (JsMap.set key room (sv_rooms x)) x).
Proof. intros Hx. unfold set_room_at. cbn. now rewrite list_lookup_alter_eq, Hx. Qed.

(** *** Removing *)

(** [_removeClient] for each of the ids [ks], all held by the room: the
    clients are deleted, one ['roomLeft'] each and nothing else. *)
Lemma removeClients_fold sv key ks : forall room x m,
  records m !! sv = Some x -> JsMap.get key (sv_rooms x) = Some room ->
  JsMap.wf (rs_clients room) -> NoDup ks ->
  (forall k, k ∈ ks -> is_Some (JsMap.get k (rs_clients room))) ->
  let m' := fold_left (fun m k => Discovery__removeClient sv key k m) ks m in
  exists l,
    Touches sv l m m' /\
    records m' !! sv
    = Some (with_sv_rooms
              (JsMap.set key (with_rs_clients (deletes ks (rs_clients room)) room)
                 (sv_rooms x)) x) /\
    (forall k c, k ∈ ks -> JsMap.get k (rs_clients room) = Some c ->
       exists room', DiscoveryEmit (EvRoomLeft room' c) ∈ l) /\
    (forall e, e ∈ l ->
       exists room' k c, e = DiscoveryEmit (EvRoomLeft room' c) /\
         (k, c) ∈ rs_clients room).
Proof.
  induction ks as [|k ks IH]; intros room x m Hx Hroom Hwf Hnd Hown; cbn zeta.
  - cbn. exists []. split; [apply Touches_refl|]. split.
    + now rewrite with_rs_clients_same, (set_same _ _ _ Hroom), with_sv_rooms_same.
    + split; [intros ? ? H; now apply elem_of_nil in H|].
      intros ? H; now apply elem_of_nil in H.
  - cbn [fold_left]. apply NoDup_cons in Hnd as [Hk Hnd].
    destruct (Hown k (list_elem_of_here _ _)) as [c Hc].
    set (room1 := with_rs_clients (JsMap.delete k (rs_clients room)) room).
    set (m1 := Discovery__removeClient sv key k m).
    assert (E1 : m1 = set_room_at sv key room1 (effect (DiscoveryEmit (EvRoomLeft room c)) m)).
    { unfold m1, Discovery__removeClient, room_at. rewrite Hx. cbn [mbind option_bind].
      rewrite Hroom. now rewrite (proj2 (JsObj.lookup_Own _ _ _) Hc). }
    assert (Hx1 : records m1 !! sv
                  = Some (with_sv_rooms (JsMap.set key room1 (sv_rooms x)) x)).
    { rewrite E1. now apply record_set_room_at. }
    destruct (IH room1 _ m1 Hx1) as (l & T & R & L1 & L2).
    + cbn. apply JsMap.get_set_eq.
    + cbn. now apply JsMap.wf_delete.
    + exact Hnd.
    + intros k' Hk'. cbn. rewrite JsMap.get_delete_ne by (intros ->; contradiction).
      apply Hown. now apply list_elem_of_further.
    + exists (l ++ [DiscoveryEmit (EvRoomLeft room c)]). split; [|split; [|split]].
      * apply (Touches_trans sv _ _ m m1); [|exact T]. rewrite E1.
        split; [reflexivity|]. split; [|reflexivity].
        intros sv' Hne. cbn. now rewrite list_lookup_alter_ne by congruence.
      * rewrite R. cbn. now rewrite set_set.
      * intros k' c' Hin Hc'. apply elem_of_cons in Hin as [->|Hin].
        { assert (c' = c) by congruence. subst c'.
          exists room. apply elem_of_app. right. apply list_elem_of_here. }
        { destruct (L1 k' c' Hin) as [room' Hr].
          - cbn. rewrite JsMap.get_delete_ne by (intros ->; contradiction). exact Hc'.
          - exists room'. apply elem_of_app. now left. }
      * intros e He. apply elem_of_app in He as [He|He].
        { destruct (L2 e He) as (room' & k' & c' & -> & Hin). exists room', k', c'.
          split; [reflexivity|]. cbn in Hin. eapply JsMap.In_delete, Hin. }
        { apply list_elem_of_singleton in He as ->. exists room, k, c.
          split; [reflexivity|]. now apply JsMap.get_In. }
Qed.

Lemma keys_own {V} (o : list (string * V)) k :
  k ∈ JsObj.keys o -> is_Some (JsMap.get k o).
Proof.
  intros H. rewrite JsObj.keys_Permutation in H.
  destruct (JsMap.get k o) eqn:E; [now eexists|].
  apply JsMap.get_None_keys in E. contradiction.
Qed.

Lemma keys_NoDup {V} (o : list (string * V)) : JsMap.wf o -> NoDup (JsObj.keys o).
Proof. intros H. now rewrite JsObj.keys_Permutation. Qed.

Lemma deletes_keys {V} (o : list (string * V)) : JsMap.wf o -> deletes (JsObj.keys o) o = [].
Proof.
  intros H. apply deletes_all; [exact H|]. intros k Hk. now rewrite JsObj.keys_Permutation.
Qed.

(** [_removeRoom] on a room the record holds. *)
Lemma removeRoom_known sv roomId room x m :
  DInv m -> records m !! sv = Some x -> JsMap.get roomId (sv_rooms x) = Some room ->
  exists m' l,
    Discovery__removeRoom sv roomId m = Return m' /\
    Touches sv (DiscoveryEmit (EvRoomRemoved (with_rs_clients [] room)) :: l) m m' /\
    records m' !! sv = Some (with_sv_rooms (JsMap.delete roomId (sv_rooms x)) x) /\
    (forall k c, (k, c) ∈ rs_clients room ->
       exists room', DiscoveryEmit (EvRoomLeft room' c) ∈ l) /\
    (forall e, e ∈ l ->
       exists room' k c, e = DiscoveryEmit (EvRoomLeft room' c) /\
         (k, c) ∈ rs_clients room).
Proof.
  intros HI Hx Hroom. unfold Discovery__removeRoom. rewrite Hx.
  rewrite (proj2 (JsObj.lookup_Own _ _ _) Hroom). cbn zeta.
  assert (Hat : room_at sv roomId m = Some room) by (unfold room_at; now rewrite Hx).
  destruct (room_at_OK sv roomId room m HI Hat) as ((_ & Hwf & _) & _ & _).
  destruct (removeClients_fold sv roomId (JsObj.keys (rs_clients room)) room x m Hx Hroom Hwf
              (keys_NoDup _ Hwf) (keys_own _)) as (l & T & R & L1 & L2).
  cbn zeta in T, R. set (m1 := fold_left _ _ m) in *.
  rewrite (deletes_keys _ Hwf) in R.
  assert (Hat1 : room_at sv roomId m1 = Some (with_rs_clients [] room)).
  { unfold room_at. rewrite R. cbn. apply JsMap.get_set_eq. }
  rewrite Hat1. eexists. exists l. split; [reflexivity|].
  split; [|split; [|split]].
  - destruct T as (T1 & T2 & T3). split; [exact T1|]. split.
    + intros sv' Hne. unfold effect, set_record. cbn [records].
      rewrite list_lookup_alter_ne by congruence. now apply T2.
    + cbn. now rewrite T3.
  - unfold effect, set_record. cbn [records]. rewrite list_lookup_alter_eq, R.
    cbn. now rewrite delete_set.
  - intros k c Hin. apply (L1 k c).
    + rewrite JsObj.keys_Permutation. apply list_elem_of_fmap. now exists (k, c).
    + now apply JsMap.In_get.
  - exact L2.
Qed.

(** What the removal of the rooms [rooms] writes: ['roomRemoved'] for a
    room, ['roomLeft'] for a client of a room. *)
Definition removal_event (rooms : list (string * IRoomSummary)) (e : DiscoveryEffect) : Prop :=
  (exists k room, (k, room) ∈ rooms /\
     e = DiscoveryEmit (EvRoomRemoved (with_rs_clients [] room))) \/
  (exists k room k' c room', (k, room) ∈ rooms /\ (k', c) ∈ rs_clients room /\
     e = DiscoveryEmit (EvRoomLeft room' c)).

(** [_removeRoom] for each of the ids [ks], all held by the record. *)
Lemma removeRooms_fold sv ks : forall x m,
  DInv m -> records m !! sv = Some x -> NoDup ks ->
  (forall k, k ∈ ks -> is_Some (JsMap.get k (sv_rooms x))) ->
  exists m' l,
    Array_forEach ks (Discovery__removeRoom sv) m = Return m' /\
    DInv m' /\ Touches sv l m m' /\
    records m' !! sv = Some (with_sv_rooms (deletes ks (sv_rooms x)) x) /\
    (forall k room, k ∈ ks -> JsMap.get k (sv_rooms x) = Some room ->
       DiscoveryEmit (EvRoomRemoved (with_rs_clients [] room)) ∈ l /\
       forall k' c, (k', c) ∈ rs_clients room ->
         exists room', DiscoveryEmit (EvRoomLeft room' c) ∈ l) /\
    (forall e, e ∈ l -> removal_event (sv_rooms x) e).
Proof.
  induction ks as [|k ks IH]; intros x m HI Hx Hnd Hown.
  - exists m, []. cbn. split; [reflexivity|]. split; [exact HI|].
    split; [apply Touches_refl|]. split; [now rewrite with_sv_rooms_same|].
    split; [intros ? ? H; now apply elem_of_nil in H|].
    intros ? H; now apply elem_of_nil in H.
  - apply NoDup_cons in Hnd as [Hk Hnd].
    destruct (Hown k (list_elem_of_here _ _)) as [room Hroom].
    destruct (removeRoom_known sv k room x m HI Hx Hroom) as (m1 & l1 & E1 & T1 & R1 & L1 & M1).
    assert (I1 : DInv m1).
    { pose proof (DInv_removeRoom sv k m HI) as I. now rewrite E1 in I. }
    destruct (IH _ m1 I1 R1 Hnd) as (m2 & l2 & E2 & I2 & T2 & R2 & L2 & M2).
    { intros k' Hk'. cbn. rewrite JsMap.get_delete_ne by (intros ->; contradiction).
      apply Hown. now apply list_elem_of_further. }
    exists m2, (l2 ++ DiscoveryEmit (EvRoomRemoved (with_rs_clients [] room)) :: l1).
    cbn [Array_forEach]. rewrite E1. cbn [and_then].
    split; [exact E2|]. split; [exact I2|].
    split; [exact (Touches_trans sv _ _ m m1 _ T1 T2)|]. split; [exact R2|]. split.
    + intros k' room' Hin Hg. apply elem_of_cons in Hin as [->|Hin].
      * assert (room' = room) by congruence. subst room'.
        split; [apply elem_of_app; right; apply list_elem_of_here|].
        intros k'' c Hc. destruct (L1 k'' c Hc) as [room'' Hr'']. exists room''.
        apply elem_of_app. right. now apply list_elem_of_further.
      * destruct (L2 k' room') as [A B]; [exact Hin| |].
        { cbn. rewrite JsMap.get_delete_ne by (intros ->; contradiction). exact Hg. }
        split; [apply elem_of_app; now left|].
        intros k'' c Hc. destruct (B k'' c Hc) as [room'' Hr'']. exists room''.
        apply elem_of_app. now left.
    + intros e He. apply elem_of_app in He as [He|He].
      * destruct (M2 e He) as [(k' & room' & Hin & ->)|(k' & room' & k'' & c & room'' & Hin & Hc & ->)].
        { left. exists k', room'. split; [|reflexivity]. cbn in Hin.
          eapply JsMap.In_delete, Hin. }
        { right. exists k', room', k'', c, room''. split; [|split; [exact Hc|reflexivity]].
          cbn in Hin. eapply JsMap.In_delete, Hin. }
      * apply elem_of_cons in He as [->|He].
        { left. exists k, room. split; [now apply JsMap.get_In|reflexivity]. }
        { destruct (M1 e He) as (room' & k' & c & -> & Hc). right.
          exists k, room, k', c, room'. split; [now apply JsMap.get_In|]. now split. }
Qed.

(** [_removeServer] on a record. *)
Lemma removeServer_known sv x m :
  DInv m -> records m !! sv = Some x ->
  exists m' l,
    Discovery__removeServer sv m = Return m' /\
    roomServers m' = JsMap.delete (sv_publicUrl x) (roomServers m) /\
    (forall sv', sv' <> sv -> records m' !! sv' = records m !! sv') /\
    records m' !! sv = Some (with_sv_rooms [] x) /\
    effects m' = DiscoveryEmit (EvServerRemoved (with_sv_rooms [] x)) :: l ++ effects m /\
    (forall k room, (k, room) ∈ sv_rooms x ->
       DiscoveryEmit (EvRoomRemoved (with_rs_clients [] room)) ∈ l /\
       forall k' c, (k', c) ∈ rs_clients room ->
         exists room', DiscoveryEmit (EvRoomLeft room' c) ∈ l) /\
    (forall e, e ∈ l -> removal_event (sv_rooms x) e).
Proof.
  intros HI Hx. unfold Discovery__removeServer. rewrite Hx.
  destruct (d_records m HI sv x Hx) as (Hwf & _ & _).
  destruct (removeRooms_fold sv (JsObj.keys (sv_rooms x)) x m HI Hx (keys_NoDup _ Hwf)
              (keys_own _)) as (m1 & l & E1 & _ & T & R & L & M).
  rewrite E1. cbn [and_then]. rewrite (deletes_keys _ Hwf) in R. rewrite R.
  destruct T as (T1 & T2 & T3).
  eexists. exists l. split; [reflexivity|]. cbn. rewrite T1, T3.
  split; [reflexivity|]. split; [exact T2|]. split; [exact R|]. split; [reflexivity|].
  split; [|exact M].
  intros k room Hin. apply (L k room).
  - rewrite JsObj.keys_Permutation. apply list_elem_of_fmap. now exists (k, room).
  - now apply JsMap.In_get.
Qed.

(** *** Adding *)

(** What the mirror keeps of the clients of a room that arrives: the
    clients in the order of [Object.values], without those whose id is a
    property name of [Object.prototype], each under its id. *)
Definition mirrored_clients (clients : list (string * IClientSummary))
    : list (string * IClientSummary) :=
  (fun c => (cs_id c, c))
    <$> List.filter (fun c => negb (JsObj.inherited (cs_id c))) (JsObj.values clients).

Definition mirrored_room (room : IRoomSummary) : IRoomSummary :=
  with_rs_clients (mirrored_clients (rs_clients room)) room.

(** What the mirror keeps of a list of rooms that arrives: likewise. *)
Definition mirrored_rooms (rooms : list (string * IRoomSummary))
    : list (string * IRoomSummary) :=
  (fun room => (rs_id room, mirrored_room room))
    <$> List.filter (fun room => negb (JsObj.inherited (rs_id room))) (JsObj.values rooms).

Definition kept_clients (cl : list IClientSummary) : list (string * IClientSummary) :=
  (fun c => (cs_id c, c)) <$> List.filter (fun c => negb (JsObj.inherited (cs_id c))) cl.

Lemma kept_clients_cons c cl :
  kept_clients (c :: cl)
  = if JsObj.inherited (cs_id c) then kept_clients cl else (cs_id c, c) :: kept_clients cl.
Proof. unfold kept_clients. cbn [List.filter]. now destruct (JsObj.inherited (cs_id c)). Qed.

(** [_addNewClient] for each of the clients [cl], whose ids are pairwise
    distinct and new to the room. *)
Lemma addNewClients_fold sv key cl : forall room x m,
  records m !! sv = Some x -> JsMap.get key (sv_rooms x) = Some room ->
  NoDup (JsMap.keys (rs_clients room) ++ (cs_id <$> cl)) ->
  let m' := fold_left (fun m client => Discovery__addNewClient sv key client m) cl m in
  exists l,
    Touches sv l m m' /\
    records m' !! sv
    = Some (with_sv_rooms
              (JsMap.set key (with_rs_clients (rs_clients room ++ kept_clients cl) room)
                 (sv_rooms x)) x) /\
    (forall c, c ∈ cl -> JsObj.inherited (cs_id c) = false ->
       exists room', DiscoveryEmit (EvRoomJoined room' c) ∈ l) /\
    (forall e, e ∈ l ->
       exists room' c, e = DiscoveryEmit (EvRoomJoined room' c) /\ c ∈ cl /\
         JsObj.inherited (cs_id c) = false).
Proof.
  induction cl as [|c cl IH]; intros room x m Hx Hroom Hnd; cbn zeta.
  - cbn. exists []. split; [apply Touches_refl|]. split.
    + unfold kept_clients. cbn. rewrite app_nil_r.
      now rewrite with_rs_clients_same, (set_same _ _ _ Hroom), with_sv_rooms_same.
    + split; [intros ? H; now apply elem_of_nil in H|].
      intros ? H; now apply elem_of_nil in H.
  - cbn [fold_left fmap list_fmap] in *.
    assert (Hfresh : JsMap.get (cs_id c) (rs_clients room) = None).
    { apply JsMap.get_None_keys. apply NoDup_app in Hnd as (_ & Hd & _).
      intros Hin. apply (Hd _ Hin). apply list_elem_of_here. }
    set (m1 := Discovery__addNewClient sv key c m).
    destruct (JsObj.inherited (cs_id c)) eqn:Ei.
    + (* refused *)
      assert (E1 : m1 = m).
      { unfold m1, Discovery__addNewClient, room_at. rewrite Hx. cbn [mbind option_bind].
        rewrite Hroom. unfold JsObj.lookup. now rewrite Hfresh, Ei. }
      rewrite E1. destruct (IH room x m Hx Hroom) as (l & T & R & L1 & L2).
      { apply NoDup_app in Hnd as (A & B & C). apply NoDup_app. split; [exact A|].
        split; [|now apply NoDup_cons in C].
        intros k Hk Hin. apply (B k Hk). now apply list_elem_of_further. }
      exists l. split; [exact T|]. split.
      * rewrite R. now rewrite kept_clients_cons, Ei.
      * split.
        { intros c' Hin Hc'. apply elem_of_cons in Hin as [->|Hin]; [congruence|].
          now apply L1. }
        { intros e He. destruct (L2 e He) as (room' & c' & -> & Hin & Hc').
          exists room', c'. split; [reflexivity|]. split; [|exact Hc'].
          now apply list_elem_of_further. }
    + (* added *)
      set (room1 := with_rs_clients (rs_clients room ++ [(cs_id c, c)]) room).
      assert (E1 : m1 = effect (DiscoveryEmit (EvRoomJoined room1 c))
                          (set_room_at sv key room1 m)).
      { unfold m1, Discovery__addNewClient, room_at. rewrite Hx. cbn [mbind option_bind].
        rewrite Hroom. unfold JsObj.lookup. rewrite Hfresh, Ei.
        now rewrite (JsMap.set_fresh _ _ _ Hfresh). }
      assert (Hx1 : records m1 !! sv
                    = Some (with_sv_rooms (JsMap.set key room1 (sv_rooms x)) x)).
      { rewrite E1. cbn. now rewrite list_lookup_alter_eq, Hx. }
      destruct (IH room1 _ m1 Hx1) as (l & T & R & L1 & L2).
      { cbn. apply JsMap.get_set_eq. }
      { cbn. unfold JsMap.keys in *. rewrite map_app. cbn. now rewrite <- app_assoc. }
      exists (l ++ [DiscoveryEmit (EvRoomJoined room1 c)]). split; [|split; [|split]].
      * apply (Touches_trans sv _ _ m m1); [|exact T]. rewrite E1.
        split; [reflexivity|]. split; [|reflexivity].
        intros sv' Hne. cbn. now rewrite list_lookup_alter_ne by congruence.
      * rewrite R. rewrite kept_clients_cons, Ei. unfold room1, with_sv_rooms, with_rs_clients.
        cbn [sv_rooms sv_publicUrl sv_clientCount sv_lastPing
             rs_clients rs_id rs_publicUrl rs_properties].
        now rewrite set_set, <- app_assoc.
      * intros c' Hin Hc'. apply elem_of_cons in Hin as [->|Hin].
        { exists room1. apply elem_of_app. right. apply list_elem_of_here. }
        { destruct (L1 c' Hin Hc') as [room' Hr]. exists room'. apply elem_of_app. now left. }
      * intros e He. apply elem_of_app in He as [He|He].
        { destruct (L2 e He) as (room' & c' & -> & Hin & Hc').
          exists room', c'. split; [reflexivity|]. split; [|exact Hc'].
          now apply list_elem_of_further. }
        { apply list_elem_of_singleton in He as ->. exists room1, c.
          split; [reflexivity|]. split; [apply list_elem_of_here|exact Ei]. }
Qed.

Lemma ids_are_keys {V} (g : V -> string) (l : list (string * V)) :
  (forall k v, (k, v) ∈ l -> g v = k) -> g <$> l.*2 = l.*1.
Proof.
  induction l as [|[k v] l IH]; intros H; cbn; [reflexivity|].
  rewrite (H k v) by apply list_elem_of_here. f_equal. apply IH.
  intros k' v' Hin. apply H. now apply list_elem_of_further.
Qed.

Lemma values_ids {V} (g : V -> string) (o : list (string * V)) :
  (forall k v, (k, v) ∈ o -> g v = k) -> g <$> JsObj.values o = JsObj.keys o.
Proof.
  intros H. unfold JsObj.values, JsObj.keys. apply ids_are_keys.
  intros k v Hin. apply H. now apply JsObj.elem_of_entries.
Qed.

(** [_addNewRoom] with a room whose id the record does not hold and
    [Object.prototype] does not name. *)
Lemma addNewRoom_fresh sv room x m :
  records m !! sv = Some x -> JsMap.get (rs_id room) (sv_rooms x) = None ->
  JsObj.inherited (rs_id room) = false ->
  RoomOK (rs_id room) room ->
  let m' := Discovery__addNewRoom sv room m in
  exists l,
    Touches sv (l ++ [DiscoveryEmit (EvNewRoom (with_rs_clients [] room))]) m m' /\
    records m' !! sv
    = Some (with_sv_rooms (sv_rooms x ++ [(rs_id room, mirrored_room room)]) x) /\
    (forall k c, (k, c) ∈ rs_clients room -> JsObj.inherited k = false ->
       exists room', DiscoveryEmit (EvRoomJoined room' c) ∈ l) /\
    (forall e, e ∈ l ->
       exists room' k c, e = DiscoveryEmit (EvRoomJoined room' c) /\
         (k, c) ∈ rs_clients room /\ JsObj.inherited k = false).
Proof.
  intros Hx Hfresh Hi (_ & Hwf & Hid). cbn zeta. unfold Discovery__addNewRoom. rewrite Hx.
  unfold JsObj.lookup. rewrite Hfresh, Hi. cbn zeta.
  change (rs_id (with_rs_clients [] room)) with (rs_id room).
  set (room0 := with_rs_clients [] room).
  set (m1 := effect (DiscoveryEmit (EvNewRoom room0)) (set_room_at sv (rs_id room) room0 m)).
  assert (Hx1 : records m1 !! sv
                = Some (with_sv_rooms (JsMap.set (rs_id room) room0 (sv_rooms x)) x)).
  { unfold m1. cbn. now rewrite list_lookup_alter_eq, Hx. }
  destruct (addNewClients_fold sv (rs_id room) (JsObj.values (rs_clients room)) room0 _ m1 Hx1)
    as (l & T & R & L1 & L2).
  - cbn. apply JsMap.get_set_eq.
  - cbn. rewrite (values_ids cs_id _ Hid). now apply keys_NoDup.
  - exists l. split; [|split; [|split]].
    + apply (Touches_trans sv _ _ m m1); [|exact T]. unfold m1.
      split; [reflexivity|]. split; [|reflexivity].
      intros sv' Hne. cbn. now rewrite list_lookup_alter_ne by congruence.
    + cbn zeta in R. rewrite R. unfold with_sv_rooms.
      cbn [sv_rooms sv_publicUrl sv_clientCount sv_lastPing rs_clients room0 with_rs_clients].
      rewrite set_set, (JsMap.set_fresh _ _ _ Hfresh). reflexivity.
    + intros k c Hin Hk. apply (L1 c).
      * unfold JsObj.values. apply list_elem_of_fmap. exists (k, c).
        split; [reflexivity|]. now apply JsObj.elem_of_entries.
      * now rewrite (Hid k c Hin).
    + intros e He. destruct (L2 e He) as (room' & c & -> & Hin & Hc).
      unfold JsObj.values in Hin. apply list_elem_of_fmap in Hin as ([k c'] & -> & Hin).
      apply (proj1 (JsObj.elem_of_entries _ _)) in Hin. exists room', k, c'.
      split; [reflexivity|]. split; [exact Hin|]. cbn in Hc. now rewrite <- (Hid k c' Hin).
Qed.

(** [_addNewRoom] with a room whose id the record holds, or
    [Object.prototype] names. *)
Lemma addNewRoom_refused sv room x m :
  records m !! sv = Some x ->
  is_Some (JsMap.get (rs_id room) (sv_rooms x)) \/ JsObj.inherited (rs_id room) = true ->
  Discovery__addNewRoom sv room m = m.
Proof.
  intros Hx H. unfold Discovery__addNewRoom, JsObj.lookup. rewrite Hx.
  destruct (JsMap.get _ _); [reflexivity|]. destruct H as [[? H]|H]; [discriminate|now rewrite H].
Qed.

Definition kept_rooms (rl : list IRoomSummary) : list (string * IRoomSummary) :=
  (fun room => (rs_id room, mirrored_room room))
    <$> List.filter (fun room => negb (JsObj.inherited (rs_id room))) rl.

Lemma kept_rooms_cons room rl :
  kept_rooms (room :: rl)
  = if JsObj.inherited (rs_id room) then kept_rooms rl
    else (rs_id room, mirrored_room room) :: kept_rooms rl.
Proof. unfold kept_rooms. cbn [List.filter]. now destruct (JsObj.inherited (rs_id room)). Qed.

(** What arrives with the rooms [rooms]: ['newRoom'] for a room,
    ['roomJoined'] for a client of a room, [Object.prototype] naming
    neither. *)
Definition arrival_event (rl : list IRoomSummary) (e : DiscoveryEffect) : Prop :=
  (exists room, room ∈ rl /\ JsObj.inherited (rs_id room) = false /\
     e = DiscoveryEmit (EvNewRoom (with_rs_clients [] room))) \/
  (exists room k c room', room ∈ rl /\ JsObj.inherited (rs_id room) = false /\
     (k, c) ∈ rs_clients room /\ JsObj.inherited k = false /\
     e = DiscoveryEmit (EvRoomJoined room' c)).

(** [_addNewRoom] for each of the rooms [rl], whose ids are pairwise
    distinct and new to the record. *)
Lemma addNewRooms_fold sv rl : forall x m,
  records m !! sv = Some x ->
  NoDup (JsMap.keys (sv_rooms x) ++ (rs_id <$> rl)) ->
  (forall room, room ∈ rl -> RoomOK (rs_id room) room) ->
  let m' := fold_left (fun m room => Discovery__addNewRoom sv room m) rl m in
  exists l,
    Touches sv l m m' /\
    records m' !! sv = Some (with_sv_rooms (sv_rooms x ++ kept_rooms rl) x) /\
    (forall room, room ∈ rl -> JsObj.inherited (rs_id room) = false ->
       DiscoveryEmit (EvNewRoom (with_rs_clients [] room)) ∈ l /\
       forall k c, (k, c) ∈ rs_clients room -> JsObj.inherited k = false ->
         exists room', DiscoveryEmit (EvRoomJoined room' c) ∈ l) /\
    (forall e, e ∈ l -> arrival_event rl e).
Proof.
  induction rl as [|room rl IH]; intros x m Hx Hnd Hok; cbn zeta.
  - cbn. exists []. split; [apply Touches_refl|]. split.
    + unfold kept_rooms. cbn. now rewrite app_nil_r, with_sv_rooms_same.
    + split; [intros ? H; now apply elem_of_nil in H|].
      intros ? H; now apply elem_of_nil in H.
  - cbn [fold_left fmap list_fmap] in *.
    pose proof (Hok room (list_elem_of_here _ _)) as Hroom.
    assert (Hfresh : JsMap.get (rs_id room) (sv_rooms x) = None).
    { apply JsMap.get_None_keys. apply NoDup_app in Hnd as (_ & Hd & _).
      intros Hin. apply (Hd _ Hin). apply list_elem_of_here. }
    destruct (JsObj.inherited (rs_id room)) eqn:Ei.
    + rewrite (addNewRoom_refused sv room x m Hx (or_intror Ei)).
      destruct (IH x m Hx) as (l & T & R & L1 & L2).
      { apply NoDup_app in Hnd as (A & B & C). apply NoDup_app. split; [exact A|].
        split; [|now apply NoDup_cons in C].
        intros k Hk Hin. apply (B k Hk). now apply list_elem_of_further. }
      { intros room' Hin. apply Hok. now apply list_elem_of_further. }
      exists l. split; [exact T|]. split.
      * rewrite R. now rewrite kept_rooms_cons, Ei.
      * split.
        { intros room' Hin Hr'. apply elem_of_cons in Hin as [->|Hin]; [congruence|].
          now apply L1. }
        { intros e He.
          destruct (L2 e He) as [(r & Hin & Hr & ->)|(r & k & c & r' & Hin & Hr & Hc & Hk & ->)].
          - left. exists r. split; [now apply list_elem_of_further|auto].
          - right. exists r, k, c, r'. split; [now apply list_elem_of_further|auto]. }
    + destruct (addNewRoom_fresh sv room x m Hx Hfresh Ei Hroom) as (l1 & T1 & R1 & L1 & M1).
      cbn zeta in T1, R1. set (m1 := Discovery__addNewRoom sv room m) in *.
      destruct (IH _ m1 R1) as (l2 & T2 & R2 & L2 & M2).
      { cbn. unfold JsMap.keys in *. rewrite map_app. cbn. now rewrite <- app_assoc. }
      { intros room' Hin. apply Hok. now apply list_elem_of_further. }
      exists (l2 ++ l1 ++ [DiscoveryEmit (EvNewRoom (with_rs_clients [] room))]).
      split; [exact (Touches_trans sv _ _ m m1 _ T1 T2)|]. split; [|split].
      * rewrite R2. rewrite kept_rooms_cons, Ei. cbn [sv_rooms with_sv_rooms].
        unfold with_sv_rooms. cbn [sv_rooms sv_publicUrl sv_clientCount sv_lastPing].
        now rewrite <- app_assoc.
      * intros room' Hin Hr'. apply elem_of_cons in Hin as [->|Hin].
        { split.
          - apply elem_of_app. right. apply elem_of_app. right. apply list_elem_of_here.
          - intros k c Hc Hk. destruct (L1 k c Hc Hk) as [room'' Hr'']. exists room''.
            apply elem_of_app. right. apply elem_of_app. now left. }
        { destruct (L2 room' Hin Hr') as [E1 E2]. split; [apply elem_of_app; now left|].
          intros k c Hc Hk. destruct (E2 k c Hc Hk) as [room'' Hr'']. exists room''.
          apply elem_of_app. now left. }
      * intros e He. apply elem_of_app in He as [He|He].
        { destruct (M2 e He) as [(r & Hin & Hr & ->)|(r & k & c & r' & Hin & Hr & Hc & Hk & ->)].
          - left. exists r. split; [now apply list_elem_of_further|auto].
          - right. exists r, k, c, r'. split; [now apply list_elem_of_further|auto]. }
        apply elem_of_app in He as [He|He].
        { destruct (M1 e He) as (r' & k & c & -> & Hc & Hk). right.
          exists room, k, c, r'. split; [apply list_elem_of_here|auto]. }
        { apply list_elem_of_singleton in He as ->. left. exists room.
          split; [apply list_elem_of_here|auto]. }
Qed.

(** A list of rooms as a server sends it: each room under its id, each
    client under its id. *)
Definition ListOK (rooms : list (string * IRoomSummary)) : Prop :=
  JsMap.wf rooms /\ forall k room, (k, room) ∈ rooms -> RoomOK k room.

(** The reply callback on a record whose rooms have other ids. *)
Lemma reply_fold sv rooms x m :
  records m !! sv = Some x -> ListOK rooms ->
  (forall k, k ∈ JsMap.keys rooms -> k ∉ JsMap.keys (sv_rooms x)) ->
  JsMap.wf (sv_rooms x) ->
  let m' := Discovery__addNewServer_reply sv rooms m in
  exists l,
    Touches sv l m m' /\
    records m' !! sv = Some (with_sv_rooms (sv_rooms x ++ mirrored_rooms rooms) x) /\
    (forall k room, (k, room) ∈ rooms -> JsObj.inherited k = false ->
       DiscoveryEmit (EvNewRoom (with_rs_clients [] room)) ∈ l /\
       forall k' c, (k', c) ∈ rs_clients room -> JsObj.inherited k' = false ->
         exists room', DiscoveryEmit (EvRoomJoined room' c) ∈ l) /\
    (forall e, e ∈ l -> arrival_event (JsMap.values rooms) e).
Proof.
  intros Hx [Hwf Hok] Hdisj Hwfx. cbn zeta. unfold Discovery__addNewServer_reply.
  assert (Hid : forall k room, (k, room) ∈ rooms -> rs_id room = k).
  { intros k room Hin. apply (Hok k room Hin). }
  destruct (addNewRooms_fold sv (JsObj.values rooms) x m Hx) as (l & T & R & L & M).
  - rewrite (values_ids rs_id _ Hid). apply NoDup_app. split; [exact Hwfx|].
    split; [|now apply keys_NoDup].
    intros k Hk Hin. rewrite JsObj.keys_Permutation in Hin. now apply (Hdisj k Hin).
  - intros room Hin. unfold JsObj.values in Hin.
    apply list_elem_of_fmap in Hin as ([k room'] & -> & Hin).
    apply (proj1 (JsObj.elem_of_entries _ _)) in Hin. cbn. rewrite (Hid k room' Hin). now apply Hok.
  - exists l. split; [exact T|]. split; [exact R|]. split.
    + intros k room Hin Hk. apply (L room).
      * unfold JsObj.values. apply list_elem_of_fmap. exists (k, room).
        split; [reflexivity|]. now apply JsObj.elem_of_entries.
      * now rewrite (Hid k room Hin).
    + intros e He. destruct (M e He) as [(r & Hin & Hr)|(r & k & c & r' & Hin & Hr)].
      * left. exists r. split; [|exact Hr]. now rewrite JsObj.values_Permutation in Hin.
      * right. exists r, k, c, r'. split; [|exact Hr].
        now rewrite JsObj.values_Permutation in Hin.
Qed.

(** ** What the mirror operations keep *)

Lemma get_set_is_Some {V} k k' (v : V) m :
  is_Some (JsMap.get k m) -> is_Some (JsMap.get k (JsMap.set k' v m)).
Proof.
  destruct (String.eqb_spec k' k) as [->|Hne].
  - rewrite JsMap.get_set_eq. now eexists.
  - now rewrite JsMap.get_set_ne.
Qed.

Lemma room_at_set_room_at sv k sv' key room m :
  is_Some (room_at sv k m) -> is_Some (room_at sv k (set_room_at sv' key room m)).
Proof.
  unfold room_at, set_room_at. cbn. destruct (decide (sv' = sv)) as [->|Hne].
  - rewrite list_lookup_alter_eq. destruct (records m !! sv) as [x|]; cbn; [|auto].
    apply get_set_is_Some.
  - now rewrite list_lookup_alter_ne.
Qed.

Lemma addNewClient_keeps sv k sv' key client m :
  is_Some (room_at sv k m) ->
  is_Some (room_at sv k (Discovery__addNewClient sv' key client m)).
Proof.
  intros H. unfold Discovery__addNewClient.
  destruct (room_at sv' key m) as [room|]; [|exact H].
  destruct (JsObj.lookup _ _); try exact H. cbn zeta.
  now apply (room_at_set_room_at sv k sv' key).
Qed.

Lemma addNewClient_length sv key client m :
  length (records (Discovery__addNewClient sv key client m)) = length (records m).
Proof.
  unfold Discovery__addNewClient. destruct (room_at sv key m) as [room|]; [|reflexivity].
  destruct (JsObj.lookup _ _); try reflexivity. cbn. apply length_alter.
Qed.

Lemma addNewRoom_keeps sv k sv' room m :
  is_Some (room_at sv k m) -> is_Some (room_at sv k (Discovery__addNewRoom sv' room m)).
Proof.
  intros H. unfold Discovery__addNewRoom.
  destruct (records m !! sv') as [x|]; [|exact H].
  destruct (JsObj.lookup _ _); try exact H. cbn zeta.
  apply (fold_keeps (fun m => is_Some (room_at sv k m))).
  - intros m' c. apply addNewClient_keeps.
  - now apply (room_at_set_room_at sv k sv').
Qed.

Lemma addNewRoom_length sv room m :
  length (records (Discovery__addNewRoom sv room m)) = length (records m).
Proof.
  unfold Discovery__addNewRoom. destruct (records m !! sv) as [x|]; [|reflexivity].
  destruct (JsObj.lookup _ _); try reflexivity. cbn zeta.
  apply (fold_keeps (fun m' => length (records m') = length (records m))).
  - intros m' c E. now rewrite addNewClient_length.
  - cbn. apply length_alter.
Qed.

Lemma addNewRoom_present sv room m :
  (sv < length (records m))%nat -> JsObj.inherited (rs_id room) = false ->
  is_Some (room_at sv (rs_id room) (Discovery__addNewRoom sv room m)).
Proof.
  intros Hsv Hi. apply lookup_lt_is_Some_2 in Hsv as [x Hx].
  unfold Discovery__addNewRoom, JsObj.lookup. rewrite Hx, Hi.
  destruct (JsMap.get _ _) eqn:E.
  - unfold room_at. rewrite Hx. cbn. rewrite E. now eexists.
  - cbn zeta. apply (fold_keeps (fun m => is_Some (room_at sv (rs_id room) m))).
    + intros m' c. apply addNewClient_keeps.
    + unfold room_at, set_room_at. cbn. rewrite list_lookup_alter_eq, Hx. cbn.
      rewrite JsMap.get_set_eq. now eexists.
Qed.

Lemma reply_populates sv rooms k room m :
  (sv < length (records m))%nat -> (k, room) ∈ rooms ->
  JsObj.inherited (rs_id room) = false ->
  is_Some (room_at sv (rs_id room) (Discovery__addNewServer_reply sv rooms m)).
Proof.
  unfold Discovery__addNewServer_reply. intros Hsv Hin Hi.
  assert (Hv : room ∈ JsObj.values rooms).
  { unfold JsObj.values. apply list_elem_of_fmap. exists (k, room).
    split; [reflexivity|]. now apply JsObj.elem_of_entries. }
  clear Hin. revert m Hsv Hv. generalize (JsObj.values rooms). intros rl.
  induction rl as [|room' rl IH]; intros m Hsv Hin; [now apply elem_of_nil in Hin|].
  cbn. apply elem_of_cons in Hin as [->|Hin].
  - apply (fold_keeps (fun m => is_Some (room_at sv (rs_id room') m))).
    + intros m' a. apply addNewRoom_keeps.
    + now apply addNewRoom_present.
  - apply IH; [|exact Hin]. now rewrite addNewRoom_length.
Qed.

(** ** What the mirror keeps of a list, key by key *)

Lemma get_Some_In {V} (o : list (string * V)) k v :
  JsMap.wf o -> JsMap.get k o = Some v <-> (k, v) ∈ o.
Proof. intros H. split; [apply JsMap.get_In|now apply JsMap.In_get]. Qed.

Lemma filter_keys_NoDup {V} (f : string * V -> bool) (o : list (string * V)) :
  NoDup o.*1 -> NoDup (List.filter f o).*1.
Proof.
  induction o as [|[k v] o IH]; cbn; intros H; [constructor|].
  apply NoDup_cons in H as [Hk H]. destruct (f (k, v)); cbn; [|auto].
  apply NoDup_cons. split; [|auto]. intros Hin. apply Hk.
  apply list_elem_of_fmap in Hin as ([k' v'] & -> & Hin).
  apply list_elem_of_In, filter_In in Hin as [Hin _]. apply list_elem_of_In in Hin.
  apply list_elem_of_fmap. now exists (k', v').
Qed.

Lemma mirrored_clients_entries clients :
  (forall k c, (k, c) ∈ clients -> cs_id c = k) ->
  mirrored_clients clients
  = List.filter (fun kc => negb (JsObj.inherited (fst kc))) (JsObj.entries clients).
Proof.
  intros Hid. unfold mirrored_clients, JsObj.values.
  assert (H : forall k c, (k, c) ∈ JsObj.entries clients -> cs_id c = k).
  { intros k c Hin. apply Hid. now apply JsObj.elem_of_entries. }
  revert H. generalize (JsObj.entries clients). intros l.
  induction l as [|[k c] l IH]; intros H; [reflexivity|].
  assert (IH' := IH (fun k' c' Hin => H k' c' (list_elem_of_further _ _ _ Hin))).
  rewrite fmap_cons. cbn [snd fst List.filter].
  rewrite (H k c (list_elem_of_here _ _)).
  destruct (JsObj.inherited k); cbn [negb]; [exact IH'|].
  rewrite fmap_cons, IH'. now rewrite (H k c (list_elem_of_here _ _)).
Qed.

Lemma mirrored_clients_In clients k c :
  (forall k c, (k, c) ∈ clients -> cs_id c = k) ->
  (k, c) ∈ mirrored_clients clients <-> (k, c) ∈ clients /\ JsObj.inherited k = false.
Proof.
  intros Hid. rewrite (mirrored_clients_entries _ Hid).
  rewrite list_elem_of_In, filter_In, <- list_elem_of_In, JsObj.elem_of_entries. cbn.
  now rewrite negb_true_iff.
Qed.

Lemma mirrored_clients_wf clients :
  JsMap.wf clients -> (forall k c, (k, c) ∈ clients -> cs_id c = k) ->
  JsMap.wf (mirrored_clients clients).
Proof.
  intros Hwf Hid. rewrite (mirrored_clients_entries _ Hid).
  apply filter_keys_NoDup. now apply JsObj.entries_wf.
Qed.

(** The clients that the mirror keeps are those of the room that
    [Object.prototype] does not name. *)
Lemma mirrored_clients_get clients k :
  JsMap.wf clients -> (forall k c, (k, c) ∈ clients -> cs_id c = k) ->
  JsMap.get k (mirrored_clients clients)
  = if JsObj.inherited k then None else JsMap.get k clients.
Proof.
  intros Hwf Hid. pose proof (mirrored_clients_wf _ Hwf Hid) as Hwf'.
  destruct (JsMap.get k (mirrored_clients clients)) as [c|] eqn:E.
  - apply JsMap.get_In, mirrored_clients_In in E as [Hin ->]; [|exact Hid].
    symmetry. now apply JsMap.In_get.
  - destruct (JsObj.inherited k) eqn:Ei; [reflexivity|].
    destruct (JsMap.get k clients) as [c|] eqn:E'; [|reflexivity].
    apply JsMap.get_In in E'.
    assert (Hin : (k, c) ∈ mirrored_clients clients) by now apply mirrored_clients_In.
    apply (JsMap.In_get _ _ _ Hwf') in Hin. congruence.
Qed.

Lemma mirrored_rooms_entries rooms :
  (forall k room, (k, room) ∈ rooms -> rs_id room = k) ->
  mirrored_rooms rooms
  = (fun kr => (fst kr, mirrored_room (snd kr)))
      <$> List.filter (fun kr => negb (JsObj.inherited (fst kr))) (JsObj.entries rooms).
Proof.
  intros Hid. unfold mirrored_rooms, JsObj.values.
  assert (H : forall k room, (k, room) ∈ JsObj.entries rooms -> rs_id room = k).
  { intros k room Hin. apply Hid. now apply JsObj.elem_of_entries. }
  revert H. generalize (JsObj.entries rooms). intros l.
  induction l as [|[k room] l IH]; intros H; [reflexivity|].
  assert (IH' := IH (fun k' c' Hin => H k' c' (list_elem_of_further _ _ _ Hin))).
  rewrite fmap_cons. cbn [snd fst List.filter].
  rewrite (H k room (list_elem_of_here _ _)).
  destruct (JsObj.inherited k); cbn [negb]; [exact IH'|].
  rewrite !fmap_cons, IH'. cbn [fst snd]. now rewrite (H k room (list_elem_of_here _ _)).
Qed.

Lemma mirrored_rooms_In rooms k r :
  (forall k room, (k, room) ∈ rooms -> rs_id room = k) ->
  (k, r) ∈ mirrored_rooms rooms
  <-> JsObj.inherited k = false /\ exists room, (k, room) ∈ rooms /\ r = mirrored_room room.
Proof.
  intros Hid. rewrite (mirrored_rooms_entries _ Hid). rewrite list_elem_of_fmap. split.
  - intros ([k' room] & [= -> ->] & Hin).
    apply list_elem_of_In, filter_In in Hin as [Hin Hk]. apply list_elem_of_In in Hin.
    apply (proj1 (JsObj.elem_of_entries _ _)) in Hin. cbn [fst] in Hk.
    apply negb_true_iff in Hk. eauto.
  - intros (Hk & room & Hin & ->). exists (k, room). split; [reflexivity|].
    apply list_elem_of_In, filter_In. split.
    + apply list_elem_of_In. now apply JsObj.elem_of_entries.
    + cbn [fst]. now rewrite Hk.
Qed.

Lemma mirrored_rooms_wf rooms :
  JsMap.wf rooms -> (forall k room, (k, room) ∈ rooms -> rs_id room = k) ->
  JsMap.wf (mirrored_rooms rooms).
Proof.
  intros Hwf Hid. rewrite (mirrored_rooms_entries _ Hid).
  unfold JsMap.wf, JsMap.keys. rewrite map_map. cbn.
  apply (filter_keys_NoDup _ (JsObj.entries rooms)). now apply JsObj.entries_wf.
Qed.

(** The rooms that the mirror keeps are those of the list that
    [Object.prototype] does not name. *)
Lemma mirrored_rooms_get rooms k :
  ListOK rooms ->
  JsMap.get k (mirrored_rooms rooms)
  = if JsObj.inherited k then None else mirrored_room <$> JsMap.get k rooms.
Proof.
  intros [Hwf Hok].
  assert (Hid : forall k room, (k, room) ∈ rooms -> rs_id room = k).
  { intros k' room Hin. apply (Hok k' room Hin). }
  pose proof (mirrored_rooms_wf _ Hwf Hid) as Hwf'.
  destruct (JsMap.get k (mirrored_rooms rooms)) as [r|] eqn:E.
  - apply JsMap.get_In, mirrored_rooms_In in E as (-> & room & Hin & ->); [|exact Hid].
    now rewrite (JsMap.In_get _ _ _ Hwf Hin).
  - destruct (JsObj.inherited k) eqn:Ei; [reflexivity|].
    destruct (JsMap.get k rooms) as [room|] eqn:E'; [|reflexivity].
    apply JsMap.get_In in E'.
    assert (Hin : (k, mirrored_room room) ∈ mirrored_rooms rooms).
    { apply mirrored_rooms_In; eauto. }
    apply (JsMap.In_get _ _ _ Hwf') in Hin. congruence.
Qed.

(** * C7: ingesting a ping *)

(** C7: a ping arrives at a mirror reached by any run.
    - Without [reset], for a known server: the record stays the one the map
      holds, gets the ping's client count and [lastPing = now], keeps its
      rooms; nothing is emitted.
    - With [reset = true], or for an unknown server: the map sends the url
      to a fresh record (an existing one is dropped from the map first)
      with the ping's client count, no rooms and [lastPing = now];
      ['newServer'] is emitted and the request [rooms.<publicUrl>] with
      [max: 1] is issued, its reply bound to the new record.
    - When the reply to that request comes next, with each room under its
      id and each client under its id, the new record holds afterwards the
      rooms of the reply that [Object.prototype] does not name, each with
      its clients that [Object.prototype] does not name, and nothing else;
      ['newRoom'] was emitted for each of these rooms, ['roomJoined'] for
      each of these clients, and nothing else; the map and the other
      records are as before.
    - Whenever a reply comes, a room of the reply whose id
      [Object.prototype] does not name is held afterwards. *)
Theorem ping_ingest (inputs : list DiscoveryInput) (ping : IRoomServerPing) (now : Z) :
  let m := Discovery_run inputs in
  let url := ping_publicUrl ping in
  let count := ping_clientCount ping in
  let m' := Discovery__receiveServerPing ping now m in
  (forall sv, ping_reset ping <> Some true -> JsMap.get url (roomServers m) = Some sv ->
     roomServers m' = roomServers m /\ effects m' = effects m /\
     (forall sv', sv' <> sv -> records m' !! sv' = records m !! sv') /\
     exists x, records m !! sv = Some x /\
       records m' !! sv = Some {| sv_publicUrl := sv_publicUrl x; sv_clientCount := count;
                                  sv_rooms := sv_rooms x; sv_lastPing := now |}) /\
  (ping_reset ping = Some true \/ JsMap.get url (roomServers m) = None ->
     let sv := length (records m) in
     let server := {| sv_publicUrl := url; sv_clientCount := count;
                      sv_rooms := []; sv_lastPing := now |} in
     JsMap.get url (roomServers m') = Some sv /\
     (forall u, u <> url -> JsMap.get u (roomServers m') = JsMap.get u (roomServers m)) /\
     records m' = records m ++ [server] /\
     effects m' = NatsRequest ("rooms." ++ url) 1 sv
                  :: DiscoveryEmit (EvNewServer server) :: effects m) /\
  (ping_reset ping = Some true \/ JsMap.get url (roomServers m) = None ->
   forall rooms, ListOK rooms ->
     let sv := length (records m) in
     let m'' := Discovery__addNewServer_reply sv rooms m' in
     roomServers m'' = roomServers m' /\
     records m'' = records m ++ [{| sv_publicUrl := url; sv_clientCount := count;
                                    sv_rooms := mirrored_rooms rooms; sv_lastPing := now |}] /\
     (forall k, room_at sv k m''
                = if JsObj.inherited k then None else mirrored_room <$> JsMap.get k rooms) /\
     exists l, effects m'' = l ++ effects m' /\
       (forall k room, (k, room) ∈ rooms -> JsObj.inherited k = false ->
          DiscoveryEmit (EvNewRoom (with_rs_clients [] room)) ∈ l /\
          forall k' c, (k', c) ∈ rs_clients room -> JsObj.inherited k' = false ->
            exists room', DiscoveryEmit (EvRoomJoined room' c) ∈ l) /\
       (forall e, e ∈ l -> arrival_event (JsMap.values rooms) e)) /\
  (forall sv rooms k room, (sv < length (records m))%nat -> (k, room) ∈ rooms ->
     JsObj.inherited (rs_id room) = false ->
     is_Some (room_at sv (rs_id room) (Discovery__addNewServer_reply sv rooms m))).
Proof.
  cbn zeta. pose proof (DInv_run inputs) as H. set (m := Discovery_run inputs) in *.
  assert (Hnew : ping_reset ping = Some true \/
                 JsMap.get (ping_publicUrl ping) (roomServers m) = None ->
            let sv := length (records m) in
            let server := {| sv_publicUrl := ping_publicUrl ping;
                             sv_clientCount := ping_clientCount ping;
                             sv_rooms := []; sv_lastPing := now |} in
            let m' := Discovery__receiveServerPing ping now m in
            JsMap.get (ping_publicUrl ping) (roomServers m') = Some sv /\
            (forall u, u <> ping_publicUrl ping ->
               JsMap.get u (roomServers m') = JsMap.get u (roomServers m)) /\
            records m' = records m ++ [server] /\
            effects m' = NatsRequest ("rooms." ++ ping_publicUrl ping) 1 sv
                         :: DiscoveryEmit (EvNewServer server) :: effects m).
  { intros Hcase. cbn zeta. unfold Discovery__receiveServerPing.
    set (m1 := if opt_false (ping_reset ping) then _ else m).
    assert (Hm1 : JsMap.get (ping_publicUrl ping) (roomServers m1) = None /\
                  records m1 = records m /\ effects m1 = effects m /\
                  forall u, u <> ping_publicUrl ping ->
                    JsMap.get u (roomServers m1) = JsMap.get u (roomServers m)).
    { unfold m1. destruct (opt_false (ping_reset ping)) eqn:E.
      - cbn. split; [apply JsMap.get_delete_eq, (d_wf m H)|]. do 2 (split; [reflexivity|]).
        intros u Hu. now apply JsMap.get_delete_ne.
      - destruct Hcase as [Hr|Hn]; [rewrite Hr in E; discriminate|]. auto. }
    destruct Hm1 as (Hn & Hrec & Heff & Hother). rewrite Hn.
    unfold Discovery__addNewServer. cbn. rewrite Hrec, Heff.
    split; [apply JsMap.get_set_eq|]. split; [|split; reflexivity].
    intros u Hu. rewrite JsMap.get_set_ne by congruence. now apply Hother. }
  split; [|split; [exact Hnew|split]].
  - intros sv Hreset Hg. unfold Discovery__receiveServerPing.
    assert (E : opt_false (ping_reset ping) = false).
    { destruct (ping_reset ping) as [[|]|]; cbn; congruence. }
    rewrite E, Hg. cbn. split; [reflexivity|]. split; [reflexivity|]. split.
    + intros sv' Hne. now rewrite list_lookup_alter_ne by congruence.
    + destruct (d_known m H _ sv (JsMap.get_In _ _ _ Hg)) as [x Hx]. exists x.
      split; [exact Hx|]. now rewrite list_lookup_alter_eq, Hx.
  - intros Hcase rooms Hok. destruct (Hnew Hcase) as (_ & _ & Hrec & _). cbn zeta in Hrec.
    set (m' := Discovery__receiveServerPing ping now m) in *.
    set (server := {| sv_publicUrl := ping_publicUrl ping;
                      sv_clientCount := ping_clientCount ping;
                      sv_rooms := []; sv_lastPing := now |}) in *.
    assert (Hx : records m' !! length (records m) = Some server).
    { rewrite Hrec. now apply list_lookup_middle. }
    destruct (reply_fold (length (records m)) rooms server m' Hx Hok)
      as (l & (T1 & T2 & T3) & R & L & M).
    { intros k _ Hin. now apply elem_of_nil in Hin. }
    { apply NoDup_nil_2. }
    cbn zeta in T1, T2, T3, R. cbn [sv_rooms server app] in R.
    split; [exact T1|]. split; [|split].
    + apply list_eq. intros i. destruct (decide (i = length (records m))) as [->|Hne].
      * rewrite R. symmetry. now apply list_lookup_middle.
      * rewrite T2 by exact Hne. rewrite Hrec.
        destruct (decide (i < length (records m))%nat) as [Hlt|Hge].
        -- now rewrite !lookup_app_l by exact Hlt.
        -- rewrite !lookup_app_r by lia.
           destruct (i - length (records m))%nat as [|n] eqn:En; [lia|reflexivity].
    + intros k. unfold room_at. rewrite R. cbn. now apply mirrored_rooms_get.
    + exists l. split; [exact T3|]. split; [exact L|exact M].
  - intros sv rooms k room. apply reply_populates.
Qed.

(** * C8: events about what the mirror does not know *)

Definition demo_ping : IRoomServerPing :=
  {| ping_publicUrl := "rs-a"; ping_clientCount := 0; ping_reset := Some true |}.

Definition demo_client : IClientSummary := {| cs_id := "C1"; cs_properties := JNull |}.

Definition demo_room : IRoomSummary :=
  {| rs_id := "R1"; rs_publicUrl := "rs-a"; rs_clients := [("C1", demo_client)];
     rs_properties := JNull |}.

Definition demo_event (subject roomId : string) (client : option IClientSummary)
    : IServerEvent :=
  {| ev_publicUrl := "rs-a"; ev_subject := subject; ev_roomId := roomId;
     ev_properties := JNull; ev_client := client |}.



(** * C10: ids are unique in the mirror *)

(** C10: [_addNewRoom] with a room whose id the record already holds, and
    [_addNewClient] with a client whose id the room already holds, return
    the mirror as it was (same records, nothing emitted).  In every mirror
    reached by a run, the rooms of a record have pairwise distinct ids, and
    so have the clients of each of its rooms. *)
Theorem mirror_ids_unique :
  (forall m sv x room, records m !! sv = Some x ->
     is_Some (JsMap.get (rs_id room) (sv_rooms x)) ->
     Discovery__addNewRoom sv room m = m) /\
  (forall m sv key room client, room_at sv key m = Some room ->
     is_Some (JsMap.get (cs_id client) (rs_clients room)) ->
     Discovery__addNewClient sv key client m = m) /\
  (forall inputs sv x, records (Discovery_run inputs) !! sv = Some x ->
     NoDup (rs_id <$> JsMap.values (sv_rooms x)) /\
     forall k room, (k, room) ∈ sv_rooms x ->
       NoDup (cs_id <$> JsMap.values (rs_clients room))).
Proof.
  split; [|split].
  - intros m sv x room Hx [v Hin]. unfold Discovery__addNewRoom. rewrite Hx.
    now rewrite (proj2 (JsObj.lookup_Own _ _ _) Hin).
  - intros m sv key room client Hroom [v Hin]. unfold Discovery__addNewClient. rewrite Hroom.
    now rewrite (proj2 (JsObj.lookup_Own _ _ _) Hin).
  - intros inputs sv x Hx.
    destruct (d_records _ (DInv_run inputs) sv x Hx) as (Hwf & _ & Hr). split.
    + unfold JsMap.values. rewrite ids_are_keys; [exact Hwf|].
      intros k room Hin. apply (Hr k room Hin).
    + intros k room Hin. destruct (Hr k room Hin) as ((_ & Hwfc & Hc) & _).
      unfold JsMap.values. rewrite ids_are_keys; [exact Hwfc|exact Hc].
Qed.

(** ** A run of the mirror *)

(** A server announces itself, the reply lists room R1 with client C1; a
    repeated ['newRoom'] and ['roomJoined'], and a ['roomLeft'] for a room
    the mirror does not hold, change nothing. *)
Example mirror_run :
  let m := Discovery_run
             [OnPing demo_ping 100;
              OnRoomsReply 0 [("R1", demo_room)];
              OnServerEvent (demo_event "newRoom" "R1" None);
              OnServerEvent (demo_event "roomJoined" "R1" (Some demo_client));
              OnServerEvent (demo_event "roomLeft" "R9" (Some demo_client))] in
  roomServers m = [("rs-a", 0%nat)] /\
  records m = [{| sv_publicUrl := "rs-a"; sv_clientCount := 0;
                  sv_rooms := [("R1", demo_room)]; sv_lastPing := 100 |}] /\
  effects m = [DiscoveryEmit (EvRoomJoined demo_room demo_client);
               DiscoveryEmit (EvNewRoom (with_rs_clients [] demo_room));
               NatsRequest "rooms.rs-a" 1 0;
               DiscoveryEmit (EvNewServer {| sv_publicUrl := "rs-a"; sv_clientCount := 0;
                                             sv_rooms := []; sv_lastPing := 100 |})].
Proof. vm_compute. split; [reflexivity|]. split; reflexivity. Qed.

(** ** The three statements at work *)

Lemma demo_ListOK : ListOK [("R1", demo_room)].
Proof.
  split.
  - apply NoDup_singleton.
  - intros k room Hin. apply list_elem_of_singleton in Hin as [= -> ->].
    split; [reflexivity|]. split; [apply NoDup_singleton|].
    intros k c Hin. now apply list_elem_of_singleton in Hin as [= -> ->].
Defined.

Lemma ping_ingest_witness :
  let m := Discovery_run [OnPing demo_ping 100] in
  let ping := {| ping_publicUrl := "rs-a"; ping_clientCount := 3; ping_reset := None |} in
  let m' := Discovery__receiveServerPing ping 200 m in
  roomServers m' = roomServers m /\ effects m' = effects m /\
  JsMap.get "rs-a" (roomServers (Discovery__receiveServerPing demo_ping 200 m)) = Some 1%nat /\
  room_at 1 "R1" (Discovery__addNewServer_reply 1 [("R1", demo_room)]
                    (Discovery__receiveServerPing demo_ping 200 m))
  = Some demo_room.
Proof.
  cbn zeta.
  pose proof (ping_ingest [OnPing demo_ping 100]
                {| ping_publicUrl := "rs-a"; ping_clientCount := 3; ping_reset := None |} 200)
    as (H1 & _ & _).
  pose proof (ping_ingest [OnPing demo_ping 100] demo_ping 200) as (_ & H2 & H3 & _).
  cbn zeta in H1, H2, H3.
  destruct (H1 0%nat ltac:(discriminate) eq_refl) as (E1 & E2 & _).
  destruct (H2 (or_introl eq_refl)) as (E3 & _).
  destruct (H3 (or_introl eq_refl) [("R1", demo_room)] demo_ListOK) as (_ & _ & E4 & _).
  split; [exact E1|]. split; [exact E2|]. split; [exact E3|exact (E4 "R1")].
Defined.


Lemma mirror_ids_unique_witness :
  let m := Discovery_run [OnPing demo_ping 100; OnRoomsReply 0 [("R1", demo_room)]] in
  Discovery__addNewRoom 0 demo_room m = m /\
  Discovery__addNewClient 0 "R1" demo_client m = m.
Proof.
  cbn zeta. destruct mirror_ids_unique as (H1 & H2 & _). split.
  - eapply H1; [reflexivity|]. cbn. now eexists.
  - eapply H2; [reflexivity|]. cbn. now eexists.
Defined.

(** * Tokens

    [generateToken] hands the payload to [jwt.sign] of the [jsonwebtoken]
    package, and [_authenticate] hands the token to [jwt.verify].  The
    package is not part of the sources; the embedding takes both functions
    as they are called.  What the sources decide is fixed below: both sides
    derive the secret from the same environment variable with the same
    default, and both use the subject ["joinRoom"]. *)

Section Tokens.

(** [jwt.sign(payload, secret, {expiresIn, subject})]; [T] is what the
    call gives: a token, or a token or an exception. *)
Context {T : Type}.
Variable jwt_sign : ITokenOptions -> string -> string -> string -> T.

(** The payload of [generateToken]: the options without [expiresIn]. *)
Definition token_payload (options : ITokenOptions) : ITokenOptions :=
  {| tk_publicUrl := tk_publicUrl options; tk_roomId := tk_roomId options;
     tk_roomProperties := tk_roomProperties options; tk_clientId := tk_clientId options;
     tk_clientProperties := tk_clientProperties options; tk_joinOnly := tk_joinOnly options;
     tk_expiresIn := None |}.

(** [options.expiresIn || '1m']. *)
Definition token_expiresIn (options : ITokenOptions) : string :=
  match tk_expiresIn options with
  | Some (String a s) => String a s
  | _ => "1m"
  end.

(** [Discovery.generateToken(options)]. *)
Definition Discovery_generateToken (env_DISCOVERY_SECRET : option string)
    (options : ITokenOptions) : T :=
  let expiresIn := token_expiresIn options in
  jwt_sign (token_payload options) (tokenSecret env_DISCOVERY_SECRET) expiresIn "joinRoom".

End Tokens.

(** A room server started in the same environment verifies a generated
    token with the secret and the subject it was signed with. *)
Lemma generateToken_meets_authenticate
    (jwt_sign : ITokenOptions -> string -> string -> string -> string)
    (jwt_verify : string -> string -> string -> Z -> option ITokenOptions)
    env publicUrl options o now :
  RoomServer__authenticate jwt_verify (Discovery_generateToken jwt_sign env o) now
    (RoomServer_new publicUrl env options)
  = match jwt_verify (jwt_sign (token_payload o) (tokenSecret env) (token_expiresIn o)
                        "joinRoom")
            (tokenSecret env) "joinRoom" now with
    | None => inl "The authentication token is invalid."
    | Some data =>
        if negb (String.eqb (tk_publicUrl data) publicUrl)
        then inl "The authentication token is intended for another room server."
        else inr data
    end.
Proof. reflexivity. Qed.

(** * The rest of [Discovery]: queries, removal, timeouts *)

(** [getClientCount(publicUrl)]; [None] stands for [null]. *)
Definition Discovery_getClientCount (publicUrl : string) (m : Mirror) : option Z :=
  match JsMap.get publicUrl (roomServers m) with
  | Some sv => sv_clientCount <$> records m !! sv
  | None => None
  end.

(** One turn of the [forEach] of [getLeastLoadedServer]: [best] holds
    [bestServer] and [bestClientCount]; [None] is the initial
    [(null, Infinity)], below which every count lies. *)
Definition least_loaded_step (m : Mirror) (best : option (nat * Z)) (entry : string * nat)
    : option (nat * Z) :=
  match records m !! entry.2 with
  | None => best
  | Some x =>
      match best with
      | Some (_, bestClientCount) =>
          if sv_clientCount x <? bestClientCount
          then Some (entry.2, sv_clientCount x) else best
      | None => Some (entry.2, sv_clientCount x)
      end
  end.

(** [getLeastLoadedServer()]: the record, by reference. *)
Definition Discovery_getLeastLoadedServer (m : Mirror) : option nat :=
  fst <$> fold_left (least_loaded_step m) (roomServers m) None.

(** ** Records keep their url *)

Definition urls (m : Mirror) : list string := sv_publicUrl <$> records m.

(** [Stable m m']: the records kept their urls and the map gained no
    entry. *)
Definition Stable (m m' : Mirror) : Prop :=
  urls m' = urls m /\ forall e, e ∈ roomServers m' -> e ∈ roomServers m.

(** The map sends a url to a record of that url. *)
Definition DKey (m : Mirror) : Prop :=
  forall url sv, (url, sv) ∈ roomServers m -> urls m !! sv = Some url.

Lemma Stable_refl m : Stable m m.
Proof. split; auto. Qed.

Lemma Stable_trans m1 m2 m3 : Stable m1 m2 -> Stable m2 m3 -> Stable m1 m3.
Proof. intros [A1 A2] [B1 B2]. split; [congruence|auto]. Qed.

Lemma DKey_Stable m m' : Stable m m' -> DKey m -> DKey m'.
Proof. intros [A1 A2] H url sv Hin. rewrite A1. auto. Qed.

Lemma Stable_effect e m : Stable m (effect e m).
Proof. split; auto. Qed.

Lemma Stable_set_record sv f m :
  (forall x, sv_publicUrl (f x) = sv_publicUrl x) -> Stable m (set_record sv f m).
Proof.
  intros Hf. split; [|auto]. unfold urls. cbn. apply list_eq. intros i.
  rewrite !list_lookup_fmap. destruct (decide (sv = i)) as [->|Hne].
  - rewrite list_lookup_alter_eq. destruct (records m !! i); cbn; [now rewrite Hf|reflexivity].
  - now rewrite list_lookup_alter_ne.
Qed.

Lemma Stable_delete_server url m : Stable m (set_roomServers (JsMap.delete url) m).
Proof. split; [reflexivity|]. intros e. cbn. apply JsMap.In_delete. Qed.

(** A step that is [Stable] keeps a mirror [Stable] with respect to an
    earlier one. *)
Lemma Stable_after m0 m m' : Stable m m' -> Stable m0 m -> Stable m0 m'.
Proof. intros H H0. exact (Stable_trans _ _ _ H0 H). Qed.

Lemma Stable_addNewClient sv key client m : Stable m (Discovery__addNewClient sv key client m).
Proof.
  unfold Discovery__addNewClient. destruct (room_at sv key m); [|apply Stable_refl].
  destruct (JsObj.lookup _ _); try apply Stable_refl. cbn zeta.
  eapply Stable_trans; [|apply Stable_effect]. now apply (Stable_set_record sv).
Qed.

Lemma Stable_removeClient sv key clientId m :
  Stable m (Discovery__removeClient sv key clientId m).
Proof.
  unfold Discovery__removeClient. destruct (room_at sv key m); [|apply Stable_refl].
  destruct (JsObj.lookup _ _); [|apply Stable_effect|apply Stable_refl]. cbn zeta.
  eapply Stable_trans; [apply Stable_effect|]. now apply (Stable_set_record sv).
Qed.

Lemma Stable_addNewRoom sv room m : Stable m (Discovery__addNewRoom sv room m).
Proof.
  unfold Discovery__addNewRoom. destruct (records m !! sv); [|apply Stable_refl].
  destruct (JsObj.lookup _ _); try apply Stable_refl. cbn zeta.
  apply (fold_keeps (Stable m)).
  { intros m' c. apply Stable_after, Stable_addNewClient. }
  eapply Stable_trans; [|apply Stable_effect]. now apply (Stable_set_record sv).
Qed.

Lemma Stable_removeRoom sv roomId m : Stable m (state (Discovery__removeRoom sv roomId m)).
Proof.
  unfold Discovery__removeRoom. destruct (records m !! sv); [|apply Stable_refl].
  destruct (JsObj.lookup _ _); try apply Stable_refl. cbn zeta.
  set (m1 := fold_left _ _ m).
  assert (S1 : Stable m m1).
  { apply (fold_keeps (Stable m)); [|apply Stable_refl].
    intros m' c. apply Stable_after, Stable_removeClient. }
  destruct (room_at sv roomId m1); [|exact S1].
  eapply Stable_trans; [exact S1|].
  eapply Stable_trans; [|apply Stable_effect]. now apply (Stable_set_record sv).
Qed.

Lemma Stable_removeServer sv m : Stable m (state (Discovery__removeServer sv m)).
Proof.
  unfold Discovery__removeServer. destruct (records m !! sv) as [x|]; [|apply Stable_refl].
  apply (and_then_keeps (Stable m)).
  - apply (forEach_keeps (Stable m)); [|apply Stable_refl].
    intros k m'. apply Stable_after, Stable_removeRoom.
  - intros m1 S1. destruct (records m1 !! sv); [|exact S1].
    eapply Stable_trans; [exact S1|].
    eapply Stable_trans; [apply Stable_delete_server|apply Stable_effect].
Qed.

Lemma Stable_handleServerEvent event m :
  Stable m (state (Discovery__handleServerEvent event m)).
Proof.
  unfold Discovery__handleServerEvent.
  destruct (JsMap.get _ (roomServers m)) as [sv|]; [|apply Stable_refl].
  destruct (String.eqb _ "newRoom"); [apply Stable_addNewRoom|].
  destruct (records m !! sv) as [x|]; [|apply Stable_refl].
  destruct (JsObj.lookup _ _) as [room| |]; [| |apply Stable_refl].
  - destruct (String.eqb _ "roomRemoved"); [apply Stable_removeRoom|].
    destruct (String.eqb _ "roomJoined").
    { destruct (ev_client event); [apply Stable_addNewClient|apply Stable_refl]. }
    destruct (String.eqb _ "roomLeft"); [|apply Stable_refl].
    destruct (ev_client event); [apply Stable_removeClient|apply Stable_refl].
  - destruct (String.eqb _ "roomRemoved"); [apply Stable_removeRoom|].
    destruct (String.eqb _ "roomJoined"); [apply Stable_refl|].
    destruct (String.eqb _ "roomLeft"); apply Stable_refl.
Qed.

Lemma Stable_serverCheckLoop now m : Stable m (state (Discovery__serverCheckLoop now m)).
Proof.
  unfold Discovery__serverCheckLoop.
  apply (forEach_server_keeps (Stable m)); [|apply Stable_refl].
  intros sv m'. apply Stable_after.
  destruct (records m' !! sv) as [x|]; [|apply Stable_refl].
  destruct (_ <? _); [apply Stable_removeServer|apply Stable_refl].
Qed.

Lemma DKey_addNewServer server m :
  DKey m -> (forall url sv, (url, sv) ∈ roomServers m -> sv < length (records m))%nat ->
  DKey (Discovery__addNewServer server m).
Proof.
  intros H Hlt url sv. unfold Discovery__addNewServer, urls. cbn. intros Hin.
  rewrite fmap_app. apply In_set in Hin as [[= -> ->]|Hin].
  - rewrite lookup_app_r by (rewrite length_fmap; lia).
    now rewrite length_fmap, Nat.sub_diag.
  - rewrite lookup_app_l by (rewrite length_fmap; eauto). now apply H.
Qed.

Lemma DKey_step m i : DInv m -> DKey m -> DKey (Discovery_step m i).
Proof.
  intros HI H. destruct i as [ping now|message|event|url|sv rooms|now]; cbn [Discovery_step].
  - unfold Discovery__receiveServerPing.
    set (m1 := if opt_false (ping_reset ping) then _ else m).
    assert (S1 : Stable m m1).
    { unfold m1. destruct (opt_false _); [apply Stable_delete_server|apply Stable_refl]. }
    assert (I1 : DInv m1).
    { unfold m1. destruct (opt_false _); [now apply DInv_delete_server|exact HI]. }
    destruct (JsMap.get _ (roomServers m1)) as [sv|].
    + eapply DKey_Stable; [|exact H]. eapply Stable_trans; [exact S1|].
      now apply Stable_set_record.
    + apply DKey_addNewServer; [exact (DKey_Stable _ _ S1 H)|].
      intros url sv Hin. apply lookup_lt_is_Some. exact (d_known m1 I1 url sv Hin).
  - exact H.
  - apply (subscribe_keeps DKey).
    + intros e m'. apply DKey_Stable, Stable_effect.
    + exact (DKey_Stable _ _ (Stable_handleServerEvent event m) H).
  - apply (subscribe_keeps DKey).
    + intros e m'. apply DKey_Stable, Stable_effect.
    + eapply DKey_Stable; [|exact H]. unfold Discovery__removeServerByUrl.
      destruct (JsMap.get url (roomServers m)); [apply Stable_removeServer|apply Stable_refl].
  - eapply DKey_Stable; [|exact H]. unfold Discovery__addNewServer_reply.
    apply (fold_keeps (Stable m)); [|apply Stable_refl].
    intros m' room. apply Stable_after, Stable_addNewRoom.
  - apply (timer_keeps DKey).
    + intros e m'. apply DKey_Stable, Stable_effect.
    + exact (DKey_Stable _ _ (Stable_serverCheckLoop now m) H).
Qed.

Lemma DKey_run inputs : DKey (Discovery_run inputs).
Proof.
  unfold Discovery_run.
  assert (H : DInv Discovery_new /\ DKey Discovery_new).
  { split; [exact (DInv_run [])|]. intros url sv Hin. now apply elem_of_nil in Hin. }
  revert H. generalize Discovery_new.
  induction inputs as [|i inputs IH]; intros m [HI H]; cbn; [exact H|].
  apply IH. split; [now apply DInv_step|now apply DKey_step].
Qed.

(** Two urls never share a record. *)
Lemma DKey_injective m url url' sv :
  DKey m -> (url, sv) ∈ roomServers m -> (url', sv) ∈ roomServers m -> url = url'.
Proof. intros H H1 H2. apply H in H1. apply H in H2. congruence. Qed.

(** ** Queries *)

(** X1: after a ping from a server, with or without [reset], known or not,
    [getClientCount] of its url is the count of the ping; the counts of the
    other urls are as before. *)
Theorem ping_sets_client_count (inputs : list DiscoveryInput) (ping : IRoomServerPing)
    (now : Z) :
  let m := Discovery_run inputs in
  let m' := Discovery__receiveServerPing ping now m in
  Discovery_getClientCount (ping_publicUrl ping) m' = Some (ping_clientCount ping) /\
  forall url, url <> ping_publicUrl ping ->
    Discovery_getClientCount url m' = Discovery_getClientCount url m.
Proof.
  cbn zeta. pose proof (DInv_run inputs) as HI. pose proof (DKey_run inputs) as HK.
  set (m := Discovery_run inputs) in *.
  unfold Discovery__receiveServerPing.
  set (m1 := if opt_false (ping_reset ping) then _ else m).
  assert (I1 : DInv m1).
  { unfold m1. destruct (opt_false _); [now apply DInv_delete_server|exact HI]. }
  assert (K1 : DKey m1).
  { unfold m1. destruct (opt_false _); [|exact HK].
    exact (DKey_Stable _ _ (Stable_delete_server _ m) HK). }
  assert (Hrec : records m1 = records m) by (unfold m1; now destruct (opt_false _)).
  assert (Hother : forall u, u <> ping_publicUrl ping ->
            JsMap.get u (roomServers m1) = JsMap.get u (roomServers m)).
  { intros u Hu. unfold m1. destruct (opt_false _); [|reflexivity].
    cbn. apply JsMap.get_delete_ne. congruence. }
  assert (Hsame : forall u, u <> ping_publicUrl ping ->
            Discovery_getClientCount u m1 = Discovery_getClientCount u m).
  { intros u Hu. unfold Discovery_getClientCount. now rewrite Hother, Hrec. }
  destruct (JsMap.get (ping_publicUrl ping) (roomServers m1)) as [sv|] eqn:Hg.
  - split.
    + unfold Discovery_getClientCount. cbn. rewrite Hg, list_lookup_alter_eq.
      destruct (d_known m1 I1 _ sv (JsMap.get_In _ _ _ Hg)) as [x ->]. reflexivity.
    + intros u Hu. rewrite <- (Hsame u Hu). unfold Discovery_getClientCount. cbn.
      destruct (JsMap.get u (roomServers m1)) as [sv'|] eqn:Hg'; [|reflexivity].
      rewrite list_lookup_alter_ne; [reflexivity|]. intros ->. apply Hu.
      exact (DKey_injective m1 u (ping_publicUrl ping) sv' K1
               (JsMap.get_In _ _ _ Hg') (JsMap.get_In _ _ _ Hg)).
  - split.
    + unfold Discovery_getClientCount, Discovery__addNewServer. cbn.
      rewrite JsMap.get_set_eq. now rewrite list_lookup_middle.
    + intros u Hu. rewrite <- (Hsame u Hu).
      unfold Discovery_getClientCount, Discovery__addNewServer. cbn.
      rewrite JsMap.get_set_ne by congruence.
      destruct (JsMap.get u (roomServers m1)) as [sv'|] eqn:Hg'; [|reflexivity].
      destruct (d_known m1 I1 u sv' (JsMap.get_In _ _ _ Hg')) as [x Hx].
      now rewrite (lookup_app_l_Some _ _ _ _ Hx), Hx.
Qed.

Lemma least_loaded_fold m l best :
  let res := fold_left (least_loaded_step m) l best in
  (res = None <-> best = None /\ forall e, e ∈ l -> records m !! e.2 = None) /\
  forall sv n, res = Some (sv, n) ->
    (best = Some (sv, n) \/
     exists url x, (url, sv) ∈ l /\ records m !! sv = Some x /\ sv_clientCount x = n) /\
    (forall b bn, best = Some (b, bn) -> n <= bn) /\
    (forall e x, e ∈ l -> records m !! e.2 = Some x -> n <= sv_clientCount x).
Proof.
  revert best. induction l as [|[url sv] l IH]; intros best; cbn zeta.
  - cbn. split.
    + split; [intros ->; split; [reflexivity|]|tauto].
      intros e He. now apply elem_of_nil in He.
    + intros sv n ->. split; [now left|]. split.
      * intros b bn [= _ <-]. lia.
      * intros e x He. now apply elem_of_nil in He.
  - cbn [fold_left]. specialize (IH (least_loaded_step m best (url, sv))).
    cbn zeta in IH. destruct IH as [IH1 IH2]. split.
    + rewrite IH1. unfold least_loaded_step at 1. cbn [snd].
      destruct (records m !! sv) as [x|] eqn:Hx.
      * split.
        { intros [E _]. destruct best as [[b bn]|]; [|discriminate].
          destruct (_ <? _); discriminate. }
        { intros [_ E]. specialize (E (url, sv) (list_elem_of_here _ _)). cbn in E.
          congruence. }
      * split.
        { intros [E1 E2]. split; [exact E1|]. intros e He.
          apply elem_of_cons in He as [->|He]; [exact Hx|auto]. }
        { intros [E1 E2]. split; [exact E1|]. intros e He. apply E2.
          now apply list_elem_of_further. }
    + intros sv' n Hres. destruct (IH2 sv' n Hres) as (A & B & C).
      unfold least_loaded_step in A, B. cbn [snd] in A, B.
      destruct (records m !! sv) as [x|] eqn:Hx.
      * assert (Hnx : n <= sv_clientCount x).
        { destruct best as [[b bn]|].
          - destruct (Z.ltb_spec (sv_clientCount x) bn) as [Hlt|Hge].
            + exact (B _ _ eq_refl).
            + specialize (B _ _ eq_refl). lia.
          - exact (B _ _ eq_refl). }
        split; [|split].
        { destruct A as [A|(url' & x' & Hin & Hx' & Hn)].
          - destruct best as [[b bn]|].
            + destruct (sv_clientCount x <? bn).
              * injection A as <- <-. right. exists url, x.
                split; [apply list_elem_of_here|auto].
              * now left.
            + injection A as <- <-. right. exists url, x.
              split; [apply list_elem_of_here|auto].
          - right. exists url', x'. split; [now apply list_elem_of_further|auto]. }
        { intros b bn ->. destruct (Z.ltb_spec (sv_clientCount x) bn) as [Hlt|Hge].
          - lia.
          - exact (B _ _ eq_refl). }
        { intros e x' He Hx'. apply elem_of_cons in He as [->|He]; [|eauto].
          cbn in Hx'. congruence. }
      * split; [|split].
        { destruct A as [A|(url' & x' & Hin & Hx' & Hn)]; [now left|].
          right. exists url', x'. split; [now apply list_elem_of_further|auto]. }
        { exact B. }
        { intros e x' He Hx'. apply elem_of_cons in He as [->|He]; [|eauto].
          cbn in Hx'. congruence. }
Qed.

(** X2: [getLeastLoadedServer] answers [null] exactly when no server is
    registered; otherwise it answers a registered record whose client count
    is at most that of every registered record. *)
Theorem least_loaded_is_minimal (inputs : list DiscoveryInput) :
  let m := Discovery_run inputs in
  (Discovery_getLeastLoadedServer m = None <-> roomServers m = []) /\
  forall sv, Discovery_getLeastLoadedServer m = Some sv ->
    exists url x, JsMap.get url (roomServers m) = Some sv /\ records m !! sv = Some x /\
      forall url' n, Discovery_getClientCount url' m = Some n -> sv_clientCount x <= n.
Proof.
  cbn zeta. pose proof (DInv_run inputs) as HI. set (m := Discovery_run inputs) in *.
  destruct (least_loaded_fold m (roomServers m) None) as [H1 H2]. cbn zeta in H1, H2.
  unfold Discovery_getLeastLoadedServer. split.
  - destruct (fold_left _ _ None) as [[sv n]|] eqn:E; cbn.
    + split; [discriminate|]. intros Hnil. rewrite Hnil in E. discriminate.
    + split; [|reflexivity]. intros _. destruct (proj1 H1 eq_refl) as [_ Hall].
      destruct (roomServers m) as [|[url sv] l] eqn:El; [reflexivity|].
      specialize (Hall (url, sv) (list_elem_of_here _ _)). cbn in Hall.
      assert (Hin : (url, sv) ∈ roomServers m) by (rewrite El; apply list_elem_of_here).
      destruct (d_known m HI url sv Hin) as [x Hx]. congruence.
  - intros sv Hres. destruct (fold_left _ _ None) as [[sv' n]|] eqn:E; [|discriminate].
    cbn in Hres. injection Hres as ->.
    destruct (H2 sv n eq_refl) as ([A|(url & x & Hin & Hx & Hn)] & _ & C); [discriminate|].
    exists url, x. split; [apply JsMap.In_get; [apply (d_wf m HI)|exact Hin]|].
    split; [exact Hx|]. intros url' n' Hc. unfold Discovery_getClientCount in Hc.
    destruct (JsMap.get url' (roomServers m)) as [sv'|] eqn:Hg; [|discriminate].
    destruct (records m !! sv') as [x'|] eqn:Hx'; [|discriminate].
    cbn in Hc. injection Hc as <-. rewrite Hn.
    apply (C (url', sv') x'); [now apply JsMap.get_In|exact Hx'].
Qed.


(** ** Removing a server *)

(** X3: [rs.stop]: for an unknown url nothing happens.  For a known one
    the callback returns; every client of every room of the record is
    reported with ['roomLeft'], every room with ['roomRemoved'], nothing
    else is reported before the server itself with ['serverRemoved']; the
    record ends without rooms, its url leaves the map, and the other
    entries of the map and the other records are as before. *)
Theorem server_stop_forgets_server (inputs : list DiscoveryInput) (publicUrl : string) :
  let m := Discovery_run inputs in
  let m' := Discovery_step m (OnServerStop publicUrl) in
  (Discovery_getClientCount publicUrl m = None -> m' = m) /\
  (forall sv x, JsMap.get publicUrl (roomServers m) = Some sv -> records m !! sv = Some x ->
     Discovery__removeServerByUrl publicUrl m = Return m' /\
     roomServers m' = JsMap.delete publicUrl (roomServers m) /\
     (forall url, url <> publicUrl ->
        JsMap.get url (roomServers m') = JsMap.get url (roomServers m)) /\
     (forall sv', sv' <> sv -> records m' !! sv' = records m !! sv') /\
     records m' !! sv = Some (with_sv_rooms [] x) /\
     Discovery_getClientCount publicUrl m' = None /\
     (forall url, url <> publicUrl ->
        Discovery_getClientCount url m' = Discovery_getClientCount url m) /\
     exists l,
       effects m' = DiscoveryEmit (EvServerRemoved (with_sv_rooms [] x)) :: l ++ effects m /\
       (forall k room, (k, room) ∈ sv_rooms x ->
          DiscoveryEmit (EvRoomRemoved (with_rs_clients [] room)) ∈ l /\
          forall k' c, (k', c) ∈ rs_clients room ->
            exists room', DiscoveryEmit (EvRoomLeft room' c) ∈ l) /\
       (forall e, e ∈ l -> removal_event (sv_rooms x) e)).
Proof.
  cbn zeta. pose proof (DInv_run inputs) as HI. pose proof (DKey_run inputs) as HK.
  set (m := Discovery_run inputs) in *. cbn [Discovery_step].
  unfold Discovery__removeServerByUrl. split.
  - unfold Discovery_getClientCount.
    destruct (JsMap.get publicUrl (roomServers m)) as [sv|] eqn:Hg; [|reflexivity].
    destruct (d_known m HI _ sv (JsMap.get_In _ _ _ Hg)) as [x ->]. discriminate.
  - intros sv x Hg Hx. rewrite Hg.
    destruct (removeServer_known sv x m HI Hx) as (m' & l & Hret & M & O & R & E & L & L').
    rewrite Hret. cbn [Discovery__subscribe].
    assert (Hurl : sv_publicUrl x = publicUrl).
    { pose proof (HK _ _ (JsMap.get_In _ _ _ Hg)) as Hu. unfold urls in Hu.
      rewrite list_lookup_fmap, Hx in Hu. cbn in Hu. congruence. }
    rewrite Hurl in M.
    assert (G : forall url, url <> publicUrl ->
                  JsMap.get url (roomServers m') = JsMap.get url (roomServers m)).
    { intros url Hu. rewrite M. apply JsMap.get_delete_ne. congruence. }
    split; [reflexivity|]. split; [exact M|]. split; [exact G|]. split; [exact O|].
    split; [exact R|]. split; [|split].
    + unfold Discovery_getClientCount. rewrite M.
      now rewrite JsMap.get_delete_eq by apply (d_wf m HI).
    + intros url Hu. unfold Discovery_getClientCount. rewrite (G url Hu).
      destruct (JsMap.get url (roomServers m)) as [sv'|] eqn:Hg'; [|reflexivity].
      rewrite O; [reflexivity|]. intros ->. apply Hu.
      exact (DKey_injective m url publicUrl sv HK
               (JsMap.get_In _ _ _ Hg') (JsMap.get_In _ _ _ Hg)).
    + exists l. split; [exact E|]. split; [exact L|exact L'].
Qed.

(** ** The check loop *)

(** The callback of the [forEach] of [_serverCheckLoop]. *)
Definition check_server (now : Z) (sv : nat) (m : Mirror) : Outcome :=
  match records m !! sv with
  | Some x => if sv_lastPing x + serverTimeout <? now
              then Discovery__removeServer sv m else Return m
  | None => Return m
  end.

Lemma serverCheckLoop_unfold now m :
  Discovery__serverCheckLoop now m = forEach_server (roomServers m) (check_server now) m.
Proof. reflexivity. Qed.

Lemma record_url m url sv x :
  DKey m -> (url, sv) ∈ roomServers m -> records m !! sv = Some x -> sv_publicUrl x = url.
Proof.
  intros HK Hin Hx. pose proof (HK _ _ Hin) as Hu. unfold urls in Hu.
  rewrite list_lookup_fmap, Hx in Hu. cbn in Hu. congruence.
Qed.

Lemma checkLoop_fold now entries : forall m,
  DInv m -> DKey m -> NoDup (JsMap.keys entries) ->
  (forall k sv, (k, sv) ∈ entries -> JsMap.get k (roomServers m) = Some sv) ->
  exists m',
  forEach_server entries (check_server now) m = Return m' /\
  (forall k sv x, (k, sv) ∈ entries -> records m !! sv = Some x ->
     if sv_lastPing x + serverTimeout <? now
     then JsMap.get k (roomServers m') = None /\
          DiscoveryEmit (EvServerRemoved (with_sv_rooms [] x)) ∈ effects m'
     else JsMap.get k (roomServers m') = Some sv /\ records m' !! sv = Some x) /\
  (forall k, k ∉ JsMap.keys entries ->
     JsMap.get k (roomServers m') = JsMap.get k (roomServers m)) /\
  (forall sv, (forall k, (k, sv) ∉ entries) -> records m' !! sv = records m !! sv) /\
  (exists l, effects m' = l ++ effects m).
Proof.
  induction entries as [|[k sv] rest IH]; intros m HI HK Hnd Hget.
  - exists m. cbn. split; [reflexivity|]. split; [|split; [|split]]; auto.
    + intros k sv x Hin. now apply elem_of_nil in Hin.
    + now exists [].
  - cbn [forEach_server]. rewrite (Hget k sv (list_elem_of_here _ _)), Nat.eqb_refl.
    unfold JsMap.keys in Hnd. cbn in Hnd. apply NoDup_cons in Hnd as [Hk Hnd].
    assert (Hin : (k, sv) ∈ roomServers m).
    { apply JsMap.get_In, Hget, list_elem_of_here. }
    destruct (d_known m HI k sv Hin) as [x Hx].
    pose proof (record_url m k sv x HK Hin Hx) as Hurl.
    assert (Hne : forall k' sv', (k', sv') ∈ rest -> k' <> k /\ sv' <> sv).
    { intros k' sv' Hin'. assert (Hk' : k' <> k).
      { intros ->. apply Hk. apply list_elem_of_fmap. now exists (k, sv'). }
      split; [exact Hk'|]. intros ->. apply Hk'.
      apply (DKey_injective m k' k sv HK); [|exact Hin].
      apply JsMap.get_In, Hget. now apply list_elem_of_further. }
    assert (F : exists m1, check_server now sv m = Return m1 /\
                DInv m1 /\ DKey m1 /\
                (forall k', k' <> k -> JsMap.get k' (roomServers m1)
                                       = JsMap.get k' (roomServers m)) /\
                (forall sv', sv' <> sv -> records m1 !! sv' = records m !! sv') /\
                (exists l, effects m1 = l ++ effects m) /\
                if sv_lastPing x + serverTimeout <? now
                then JsMap.get k (roomServers m1) = None /\
                     DiscoveryEmit (EvServerRemoved (with_sv_rooms [] x)) ∈ effects m1
                else m1 = m).
    { unfold check_server. rewrite Hx.
      destruct (sv_lastPing x + serverTimeout <? now).
      - destruct (removeServer_known sv x m HI Hx) as (m1 & l & Hret & M & O & R & E & L).
        rewrite Hurl in M. exists m1. split; [exact Hret|].
        split; [pose proof (DInv_removeServer sv m HI) as D; now rewrite Hret in D|].
        split.
        { apply (DKey_Stable m); [|exact HK].
          pose proof (Stable_removeServer sv m) as D. now rewrite Hret in D. }
        split; [intros k' Hk'; rewrite M; apply JsMap.get_delete_ne; congruence|].
        split; [exact O|]. split; [rewrite E; now eexists (_ :: l)|].
        split; [rewrite M; apply JsMap.get_delete_eq, (d_wf m HI)|].
        rewrite E. apply list_elem_of_here.
      - exists m. split; [reflexivity|].
        split; [exact HI|]. split; [exact HK|]. split; [reflexivity|].
        split; [reflexivity|]. split; [now exists []|reflexivity]. }
    destruct F as (m1 & Hret1 & I1 & K1 & G1 & O1 & [l1 E1] & C1).
    rewrite Hret1. cbn [and_then].
    destruct (IH m1 I1 K1 Hnd) as (m' & Hret & A & B & C & [l2 D]).
    { intros k' sv' Hin'. rewrite G1 by (apply (Hne k' sv' Hin')).
      apply Hget. now apply list_elem_of_further. }
    exists m'. split; [exact Hret|]. split; [|split; [|split]].
    + intros k0 sv0 x0 Hin0 Hx0. apply elem_of_cons in Hin0 as [[= -> ->]|Hin0].
      * assert (x0 = x) by congruence. subst x0.
        destruct (sv_lastPing x + serverTimeout <? now).
        { destruct C1 as [C1 C2]. split; [now rewrite B|].
          rewrite D. apply elem_of_app. now right. }
        { split.
          - rewrite B by exact Hk. rewrite C1. now apply Hget, list_elem_of_here.
          - rewrite C; [now rewrite C1|]. intros k' Hin'. now apply (Hne k' sv Hin'). }
      * apply (A k0 sv0 x0 Hin0). rewrite O1; [exact Hx0|]. apply (Hne k0 sv0 Hin0).
    + intros k0 Hk0. unfold JsMap.keys in Hk0. cbn in Hk0.
      apply not_elem_of_cons in Hk0 as [Hk0 Hk0']. rewrite B by exact Hk0'.
      now apply G1.
    + intros sv0 Hsv0. rewrite C.
      * apply O1. intros ->. apply (Hsv0 k). apply list_elem_of_here.
      * intros k' Hin'. apply (Hsv0 k'). now apply list_elem_of_further.
    + exists (l2 ++ l1). rewrite D, E1. now rewrite app_assoc.
Qed.

(** In a run the check loop returns: no exception leaves the timer
    callback. *)
Lemma check_loop_returns inputs now :
  exists m', Discovery__serverCheckLoop now (Discovery_run inputs) = Return m'.
Proof.
  pose proof (DInv_run inputs) as HI. pose proof (DKey_run inputs) as HK.
  set (m := Discovery_run inputs) in *. rewrite serverCheckLoop_unfold.
  destruct (checkLoop_fold now (roomServers m) m HI HK (d_wf m HI)) as (m' & Hret & _).
  { intros k sv Hin. apply JsMap.In_get; [apply (d_wf m HI)|exact Hin]. }
  now exists m'.
Qed.

(** X4: [_serverCheckLoop] at time [now]: a registered server whose last ping
    is more than [_serverTimeout] (5000 ms) old is removed and reported with
    ['serverRemoved']; every other registered server stays registered with
    its record untouched; no server appears.  The loop returns. *)
Theorem check_loop_evicts_stale (inputs : list DiscoveryInput) (now : Z) :
  let m := Discovery_run inputs in
  let m' := state (Discovery__serverCheckLoop now m) in
  Discovery__serverCheckLoop now m = Return m' /\
  Discovery_step m (OnCheckLoop now) = m' /\
  (forall url sv x, JsMap.get url (roomServers m) = Some sv -> records m !! sv = Some x ->
     if sv_lastPing x + 5000 <? now
     then JsMap.get url (roomServers m') = None /\
          DiscoveryEmit (EvServerRemoved (with_sv_rooms [] x)) ∈ effects m'
     else JsMap.get url (roomServers m') = Some sv /\ records m' !! sv = Some x) /\
  (forall url, JsMap.get url (roomServers m) = None ->
     JsMap.get url (roomServers m') = None).
Proof.
  cbn zeta. pose proof (DInv_run inputs) as HI. pose proof (DKey_run inputs) as HK.
  set (m := Discovery_run inputs) in *. cbn [Discovery_step].
  rewrite serverCheckLoop_unfold.
  destruct (checkLoop_fold now (roomServers m) m HI HK (d_wf m HI)) as (m' & Hret & A & B & _).
  { intros k sv Hin. apply JsMap.In_get; [apply (d_wf m HI)|exact Hin]. }
  rewrite Hret. cbn [state Discovery__timer].
  split; [reflexivity|]. split; [reflexivity|]. split.
  - intros url sv x Hg Hx. apply (A url sv x); [now apply JsMap.get_In|exact Hx].
  - intros url Hg. rewrite B; [exact Hg|]. now apply JsMap.get_None_keys.
Qed.

(** ** Adding and removing again *)

Lemma records_restored sv (f : IRoomServer -> IRoomServer) (l : list IRoomServer) :
  (forall x, l !! sv = Some x -> f x = x) -> alter f sv l = l.
Proof.
  intros Hf. apply list_eq. intros i. destruct (decide (sv = i)) as [->|Hne].
  - rewrite list_lookup_alter_eq. destruct (l !! i) as [x|] eqn:E; cbn; [|reflexivity].
    now rewrite Hf.
  - now rewrite list_lookup_alter_ne.
Qed.

(** X5: a ['roomJoined'] for a client the room does not hold, followed by
    the ['roomLeft'] of that client.  If the client's id is not a property
    name of [Object.prototype], the client is added to the room's clients
    and removed again; the mirror is as before, and both events reached
    the listeners.  If it is one, the client is not added and no
    ['roomJoined'] is emitted; the ['roomLeft'] is emitted with the
    inherited value in place of a client, and the mirror is as before. *)
Theorem mirror_join_leave_round_trip (m : Mirror) (sv : nat) (key : string)
    (room : IRoomSummary) (client : IClientSummary) :
  room_at sv key m = Some room ->
  JsMap.get (cs_id client) (rs_clients room) = None ->
  let joined := with_rs_clients (rs_clients room ++ [(cs_id client, client)]) room in
  let m1 := Discovery__addNewClient sv key client m in
  let m2 := Discovery__removeClient sv key (cs_id client) m1 in
  if JsObj.inherited (cs_id client) then
    m1 = m /\
    m2 = effect (DiscoveryEmit (EvRoomLeftPrototype room (cs_id client))) m
  else
    room_at sv key m1 = Some joined /\
    room_at sv key m2 = Some room /\
    roomServers m2 = roomServers m /\
    records m2 = records m /\
    effects m2 = DiscoveryEmit (EvRoomLeft joined client)
                 :: DiscoveryEmit (EvRoomJoined joined client) :: effects m.
Proof.
  intros Hat Hfresh. cbn zeta.
  assert (Hat' := Hat). unfold room_at in Hat'.
  destruct (records m !! sv) as [x|] eqn:Hx; [|discriminate]. cbn in Hat'.
  destruct (JsObj.inherited (cs_id client)) eqn:Ei.
  { assert (E : JsObj.lookup (cs_id client) (rs_clients room) = JsObj.Inherited).
    { unfold JsObj.lookup. now rewrite Hfresh, Ei. }
    unfold Discovery__addNewClient. rewrite Hat, E.
    unfold Discovery__removeClient. rewrite Hat, E. split; reflexivity. }
  assert (E : JsObj.lookup (cs_id client) (rs_clients room) = JsObj.Undefined).
  { unfold JsObj.lookup. now rewrite Hfresh, Ei. }
  unfold Discovery__addNewClient. rewrite Hat, E. cbn zeta.
  rewrite (JsMap.set_fresh _ _ _ Hfresh).
  set (joined := with_rs_clients (rs_clients room ++ [(cs_id client, client)]) room).
  set (m1 := effect _ (set_room_at sv key joined m)).
  assert (Hat1 : room_at sv key m1 = Some joined).
  { unfold room_at, m1. cbn. rewrite list_lookup_alter_eq, Hx. cbn. apply JsMap.get_set_eq. }
  assert (Hc : JsObj.lookup (cs_id client) (rs_clients joined) = JsObj.Own client).
  { apply JsObj.lookup_Own. unfold joined. cbn.
    rewrite <- (JsMap.set_fresh _ _ _ Hfresh). apply JsMap.get_set_eq. }
  assert (Hd : with_rs_clients (JsMap.delete (cs_id client) (rs_clients joined)) joined = room).
  { unfold joined. cbn [rs_clients with_rs_clients].
    rewrite <- (JsMap.set_fresh _ _ _ Hfresh), delete_set, (JsMap.delete_absent _ _ Hfresh).
    cbn. now destruct room. }
  unfold Discovery__removeClient. rewrite Hat1, Hc. cbn zeta. rewrite Hd.
  split; [reflexivity|]. split; [|split; [reflexivity|split; [|reflexivity]]].
  - unfold room_at. cbn. rewrite list_lookup_alter_eq, list_lookup_alter_eq, Hx. cbn.
    apply JsMap.get_set_eq.
  - cbn. rewrite list_alter_alter_eq. apply records_restored. intros x' Hx'.
    assert (x' = x) by congruence. subst x'. cbn.
    rewrite set_set, (set_same _ _ _ Hat'). now destruct x.
Qed.

Lemma mirror_join_leave_round_trip_witness :
  let m := Discovery_run [OnPing demo_ping 100;
                          OnServerEvent (demo_event "newRoom" "R1" None)] in
  let m2 := Discovery__removeClient 0 "R1" "C1" (Discovery__addNewClient 0 "R1" demo_client m) in
  records m2 = records m /\ roomServers m2 = roomServers m.
Proof.
  pose proof (mirror_join_leave_round_trip
                (Discovery_run [OnPing demo_ping 100;
                                OnServerEvent (demo_event "newRoom" "R1" None)])
                0%nat "R1" (with_rs_clients [] demo_room) demo_client eq_refl eq_refl) as H.
  cbn zeta in H. destruct H as (_ & _ & H3 & H4 & _).
  split; [exact H4|exact H3].
Defined.

(** ** The reply to [rooms.<publicUrl>] *)

(** X6: the reply callback of [_addNewServer], on a record that holds no
    room yet, with a list that holds each room under its id and each client
    under its id.  Afterwards the record holds, under their ids, the rooms
    of the reply whose id is not a property name of [Object.prototype],
    each with its clients whose id is not such a name, and no other room;
    ['newRoom'] was emitted for each of these rooms and ['roomJoined'] for
    each of these clients, and nothing else was emitted; nothing else
    changed. *)
Theorem reply_rebuilds_rooms (m : Mirror) (sv : nat) (x : IRoomServer)
    (rooms : list (string * IRoomSummary)) :
  records m !! sv = Some x -> sv_rooms x = [] -> ListOK rooms ->
  let m' := Discovery__addNewServer_reply sv rooms m in
  records m' !! sv = Some (with_sv_rooms (mirrored_rooms rooms) x) /\
  (forall k, room_at sv k m' = if JsObj.inherited k then None
                               else mirrored_room <$> JsMap.get k rooms) /\
  (forall k room k', JsMap.get k rooms = Some room ->
     JsMap.get k' (rs_clients (mirrored_room room))
     = if JsObj.inherited k' then None else JsMap.get k' (rs_clients room)) /\
  roomServers m' = roomServers m /\
  (forall sv', sv' <> sv -> records m' !! sv' = records m !! sv') /\
  exists l, effects m' = l ++ effects m /\
    (forall k room, (k, room) ∈ rooms -> JsObj.inherited k = false ->
       DiscoveryEmit (EvNewRoom (with_rs_clients [] room)) ∈ l /\
       forall k' c, (k', c) ∈ rs_clients room -> JsObj.inherited k' = false ->
         exists room', DiscoveryEmit (EvRoomJoined room' c) ∈ l) /\
    (forall e, e ∈ l -> arrival_event (JsMap.values rooms) e).
Proof.
  intros Hx Hempty Hok. cbn zeta.
  destruct (reply_fold sv rooms x m Hx Hok) as (l & (T1 & T2 & T3) & R & L & L').
  - rewrite Hempty. intros k _ Hin. now apply elem_of_nil in Hin.
  - rewrite Hempty. apply NoDup_nil_2.
  - rewrite Hempty in R. cbn [app] in R.
    split; [exact R|]. split; [|split; [|split; [exact T1|split; [exact T2|]]]].
    + intros k. unfold room_at. rewrite R. cbn. now apply mirrored_rooms_get.
    + intros k room k' Hg. cbn. destruct Hok as [Hwf Hok].
      destruct (Hok k room (JsMap.get_In _ _ _ Hg)) as (_ & Hwfc & Hid).
      now apply mirrored_clients_get.
    + exists l. split; [exact T3|]. split; [exact L|exact L'].
Qed.

Lemma reply_rebuilds_rooms_witness :
  let m := Discovery_run [OnPing demo_ping 100] in
  room_at 0 "R1" (Discovery__addNewServer_reply 0 [("R1", demo_room)] m)
  = Some (mirrored_room demo_room).
Proof.
  pose proof (reply_rebuilds_rooms (Discovery_run [OnPing demo_ping 100]) 0%nat
                {| sv_publicUrl := "rs-a"; sv_clientCount := 0;
                   sv_rooms := []; sv_lastPing := 100 |}
                [("R1", demo_room)] eq_refl eq_refl demo_ListOK) as H.
  cbn zeta in H. destruct H as (_ & H & _). exact (H "R1").
Defined.

(** * The rest of the room server *)

(** ** Admission: the remaining cases *)

(** X7: a socket whose first frame does not verify is sent the envelope with
    the message [The authentication token is invalid.] and is closed; its
    token listener is consumed; the server and the rooms are unchanged. *)
Theorem invalid_token_rejected
    (jwt_verify : string -> string -> string -> Z -> option ITokenOptions)
    (w : World) (s : nat) (k : Socket) (data : string) (now : Z) :
  sockets w !! s = Some k -> readyState k = OPEN -> on_token k = true ->
  jwt_verify data (srv_tokenSecret (server w)) "joinRoom" now = None ->
  let w' := step jwt_verify w (Message s data now) in
  log w' = SocketClose s
             :: SocketSend s (envelope "The authentication token is invalid.")
             :: log w /\
  sockets w' !! s = Some (with_readyState CLOSING (with_on_token false k)) /\
  (forall s', s' <> s -> sockets w' !! s' = sockets w !! s') /\
  server w' = server w /\
  rooms w' = rooms w.
Proof.
  intros Hk Ho Ht Hv. cbn [step]. rewrite Hk, Ho, Ht. cbn [Z.eqb OPEN Pos.eqb].
  unfold RoomServer__handleClient_message, RoomServer__authenticate.
  cbn [server set_socket]. rewrite Hv. cbn. repeat split.
  - rewrite list_lookup_alter_eq, list_lookup_alter_eq, Hk. cbn.
    unfold close_state. cbn. now rewrite Ho.
  - intros s' Hs'. now rewrite !list_lookup_alter_ne by congruence.
Qed.

Lemma invalid_token_rejected_witness :
  let w := run demo_verify demo_server [Connection] in
  let w' := step demo_verify w (Message 0 "no separator" 0) in
  log w' = SocketClose 0
             :: SocketSend 0 (envelope "The authentication token is invalid.")
             :: log w /\
  server w' = server w /\ rooms w' = rooms w.
Proof.
  pose proof (invalid_token_rejected demo_verify
                (run demo_verify demo_server [Connection])
                0%nat new_socket "no separator" 0 eq_refl eq_refl eq_refl eq_refl) as H.
  cbn zeta in H. destruct H as (H1 & _ & _ & H4 & H5).
  split; [exact H1|]. split; [exact H4|exact H5].
Defined.

(** The bus message of [_notify] for a client event. *)
Definition client_event (w : World) (x : Room) (subject : string) (cl : Client) : Effect :=
  NatsPublish "rs.event"
    (JObj [("client", Client_summary cl);
           ("publicUrl", JStr (srv_publicUrl (server w)));
           ("roomId", JStr (room_id x));
           ("subject", JStr subject)]).

(** X8: a socket whose first frame is an accepted token for a room the server
    holds, with a client id new to that room: no room is created, the
    client is appended to the room's members, [clientCount] grows by one,
    the socket stays open with its close listener bound to the room, the
    room emits ['joined'] (forwarded to the bus as [roomJoined] when the
    room is synchronised), and no frame is sent to the socket. *)
Theorem admission_joins_existing_room
    (jwt_verify : string -> string -> string -> Z -> option ITokenOptions)
    (w : World) (s r : nat) (k : Socket) (x : Room) (data : string) (now : Z)
    (token : ITokenOptions) :
  sockets w !! s = Some k -> readyState k = OPEN -> on_token k = true ->
  jwt_verify data (srv_tokenSecret (server w)) "joinRoom" now = Some token ->
  tk_publicUrl token = srv_publicUrl (server w) ->
  JsMap.get (tk_roomId token) (srv_rooms (server w)) = Some r ->
  rooms w !! r = Some x ->
  Room_hasClient r (tk_clientId token) w = false ->
  let cl := {| cl_id := tk_clientId token; cl_properties := tk_clientProperties token;
               cl_missedPings := 0 |} in
  let w' := step jwt_verify w (Message s data now) in
  srv_rooms (server w') = srv_rooms (server w) /\
  length (rooms w') = length (rooms w) /\
  members r w' = members r w ++ [(tk_clientId token, s)] /\
  (forall r', r' <> r -> rooms w' !! r' = rooms w !! r') /\
  client_of s w' = Some cl /\
  socket_on_close s w' = Some r /\
  socket_state s w' = Some OPEN /\
  (forall s', s' <> s -> sockets w' !! s' = sockets w !! s') /\
  srv_clientCount (server w') = srv_clientCount (server w) + 1 /\
  log w' = (if room_on_sync x then [client_event w x "roomJoined" cl] else [])
           ++ RoomEmit r (Joined s) :: log w.
Proof.
  intros Hk Ho Ht Hv Hurl Hr Hx Hhas. cbn zeta. cbn [step]. rewrite Hk, Ho, Ht.
  cbn [Z.eqb OPEN Pos.eqb].
  unfold RoomServer__handleClient_message, RoomServer__authenticate.
  cbn [server set_socket]. rewrite Hv, Hurl, String.eqb_refl. cbn [negb].
  unfold RoomServer__connectClient, RoomServer__getRoom. cbn [server set_socket].
  rewrite Hr.
  change (Room_hasClient r (tk_clientId token) (set_socket s (with_on_token false) w))
    with (Room_hasClient r (tk_clientId token) w).
  rewrite Hhas.
  set (cl := {| cl_id := tk_clientId token; cl_properties := tk_clientProperties token;
                cl_missedPings := 0 |}).
  set (w2 := set_socket s (with_client cl) (set_socket s (with_on_token false) w)).
  assert (Hk2 : sockets w2 !! s = Some (with_client cl (with_on_token false k))).
  { unfold w2. cbn. now rewrite !list_lookup_alter_eq, Hk. }
  assert (Hcl2 : client_of s w2 = Some cl).
  { unfold client_of. now rewrite Hk2. }
  assert (Hfresh : JsMap.get (tk_clientId token) (members r w) = None).
  { apply JsMap.has_false_get. exact Hhas. }
  assert (Hmem : members r w = room_clients x) by (unfold members; now rewrite Hx).
  assert (E : Room_join r s w2
              = (if room_on_sync x then emit (client_event w x "roomJoined" cl) else id)
                  (emit (RoomEmit r (Joined s))
                     (set_room r (update_clients (JsMap.set (tk_clientId token) s)) w2))).
  { unfold Room_join. rewrite Hcl2.
    change (Room_hasClient r (cl_id cl) w2) with (Room_hasClient r (tk_clientId token) w).
    rewrite Hhas. unfold Room_emit. cbn [emit set_room rooms w2 set_socket].
    rewrite list_lookup_alter_eq, Hx. cbn [fmap option_fmap option_map room_on_sync
      update_clients with_clients].
    destruct (room_on_sync x); [|reflexivity].
    unfold client_of. cbn [sockets emit set_room set_socket w2].
    rewrite !list_lookup_alter_eq, Hk. cbn.
    unfold RoomServer__notify. cbn [rooms emit set_room server w2 set_socket].
    rewrite list_lookup_alter_eq, Hx. reflexivity. }
  cbn [fst]. rewrite E.
  set (f := if room_on_sync x then _ else id).
  set (v := emit (RoomEmit r (Joined s)) _).
  set (w' := set_socket s (with_on_close (Some r)) (set_server _ (f v))).
  assert (Hf : (f v = emit (client_event w x "roomJoined" cl) v /\ room_on_sync x = true)
               \/ (f v = v /\ room_on_sync x = false)).
  { unfold f. destruct (room_on_sync x); auto. }
  assert (Hserver : server w' = with_clientCount (srv_clientCount (server w) + 1) (server w)).
  { unfold w'. destruct Hf as [[-> _]|[-> _]]; reflexivity. }
  assert (Hrooms : rooms w'
                   = alter (update_clients (JsMap.set (tk_clientId token) s)) r (rooms w)).
  { unfold w'. destruct Hf as [[-> _]|[-> _]]; reflexivity. }
  assert (Hsock : sockets w'
                  = alter (with_on_close (Some r)) s (sockets w2)).
  { unfold w'. destruct Hf as [[-> _]|[-> _]]; reflexivity. }
  assert (Hlog : log w' = (if room_on_sync x then [client_event w x "roomJoined" cl] else [])
                          ++ RoomEmit r (Joined s) :: log w).
  { unfold w'. destruct Hf as [[-> ->]|[-> ->]]; reflexivity. }
  clearbody w'.
  assert (Hks : sockets w' !! s
                = Some (with_on_close (Some r) (with_client cl (with_on_token false k)))).
  { now rewrite Hsock, list_lookup_alter_eq, Hk2. }
  split; [now rewrite Hserver|]. split; [now rewrite Hrooms, length_alter|].
  split; [|split; [|split; [|split; [|split; [|split; [|split]]]]]].
  - unfold members. rewrite Hrooms, list_lookup_alter_eq, Hx. cbn.
    rewrite Hmem in Hfresh. now apply JsMap.set_fresh.
  - intros r' Hr'. rewrite Hrooms. now rewrite list_lookup_alter_ne by congruence.
  - unfold client_of. now rewrite Hks.
  - unfold socket_on_close. now rewrite Hks.
  - unfold socket_state. rewrite Hks. cbn. now rewrite Ho.
  - intros s' Hs'. rewrite Hsock. unfold w2. cbn [sockets set_socket].
    now rewrite !list_lookup_alter_ne by congruence.
  - now rewrite Hserver.
  - exact Hlog.
Qed.

Lemma admission_joins_existing_room_witness :
  let w := run demo_verify demo_server [Connection; Message 0 "R1/C1" 0; Connection] in
  let w' := step demo_verify w (Message 1 "R1/C2" 0) in
  members 0 w' = [("C1", 0%nat); ("C2", 1%nat)] /\
  srv_clientCount (server w') = 2 /\
  length (rooms w') = 1%nat.
Proof.
  pose proof (admission_joins_existing_room demo_verify
                (run demo_verify demo_server [Connection; Message 0 "R1/C1" 0; Connection])
                1%nat 0%nat new_socket
                {| room_publicUrl := "rs-a"; room_id := "R1"; room_properties := JUndefined;
                   room_options := {| pingInterval := None; missedPingsLimit := Some 1;
                                      keepAlive := Some false |};
                   room_clients := [("C1", 0%nat)]; room_timer := false;
                   room_on_sync := true; room_on_terminated := true |}
                "R1/C2" 0 (demo_token "rs-a" "R1" "C2")
                eq_refl eq_refl eq_refl eq_refl eq_refl eq_refl eq_refl eq_refl) as H.
  cbn zeta in H. destruct H as (_ & H2 & H3 & _ & _ & _ & _ & _ & H9 & _).
  split; [exact H3|]. split; [exact H9|exact H2].
Defined.

(** ** A member's socket closes *)

Lemma removeRoom_detaches r w :
  JsMap.wf (srv_rooms (server w)) ->
  (forall k, JsMap.get k (srv_rooms (server w)) = Some r -> room_id_of r w = Some k) ->
  forall k, (k, r) ∉ srv_rooms (server (RoomServer__removeRoom r w)).
Proof.
  intros Hwf Hid k Hin.
  pose proof (Calm_removeRoom False r r w) as [_ C _ _].
  pose proof (JsMap.In_get _ _ _ Hwf (C k Hin)) as Hg.
  pose proof (Hid k Hg) as Hk. unfold room_id_of in Hk.
  unfold RoomServer__removeRoom in Hin.
  destruct (rooms w !! r) as [x|] eqn:Hx; [|discriminate].
  cbn in Hk. injection Hk as Hk. rewrite Hk in Hin.
  unfold JsMap.has in Hin. rewrite Hg in Hin. cbn in Hin.
  destruct (server_syncRooms _) in Hin.
  - unfold RoomServer__notify in Hin. destruct (rooms _ !! r) in Hin; cbn in Hin;
      now apply In_delete_same in Hin.
  - cbn in Hin. now apply In_delete_same in Hin.
Qed.

(** X9: the transport reports the socket of an admitted client closed.  The
    client leaves the room its close listener was bound to: it is deleted
    from the members, the room emits ['left'], [clientCount] drops by one,
    and the socket loses its listeners; no other member of any room is
    touched.  If that leaves the room empty and the room is not [keepAlive],
    the room is no longer registered; otherwise the server's map is as
    before. *)
Theorem close_removes_member
    (jwt_verify : string -> string -> string -> Z -> option ITokenOptions)
    (publicUrl : string) (env_DISCOVERY_SECRET : option string)
    (options : option IRoomServerOptions) (inputs : list Input)
    (c r : nat) (k : Socket) :
  let w := run jwt_verify (RoomServer_new publicUrl env_DISCOVERY_SECRET options) inputs in
  let w' := step jwt_verify w (Close c) in
  sockets w !! c = Some k -> readyState k <> CLOSED -> on_close k = Some r ->
  (exists cl, sk_client k = Some cl /\
     JsMap.get (cl_id cl) (members r w) = Some c /\
     JsMap.get (cl_id cl) (members r w') = None) /\
  (forall r' id v, JsMap.get id (members r' w) = Some v -> v <> c ->
     JsMap.get id (members r' w') = Some v) /\
  (forall r' id v, JsMap.get id (members r' w') = Some v ->
     JsMap.get id (members r' w) = Some v) /\
  sent (RoomEmit r (Left c)) w w' /\
  srv_clientCount (server w') = srv_clientCount (server w) - 1 /\
  sockets w' !! c = Some (with_no_listeners (with_readyState CLOSED k)) /\
  (forall c', c' <> c -> sockets w' !! c' = sockets w !! c') /\
  if Room_isEmpty r w' && negb (Room_keepAlive r w')
  then forall id, JsMap.get id (srv_rooms (server w')) <> Some r
  else srv_rooms (server w') = srv_rooms (server w).
Proof.
  cbn zeta. intros Hk Hst Hoc.
  set (w := run jwt_verify _ inputs) in *.
  assert (H : Inv w) by (apply Inv_run, Inv_new).
  cbn [step]. rewrite Hk. destruct (Z.eqb_spec (readyState k) CLOSED) as [E|_]; [contradiction|].
  set (w0 := set_socket c (with_readyState CLOSED) w).
  assert (H0 : Inv w0).
  { apply Inv_set_socket; [|exact H]. intros k' _. cbn. repeat split; auto. }
  assert (Hk0 : sockets w0 !! c = Some (with_readyState CLOSED k)).
  { unfold w0. cbn. now rewrite list_lookup_alter_eq, Hk. }
  assert (Hc0 : closing c w0).
  { unfold closing, Client__isClosing, socket_state. now rewrite Hk0. }
  assert (Hoc0 : socket_on_close c w0 = Some r).
  { unfold socket_on_close. now rewrite Hk0. }
  destruct (inv_close_member w0 (proj1 H0) c r Hoc0) as [cl [Hcl0 Hm0]].
  assert (F0 : Frame c w w0) by (now apply Frame_set_socket).
  pose proof (Frame_socket_emit_close c w0 H0 Hc0) as F1.
  pose proof (Frame_trans c w w0 _ F0 F1) as F.
  unfold socket_emit_close in *. rewrite Hoc0 in *.
  unfold on_socket_close in *. cbn [close_listener] in *.
  set (w1 := set_socket c (with_on_close None) w0) in *.
  assert (Hk1 : sockets w1 !! c = Some (with_on_close None (with_readyState CLOSED k))).
  { unfold w1. cbn [sockets set_socket]. now rewrite list_lookup_alter_eq, Hk0. }
  assert (Hc1 : closing c w1).
  { unfold closing, Client__isClosing, socket_state. now rewrite Hk1. }
  assert (Hcl1 : client_of c w1 = Some cl).
  { unfold client_of in *. rewrite Hk1. rewrite Hk0 in Hcl0. exact Hcl0. }
  assert (Hm1 : JsMap.get (cl_id cl) (members r w1) = Some c) by exact Hm0.
  assert (Hwf1 : JsMap.wf (members r w1)) by apply (inv_members_wf w (proj1 H)).
  destruct (listener_effect (fun _ _ w => w) c r cl w1 Hwf1 Hc1 Hcl1 Hm1) as [Hgone Hsent].
  rewrite (disconnectClient_closing (fun _ _ w => w) c r cl w1 Hc1 Hcl1 Hm1) in *.
  cbn zeta in *.
  set (w1a := set_room r (update_clients (JsMap.delete (cl_id cl))) w1) in *.
  destruct (Room_emit_member_frame r (Left c) w1a) as (Hs2 & Hr2 & Hv2); [discriminate|].
  set (w2 := Room_emit r (Left c) w1a) in *.
  set (w4 := set_server _ (Client__removeAllListeners c w2)) in *.
  assert (Hsv4 : server w4 = with_clientCount (srv_clientCount (server w) - 1) (server w)).
  { unfold w4. cbn. now rewrite Hv2. }
  assert (Hsock4 : sockets w4 = alter with_no_listeners c (sockets w1)).
  { unfold w4. cbn. now rewrite Hs2. }
  assert (Hid4 : forall r', room_id_of r' w4 = room_id_of r' w).
  { intros r'. unfold room_id_of, w4. cbn. rewrite Hr2. apply room_id_of_update. }
  set (w' := if Room_isEmpty r w4 && negb (Room_keepAlive r w4)
             then RoomServer__removeRoom r w4 else w4) in *.
  assert (Hcores : cores w' = cores w4).
  { unfold w'. destruct (_ && _); [|reflexivity]. apply removeRoom_frame. }
  assert (Hsock : sockets w' = sockets w4).
  { unfold w'. destruct (_ && _); [|reflexivity]. apply removeRoom_frame. }
  assert (Hcount : srv_clientCount (server w') = srv_clientCount (server w4)).
  { unfold w'. destruct (_ && _); [|reflexivity]. apply removeRoom_frame. }
  assert (Hcond : Room_isEmpty r w' && negb (Room_keepAlive r w')
                  = Room_isEmpty r w4 && negb (Room_keepAlive r w4)).
  { unfold Room_isEmpty, Room_clientCount.
    now rewrite (members_cores _ _ r Hcores), (keepAlive_cores _ _ r Hcores). }
  split; [|split; [|split; [|split; [|split; [|split; [|split]]]]]].
  - exists cl. split; [|split].
    + unfold client_of in Hcl0. rewrite Hk0 in Hcl0. exact Hcl0.
    + exact Hm0.
    + exact Hgone.
  - intros r' id v. apply (fr_keep c w w' F).
  - intros r' id v. apply (fr_shrink c w w' F).
  - apply (grows_sent _ w w1); [now exists []|exact Hsent].
  - rewrite Hcount, Hsv4. reflexivity.
  - rewrite Hsock, Hsock4, list_lookup_alter_eq, Hk1. reflexivity.
  - intros c' Hc'. rewrite Hsock, Hsock4. rewrite list_lookup_alter_ne by congruence.
    unfold w1, w0. cbn. now rewrite !list_lookup_alter_ne by congruence.
  - rewrite Hcond. unfold w'. destruct (_ && _).
    + intros id Hg. apply JsMap.get_In in Hg. revert Hg.
      apply removeRoom_detaches.
      * rewrite Hsv4. apply (inv_rooms_wf w (proj1 H)).
      * intros id'. rewrite Hsv4, Hid4. apply (inv_rooms w (proj1 H)).
    + now rewrite Hsv4.
Qed.

Lemma close_removes_member_witness :
  let w := run demo_verify demo_server
             [Connection; Message 0 "R1/C1" 0; Connection; Message 1 "R1/C2" 0] in
  let w' := step demo_verify w (Close 0) in
  srv_clientCount (server w') = srv_clientCount (server w) - 1 /\
  srv_rooms (server w') = srv_rooms (server w).
Proof.
  assert (Hne : OPEN <> CLOSED) by discriminate.
  pose proof (close_removes_member demo_verify "rs-a" None None
                [Connection; Message 0 "R1/C1" 0; Connection; Message 1 "R1/C2" 0]
                0%nat 0%nat
                {| readyState := OPEN; on_token := false; on_client := true;
                   on_close := Some 0%nat;
                   sk_client := Some {| cl_id := "C1"; cl_properties := JUndefined;
                                        cl_missedPings := 0 |} |}
                eq_refl Hne eq_refl) as H.
  cbn zeta in H. destruct H as (_ & _ & _ & _ & H5 & _ & _ & H8).
  split; [exact H5|exact H8].
Defined.

(** ** No empty room stays registered *)

(** [getRoom(roomId)]; [None] stands for [null]. *)
Definition RoomServer_getRoom (roomId : string) (w : World) : option nat :=
  JsMap.get roomId (srv_rooms (server w)).

(** Every registered room holds a member or is [keepAlive]. *)
Definition NoLeak (w : World) : Prop :=
  forall k r, (k, r) ∈ srv_rooms (server w) ->
    members r w <> [] \/ Room_keepAlive r w = true.

Definition Inv2 (w : World) : Prop := Inv w /\ NoLeak w.

Lemma NoLeak_cores w w' :
  cores w' = cores w ->
  (forall e, e ∈ srv_rooms (server w') -> e ∈ srv_rooms (server w)) ->
  NoLeak w -> NoLeak w'.
Proof.
  intros Hc Hr J k r Hin.
  rewrite (members_cores _ _ r Hc), (keepAlive_cores _ _ r Hc). eauto.
Qed.

Lemma Inv2_emit e w : Inv2 w -> Inv2 (emit e w).
Proof.
  intros [H J]. split; [now apply Inv_emit|]. eapply NoLeak_cores; eauto; reflexivity.
Qed.

Lemma Inv2_set_socket c f w : Inv (set_socket c f w) -> Inv2 w -> Inv2 (set_socket c f w).
Proof.
  intros H' [H J]. split; [exact H'|]. eapply NoLeak_cores; eauto; reflexivity.
Qed.

Lemma NoLeak_removeRoom r w : NoLeak w -> NoLeak (RoomServer__removeRoom r w).
Proof.
  intros J. destruct (removeRoom_frame r w) as (_ & Hc & _).
  apply (NoLeak_cores w); [exact Hc| |exact J].
  intros [k r'] Hin. now apply (calm_rooms False r' w _ (Calm_removeRoom False r' r w)).
Qed.

Lemma Inv2_removeRoom r w : Inv2 w -> Inv2 (RoomServer__removeRoom r w).
Proof. intros [H J]. split; [now apply Inv_removeRoom|now apply NoLeak_removeRoom]. Qed.

Lemma keepAlive_update r r' g w :
  Room_keepAlive r' (set_room r (update_clients g) w) = Room_keepAlive r' w.
Proof.
  unfold Room_keepAlive. cbn. destruct (decide (r = r')) as [->|Hne].
  - rewrite list_lookup_alter_eq. now destruct (rooms w !! r').
  - now rewrite list_lookup_alter_ne.
Qed.

Lemma nonempty_or_keepAlive r w :
  Room_isEmpty r w && negb (Room_keepAlive r w) = false ->
  members r w <> [] \/ Room_keepAlive r w = true.
Proof.
  intros E. apply andb_false_iff in E as [E|E].
  - left. unfold Room_isEmpty, Room_clientCount in E. apply Z.eqb_neq in E.
    intros E'. rewrite E' in E. now apply E.
  - right. now destruct (Room_keepAlive r w).
Qed.

Lemma Inv2_listener L c r cl w :
  Inv2 w -> closing c w -> socket_on_close c w = None ->
  client_of c w = Some cl ->
  JsMap.get (cl_id cl) (members r w) = Some c ->
  Inv2 (RoomServer__disconnectClient L c r w).
Proof.
  intros [H J] Hc Hoc Hcl Hm. split; [now apply (Inv_listener L c r cl)|].
  rewrite (disconnectClient_closing L c r cl w Hc Hcl Hm). cbn zeta.
  set (w1 := set_room r (update_clients (JsMap.delete (cl_id cl))) w).
  destruct (Room_emit_member_frame r (Left c) w1) as (Hs2 & Hr2 & Hv2); [discriminate|].
  set (w2 := Room_emit r (Left c) w1) in *.
  set (w4 := set_server _ _).
  assert (Hm4 : forall r', r' <> r -> members r' w4 = members r' w).
  { intros r' Hr'. unfold members, w4. cbn. rewrite Hr2.
    now apply (members_set_room_ne r r'). }
  assert (Hk4 : forall r', Room_keepAlive r' w4 = Room_keepAlive r' w).
  { intros r'. unfold Room_keepAlive, w4. cbn. rewrite Hr2. apply keepAlive_update. }
  assert (Hi4 : forall r', room_id_of r' w4 = room_id_of r' w).
  { intros r'. unfold room_id_of, w4. cbn. rewrite Hr2. apply room_id_of_update. }
  assert (Hr4 : srv_rooms (server w4) = srv_rooms (server w)).
  { unfold w4. cbn. now rewrite Hv2. }
  destruct (Room_isEmpty r w4 && negb (Room_keepAlive r w4)) eqn:E.
  - intros k r' Hin. destruct (decide (r' = r)) as [->|Hr'].
    + exfalso. revert Hin. apply removeRoom_detaches.
      * rewrite Hr4. apply (inv_rooms_wf w (proj1 H)).
      * intros id. rewrite Hr4, Hi4. apply (inv_rooms w (proj1 H)).
    + destruct (removeRoom_frame r w4) as (_ & Hc4 & _).
      rewrite (members_cores _ _ r' Hc4), (keepAlive_cores _ _ r' Hc4).
      rewrite Hm4, Hk4 by exact Hr'. apply (J k).
      rewrite <- Hr4. now apply (calm_rooms False r' w4 _ (Calm_removeRoom False r' r w4)).
  - intros k r' Hin. destruct (decide (r' = r)) as [->|Hr'].
    + now apply nonempty_or_keepAlive.
    + rewrite Hm4, Hk4 by exact Hr'. apply (J k). now rewrite <- Hr4.
Qed.

Lemma Inv2_socket_emit_close c w :
  Inv2 w -> closing c w -> Inv2 (socket_emit_close on_socket_close c w).
Proof.
  intros H Hc. unfold socket_emit_close.
  destruct (socket_on_close c w) as [r|] eqn:Hoc; [|exact H].
  destruct (inv_close_member w (proj1 (proj1 H)) c r Hoc) as [cl [Hcl Hm]].
  unfold on_socket_close. cbn [close_listener].
  apply (Inv2_listener _ c r cl).
  - apply Inv2_set_socket; [|exact H]. apply Inv_detach_close; [exact Hc|apply H].
  - apply closing_set_socket; auto.
  - unfold socket_on_close. cbn. rewrite list_lookup_alter_eq.
    now destruct (sockets w !! c).
  - unfold client_of in *. cbn. rewrite list_lookup_alter_eq.
    now destruct (sockets w !! c).
  - exact Hm.
Qed.

Lemma Inv2_removeAllListeners c w :
  closing c w -> Inv2 w -> Inv2 (Client__removeAllListeners c w).
Proof.
  intros Hc H. apply Inv2_set_socket; [|exact H].
  apply Inv_removeAllListeners; [exact Hc|apply H].
Qed.

Lemma Inv2_closed e c w :
  Inv2 w ->
  Inv2 (Client__removeAllListeners c
          (if Client__isClosing c w then w
           else socket_emit_close on_socket_close c (set_socket c close_state (emit e w)))).
Proof.
  intros H. destruct (Client__isClosing c w) eqn:Hc.
  - now apply Inv2_removeAllListeners.
  - assert (Hc' : closing c (set_socket c close_state (emit e w))).
    { apply (closing_close_state c (emit e w)). exact Hc. }
    apply Inv2_removeAllListeners.
    + now apply closing_emit_close.
    + apply Inv2_socket_emit_close; [|exact Hc'].
      apply Inv2_set_socket; [|now apply Inv2_emit].
      apply Inv_close_state. apply Inv_emit. apply H.
Qed.

Lemma Inv2_Client_disconnect c w : Inv2 w -> Inv2 (Client_disconnect on_socket_close c w).
Proof. apply (Inv2_closed (SocketClose c)). Qed.

Lemma Inv2_Client_terminate c w : Inv2 w -> Inv2 (Client_terminate on_socket_close c w).
Proof. apply (Inv2_closed (SocketTerminate c)). Qed.

Lemma Inv2_Client_ping l c w : Inv2 w -> Inv2 (Client_ping on_socket_close l c w).
Proof.
  intros H. unfold Client_ping.
  destruct (Client__isClosing c w); [exact H|].
  destruct (client_of c w) as [cl|]; [|exact H].
  destruct (match l with Some _ => _ | None => _ end).
  - now apply Inv2_Client_terminate.
  - apply Inv2_emit. apply Inv2_set_socket; [|exact H].
    apply Inv_missedPings. apply H.
Qed.

Lemma Inv2_Room_terminate r w : Inv2 w -> Inv2 (Room_terminate on_socket_close r w).
Proof.
  intros H. unfold Room_terminate, Room_forEach.
  set (w1 := forEach_member _ _ _ _).
  assert (H1 : Inv2 w1).
  { apply forEach_member_preserves; [|exact H]. intros c w'. apply Inv2_Client_disconnect. }
  split; [apply Inv_Room_emit, H1|].
  unfold Room_emit. cbn zeta. apply (Inv2_emit (RoomEmit r Terminated)) in H1.
  destruct (rooms _ !! r) as [x|]; [|apply H1].
  destruct (room_on_terminated x); [now apply NoLeak_removeRoom, H1|apply H1].
Qed.

Lemma keepAlive_app_cores w w' k o r :
  cores w' = cores w ++ [(k, o, [])] -> r <> length (rooms w) ->
  Room_keepAlive r w' = Room_keepAlive r w.
Proof.
  intros H Hr. unfold Room_keepAlive.
  assert (E : room_core <$> rooms w' !! r = (cores w ++ [(k, o, [])]) !! r).
  { rewrite <- list_lookup_fmap. now rewrite <- H. }
  assert (Hl : length (cores w) = length (rooms w)) by (unfold cores; apply length_fmap).
  destruct (decide (r < length (rooms w))%nat) as [Hlt|Hge].
  - rewrite lookup_app_l in E by lia. unfold cores in E. rewrite list_lookup_fmap in E.
    destruct (rooms w' !! r), (rooms w !! r); cbn in E; try congruence.
    unfold room_core in E. congruence.
  - rewrite lookup_app_r in E by lia.
    destruct (r - length (cores w))%nat as [|n] eqn:En; [lia|]. cbn in E.
    rewrite (proj2 (lookup_ge_None (rooms w) r)) by lia.
    destruct (rooms w' !! r); [discriminate|reflexivity].
Qed.

(** After [_getRoom], every registered room other than the one returned
    holds a member or is [keepAlive]. *)
Lemma NoLeak_getRoom roomId properties w :
  Inv w -> NoLeak w ->
  let '(r, w') := RoomServer__getRoom roomId properties w in
  forall k r', (k, r') ∈ srv_rooms (server w') -> r' <> r ->
    members r' w' <> [] \/ Room_keepAlive r' w' = true.
Proof.
  intros H J. unfold RoomServer__getRoom.
  destruct (JsMap.get roomId (srv_rooms (server w))) as [r|] eqn:E; [eauto|].
  pose proof (createRoom_frame roomId properties w) as F.
  destruct (RoomServer__createRoom roomId properties w) as [r w'].
  destruct F as (-> & Hs & Hc & Hk & Hr).
  intros k r' Hin Hne. rewrite Hr in Hin. apply In_set in Hin as [[= _ ->]|Hin];
    [congruence|].
  rewrite (members_app_cores w w' _ _ r' Hc), (keepAlive_app_cores w w' _ _ r' Hc Hne).
  eauto.
Qed.

Lemma Inv2_connectClient s token w k :
  Inv2 w -> sockets w !! s = Some k -> sk_client k = None -> on_token k = false ->
  Inv2 (RoomServer__connectClient s token w).1.
Proof.
  intros [H J] Hk Hnc Hnt. split; [now apply (Inv_connectClient s token w k)|].
  unfold RoomServer__connectClient.
  pose proof (getRoom_spec (tk_roomId token) (tk_roomProperties token) w H) as G.
  pose proof (NoLeak_getRoom (tk_roomId token) (tk_roomProperties token) w H J) as J1.
  destruct (RoomServer__getRoom _ _ w) as [r w1].
  destruct G as (I1 & Hs1 & Hg1 & [x Hx] & Hn1 & Hm1).
  destruct (Room_hasClient r (tk_clientId token) w1) eqn:Hhas; cbn [fst].
  - intros k' r' Hin. destruct (decide (r' = r)) as [->|Hr']; [|eauto].
    left. intros Hnil. unfold Room_hasClient in Hhas. rewrite Hnil in Hhas. discriminate.
  - set (cl := {| cl_id := tk_clientId token; cl_properties := tk_clientProperties token;
                  cl_missedPings := 0 |}).
    set (w2 := set_socket s (with_client cl) w1).
    assert (Hk1 : sockets w1 !! s = Some k) by now rewrite Hs1.
    assert (Hcl2 : client_of s w2 = Some cl).
    { unfold client_of, w2. cbn. rewrite list_lookup_alter_eq, Hk1. reflexivity. }
    assert (Hfresh : JsMap.get (cl_id cl) (members r w2) = None).
    { apply JsMap.has_false_get. exact Hhas. }
    destruct (Room_join_frame r s cl w2 x Hcl2 Hx Hfresh) as (Hs3 & Hv3 & Hmr & Hmo & Hi & Ht).
    destruct (Room_join_rooms r s cl w2 Hcl2 Hhas) as (Hr3 & _).
    set (w3 := Room_join r s w2) in *.
    intros k' r' Hin. cbn in Hin. rewrite Hv3 in Hin.
    change (members r' (set_socket s _ (set_server _ w3))) with (members r' w3).
    change (Room_keepAlive r' (set_socket s _ (set_server _ w3)))
      with (Room_keepAlive r' w3).
    destruct (decide (r' = r)) as [->|Hr'].
    + left. rewrite Hmr. intros Hnil.
      assert (G : JsMap.get (cl_id cl) (JsMap.set (cl_id cl) s (members r w2)) = Some s)
        by apply JsMap.get_set_eq.
      rewrite Hnil in G. discriminate.
    + rewrite (Hmo r' Hr'). unfold Room_keepAlive. rewrite Hr3.
      rewrite list_lookup_alter_ne by congruence. apply (J1 k' r' Hin Hr').
Qed.

Lemma Inv2_reject s msg w : Inv2 w -> Inv2 (reject s msg w).
Proof.
  intros H. unfold reject, ws_close, ws_send.
  apply Inv2_set_socket; [|now do 2 apply Inv2_emit].
  apply Inv_close_state. do 2 apply Inv_emit. apply H.
Qed.

Section JwtFacts2.

Variable jwt_verify : string -> string -> string -> Z -> option ITokenOptions.

Lemma Inv2_step w i : Inv2 w -> Inv2 (step jwt_verify w i).
Proof.
  intros H. split; [apply Inv_step, H|].
  destruct i as [|s data now|s|s|s|s|r|r|]; cbn [step].
  - destruct (srv_on_connection (server w)); [|apply H].
    eapply NoLeak_cores; [reflexivity| |apply H]. auto.
  - destruct (sockets w !! s) as [k|] eqn:Ek; [|apply H].
    destruct (readyState k =? OPEN); [|apply H].
    destruct (on_token k) eqn:Et.
    + set (w0 := set_socket s (with_on_token false) w).
      assert (H0 : Inv2 w0).
      { apply Inv2_set_socket; [|exact H]. apply Inv_set_socket; [|apply H].
        intros k' _. cbn. repeat split; auto. discriminate. }
      assert (Hk0 : sockets w0 !! s = Some (with_on_token false k)).
      { unfold w0. cbn. now rewrite list_lookup_alter_eq, Ek. }
      unfold RoomServer__handleClient_message.
      destruct (RoomServer__authenticate jwt_verify data now w0) as [msg|token].
      * now apply Inv2_reject.
      * pose proof (Inv2_connectClient s token w0 _ H0 Hk0
                      (inv_token w (proj1 (proj1 H)) s k Ek Et) eq_refl) as I.
        destruct (RoomServer__connectClient s token w0) as [w' [msg|]]; cbn in I.
        { now apply Inv2_reject. }
        { apply I. }
    + destruct (on_client k); [now apply Inv2_emit|apply H].
  - destruct (sockets w !! s) as [k|]; [|apply H].
    destruct (on_client k); [|apply H].
    eapply NoLeak_cores; [reflexivity| |apply H]. auto.
  - destruct (sockets w !! s) as [k|]; [|apply H].
    destruct (on_client k); [now apply Inv2_Client_terminate|apply H].
  - eapply NoLeak_cores; [reflexivity| |apply H]. auto.
  - destruct (sockets w !! s) as [k|] eqn:Ek; [|apply H].
    destruct (readyState k =? CLOSED); [apply H|].
    apply Inv2_socket_emit_close.
    + apply Inv2_set_socket; [|exact H]. apply Inv_set_socket; [|apply H].
      intros k' _. cbn. repeat split; auto.
    + unfold closing, Client__isClosing, socket_state. cbn.
      rewrite list_lookup_alter_eq, Ek. reflexivity.
  - destruct (rooms w !! r) as [x|] eqn:Ex; [|apply H].
    destruct (room_timer x); [|apply H].
    unfold Room__pingClients, Room_forEach. rewrite Ex.
    apply (forEach_member_preserves Inv2); [|exact H]. intros c w'. apply Inv2_Client_ping.
  - now apply Inv2_Room_terminate.
  - unfold RoomServer_stop_callback.
    assert (I : NoLeak (forEach_room (srv_rooms (server w)) RoomServer__removeRoom w)).
    { generalize (srv_rooms (server w)) at 1. intros entries.
      destruct H as [_ J]. revert w J.
      induction entries as [|[k r] rest IH]; intros w J; simpl; [exact J|].
      apply IH. destruct (JsMap.get k (srv_rooms (server w))) as [r'|]; [|exact J].
      destruct (Nat.eqb r' r); [now apply NoLeak_removeRoom|exact J]. }
    eapply NoLeak_cores; [reflexivity| |exact I]. auto.
Qed.

Lemma Inv2_run inputs w : Inv2 w -> Inv2 (run jwt_verify w inputs).
Proof.
  revert w. induction inputs as [|i inputs IH]; intros w H; cbn; [exact H|].
  apply IH. now apply Inv2_step.
Qed.

End JwtFacts2.

Lemma Inv2_new publicUrl env options : Inv2 (RoomServer_new publicUrl env options).
Proof.
  split; [apply Inv_new|]. intros k r Hin. cbn in Hin. now apply elem_of_nil in Hin.
Qed.

(** X10: in every run (the inputs of [step]: the application calls
    [terminate] and [stop], but neither the [keepAlive] setter nor [join]
    or [leave] itself), whatever [getRoom] returns is a room object with
    the requested id, distinct ids give distinct rooms, every member is
    stored under the id of its client, no id occurs twice, and the room
    holds a member or is [keepAlive]: an emptied room that is not
    [keepAlive] never stays registered. *)
Theorem getRoom_returns_live_room
    (jwt_verify : string -> string -> string -> Z -> option ITokenOptions)
    (publicUrl : string) (env_DISCOVERY_SECRET : option string)
    (options : option IRoomServerOptions) (inputs : list Input) :
  let w := run jwt_verify (RoomServer_new publicUrl env_DISCOVERY_SECRET options) inputs in
  forall roomId r, RoomServer_getRoom roomId w = Some r ->
    (exists x, rooms w !! r = Some x /\ room_id x = roomId) /\
    (forall roomId', RoomServer_getRoom roomId' w = Some r -> roomId' = roomId) /\
    (forall id c, JsMap.get id (members r w) = Some c ->
       exists cl, client_of c w = Some cl /\ cl_id cl = id) /\
    NoDup (JsMap.keys (members r w)) /\
    (Room_isEmpty r w = true -> Room_keepAlive r w = true).
Proof.
  cbn zeta. intros roomId r Hg.
  pose proof (Inv2_run jwt_verify inputs _
                (Inv2_new publicUrl env_DISCOVERY_SECRET options)) as [[H _] J].
  set (w := run jwt_verify _ inputs) in *. unfold RoomServer_getRoom in *.
  pose proof (inv_rooms w H roomId r Hg) as Hid.
  split; [|split; [|split; [|split]]].
  - unfold room_id_of in Hid. destruct (rooms w !! r) as [x|]; [|discriminate].
    exists x. split; [reflexivity|]. cbn in Hid. congruence.
  - intros roomId' Hg'. pose proof (inv_rooms w H roomId' r Hg'). congruence.
  - intros id c. apply (inv_member_client w H).
  - apply (inv_members_wf w H).
  - intros He. destruct (J roomId r (JsMap.get_In _ _ _ Hg)) as [Hne|Hka]; [|exact Hka].
    unfold Room_isEmpty, Room_clientCount in He. apply Z.eqb_eq in He.
    destruct (members r w); [contradiction|cbn in He; lia].
Qed.

Lemma getRoom_returns_live_room_witness :
  let w := run demo_verify demo_server [Connection; Message 0 "R1/C1" 0] in
  RoomServer_getRoom "R1" w = Some 0%nat /\
  NoDup (JsMap.keys (members 0 w)) /\
  (Room_isEmpty 0 w = true -> Room_keepAlive 0 w = true).
Proof.
  pose proof (getRoom_returns_live_room demo_verify "rs-a" None None
                [Connection; Message 0 "R1/C1" 0] "R1" 0%nat eq_refl) as H.
  destruct H as (_ & _ & _ & H4 & H5).
  split; [reflexivity|]. split; [exact H4|exact H5].
Defined.

(** ** A client that answers the heartbeat *)

Section Responsive.

Variable jwt_verify : string -> string -> string -> Z -> option ITokenOptions.
Variables (r c : nat) (id : string) (L : Z) (opts : IRoomOptions).
Hypothesis limit : missedPingsLimit opts = Some L.

Lemma Alive_pong m w :
  Alive r c id opts m w -> Alive r c id opts 0 (step jwt_verify w (Pong c)).
Proof.
  intros (H & Hmeta & Hm & (cl & Hcl & Hmiss) & Hc).
  pose proof (open_member_listener r id c w H Hm Hc) as Hoc.
  cbn [step]. unfold socket_on_close, client_of, Client__isClosing, socket_state in *.
  destruct (sockets w !! c) as [k|] eqn:Ek; [|discriminate]. cbn in Hoc, Hcl, Hc.
  rewrite (inv_close_client w (proj1 H) c k r Ek Hoc).
  split; [now apply Inv_missedPings|]. split; [exact Hmeta|]. split; [exact Hm|].
  unfold client_of, Client__isClosing, socket_state.
  cbn [sockets set_socket]. rewrite list_lookup_alter_eq, Ek. cbn. rewrite Hcl.
  split; [|exact Hc]. eexists. split; reflexivity.
Qed.

(** One round: some ticks, then a pong. *)
Definition heartbeat_round (n : nat) : list Input := repeat (Tick r) n ++ [Pong c].

Lemma run_app w l1 l2 :
  run jwt_verify w (l1 ++ l2) = run jwt_verify (run jwt_verify w l1) l2.
Proof. unfold run. apply fold_left_app. Qed.

Lemma Alive_rounds ns : forall m w,
  Alive r c id opts m w -> 0 <= m ->
  Forall (fun n => m + Z.of_nat n <= L) ns ->
  exists m', Alive r c id opts m' (run jwt_verify w (concat (map heartbeat_round ns))) /\
             (ns <> [] -> m' = 0).
Proof using limit.
  induction ns as [|n ns IH]; intros m w HA Hm Hall.
  - exists m. split; [exact HA|congruence].
  - apply Forall_cons in Hall as [Hn Hall]. cbn [map concat]. rewrite run_app.
    unfold heartbeat_round at 1. rewrite run_app.
    pose proof (Alive_ticks jwt_verify r c id L opts limit n m w HA Hn) as HA1.
    apply Alive_pong in HA1. cbn [run fold_left] in *.
    destruct (IH 0 _ HA1 ltac:(lia)) as (m' & HA2 & Hm').
    + eapply Forall_impl; [exact Hall|]. cbn. intros; lia.
    + destruct ns as [|n' ns'].
      * exists 0. split; [exact HA1|reflexivity].
      * exists m'. split; [exact HA2|]. intros _. apply Hm'. discriminate.
Qed.

End Responsive.

(** X11: a member with an open socket that answers with a pong before its
    counter passes the limit is never evicted by the heartbeat: through any
    number of rounds of at most [missedPingsLimit - missedPings] ticks
    followed by a pong, it stays a member with an open socket, and its
    counter is back at 0 after each round. *)
Theorem responsive_client_stays
    (jwt_verify : string -> string -> string -> Z -> option ITokenOptions)
    (publicUrl : string) (env_DISCOVERY_SECRET : option string)
    (options : option IRoomServerOptions) (inputs : list Input)
    (r c : nat) (x : Room) (id : string) (cl : Client) (L : Z) (ns : list nat) :
  let w := run jwt_verify (RoomServer_new publicUrl env_DISCOVERY_SECRET options) inputs in
  let w' := run jwt_verify w (concat (map (heartbeat_round r c) ns)) in
  rooms w !! r = Some x -> room_timer x = true ->
  missedPingsLimit (room_options x) = Some L ->
  JsMap.get id (members r w) = Some c ->
  client_of c w = Some cl ->
  Client__isClosing c w = false ->
  0 <= cl_missedPings cl ->
  Forall (fun n => cl_missedPings cl + Z.of_nat n <= L) ns ->
  JsMap.get id (members r w') = Some c /\
  Client__isClosing c w' = false /\
  (ns <> [] -> cl_missedPings <$> client_of c w' = Some 0).
Proof.
  cbn zeta. intros Hx Ht HL Hm Hcl Hc H0 Hall.
  set (w := run jwt_verify _ inputs) in *.
  assert (H : Inv w) by (apply Inv_run, Inv_new).
  assert (HA : Alive r c id (room_options x) (cl_missedPings cl) w).
  { split; [exact H|]. split; [unfold room_meta; rewrite Hx; cbn; now rewrite Ht|].
    split; [exact Hm|]. split; [eauto|exact Hc]. }
  destruct (Alive_rounds jwt_verify r c id L (room_options x) HL ns _ w HA H0 Hall)
    as (m' & (_ & _ & Hm' & (cl' & Hcl' & Hmiss') & Hc') & Hz).
  split; [exact Hm'|]. split; [exact Hc'|].
  intros Hne. rewrite Hcl'. cbn. rewrite Hmiss'. f_equal. now apply Hz.
Qed.

Lemma responsive_client_stays_witness :
  let w := run demo_verify heartbeat_server [Connection; Message 0 "R1/C1" 0] in
  let w' := run demo_verify w (concat (map (heartbeat_round 0 0) [2%nat; 1%nat; 2%nat])) in
  JsMap.get "C1" (members 0 w') = Some 0%nat /\ Client__isClosing 0 w' = false.
Proof.
  assert (Hall : Forall (fun n => 0 + Z.of_nat n <= 2) [2%nat; 1%nat; 2%nat]).
  { repeat constructor; cbn; lia. }
  pose proof (responsive_client_stays demo_verify "rs-a" None heartbeat_options
                [Connection; Message 0 "R1/C1" 0] 0%nat 0%nat
                {| room_publicUrl := "rs-a"; room_id := "R1"; room_properties := JUndefined;
                   room_options := {| pingInterval := Some 50; missedPingsLimit := Some 2;
                                      keepAlive := Some false |};
                   room_clients := [("C1", 0%nat)]; room_timer := true;
                   room_on_sync := true; room_on_terminated := true |}
                "C1" {| cl_id := "C1"; cl_properties := JUndefined; cl_missedPings := 0 |} 2
                [2%nat; 1%nat; 2%nat]
                eq_refl eq_refl eq_refl eq_refl eq_refl eq_refl ltac:(cbn; lia) Hall) as H.
  cbn zeta in H. destruct H as (H1 & H2 & _). split; [exact H1|exact H2].
Defined.

(** ** Sending to the members of a room *)

(** [Client.send(message)]: nothing on a closing socket; otherwise the
    message is handed to [socket.send], a string as it is and any other
    value as its JSON text ([SocketSend] records the value).  The callback
    given to [socket.send] runs later, and only when the transport reports
    a failure does it act: it calls [terminate], as the ['error'] listener
    does ([SocketError]); a transport that accepts the frame is modelled
    here. *)
Definition Client_send (message : json) (c : nat) (w : World) : World :=
  if Client__isClosing c w then w else ws_send c message w.

(** [Room.send(message)]. *)
Definition Room_send (message : json) (r : nat) (w : World) : World :=
  Room_forEach r (Client_send message) w.

(** [Room.sendTo(client, message)]. *)
Definition Room_sendTo (c : nat) (message : json) (r : nat) (w : World) : World :=
  match client_of c w with
  | Some cl => if Room_hasClient r (cl_id cl) w then Client_send message c w else w
  | None => w
  end.

(** [Room.sendToOthers(client, message)]: the members are compared with
    [client] by id. *)
Definition Room_sendToOthers (c : nat) (message : json) (r : nat) (w : World) : World :=
  match client_of c w with
  | Some cl =>
      Room_forEach r
        (fun other w =>
           match client_of other w with
           | Some ocl =>
               if negb (String.eqb (cl_id ocl) (cl_id cl))
               then Client_send message other w else w
           | None => w
           end) w
  | None => w
  end.

(** The frames written for the clients [cs] that satisfy [g], the most
    recent first. *)
Definition frames (message : json) (g : nat -> bool) (cs : list nat) : list Effect :=
  rev (map (fun c => SocketSend c message) (List.filter g cs)).

Definition is_open (w : World) (c : nat) : bool := negb (Client__isClosing c w).

(** Whether [c'] is a client with an open socket and an id other than
    [id]. *)
Definition open_other (id : string) (w : World) (c' : nat) : bool :=
  match client_of c' w with
  | Some ocl => negb (String.eqb (cl_id ocl) id) && is_open w c'
  | None => false
  end.

Lemma forEach_member_sends (g : nat -> bool) (visit : nat -> World -> World)
    (message : json) (r : nat) (w : World) :
  (forall c w1, sockets w1 = sockets w ->
     visit c w1 = if g c then emit (SocketSend c message) w1 else w1) ->
  forall entries w1,
    sockets w1 = sockets w -> rooms w1 = rooms w ->
    (forall k c, (k, c) ∈ entries -> JsMap.get k (members r w) = Some c) ->
    forEach_member entries r visit w1
    = {| server := server w1; rooms := rooms w1; sockets := sockets w1;
         log := frames message g (JsMap.values entries) ++ log w1 |}.
Proof.
  intros Hv. induction entries as [|[k c] rest IH]; intros w1 Hs Hr Hin.
  - cbn. now destruct w1.
  - cbn [forEach_member].
    assert (Hm : members r w1 = members r w) by (unfold members; now rewrite Hr).
    rewrite Hm, (Hin k c (list_elem_of_here _ _)), Nat.eqb_refl, (Hv c w1 Hs).
    unfold frames, JsMap.values. cbn [map snd List.filter].
    destruct (g c).
    + rewrite IH; [|exact Hs|exact Hr|].
      * cbn. unfold frames, JsMap.values. now rewrite <- app_assoc.
      * intros k' c' Hin'. apply Hin. now apply list_elem_of_further.
    + rewrite IH; [reflexivity|exact Hs|exact Hr|].
      intros k' c' Hin'. apply Hin. now apply list_elem_of_further.
Qed.

Lemma Client_send_open message c w w1 :
  sockets w1 = sockets w ->
  Client_send message c w1 = if is_open w c then emit (SocketSend c message) w1 else w1.
Proof.
  intros Hs. unfold Client_send, is_open, Client__isClosing, socket_state. rewrite Hs.
  now destruct (match readyState <$> sockets w !! c with Some z => _ | None => _ end).
Qed.

(** X12: [Room.send] in any run: each member whose socket is not closing gets
    the message once, in the order in which the members joined; members
    with a closing socket get nothing; nothing but the log changes. *)
Theorem send_reaches_open_members
    (jwt_verify : string -> string -> string -> Z -> option ITokenOptions)
    (publicUrl : string) (env_DISCOVERY_SECRET : option string)
    (options : option IRoomServerOptions) (inputs : list Input)
    (message : json) (r : nat) :
  let w := run jwt_verify (RoomServer_new publicUrl env_DISCOVERY_SECRET options) inputs in
  let w' := Room_send message r w in
  server w' = server w /\ rooms w' = rooms w /\ sockets w' = sockets w /\
  log w' = frames message (is_open w) (JsMap.values (members r w)) ++ log w /\
  NoDup (JsMap.values (members r w)).
Proof.
  cbn zeta. set (w := run jwt_verify _ inputs).
  assert (H : Inv w) by (apply Inv_run, Inv_new).
  unfold Room_send, Room_forEach.
  rewrite (forEach_member_sends (is_open w) (Client_send message) message r w
             (fun c w1 => Client_send_open message c w w1) (members r w) w
             eq_refl eq_refl).
  - cbn. repeat split.
    apply (values_NoDup (members r w) (fun c => cl_id <$> client_of c w)).
    + apply (inv_members_wf w (proj1 H)).
    + intros k c Hin.
      apply JsMap.In_get in Hin; [|apply (inv_members_wf w (proj1 H))].
      destruct (inv_member_client w (proj1 H) r k c Hin) as [cl [-> <-]]. reflexivity.
  - intros k c Hin. apply JsMap.In_get; [apply (inv_members_wf w (proj1 H))|exact Hin].
Qed.

(** X13: [Room.sendToOthers(client, message)] in any run: each member whose
    socket is not closing and whose id differs from the client's gets the
    message once; the client itself gets nothing, member or not; nothing
    but the log changes. *)
Theorem sendToOthers_skips_sender
    (jwt_verify : string -> string -> string -> Z -> option ITokenOptions)
    (publicUrl : string) (env_DISCOVERY_SECRET : option string)
    (options : option IRoomServerOptions) (inputs : list Input)
    (message : json) (r c : nat) (cl : Client) :
  let w := run jwt_verify (RoomServer_new publicUrl env_DISCOVERY_SECRET options) inputs in
  let w' := Room_sendToOthers c message r w in
  client_of c w = Some cl ->
  server w' = server w /\ rooms w' = rooms w /\ sockets w' = sockets w /\
  log w' = frames message (open_other (cl_id cl) w) (JsMap.values (members r w)) ++ log w /\
  SocketSend c message ∉ frames message (open_other (cl_id cl) w)
                           (JsMap.values (members r w)).
Proof.
  cbn zeta. set (w := run jwt_verify _ inputs). intros Hcl.
  assert (H : Inv w) by (apply Inv_run, Inv_new).
  unfold Room_sendToOthers, Room_forEach. rewrite Hcl.
  rewrite (forEach_member_sends (open_other (cl_id cl) w) _ message r w).
  - cbn. repeat split. unfold frames. intros Hin.
    apply list_elem_of_In, in_rev, in_map_iff in Hin as (c' & [= <-] & Hin).
    apply filter_In in Hin as [_ Hg].
    unfold open_other in Hg. rewrite Hcl, String.eqb_refl in Hg. discriminate.
  - intros c' w1 Hs. unfold open_other, client_of. rewrite Hs.
    destruct (sockets w !! c' ≫= sk_client) as [ocl|]; [|reflexivity].
    rewrite (Client_send_open message c' w w1 Hs).
    destruct (negb (String.eqb _ _)); [|reflexivity]. reflexivity.
  - reflexivity.
  - reflexivity.
  - intros k c' Hin. apply JsMap.In_get; [apply (inv_members_wf w (proj1 H))|exact Hin].
Qed.

Lemma sendToOthers_skips_sender_witness :
  let w := run demo_verify demo_server
             [Connection; Message 0 "R1/C1" 0; Connection; Message 1 "R1/C2" 0] in
  log (Room_sendToOthers 0 (JStr "hello") 0 w) = SocketSend 1 (JStr "hello") :: log w.
Proof.
  pose proof (sendToOthers_skips_sender demo_verify "rs-a" None None
                [Connection; Message 0 "R1/C1" 0; Connection; Message 1 "R1/C2" 0]
                (JStr "hello") 0%nat 0%nat
                {| cl_id := "C1"; cl_properties := JUndefined; cl_missedPings := 0 |}
                eq_refl) as H.
  cbn zeta in H. destruct H as (_ & _ & _ & H4 & _). exact H4.
Defined.

(** ** Stopping the server *)

(** What [_removeRoom] writes for a registered room, the most recent
    first: ['roomRemoved'] on the server, then the bus notification when
    [syncRooms] is on. *)
Definition removal_log (w : World) (kr : string * nat) : list Effect :=
  (if server_syncRooms w
   then [NatsPublish "rs.event"
           (JObj [("publicUrl", JStr (srv_publicUrl (server w)));
                  ("roomId", JStr (fst kr)); ("subject", JStr "roomRemoved")])]
   else [])
  ++ [ServerEmit (RoomRemoved (snd kr))].

Definition timer_off (r : nat) (w : World) : Prop :=
  forall x, rooms w !! r = Some x -> room_timer x = false.

Lemma removeRoom_registered r x w :
  rooms w !! r = Some x ->
  JsMap.has (room_id x) (srv_rooms (server w)) = true ->
  let w' := RoomServer__removeRoom r w in
  server w' = with_rooms (JsMap.delete (room_id x) (srv_rooms (server w))) (server w) /\
  log w' = removal_log w (room_id x, r) ++ log w /\
  timer_off r w'.
Proof.
  intros Hx Hhas. unfold RoomServer__removeRoom. rewrite Hx, Hhas. cbn [negb].
  cbn zeta. unfold removal_log, server_syncRooms, Room_clearPingInterval, RoomServer__notify.
  cbn [server emit set_room rooms set_server log fst snd].
  destruct (opt_true _).
  - rewrite list_lookup_alter_eq, Hx. cbn [fmap option_fmap option_map].
    cbn [server emit set_room rooms set_server log fst snd app].
    split; [reflexivity|]. split; [reflexivity|].
    intros x'. cbn [rooms set_server set_room emit].
    rewrite !list_lookup_alter_eq, Hx. cbn. now intros [= <-].
  - cbn [server emit set_room rooms set_server log fst snd app].
    split; [reflexivity|]. split; [reflexivity|].
    intros x'. cbn [rooms set_server set_room emit].
    rewrite !list_lookup_alter_eq, Hx. cbn. now intros [= <-].
Qed.

Lemma timer_off_removeRoom r r' w : timer_off r w -> timer_off r (RoomServer__removeRoom r' w).
Proof.
  intros H. unfold RoomServer__removeRoom.
  destruct (rooms w !! r') as [x|] eqn:Hx; [|exact H].
  destruct (negb _); [exact H|]. cbn zeta.
  assert (G : forall l, rooms (RoomServer__notify r' "roomRemoved" l
                (emit (ServerEmit (RoomRemoved r')) (Room_clearPingInterval r' w)))
              = alter (with_timer false) r' (rooms w)).
  { intros l. unfold RoomServer__notify, Room_clearPingInterval. cbn [rooms emit set_room].
    destruct (alter _ r' (rooms w) !! r'); reflexivity. }
  intros x'. destruct (server_syncRooms _); cbn [rooms set_server set_room].
  - rewrite G. destruct (decide (r = r')) as [->|Hne].
    + rewrite !list_lookup_alter_eq, Hx. cbn. now intros [= <-].
    + rewrite !list_lookup_alter_ne by congruence. apply H.
  - cbn. destruct (decide (r = r')) as [->|Hne].
    + rewrite !list_lookup_alter_eq, Hx. cbn. now intros [= <-].
    + rewrite !list_lookup_alter_ne by congruence. apply H.
Qed.

Lemma removal_log_ext w w' kr :
  srv_options (server w') = srv_options (server w) ->
  srv_publicUrl (server w') = srv_publicUrl (server w) ->
  removal_log w' kr = removal_log w kr.
Proof. intros Ho Hu. unfold removal_log, server_syncRooms. now rewrite Ho, Hu. Qed.

Lemma stop_fold : forall entries w,
  Inv0 w -> srv_rooms (server w) = entries ->
  let w' := forEach_room entries RoomServer__removeRoom w in
  server w' = with_rooms [] (server w) /\
  sockets w' = sockets w /\ cores w' = cores w /\
  log w' = concat (map (removal_log w) (rev entries)) ++ log w /\
  (forall r, (r ∈ JsMap.values entries \/ timer_off r w) -> timer_off r w').
Proof.
  induction entries as [|[k r] rest IH]; intros w H Hreg; cbn zeta.
  - cbn. split; [destruct (server w); cbn in *; now subst|].
    do 3 (split; [reflexivity|]). intros r [Hin|Ht]; [|exact Ht].
    now apply elem_of_nil in Hin.
  - cbn [forEach_room]. rewrite Hreg. rewrite get_head, Nat.eqb_refl.
    assert (Hg : JsMap.get k (srv_rooms (server w)) = Some r) by (rewrite Hreg; apply get_head).
    pose proof (inv_rooms w H k r Hg) as Hid. unfold room_id_of in Hid.
    destruct (rooms w !! r) as [x|] eqn:Hx; [|discriminate]. cbn in Hid. injection Hid as Hid.
    assert (Hhas : JsMap.has (room_id x) (srv_rooms (server w)) = true).
    { unfold JsMap.has. now rewrite Hid, Hg. }
    destruct (removeRoom_registered r x w Hx Hhas) as (Hsv & Hlog & Hoff).
    destruct (removeRoom_frame r w) as (Hs & Hc & _ & _).
    set (w1 := RoomServer__removeRoom r w) in *.
    assert (Hreg1 : srv_rooms (server w1) = rest).
    { rewrite Hsv, Hid, Hreg. cbn. apply delete_head. }
    destruct (IH w1 (Inv0_removeRoom r w H) Hreg1) as (Hsv' & Hs' & Hc' & Hlog' & Hoff').
    split; [rewrite Hsv', Hsv; reflexivity|].
    split; [congruence|]. split; [congruence|]. split.
    + rewrite Hlog', Hlog, Hid. cbn [rev]. rewrite map_app, concat_app. cbn [map concat].
      rewrite app_nil_r, <- app_assoc.
      f_equal. f_equal. apply map_ext. intros kr.
      apply removal_log_ext; rewrite Hsv; reflexivity.
    + intros r' [Hin|Ht]; apply Hoff'.
      * unfold JsMap.values in Hin. cbn in Hin. apply elem_of_cons in Hin as [->|Hin].
        -- right. exact Hoff.
        -- now left.
      * right. now apply timer_off_removeRoom.
Qed.

(** X14: [stop] in any run, once the WebSocket server has closed: every
    registered room is removed from the server's map, in the order of
    registration, with ['roomRemoved'] and, when [syncRooms] is on, its
    notice on the bus; the heartbeat of these rooms is cleared; the server
    publishes [rs.stop], stops listening for connections and emits
    ['stop'].  No socket is closed, no member leaves a room and
    [clientCount] keeps its value. *)
Theorem stop_unregisters_every_room
    (jwt_verify : string -> string -> string -> Z -> option ITokenOptions)
    (publicUrl : string) (env_DISCOVERY_SECRET : option string)
    (options : option IRoomServerOptions) (inputs : list Input) :
  let w := run jwt_verify (RoomServer_new publicUrl env_DISCOVERY_SECRET options) inputs in
  let w' := step jwt_verify w Stop in
  srv_rooms (server w') = [] /\
  srv_on_connection (server w') = false /\
  step jwt_verify w' Connection = w' /\
  log w' = ServerEmit Stopped :: NatsPublish "rs.stop" (JStr (srv_publicUrl (server w)))
           :: concat (map (removal_log w) (rev (srv_rooms (server w)))) ++ log w /\
  (forall k r, JsMap.get k (srv_rooms (server w)) = Some r -> timer_off r w') /\
  sockets w' = sockets w /\
  (forall r, members r w' = members r w) /\
  srv_clientCount (server w') = srv_clientCount (server w).
Proof.
  cbn zeta. set (w := run jwt_verify _ inputs).
  assert (H : Inv w) by (apply Inv_run, Inv_new).
  destruct (stop_fold (srv_rooms (server w)) w (proj1 H) eq_refl)
    as (Hsv & Hs & Hc & Hlog & Hoff).
  cbn [step]. unfold RoomServer_stop_callback. cbn zeta.
  set (w1 := forEach_room _ _ w) in *.
  cbn [server emit set_server log sockets].
  split; [now rewrite Hsv|]. split; [reflexivity|].
  split; [reflexivity|].
  split; [rewrite Hlog, Hsv; reflexivity|].
  split.
  { intros k r Hg x. cbn [rooms]. apply Hoff. left.
    apply list_elem_of_fmap. exists (k, r). split; [reflexivity|].
    now apply JsMap.get_In in Hg. }
  split; [exact Hs|]. split; [|now rewrite Hsv].
  intros r. transitivity (members r w1); [reflexivity|]. apply (members_cores w w1 r Hc).
Qed.

(** ** The list of rooms sent to a Discovery server *)

(** [get summary] of a client, as the record that Discovery reads. *)
Definition Client_summary_record (cl : Client) : IClientSummary :=
  {| cs_id := cl_id cl; cs_properties := cl_properties cl |}.

(** [get clients] of a room: [list[client.id] = client.summary] for each
    member, in the order of the map, on a plain object ([JsObj.assign]). *)
Definition Room_clients (r : nat) (w : World) : list (string * IClientSummary) :=
  fold_left
    (fun list kc =>
       match client_of (snd kc) w with
       | Some cl => JsObj.assign (cl_id cl) (Client_summary_record cl) list
       | None => list
       end)
    (members r w) [].

(** [get summary] of a room: no clients. *)
Definition Room_summary (x : Room) : IRoomSummary :=
  {| rs_id := room_id x; rs_publicUrl := room_publicUrl x;
     rs_clients := []; rs_properties := room_properties x |}.

(** The object that [_sendRooms] builds, [list[room.id] = summary] on a
    plain object; the two options are read by their truthiness. *)
Definition RoomServer__roomList (w : World) : list (string * IRoomSummary) :=
  if opt_false (syncRooms (srv_options (server w))) then
    fold_left
      (fun list kr =>
         match rooms w !! snd kr with
         | Some x =>
             let summary := Room_summary x in
             let summary :=
               if opt_false (syncClients (srv_options (server w)))
               then with_rs_clients (Room_clients (snd kr) w) summary
               else summary in
             JsObj.assign (room_id x) summary list
         | None => list
         end)
      (srv_rooms (server w)) []
  else [].

Definition IClientSummary_json (c : IClientSummary) : json :=
  JObj [("id", JStr (cs_id c)); ("properties", cs_properties c)].

(** The members of the objects [clients] and [list] in the order in which
    [JSON.stringify] goes through them. *)
Definition IRoomSummary_json (room : IRoomSummary) : json :=
  JObj [("id", JStr (rs_id room)); ("publicUrl", JStr (rs_publicUrl room));
        ("clients", JObj (map (fun kc => (fst kc, IClientSummary_json (snd kc)))
                            (JsObj.entries (rs_clients room))));
        ("properties", rs_properties room)].

(** [_sendRooms(replyTo)]. *)
Definition RoomServer__sendRooms (replyTo : string) (w : World) : World :=
  emit (NatsPublish replyTo
          (JObj (map (fun kr => (fst kr, IRoomSummary_json (snd kr)))
                   (JsObj.entries (RoomServer__roomList w))))) w.

(** The keys under which an assignment creates a property. *)
Definition settable (k : string) : bool := negb (String.eqb k "__proto__").

Lemma settable_spec k : settable k = true <-> k <> "__proto__".
Proof.
  unfold settable. rewrite negb_true_iff. apply String.eqb_neq.
Qed.

Lemma inherited_settable k : JsObj.inherited k = false -> settable k = true.
Proof.
  intros H. apply settable_spec. intros ->. discriminate.
Qed.

Lemma fold_assign_map {A V} (f : list (string * V) -> A -> list (string * V))
    (g : A -> string * V) (l : list A) :
  (forall a acc, a ∈ l -> f acc a = JsObj.assign (fst (g a)) (snd (g a)) acc) ->
  forall acc,
    NoDup (JsMap.keys acc ++ map (fun a => fst (g a)) l) ->
    fold_left f l acc = acc ++ map g (List.filter (fun a => settable (fst (g a))) l).
Proof.
  induction l as [|a l IH]; intros Hf acc Hnd.
  - cbn. now rewrite app_nil_r.
  - cbn [fold_left List.filter]. rewrite (Hf a acc (list_elem_of_here _ _)).
    assert (Hf' : forall a' acc', a' ∈ l ->
              f acc' a' = JsObj.assign (fst (g a')) (snd (g a')) acc').
    { intros a' acc' Hin. apply Hf. now apply list_elem_of_further. }
    unfold JsObj.assign, settable.
    destruct (String.eqb (fst (g a)) "__proto__"); cbn [negb].
    + apply (IH Hf'). cbn [map] in Hnd. apply NoDup_app in Hnd as (N1 & N2 & N3).
      apply NoDup_cons in N3 as [_ N3]. apply NoDup_app. split; [exact N1|].
      split; [|exact N3]. intros k Hk Hin. apply (N2 k Hk). now apply list_elem_of_further.
    + assert (Hfresh : JsMap.get (fst (g a)) acc = None).
      { apply JsMap.get_None_keys. apply NoDup_app in Hnd as (_ & Hd & _).
        intros Hin. apply (Hd _ Hin). apply list_elem_of_here. }
      rewrite (JsMap.set_fresh _ _ _ Hfresh). rewrite (IH Hf').
      * rewrite <- app_assoc. cbn. now destruct (g a).
      * unfold JsMap.keys in *. rewrite map_app. cbn [map fst] in *.
        now rewrite <- app_assoc.
Qed.

(** What a member looks like in the list. *)
Definition member_view (w : World) (kc : string * nat) : string * IClientSummary :=
  (fst kc,
   {| cs_id := fst kc;
      cs_properties := match client_of (snd kc) w with
                       | Some cl => cl_properties cl
                       | None => JUndefined
                       end |}).

Definition room_view (w : World) (kr : string * nat) : string * IRoomSummary :=
  (fst kr,
   {| rs_id := fst kr;
      rs_publicUrl := match rooms w !! snd kr with
                      | Some x => room_publicUrl x
                      | None => EmptyString
                      end;
      rs_clients := if opt_false (syncClients (srv_options (server w)))
                    then map (member_view w)
                           (List.filter (fun kc => settable (fst kc)) (members (snd kr) w))
                    else [];
      rs_properties := match rooms w !! snd kr with
                       | Some x => room_properties x
                       | None => JUndefined
                       end |}).

Lemma Room_clients_view r w :
  Inv0 w ->
  Room_clients r w
  = map (member_view w) (List.filter (fun kc => settable (fst kc)) (members r w)).
Proof.
  intros H. unfold Room_clients.
  rewrite (fold_assign_map _ (member_view w)); [reflexivity| |].
  - intros [k c] acc Hin.
    apply JsMap.In_get in Hin; [|apply (inv_members_wf w H)].
    destruct (inv_member_client w H r k c Hin) as [cl [Hcl Hid]].
    unfold member_view. cbn [fst snd]. rewrite Hcl, <- Hid. reflexivity.
  - cbn [JsMap.keys map app]. apply (inv_members_wf w H r).
Qed.

Lemma roomList_view w :
  Inv0 w ->
  RoomServer__roomList w
  = if opt_false (syncRooms (srv_options (server w)))
    then map (room_view w) (List.filter (fun kr => settable (fst kr)) (srv_rooms (server w)))
    else [].
Proof.
  intros H. unfold RoomServer__roomList.
  destruct (opt_false (syncRooms _)); [|reflexivity].
  rewrite (fold_assign_map _ (room_view w)); [reflexivity| |].
  - intros [k r] acc Hin.
    apply JsMap.In_get in Hin; [|apply (inv_rooms_wf w H)].
    pose proof (inv_rooms w H k r Hin) as Hid. unfold room_id_of in Hid.
    unfold room_view. cbn [fst snd].
    destruct (rooms w !! r) as [x|]; [|discriminate]. cbn in Hid. injection Hid as Hid.
    rewrite Hid. f_equal. unfold Room_summary, with_rs_clients. cbn. rewrite Hid.
    destruct (opt_false (syncClients _)); [|reflexivity].
    now rewrite (Room_clients_view r w H).
  - cbn [JsMap.keys map app]. apply (inv_rooms_wf w H).
Qed.

Lemma keys_map_view {A V} (g : string * A -> string * V) (l : list (string * A)) :
  (forall kv, fst (g kv) = fst kv) -> JsMap.keys (map g l) = JsMap.keys l.
Proof.
  intros Hg. unfold JsMap.keys. rewrite map_map. apply map_ext. exact Hg.
Qed.

Lemma filter_wf {V} (f : string * V -> bool) (l : list (string * V)) :
  JsMap.wf l -> JsMap.wf (List.filter f l).
Proof.
  unfold JsMap.wf, JsMap.keys. induction l as [|[k v] l IH]; cbn; [auto|].
  intros Hnd. apply NoDup_cons in Hnd as [Hk Hnd]. destruct (f (k, v)); cbn; [|auto].
  apply NoDup_cons. split; [|auto]. intros Hin. apply Hk.
  apply list_elem_of_fmap in Hin as ([k' v'] & E & Hin). cbn in E. subst k'.
  apply list_elem_of_In, filter_In in Hin as [Hin _]. apply list_elem_of_fmap.
  exists (k, v'). split; [reflexivity|now apply list_elem_of_In].
Qed.

(** Reading a key in the view of the entries that were assigned. *)
Lemma get_view {A V} (g : string * A -> string * V) (l : list (string * A)) k :
  (forall kv, fst (g kv) = fst kv) -> JsMap.wf l ->
  JsMap.get k (map g (List.filter (fun kv => settable (fst kv)) l))
  = if settable k then (fun a => snd (g (k, a))) <$> JsMap.get k l else None.
Proof.
  intros Hg Hwf.
  assert (Hwf' : JsMap.wf (map g (List.filter (fun kv => settable (fst kv)) l))).
  { unfold JsMap.wf. rewrite keys_map_view by exact Hg. now apply filter_wf. }
  destruct (JsMap.get k (map g _)) as [v|] eqn:E.
  - apply JsMap.get_In, list_elem_of_fmap in E as ([k' a] & E & Hin).
    apply list_elem_of_In, filter_In in Hin as [Hin Hs]. cbn [fst] in Hs.
    pose proof (Hg (k', a)) as Hk. rewrite <- E in Hk. cbn [fst] in Hk. subst k'.
    rewrite Hs. apply list_elem_of_In in Hin. rewrite (JsMap.In_get _ _ _ Hwf Hin). cbn.
    now rewrite <- E.
  - destruct (settable k) eqn:Hs; [|reflexivity].
    destruct (JsMap.get k l) as [a|] eqn:Ea; [|reflexivity]. exfalso.
    apply JsMap.get_None_keys in E. apply E. rewrite keys_map_view by exact Hg.
    apply list_elem_of_fmap. exists (k, a). split; [reflexivity|].
    apply list_elem_of_In, filter_In. split; [|exact Hs].
    now apply list_elem_of_In, JsMap.get_In.
Qed.

Lemma roomList_ok w : Inv0 w -> ListOK (RoomServer__roomList w).
Proof.
  intros H. rewrite (roomList_view w H).
  destruct (opt_false (syncRooms _)).
  - split.
    + unfold JsMap.wf. rewrite keys_map_view by reflexivity.
      apply filter_wf, (inv_rooms_wf w H).
    + intros k room Hin. apply list_elem_of_fmap in Hin as ([k' r] & [= -> ->] & Hin).
      split; [reflexivity|]. cbn [rs_clients]. destruct (opt_false (syncClients _)).
      * split.
        -- unfold JsMap.wf. rewrite keys_map_view by reflexivity.
           apply filter_wf, (inv_members_wf w H).
        -- intros id c Hc. now apply list_elem_of_fmap in Hc as ([id' c'] & [= -> ->] & _).
      * split; [apply NoDup_nil_2|]. intros id c Hc. now apply elem_of_nil in Hc.
  - split; [apply NoDup_nil_2|]. intros k room Hin. now apply elem_of_nil in Hin.
Qed.

(** X15: the list of [_sendRooms] in any run.  With [syncRooms] off it is
    empty.  With [syncRooms] on it holds the registered rooms whose id is
    not [__proto__] and no other, each under its id with its id, url and
    properties; with [syncClients] on a room carries its members whose id
    is not [__proto__] and no other, each under its id with its id and
    properties, and with [syncClients] off it carries no client.  A room
    or a member with the id [__proto__] is not in the list. *)
Theorem sendRooms_lists_registered_rooms
    (jwt_verify : string -> string -> string -> Z -> option ITokenOptions)
    (publicUrl : string) (env_DISCOVERY_SECRET : option string)
    (options : option IRoomServerOptions) (inputs : list Input) :
  let w := run jwt_verify (RoomServer_new publicUrl env_DISCOVERY_SECRET options) inputs in
  let list := RoomServer__roomList w in
  if opt_false (syncRooms (srv_options (server w))) then
    (forall k, is_Some (JsMap.get k list)
               <-> is_Some (JsMap.get k (srv_rooms (server w))) /\ k <> "__proto__") /\
    forall k r, JsMap.get k (srv_rooms (server w)) = Some r -> k <> "__proto__" ->
      exists x room,
        rooms w !! r = Some x /\ JsMap.get k list = Some room /\
        rs_id room = k /\ rs_publicUrl room = room_publicUrl x /\
        rs_properties room = room_properties x /\
        if opt_false (syncClients (srv_options (server w))) then
          (forall id, is_Some (JsMap.get id (rs_clients room))
                      <-> is_Some (JsMap.get id (members r w)) /\ id <> "__proto__") /\
          forall id c, JsMap.get id (members r w) = Some c -> id <> "__proto__" ->
            exists cl, client_of c w = Some cl /\
              JsMap.get id (rs_clients room)
              = Some {| cs_id := id; cs_properties := cl_properties cl |}
        else rs_clients room = []
  else list = [].
Proof.
  cbn zeta. set (w := run jwt_verify _ inputs).
  assert (H : Inv0 w) by (apply Inv_run, Inv_new).
  rewrite (roomList_view w H).
  destruct (opt_false (syncRooms _)); [|reflexivity].
  assert (G : forall k,
            JsMap.get k (map (room_view w)
                           (List.filter (fun kr => settable (fst kr)) (srv_rooms (server w))))
            = if settable k
              then (fun r => snd (room_view w (k, r))) <$> JsMap.get k (srv_rooms (server w))
              else None).
  { intros k. apply (get_view (room_view w)); [reflexivity|apply (inv_rooms_wf w H)]. }
  assert (Gc : forall r id,
            JsMap.get id (map (member_view w)
                            (List.filter (fun kc => settable (fst kc)) (members r w)))
            = if settable id
              then (fun c => snd (member_view w (id, c))) <$> JsMap.get id (members r w)
              else None).
  { intros r id. apply (get_view (member_view w)); [reflexivity|apply (inv_members_wf w H)]. }
  split.
  { intros k. rewrite G, <- settable_spec. destruct (settable k).
    - rewrite fmap_is_Some. tauto.
    - split; [intros [? ?]; discriminate|intros [_ ?]; discriminate]. }
  intros k r Hg Hk.
  pose proof (inv_rooms w H k r Hg) as Hid. unfold room_id_of in Hid.
  destruct (rooms w !! r) as [x|] eqn:Hx; [|discriminate].
  exists x, (snd (room_view w (k, r))). split; [reflexivity|]. split.
  { rewrite G, (proj2 (settable_spec k) Hk), Hg. reflexivity. }
  unfold room_view. cbn [fst snd rs_id rs_publicUrl rs_properties rs_clients]. rewrite Hx.
  do 3 (split; [reflexivity|]).
  destruct (opt_false (syncClients _)); [|reflexivity].
  split.
  { intros id. rewrite Gc, <- settable_spec. destruct (settable id).
    - rewrite fmap_is_Some. tauto.
    - split; [intros [? ?]; discriminate|intros [_ ?]; discriminate]. }
  intros id c Hm Hne.
  destruct (inv_member_client w H r id c Hm) as [cl [Hcl _]].
  exists cl. split; [exact Hcl|].
  rewrite Gc, (proj2 (settable_spec id) Hne), Hm. cbn. now rewrite Hcl.
Qed.

(** X16: a Discovery server that holds a record without rooms for a room
    server and receives that server's list of rooms: with [syncRooms] on,
    its mirror then holds a room under an id exactly when the room server
    has one registered under that id and the id is not a property name of
    [Object.prototype]; with [syncClients] on it holds a client under an
    id in that room exactly when the room has a member under that id and
    the id is not such a name. *)
Theorem room_list_bootstraps_mirror
    (jwt_verify : string -> string -> string -> Z -> option ITokenOptions)
    (publicUrl : string) (env_DISCOVERY_SECRET : option string)
    (options : option IRoomServerOptions) (inputs : list Input)
    (m : Mirror) (sv : nat) (x : IRoomServer) :
  let w := run jwt_verify (RoomServer_new publicUrl env_DISCOVERY_SECRET options) inputs in
  let m' := Discovery__addNewServer_reply sv (RoomServer__roomList w) m in
  records m !! sv = Some x -> sv_rooms x = [] ->
  opt_false (syncRooms (srv_options (server w))) = true ->
  (forall k, is_Some (room_at sv k m')
             <-> is_Some (JsMap.get k (srv_rooms (server w))) /\ JsObj.inherited k = false) /\
  (opt_false (syncClients (srv_options (server w))) = true ->
   forall k r room id,
     JsMap.get k (srv_rooms (server w)) = Some r -> room_at sv k m' = Some room ->
     (is_Some (JsMap.get id (rs_clients room))
      <-> is_Some (JsMap.get id (members r w)) /\ JsObj.inherited id = false)).
Proof.
  cbn zeta. set (w := run jwt_verify _ inputs). intros Hx Hempty Hsync.
  assert (H : Inv0 w) by (apply Inv_run, Inv_new).
  pose proof (roomList_ok w H) as Hok.
  destruct (reply_fold sv (RoomServer__roomList w) x m Hx Hok) as (l & _ & R & _).
  { rewrite Hempty. intros k _ Hin. now apply elem_of_nil in Hin. }
  { rewrite Hempty. apply NoDup_nil_2. }
  cbn zeta in R. rewrite Hempty in R. cbn [app] in R.
  assert (G : forall k,
            JsMap.get k (RoomServer__roomList w)
            = if settable k
              then (fun r => snd (room_view w (k, r))) <$> JsMap.get k (srv_rooms (server w))
              else None).
  { intros k. rewrite (roomList_view w H), Hsync.
    apply (get_view (room_view w)); [reflexivity|apply (inv_rooms_wf w H)]. }
  assert (Hat : forall k,
            room_at sv k (Discovery__addNewServer_reply sv (RoomServer__roomList w) m)
            = if JsObj.inherited k then None
              else (fun r => mirrored_room (snd (room_view w (k, r))))
                     <$> JsMap.get k (srv_rooms (server w))).
  { intros k. unfold room_at. rewrite R. cbn [mbind option_bind sv_rooms with_sv_rooms].
    rewrite (mirrored_rooms_get _ k Hok), G.
    destruct (JsObj.inherited k) eqn:Ei; [reflexivity|].
    rewrite (inherited_settable k Ei).
    now destruct (JsMap.get k (srv_rooms (server w))). }
  split.
  - intros k. rewrite Hat. destruct (JsObj.inherited k).
    + split; [intros [? ?]; discriminate|intros [_ ?]; discriminate].
    + rewrite fmap_is_Some. tauto.
  - intros Hc k r room id Hg Hroom. rewrite Hat, Hg in Hroom.
    destruct (JsObj.inherited k); [discriminate|]. cbn in Hroom. injection Hroom as <-.
    cbn [mirrored_room with_rs_clients rs_clients room_view snd fst]. rewrite Hc.
    rewrite mirrored_clients_get.
    + destruct (JsObj.inherited id) eqn:Ei.
      * split; [intros [? ?]; discriminate|intros [_ ?]; discriminate].
      * rewrite (get_view (member_view w)); [|reflexivity|apply (inv_members_wf w H)].
        rewrite (inherited_settable id Ei), fmap_is_Some. tauto.
    + unfold JsMap.wf. rewrite keys_map_view by reflexivity.
      apply filter_wf, (inv_members_wf w H).
    + intros id' c Hin. now apply list_elem_of_fmap in Hin as ([? ?] & [= -> ->] & _).
Qed.

Lemma room_list_bootstraps_mirror_witness :
  let w := run demo_verify demo_server [Connection; Message 0 "R1/C1" 0] in
  let m' := Discovery__addNewServer_reply 0 (RoomServer__roomList w)
              (Discovery_run [OnPing demo_ping 100]) in
  is_Some (room_at 0 "R1" m')
  <-> is_Some (JsMap.get "R1" (srv_rooms (server w))) /\ JsObj.inherited "R1" = false.
Proof.
  pose proof (room_list_bootstraps_mirror demo_verify "rs-a" None None
                [Connection; Message 0 "R1/C1" 0]
                (Discovery_run [OnPing demo_ping 100]) 0%nat
                {| sv_publicUrl := "rs-a"; sv_clientCount := 0;
                   sv_rooms := []; sv_lastPing := 100 |}
                eq_refl eq_refl eq_refl) as H.
  cbn zeta in H. destruct H as [H _]. exact (H "R1"%string).
Defined.

(** ** What the server never changes *)

(** The url, the options and the token secret that the constructor
    stored. *)
Definition consts (w : World) : string * IRoomServerOptions * string :=
  (srv_publicUrl (server w), srv_options (server w), srv_tokenSecret (server w)).

Lemma consts_notify r subject payload w :
  consts (RoomServer__notify r subject payload w) = consts w.
Proof. unfold RoomServer__notify. now destruct (rooms w !! r). Qed.

Lemma consts_removeRoom r w : consts (RoomServer__removeRoom r w) = consts w.
Proof.
  unfold RoomServer__removeRoom. destruct (rooms w !! r); [|reflexivity].
  destruct (negb _); [reflexivity|]. cbn zeta.
  destruct (server_syncRooms _); [|reflexivity].
  unfold consts. cbn [server set_server set_room with_rooms srv_publicUrl srv_options
                      srv_tokenSecret].
  apply (consts_notify r "roomRemoved" []
           (emit (ServerEmit (RoomRemoved r)) (Room_clearPingInterval r w))).
Qed.

Lemma consts_Room_emit r e w : consts (Room_emit r e w) = consts w.
Proof.
  unfold Room_emit. cbn zeta. destruct (rooms _ !! r) as [x|]; [|reflexivity].
  destruct e as [c|c|].
  - destruct (room_on_sync x); [|reflexivity].
    destruct (client_of c _); [now rewrite consts_notify|reflexivity].
  - destruct (room_on_sync x); [|reflexivity].
    destruct (client_of c _); [now rewrite consts_notify|reflexivity].
  - destruct (room_on_terminated x); [now rewrite consts_removeRoom|reflexivity].
Qed.

Lemma consts_Room_join r c w : consts (Room_join r c w) = consts w.
Proof.
  unfold Room_join. destruct (client_of c w); [|reflexivity].
  destruct (Room_hasClient _ _ _); [reflexivity|]. cbn zeta. now rewrite consts_Room_emit.
Qed.

Lemma consts_forEach_member visit entries r w :
  (forall c w, consts (visit c w) = consts w) ->
  consts (forEach_member entries r visit w) = consts w.
Proof.
  intros Hv. apply (forEach_member_preserves (fun w' => consts w' = consts w));
    [|reflexivity].
  intros c w' H. now rewrite Hv.
Qed.

Section ConstsListener.

Variable L : nat -> nat -> World -> World.
Hypothesis consts_L : forall c r w, consts (L c r w) = consts w.

Lemma consts_socket_emit_close c w : consts (socket_emit_close L c w) = consts w.
Proof.
  unfold socket_emit_close. destruct (socket_on_close c w); [|reflexivity].
  now rewrite consts_L.
Qed.

Lemma consts_Client_disconnect c w : consts (Client_disconnect L c w) = consts w.
Proof.
  unfold Client_disconnect. cbn zeta.
  destruct (Client__isClosing c w); [reflexivity|].
  change (consts (socket_emit_close L c (ws_close c w)) = consts w).
  now rewrite consts_socket_emit_close.
Qed.

Lemma consts_Client_terminate c w : consts (Client_terminate L c w) = consts w.
Proof.
  unfold Client_terminate. cbn zeta.
  destruct (Client__isClosing c w); [reflexivity|].
  change (consts (socket_emit_close L c (ws_terminate c w)) = consts w).
  now rewrite consts_socket_emit_close.
Qed.

Lemma consts_Client_ping l c w : consts (Client_ping L l c w) = consts w.
Proof.
  unfold Client_ping. destruct (Client__isClosing c w); [reflexivity|].
  destruct (client_of c w); [|reflexivity].
  destruct (match l with Some _ => _ | None => _ end);
    [apply consts_Client_terminate|reflexivity].
Qed.

Lemma consts_Room_leave r c w : consts (Room_leave L r c w) = consts w.
Proof.
  unfold Room_leave. destruct (client_of c w); [|reflexivity].
  destruct (Room_hasClient _ _ _); [|reflexivity]. cbn zeta.
  now rewrite consts_Client_disconnect, consts_Room_emit.
Qed.

Lemma consts_Room_terminate r w : consts (Room_terminate L r w) = consts w.
Proof.
  unfold Room_terminate, Room_forEach. cbn zeta. rewrite consts_Room_emit.
  apply consts_forEach_member. apply consts_Client_disconnect.
Qed.

Lemma consts_Room__pingClients r w : consts (Room__pingClients L r w) = consts w.
Proof.
  unfold Room__pingClients, Room_forEach. destruct (rooms w !! r); [|reflexivity].
  apply consts_forEach_member. intros c w'. apply consts_Client_ping.
Qed.

Lemma consts_disconnectClient c r w :
  consts (RoomServer__disconnectClient L c r w) = consts w.
Proof.
  unfold RoomServer__disconnectClient. cbn zeta.
  destruct (_ && _); [rewrite consts_removeRoom|];
    (transitivity (consts (Room_leave L r c w)); [reflexivity|apply consts_Room_leave]).
Qed.

End ConstsListener.

Lemma consts_close_listener n : forall c r w, consts (close_listener n c r w) = consts w.
Proof.
  induction n as [|n IH]; intros c r w; cbn [close_listener]; [reflexivity|].
  now apply consts_disconnectClient.
Qed.

Lemma consts_getRoom roomId properties w :
  consts (RoomServer__getRoom roomId properties w).2 = consts w.
Proof.
  unfold RoomServer__getRoom. destruct (JsMap.get _ _); [reflexivity|].
  unfold RoomServer__createRoom. cbn zeta. cbn [snd].
  unfold consts. cbn [server set_server set_room with_rooms srv_publicUrl srv_options
                      srv_tokenSecret].
  destruct (server_syncRooms _); [|reflexivity].
  destruct (server_syncClients _); cbn [server set_room]; apply consts_notify.
Qed.

Lemma consts_connectClient s token w :
  consts (RoomServer__connectClient s token w).1 = consts w.
Proof.
  unfold RoomServer__connectClient.
  pose proof (consts_getRoom (tk_roomId token) (tk_roomProperties token) w) as G.
  destruct (RoomServer__getRoom _ _ w) as [r w1]. cbn [snd] in G.
  destruct (Room_hasClient _ _ _); cbn [fst]; [exact G|].
  rewrite <- G.
  set (w2 := set_socket s _ w1).
  transitivity (consts (Room_join r s w2)); [reflexivity|now rewrite consts_Room_join].
Qed.

Section ConstsRun.

Variable jwt_verify : string -> string -> string -> Z -> option ITokenOptions.

Lemma consts_step w i : consts (step jwt_verify w i) = consts w.
Proof.
  destruct i as [|s data now|s|s|s|s|r|r|]; cbn [step].
  - now destruct (srv_on_connection (server w)).
  - destruct (sockets w !! s) as [k|]; [|reflexivity].
    destruct (readyState k =? OPEN); [|reflexivity].
    destruct (on_token k).
    + set (w0 := set_socket s (with_on_token false) w).
      change (consts w) with (consts w0).
      unfold RoomServer__handleClient_message.
      destruct (RoomServer__authenticate jwt_verify data now w0); [reflexivity|].
      pose proof (consts_connectClient s i w0) as C.
      destruct (RoomServer__connectClient s i w0) as [w' [msg|]]; exact C.
    + now destruct (on_client k).
  - destruct (sockets w !! s) as [k|]; [|reflexivity]. now destruct (on_client k).
  - destruct (sockets w !! s) as [k|]; [|reflexivity].
    destruct (on_client k); [|reflexivity].
    apply consts_Client_terminate. apply consts_close_listener.
  - reflexivity.
  - destruct (sockets w !! s) as [k|]; [|reflexivity].
    destruct (readyState k =? CLOSED); [reflexivity|].
    rewrite consts_socket_emit_close; [reflexivity|apply consts_close_listener].
  - destruct (rooms w !! r) as [x|]; [|reflexivity].
    destruct (room_timer x); [|reflexivity].
    apply consts_Room__pingClients. apply consts_close_listener.
  - apply consts_Room_terminate. apply consts_close_listener.
  - unfold RoomServer_stop_callback. cbn zeta.
    transitivity (consts (forEach_room (srv_rooms (server w)) RoomServer__removeRoom w));
      [reflexivity|].
    generalize (srv_rooms (server w)) at 1. intros entries. revert w.
    induction entries as [|[k r] rest IH]; intros w; cbn [forEach_room]; [reflexivity|].
    rewrite IH. destruct (JsMap.get k _) as [r'|]; [|reflexivity].
    destruct (Nat.eqb r' r); [apply consts_removeRoom|reflexivity].
Qed.

Lemma consts_run inputs : forall w, consts (run jwt_verify w inputs) = consts w.
Proof.
  induction inputs as [|i inputs IH]; intros w; cbn; [reflexivity|].
  unfold run in IH. now rewrite IH, consts_step.
Qed.

End ConstsRun.

Section TokenRoundTrip.

Variable jwt_sign : ITokenOptions -> string -> string -> string -> string.
Variable jwt_verify : string -> string -> string -> Z -> option ITokenOptions.

(** X17: a token that [Discovery.generateToken] signed, presented at any time
    of its life to a room server started with the same
    [DISCOVERY_SECRET]: provided the library verifies what it signed
    (same secret, same subject, not expired at [now]), [_authenticate]
    returns the payload when the token names this server's url, and
    throws for any other url. *)
Theorem generated_token_is_bound_to_its_server
    (env_DISCOVERY_SECRET : option string) (publicUrl : string)
    (options : option IRoomServerOptions) (inputs : list Input)
    (o : ITokenOptions) (now : Z) :
  let w := run jwt_verify (RoomServer_new publicUrl env_DISCOVERY_SECRET options) inputs in
  let token := Discovery_generateToken jwt_sign env_DISCOVERY_SECRET o in
  jwt_verify token (tokenSecret env_DISCOVERY_SECRET) "joinRoom" now
  = Some (token_payload o) ->
  RoomServer__authenticate jwt_verify token now w
  = if String.eqb (tk_publicUrl o) publicUrl
    then inr (token_payload o)
    else inl "The authentication token is intended for another room server.".
Proof.
  cbn zeta. intros Hv.
  pose proof (consts_run jwt_verify inputs
                (RoomServer_new publicUrl env_DISCOVERY_SECRET options)) as C.
  unfold consts in C. cbn in C. injection C as Hu Ho Hs.
  unfold RoomServer__authenticate. rewrite Hs, Hu, Hv. cbn [token_payload tk_publicUrl].
  now destruct (String.eqb _ _).
Qed.

End TokenRoundTrip.

(** A stand-in for [jwt.sign] that matches [demo_verify]. *)
Definition demo_sign (payload : ITokenOptions) (secret expiresIn subject : string) : string :=
  tk_roomId payload ++ "/" ++ tk_clientId payload.

Lemma generated_token_is_bound_to_its_server_witness :
  let w := run demo_verify (RoomServer_new "rs-a" None None) [Connection] in
  let token := Discovery_generateToken demo_sign None (demo_token "rs-a" "R1" "C1") in
  RoomServer__authenticate demo_verify token 0 w
  = inr (token_payload (demo_token "rs-a" "R1" "C1")).
Proof.
  exact (generated_token_is_bound_to_its_server demo_sign demo_verify None "rs-a" None
           [Connection] (demo_token "rs-a" "R1" "C1") 0 eq_refl).
Defined.

(** * C2: the token round trip

    [jwt.sign] and [jwt.verify] belong to the [jsonwebtoken] package, which
    is not part of the sources.  [Jwt] is a model of the two calls written
    from the token section of the specification and from the documentation
    of the package, not from code: a token carries the payload and the
    registered claims [sub], [iat] and [exp] (in seconds), signed with the
    shared secret; verification fails on a malformed token, on a signature
    that does not match, on an expired token and on another subject, and
    otherwise gives the payload.  What the package does with bytes is left
    open: the time span that an [expiresIn] string denotes, the signature
    algorithm, and the encoding of a token as text. *)

Module Jwt.

Record Claims := {
  payload : ITokenOptions;
  sub : string;
  iat : Z;
  exp : Z
}.

(** The clock of [Date.now()] is in milliseconds, the claims are in
    seconds. *)
Definition seconds (clock : Z) : Z := clock / 1000.

Section Package.

(** [timespan s]: the number of seconds that [s] denotes, [None] when it
    denotes no time span.  [signature secret claims]: the signature of the
    claims under the secret.  [encode] writes a token, [decode] reads one,
    [None] when the text is malformed. *)
Variable timespan : string -> option Z.
Variable signature : string -> Claims -> string.
Variable encode : Claims * string -> string.
Variable decode : string -> option (Claims * string).

(** [jwt.sign(payload, secret, {expiresIn, subject})] at the time [clock];
    [None] when the call throws. *)
Definition sign (clock : Z) (p : ITokenOptions) (secret expiresIn subject : string)
    : option string :=
  match timespan expiresIn with
  | None => None
  | Some d =>
      let claims := {| payload := p; sub := subject;
                       iat := seconds clock; exp := seconds clock + d |} in
      Some (encode (claims, signature secret claims))
  end.

(** [jwt.verify(token, secret, {subject})] at the time [clock]; [None]
    when the call throws. *)
Definition verify (token secret subject : string) (clock : Z) : option ITokenOptions :=
  match decode token with
  | None => None
  | Some (claims, s) =>
      if negb (String.eqb s (signature secret claims)) then None
      else if exp claims <=? seconds clock then None
      else if negb (String.eqb (sub claims) subject) then None
      else Some (payload claims)
  end.

End Package.

End Jwt.


(** A stand-in for the package: a token is the text [room/client], a
    time span is a minute, and the signature is the secret. *)
Definition demo_timespan (s : string) : option Z :=
  if String.eqb s "1m" then Some 60 else None.

Definition demo_signature (secret : string) (claims : Jwt.Claims) : string := secret.

Definition demo_encode (t : Jwt.Claims * string) : string :=
  tk_roomId (Jwt.payload t.1) ++ "/" ++ tk_clientId (Jwt.payload t.1).

Definition demo_decode (token : string) : option (Jwt.Claims * string) :=
  match split_at "/"%char token with
  | Some (room, client) =>
      Some ({| Jwt.payload := token_payload (demo_token "rs-a" room client);
               Jwt.sub := "joinRoom"; Jwt.iat := 0; Jwt.exp := 60 |}, "defaultSecret")
  | None => None
  end.

